(* ===== verification/_CoqProject ===== *)
-Q . S2P
Prelude.v
Strconv.v
Rfc3339.v
Database.v
Json.v
CircuitBreaker.v
LoadBalancer.v
HealthCheck.v
Float64.v
Decimal.v
Decode.v
Crypto.v
Quote.v
Url.v
Redis.v
Storage.v
FixedWindow.v
SlidingWindow.v
TokenBucket.v
Limiter.v
Config.v
Gin.v
RateLimit.v
Proxy.v
DummyBackend.v
ApiKey.v
RequestLog.v
Middleware.v
Auth.v
Analytics.v
KeyHandlers.v
System.v
Server.v
Main.v
