(* ===== verification/Prelude.v ===== *)
(** * A verification of the API gateway

    The gateway is a reverse proxy in Go.  A request passes a chain of
    middleware (recovery, request identifier, two loggers, CORS, API key, rate
    limit) and then reaches the handler of its route: a proxied service, or an
    endpoint of the gateway itself.  A proxied service has a list of targets; a
    health checker probes them, a load balancer picks one of the healthy ones,
    and a circuit breaker decides whether to forward at all.  Rate limiters and
    the cache of API keys live in Redis, which several gateways share; keys,
    users and request logs live in PostgreSQL.

    ** Conventions

    Go code is translated by hand into executable functions, one per function
    of the source and with its name where that is free.  A computation is a
    [Comp S A] of this file: it takes the state of its component and gives the
    new state with a value or a panic; a pair of a value and an optional error
    is Go's pair of results.  Clock readings and random choices are arguments,
    so that a theorem quantifies over them.  [int] and [int64] are integers with
    their wrap-around written out ([wrap64]), [float64] is the exact value in
    units of 2^-1074 with rounding written out (file [Float64]).

    Code that is not in the repository is a type class with the operations
    that the gateway calls, and a second class with their documented behaviour:
    [Redis] with [RedisLaws] (any command or answer may be lost) and
    [RedisReliable]; [Gin] with [GinLaws], and [Bind] for the decoding of a
    request body; [KeyStore], [UserStore], [LogStore] and [LogQueries] for the
    tables behind GORM, with the constraints that the models declare and the
    results that SQL prescribes; [Drivers] with [DriversLaws] for the
    connections that go-redis, GORM and [database/sql] open and close; [Bcrypt]
    and [Jwt]; [UuidParse]; [Rand]; [Backend] for what is behind the proxy.  The
    HTTP client of the health checker, the matching of a request to one of the
    routes and the order in which Go visits a map are plain arguments.

    The standard library is modelled as far as the gateway uses it:
    [encoding/json] in both directions, [strconv] with float64, RFC 3339 times,
    SHA-256, base64, [url.Parse].  What depends on the machine or on large
    tables is a class: the time zone ([LocalZone]), the printable characters
    above Latin-1 ([Unicode]), the IP literals in a URL ([IpLiteral]).  Every
    class has an instance, which the witnesses compute with.

    Concurrency is explicit: what the source does under one lock, or by one
    command to Redis, is one step, and theorems quantify over sequences of such
    steps, or over the reachable states of a step relation.

    ** Files

    - [Prelude]: machine integers, time, computations with panics, lemmas on
      lists, tactics, the hint database [gateway].
    - [Strconv]: decimal numbers as text and their round trips; white space
      and splitting.
    - [Rfc3339]: the calendar, and times as RFC 3339 text in both directions, in
      any zone.
    - [Database]: errors of GORM, queries, and the texts, identifiers and times
      that a column holds.
    - [Json]: JSON texts: the parser of [encoding/json], its compact printer, and
      the escapes of strings.  [Decimal]: float64 as the shortest decimal text and
      back.  [Decode]: Go values from JSON, by the names of their fields.
    - [Crypto]: SHA-256, hexadecimal and base64.  [Quote]: [strconv.Quote].
      [Url]: [url.Parse].
    - [CircuitBreaker]: [src/internal/circuitbreaker].  A call is two critical
      sections, [begin_call] and [end_call], around the forwarded request; runs
      interleave the sections of any number of calls.
    - [LoadBalancer]: [src/internal/loadbalancer], the three strategies, their
      interface (class [Balancer]) and factory.
    - [HealthCheck]: [src/internal/healthcheck].  The goroutines of a checker are
      the step relation [life]: the sections of [Start] and [Stop], the ticks, the
      recording of one probe and the update of the healthy list are its steps.
    - [Float64]: the float64 operations that the limiters and the analytics use,
      with bounds on their rounding.
    - [Redis]: the commands of [src/internal/storage/redis.go] and what the
      server does for each of them, expiry included.
    - [Storage]: [src/internal/storage/postgres.go], and the opening and closing
      of the client in [src/internal/storage/redis.go]; the tables of
      [src/internal/models].
    - [FixedWindow], [SlidingWindow], [TokenBucket], [Limiter]:
      [src/internal/ratelimit], the three limiters, and their interface and
      factory.
    - [Config]: [src/internal/config/config.go], with the file [src/config.json].
    - [Gin]: the context of a request, JSON values, and handlers as
      computations; the key of [src/internal/models/api_key.go].
    - [RateLimit]: [src/internal/middleware/ratelimit.go].
    - [Proxy]: [src/internal/proxy/proxy.go], built on the breaker, the balancer
      and the checker.  [Handle] is the handler of one request; [advance] takes it
      one locked section or backend call at a time, and [run_steps_Handle] shows
      that its steps without interruption are [Handle].
    - [DummyBackend]: [src/test/dummy-backend.go], behind [Proxy] and under the
      probes of [HealthCheck]; [happen] interleaves the handlers of any number of
      requests with probes and updates of the checker.
    - [ApiKey]: [src/internal/service/apikey.go] and
      [src/internal/repository/apikey.go].
    - [RequestLog]: the channel and the worker of
      [src/internal/middleware/requestlogger.go].
    - [Middleware]: the other handlers of [src/internal/middleware] that every
      request passes, and the chain of [src/internal/server/server.go].
    - [Auth]: users, tokens and the guard of the administration:
      [src/internal/service/authService.go] with its repository and handlers,
      and [src/internal/middleware/authMiddleware.go].
    - [Analytics]: [src/internal/service/analytics.go],
      [src/internal/repository/requestLogRepository.go] and
      [src/internal/handler/analytics.go].
    - [KeyHandlers]: [src/internal/handler/apikey.go], on [ApiKey].
    - [System]: [src/internal/handler/systemHandler.go], on [Proxy].
    - [Server]: the rest of [src/internal/server/server.go]: [initializeProxies]
      creates the proxies, [setupRoutes] is the table of routes,
      [ServeRequest] sends a request through the chain to its handler, and
      [Run] and [Shutdown] are the life of the server.
    - [Main]: [src/cmd/gateway/main.go].  [start] is the start-up, from the
      configuration file to the server, with the stack of the calls it defers; the
      goroutine of the server, the requests, the signal and the main goroutine,
      which stops one checker, or makes one deferred call, at a time, are the step
      relation [step].

    ** What is proved

    - Limits.  The fixed window never admits more than its limit in a window,
      in any interleaving of gateways and with any lost commands; the sliding
      window and the token bucket obey their limits for calls that do not
      overlap, up to proved bounds on rounding, and a bucket recovers.  End to
      end, of a client's or a key's requests in a minute exactly the first
      [limit] pass the middleware, the others get status 429.
    - Forwarding.  A request reaches at most one backend, a healthy target that
      the strategy chose, and only when the breaker lets it; counters of
      connections balance even when forwarding panics; without a target or
      with an open breaker the answer is 503.
    - Breaker and checker.  The breaker refines a state machine with one counter
      or instant per state; it opens, blocks and recovers as configured.  A
      target is unhealthy exactly when its last [maxFailures] probes failed, and
      the invariant of the checker holds between any two of its critical sections.
    - Outages.  With the repository's own test server behind the gateway, and
      handlers that interleave: when all backends of a service fail, they see at
      most the failures that the breaker still takes plus the requests that are
      handled at the same time less one, until the timeout, and clients get 503
      from the gateway; after the timeout, one round of probes brings a service that
      has recovered back, every request gets 200, and the breaker closes; the
      health checker follows the mode of the backend, round by round.
    - Texts.  Parsing what the JSON printer wrote gives it back, and so do the
      escapes of strings, the decimal texts of float64, the times, and with them
      the bucket and the key as they are stored in Redis; SHA-256 agrees with
      the published examples; different random bytes give different keys.
    - Keys.  Validation through the cache agrees with the database after any
      sequence of operations; the middleware lets exactly valid keys pass.
      Through the handlers, a created key passes the middleware and a revoked
      one is refused at once, when operations do not overlap.
    - Log and chain.  The request log loses, duplicates and reorders nothing
      that it accepted; the chain never panics, and a panic inside it is answered
      with 500 unless something was written before; preflight requests and invalid
      keys stop where they should.
    - Accounts.  Who registers can log in with that password and, as far as bcrypt
      can tell passwords apart, with no other, and the
      token opens the administration until it expires; a token is accepted
      exactly when it verifies under the secret by an HMAC method and is
      current.  No request without such a token, nor the goroutine it leaves
      behind, changes more of the table of keys than the times of last use,
      whatever its route, and the routes of the administration answer it 401.
    - Analytics.  Rates are percentages despite rounding; the counts and rates that
      the service computes in a loop for one key agree with those that the database
      computes; the time series and the pages of the log are complete; clean-up
      deletes exactly what is old; and what the logger accepted is counted.
    - Server and process.  Every usable service has a ready proxy after
      start-up, whatever the other services are; with the configuration file of
      the repository and servers that answer, the gateway comes up with its two
      services; shutting down ends, and stops
      every checker; a process that exits with status 0 has stopped its checkers,
      closed its connections and, when it was listening before the signal,
      answered its requests.
    - Flaws, as theorems about the code as it is: limiters that read and write
      in separate commands are overrun by concurrent calls; the remaining
      requests of a fixed window are always reported as the whole limit; a slow
      tier of the token bucket is not held to its limit; the round robin counter
      overflows into a panic; stopping a restarted checker panics; a half-open
      breaker admits any number of calls; a deleted key can be cached again; the
      route for one's own account refuses everybody; changes to unknown keys are
      reported as done; a graceful shutdown can end the process at once, and a
      signal that comes before the server listens can end it with requests
      unanswered; a request that panics is not logged; the
      timeouts of the health checks in [src/config.json] are not read; the data
      source name is ambiguous.

    ** Bounds and fuel

    Recursion is structural everywhere except in [trim_left] of [Strconv],
    whose fuel is the length of the text; in [month_of] of [Rfc3339], which
    has eleven months to go; in [parse] of [Json], whose fuel is twice the
    length of the text and one; in [shortest] of [Decimal], which tries 17
    digits; and in [root] of [Crypto], which finds forty bits.
    [trim_left_done], [month_of_spec], [parse_fuel], [shortest_found] and
    [root_enough] show that these are enough.  [drain] of [RequestLog] takes the number of entries in
    the channel, and [drain_empty] shows that this empties it; [read_pages] of
    [Analytics] takes a number of pages, and its theorem says how many are
    enough.  A handler takes at most seven steps ([run_steps_Handle], [run_left]).
    Instants in the database are those of the years 1 to 9999, and
    identifiers and texts those that a column accepts.  Time stamps are bounded by
    [max_int64] nanoseconds where the source counts in [int64], windows by the
    seconds that a [time.Duration] can hold.

    ** What is not modelled

    - The constructors that only store their arguments in a struct: the
      theorems speak about the operations on these arguments.
    - What is printed to the log, except by the middleware; the listening of the
      test server; the scripts in [src/test] that drive it, and the other files
      that are not Go.
    - The SQL behind the tables, the HTTP behind the proxy and the matching of
      routes, which are not in the repository; the texts of the errors that
      [encoding/json] reports, and with them the error of [Load] for a malformed
      file, which is an argument.

    Every function of the Go sources that computes or changes something is
    modelled. *)

From stdpp Require Export base tactics numbers list strings pretty gmap.
From Stdlib Require Export ZArith Lia.
#[export] Set Default Goal Selector "!".

Open Scope Z_scope.

(** ** Machine integers

    Go's [int] and [int64] are 64-bit two's complement; arithmetic wraps. *)

Definition min_int64 : Z := -9223372036854775808.
Definition max_int64 : Z := 9223372036854775807.

Definition in_int64 (z : Z) : Prop := min_int64 <= z <= max_int64.

(** The value an integer expression has after wrap-around. *)
Definition wrap64 (z : Z) : Z :=
  (z + 9223372036854775808) mod 18446744073709551616 - 9223372036854775808.

Lemma wrap64_in (z : Z) : in_int64 (wrap64 z).
Proof.
  unfold in_int64, wrap64, min_int64, max_int64.
  pose proof (Z.mod_pos_bound (z + 9223372036854775808) 18446744073709551616).
  lia.
Qed.

Lemma wrap64_id (z : Z) : in_int64 z → wrap64 z = z.
Proof.
  unfold in_int64, wrap64, min_int64, max_int64. intros.
  rewrite Z.mod_small; lia.
Qed.

Lemma wrap64_add_l (a b : Z) : wrap64 (wrap64 a + b) = wrap64 (a + b).
Proof.
  unfold wrap64. f_equal. rewrite <- Z.add_assoc, (Z.add_comm b), Z.add_assoc, Z.sub_add.
  rewrite Zplus_mod_idemp_l. f_equal. lia.
Qed.

(** The one value at which [x++] does not give the successor. *)
Lemma wrap64_succ (z : Z) :
  in_int64 z → wrap64 (z + 1) = if decide (z = max_int64) then min_int64 else z + 1.
Proof.
  intros Hz. case_decide as Hm; [subst; reflexivity|].
  apply wrap64_id. unfold in_int64, max_int64 in *. lia.
Qed.

(** ** Clock readings and durations

    A [time.Time] is the instant in nanoseconds since the Unix epoch, on one
    time line; a [time.Duration] is an [int64] count of nanoseconds. *)

Abbreviation time := Z (only parsing).
Abbreviation duration := Z (only parsing).

Definition nanosecond : duration := 1.
Definition millisecond : duration := 1000000.
Definition second : duration := 1000000000.
Definition minute : duration := 60000000000.
Definition hour : duration := 3600000000000.

(** [time.Time{}], January 1 of year 1, 00:00:00 UTC. *)
Definition zero_time : time := -62135596800 * second.

(** [t.Sub(u)]: the difference, saturated at the ends of the [Duration] range. *)
Definition time_sub (t u : time) : duration := Z.max min_int64 (Z.min max_int64 (t - u)).

(** [t.Unix()]: whole seconds since the epoch. *)
Definition unix (t : time) : Z := t / second.

(** [t.UnixNano()], an [int64]. *)
Definition unix_nano (t : time) : Z := wrap64 t.

Lemma time_sub_le (t u d : Z) :
  min_int64 <= d < max_int64 → time_sub t u <= d ↔ t - u <= d.
Proof. unfold time_sub, min_int64, max_int64. lia. Qed.

Lemma time_sub_exact (t u : Z) : in_int64 (t - u) → time_sub t u = t - u.
Proof. unfold time_sub, in_int64. lia. Qed.

(** ** Results of Go code

    A computation returns a value or panics.  A function that returns
    [(T, error)] returns a pair, with [None] for a nil error.  Effects on a
    state made before a panic stay, so [Comp] threads the state through it. *)

Inductive go (A : Type) : Type :=
  | Ret (a : A)
  | Panic (msg : string).
Arguments Ret {A} a.
Arguments Panic {A} msg.

#[export] Instance go_eq_dec {A} `{EqDecision A} : EqDecision (go A).
Proof. solve_decision. Defined.

Definition Comp (S A : Type) : Type := S → S * go A.

#[export] Instance comp_ret {S} : MRet (Comp S) := λ A a s, (s, Ret a).
#[export] Instance comp_bind {S} : MBind (Comp S) := λ A B k m s,
  match m s with
  | (s', Ret a) => k a s'
  | (s', Panic msg) => (s', Panic msg)
  end.

Definition panic {S A} (msg : string) : Comp S A := λ s, (s, Panic msg).
Definition get_state {S} : Comp S S := λ s, (s, Ret s).
Definition put_state {S} (s : S) : Comp S unit := λ _, (s, Ret tt).

(** [defer f()]: [f] runs whether the body returns or panics. *)
Definition with_defer {S A} (m : Comp S A) (f : S → S) : Comp S A := λ s,
  let '(s', r) := m s in (f s', r).

(** [defer func() { if err := recover(); err != nil { h } }()]. *)
Definition with_recover {S} (m : Comp S unit) (h : string → Comp S unit) : Comp S unit := λ s,
  match m s with
  | (s', Ret a) => (s', Ret a)
  | (s', Panic msg) => h msg s'
  end.

(** [a / b] on [int64]: truncated, and a run-time panic on zero. *)
Definition int_div {S} (a b : Z) : Comp S Z :=
  if b =? 0 then panic "runtime error: integer divide by zero"
  else mret (wrap64 (Z.quot a b)).

(** [l[i]] on a slice: a run-time panic when the index is out of range. *)
Definition slice_index {S A} (l : list A) (i : Z) : Comp S A :=
  if decide (0 <= i) then
    match l !! Z.to_nat i with
    | Some a => mret a
    | None => panic "runtime error: index out of range"
    end
  else panic "runtime error: index out of range".

Lemma slice_index_Some {S A} (l : list A) (i : Z) (a : A) (s : S) :
  0 <= i → l !! Z.to_nat i = Some a → slice_index l i s = (s, Ret a).
Proof. intros Hi Ha. unfold slice_index. rewrite decide_True, Ha by lia. done. Qed.

Section comp_laws.
Context {S A B C : Type}.
Implicit Types (m : Comp S A) (s : S).

Lemma comp_bind_ret (a : A) (k : A → Comp S B) s : (mret a ≫= k) s = k a s.
Proof. reflexivity. Qed.

Lemma comp_bind_step m (k : A → Comp S B) s s' a :
  m s = (s', Ret a) → (m ≫= k) s = k a s'.
Proof. intros H. unfold mbind, comp_bind. by rewrite H. Qed.

Lemma comp_bind_panic m (k : A → Comp S B) s s' msg :
  m s = (s', Panic msg) → (m ≫= k) s = (s', Panic msg).
Proof. intros H. unfold mbind, comp_bind. by rewrite H. Qed.

Lemma comp_bind_assoc m (k : A → Comp S B) (l : B → Comp S C) s :
  ((m ≫= k) ≫= l) s = (m ≫= λ a, k a ≫= l) s.
Proof. unfold mbind, comp_bind. by destruct (m s) as [s' []]. Qed.

(** A bind that returns did return from its first part. *)
Lemma comp_bind_inv m (k : A → Comp S B) s s' b :
  (m ≫= k) s = (s', Ret b) → ∃ s1 a, m s = (s1, Ret a) ∧ k a s1 = (s', Ret b).
Proof. unfold mbind, comp_bind. destruct (m s) as [s1 []]; naive_solver. Qed.
End comp_laws.

(** What a computation leaves true, whether it returns or panics. *)
Definition preserves {S A} (P : S → Prop) (m : Comp S A) : Prop := ∀ s, P s → P (m s).1.

Section preserves.
Context {S A B : Type} (P : S → Prop).

Lemma preserves_ret (a : A) : preserves P (mret a).
Proof. by intros s Hs. Qed.

Lemma preserves_panic (msg : string) : preserves P (panic (A := A) msg).
Proof. by intros s Hs. Qed.

Lemma preserves_bind (m : Comp S A) (k : A → Comp S B) :
  preserves P m → (∀ a, preserves P (k a)) → preserves P (m ≫= k).
Proof.
  intros Hm Hk s Hs. specialize (Hm s Hs). unfold mbind, comp_bind.
  destruct (m s) as [s' [a|msg]]; [by apply Hk|done].
Qed.
End preserves.

(** From a state where [P] holds, [m] leads to one where [Q] holds. *)
Definition leads {S A} (P Q : S → Prop) (m : Comp S A) : Prop := ∀ s, P s → Q (m s).1.

Section leads.
Context {S A B : Type} (P Q : S → Prop).

Lemma leads_weaken (m : Comp S A) : (∀ s, P s → Q s) → preserves P m → leads P Q m.
Proof. intros HPQ Hm s HP. by apply HPQ, Hm. Qed.

Lemma leads_bind (m : Comp S A) (k : A → Comp S B) :
  (∀ s, P s → Q s) → preserves P m → (∀ a, leads P Q (k a)) → leads P Q (m ≫= k).
Proof.
  intros HPQ Hm Hk s HP. specialize (Hm s HP). unfold mbind, comp_bind.
  destruct (m s) as [s' [a|msg]]; [by apply Hk|by apply HPQ].
Qed.

Lemma leads_then (m : Comp S A) (k : A → Comp S B) :
  leads P Q m → (∀ a, preserves Q (k a)) → leads P Q (m ≫= k).
Proof.
  intros Hm Hk s HP. specialize (Hm s HP). unfold mbind, comp_bind.
  destruct (m s) as [s' [a|msg]]; [by apply Hk|done].
Qed.
End leads.

Lemma leads_recover {S} (P Q : S → Prop) (m : Comp S unit) (h : string → Comp S unit) :
  leads P Q m → (∀ msg, preserves Q (h msg)) → leads P Q (with_recover m h).
Proof.
  intros Hm Hh s HP. specialize (Hm s HP). unfold with_recover.
  destruct (m s) as [s' [a|msg]]; [done|by apply Hh].
Qed.

Lemma preserves_int_div {S} (P : S → Prop) (a b : Z) : preserves P (int_div a b).
Proof. unfold int_div. destruct (b =? 0); [apply preserves_panic|apply preserves_ret]. Qed.

(** The results of running a computation [n] times. *)
Fixpoint repeat_comp {S A} (n : nat) (m : Comp S A) : Comp S (list A) :=
  match n with
  | O => mret []
  | Datatypes.S n => a ← m; l ← repeat_comp n m; mret (a :: l)
  end.

(** Two integers that are congruent and closer than the modulus are equal. *)
Lemma eq_of_mod_near (n c d : Z) :
  0 < n → c mod n = d mod n → Z.abs (c - d) < n → c = d.
Proof.
  intros Hn Hm Hlt.
  pose proof (Z.div_mod c n ltac:(lia)). pose proof (Z.div_mod d n ltac:(lia)).
  assert (c / n = d / n) by nia. congruence.
Qed.

(** How often a value occurs in a list. *)
Definition occurrences {A} `{EqDecision A} (x : A) (l : list A) : nat :=
  length (filter (λ y, y = x) l).

Lemma occurrences_app {A} `{EqDecision A} (x : A) (l k : list A) :
  occurrences x (l ++ k) = (occurrences x l + occurrences x k)%nat.
Proof. unfold occurrences. by rewrite filter_app, length_app. Qed.

Lemma occurrences_perm {A} `{EqDecision A} (x : A) (l k : list A) :
  l ≡ₚ k → occurrences x l = occurrences x k.
Proof. unfold occurrences. by intros ->. Qed.

Lemma occurrences_NoDup {A} `{EqDecision A} (x : A) (l : list A) :
  NoDup l → occurrences x l = if decide (x ∈ l) then 1%nat else 0%nat.
Proof.
  unfold occurrences. induction 1 as [|y l Hy Hl IH]; [done|]. rewrite filter_cons.
  destruct (decide (y = x)) as [->|Hne]; simpl; rewrite IH.
  - by rewrite (decide_False (P := x ∈ l)), decide_True by set_solver.
  - apply decide_ext. set_solver.
Qed.

(** A filter that keeps everything, and one that keeps nothing. *)
Lemma filter_keeps_all {A} (P : A → Prop) `{!∀ x, Decision (P x)} (l : list A) :
  (length l <= length (filter P l))%nat ↔ ∀ x, x ∈ l → P x.
Proof.
  induction l as [|x l IH]; simpl; [set_solver|]. rewrite filter_cons.
  pose proof (length_filter P l). case_decide as HP; simpl.
  - rewrite <- Nat.succ_le_mono, IH. set_solver.
  - split; [lia|]. intros Hall. exfalso. apply HP. set_solver.
Qed.

Lemma filter_keeps_none {A} (P : A → Prop) `{!∀ x, Decision (P x)} (l : list A) :
  length (filter P l) = 0%nat ↔ ∀ x, x ∈ l → ¬ P x.
Proof.
  induction l as [|x l IH]; simpl; [set_solver|]. rewrite filter_cons.
  case_decide as HP; simpl; [|rewrite IH; set_solver].
  split; [lia|]. intros Hall. exfalso. apply (Hall x); [set_solver|done].
Qed.

(** ** Automation

    [case_bool] splits on the first Boolean comparison of integers in the
    goal; [bool_to_prop] turns the comparisons among the hypotheses into
    propositions for [lia]. *)

Ltac bool_to_prop :=
  repeat match goal with
  | H : (_ <? _) = true |- _ => apply Z.ltb_lt in H
  | H : (_ <? _) = false |- _ => apply Z.ltb_ge in H
  | H : (_ <=? _) = true |- _ => apply Z.leb_le in H
  | H : (_ <=? _) = false |- _ => apply Z.leb_gt in H
  | H : (_ =? _) = true |- _ => apply Z.eqb_eq in H
  | H : (_ =? _) = false |- _ => apply Z.eqb_neq in H
  | H : (_ >? _) = _ |- _ => rewrite Z.gtb_ltb in H
  | H : (_ >=? _) = _ |- _ => rewrite Z.geb_leb in H
  | H : (_ && _) = true |- _ => apply andb_true_iff in H as [? ?]
  | H : negb _ = true |- _ => apply negb_true_iff in H
  | H : negb _ = false |- _ => apply negb_false_iff in H
  end.

Ltac case_bool :=
  match goal with
  | |- context [if ?b then _ else _] => destruct b eqn:?
  | H : context [if ?b then _ else _] |- _ => destruct b eqn:?
  end; bool_to_prop.

(** Integer side conditions: expose the constants of the machine range. *)
Ltac int_solve :=
  unfold in_int64, min_int64, max_int64 in *; lia.

(** Expose the state passing of a computation. *)
Ltac comp_unfold :=
  unfold mbind, comp_bind, mret, comp_ret, get_state, put_state, panic in *; simpl in *.

(** [preserves P m] for a computation made of others, those of the database
    [gateway] included. *)
Ltac solve_preserves :=
  repeat (intros; match goal with
  | |- preserves _ (mret _) => apply preserves_ret
  | |- preserves _ (panic _) => apply preserves_panic
  | |- preserves _ (_ ≫= _) => apply preserves_bind
  | |- preserves _ (match ?x with _ => _ end) => destruct x
  | |- preserves _ (let _ := _ in _) => cbv zeta
  | |- preserves _ _ => solve [eauto with gateway]
  end).

Create HintDb gateway.
#[export] Hint Resolve preserves_int_div : gateway.
#[export] Hint Resolve wrap64_in : gateway.
Create Rewrite HintDb gateway.
#[export] Hint Rewrite @comp_bind_ret : gateway.
