(* ===== verification/Strconv.v ===== *)
(** * Decimal integers as text

    The part of Go's [fmt], [strconv] and [strings] that the gateway uses: [%d]
    prints an integer in decimal ([pretty]), [strconv.Atoi] and
    [strconv.ParseInt] of base 10 read one, [fmt.Sscanf] with the verb [%d]
    reads a prefix, and [strings.TrimSpace] cuts white space off both ends. *)

From S2P Require Import Prelude.
From Stdlib Require Import Ascii.

Definition digit_val (c : ascii) : option Z :=
  let n := Z.of_nat (nat_of_ascii c) in
  if (48 <=? n) && (n <=? 57) then Some (n - 48) else None.

(** The value of a string of digits, after the digits read so far. *)
Fixpoint parse_digits (acc : Z) (s : string) : option Z :=
  match s with
  | EmptyString => Some acc
  | String c s => match digit_val c with
                  | Some d => parse_digits (acc * 10 + d) s
                  | None => None
                  end
  end.

Definition parse_uint (s : string) : option Z :=
  match s with EmptyString => None | _ => parse_digits 0 s end.

(** An optional sign and at least one digit. *)
Definition parse_int (s : string) : option Z :=
  match s with
  | String "-" s => Z.opp <$> parse_uint s
  | String "+" s => parse_uint s
  | _ => parse_uint s
  end.

(** [strconv.Atoi], and [strconv.ParseInt(s, 10, 64)]: the value and whether
    the error is nil.  The value of a syntax error is zero, that of a range
    error the end of the range. *)
Definition Atoi (s : string) : Z * bool :=
  match parse_int s with
  | None => (0, false)
  | Some n => if n <? min_int64 then (min_int64, false)
              else if max_int64 <? n then (max_int64, false)
              else (n, true)
  end.

(** [fmt.Sscanf(s, "%d", &n)] with [n] zero before: blanks are skipped, then
    the longest number is read; on any error [n] stays zero. *)
Definition is_blank (c : ascii) : bool :=
  existsb (Ascii.eqb c) [" "%char; "009"%char; "011"%char; "012"%char; "013"%char].

Fixpoint skip_blanks (s : string) : string :=
  match s with
  | String c s' => if is_blank c then skip_blanks s' else s
  | EmptyString => EmptyString
  end.

Fixpoint digit_prefix (s : string) : string :=
  match s with
  | String c s => match digit_val c with
                  | Some _ => String c (digit_prefix s)
                  | None => EmptyString
                  end
  | EmptyString => EmptyString
  end.

Definition number_prefix (s : string) : string :=
  match s with
  | String "-" s => String "-" (digit_prefix s)
  | String "+" s => String "+" (digit_prefix s)
  | _ => digit_prefix s
  end.

Definition Sscanf_d (s : string) : Z :=
  let '(n, ok) := Atoi (number_prefix (skip_blanks s)) in if ok then n else 0.

(** ** White space

    The UTF-8 encodings of the characters that [unicode.IsSpace] accepts. *)
Definition spaces : list (list N) :=
  [[9]; [10]; [11]; [12]; [13]; [32]; [0xC2; 0x85]; [0xC2; 0xA0]; [0xE1; 0x9A; 0x80];
   [0xE2; 0x80; 0x80]; [0xE2; 0x80; 0x81]; [0xE2; 0x80; 0x82]; [0xE2; 0x80; 0x83]; [0xE2; 0x80; 0x84];
   [0xE2; 0x80; 0x85]; [0xE2; 0x80; 0x86]; [0xE2; 0x80; 0x87]; [0xE2; 0x80; 0x88]; [0xE2; 0x80; 0x89];
   [0xE2; 0x80; 0x8A]; [0xE2; 0x80; 0xA8]; [0xE2; 0x80; 0xA9]; [0xE2; 0x80; 0xAF]; [0xE2; 0x81; 0x9F];
   [0xE3; 0x80; 0x80]]%N.

(** The text without a prefix. *)
Fixpoint strip_prefix (p s : list N) : option (list N) :=
  match p, s with
  | [], _ => Some s
  | a :: p, b :: s => if (a =? b)%N then strip_prefix p s else None
  | _ :: _, [] => None
  end.

Fixpoint strip_one (ps : list (list N)) (s : list N) : option (list N) :=
  match ps with
  | [] => None
  | p :: ps => match strip_prefix p s with Some s' => Some s' | None => strip_one ps s end
  end.

(** Each round removes at least one byte, so the length is enough fuel. *)
Fixpoint trim_left (fuel : nat) (ps : list (list N)) (s : list N) : list N :=
  match fuel with
  | O => s
  | S fuel => match strip_one ps s with Some s' => trim_left fuel ps s' | None => s end
  end.

Definition bytes_of (s : string) : list N := N_of_ascii <$> String.list_ascii_of_string s.
Definition string_of_bytes (l : list N) : string := String.string_of_list_ascii (ascii_of_N <$> l).

(** [strings.TrimSpace]: the end is trimmed as the beginning of the reverse. *)
Definition TrimSpace (s : string) : string :=
  let l := bytes_of s in
  let l := trim_left (length l) spaces l in
  string_of_bytes (reverse (trim_left (length l) (reverse <$> spaces) (reverse l))).

(** After trimming, the text does not begin with any of the prefixes. *)
Lemma strip_prefix_length (p s s' : list N) :
  strip_prefix p s = Some s' → length s = (length p + length s')%nat.
Proof.
  revert s. induction p as [|a p IH]; intros [|b s] Hs; simpl in *; simplify_eq; [done..|].
  destruct (a =? b)%N; [|done]. apply IH in Hs. lia.
Qed.

Lemma strip_one_shorter (ps : list (list N)) (s s' : list N) :
  Forall (λ p, p ≠ []) ps → strip_one ps s = Some s' → (length s' < length s)%nat.
Proof.
  induction 1 as [|p ps Hp Hps IH]; simpl; [done|]. destruct (strip_prefix p s) as [t|] eqn:Hs; [|done].
  intros [= <-]. apply strip_prefix_length in Hs. destruct p; [done|]. simpl in Hs. lia.
Qed.

Lemma trim_left_done (fuel : nat) (ps : list (list N)) (s : list N) :
  Forall (λ p, p ≠ []) ps → (length s <= fuel)%nat → strip_one ps (trim_left fuel ps s) = None.
Proof.
  intros Hps. revert s. induction fuel as [|fuel IH]; intros s Hlen; simpl.
  - destruct s; [|simpl in Hlen; lia]. induction Hps as [|[|a p] ps Hp _ IHp]; simpl; [done..|]. done.
  - destruct (strip_one ps s) as [s'|] eqn:Hs; [|done]. apply IH.
    pose proof (strip_one_shorter ps s s' Hps Hs). lia.
Qed.

(** ** Splitting

    [strings.Split(s, sep)] for a separator of one character. *)
Fixpoint Split (sep : ascii) (s : string) : list string :=
  match s with
  | EmptyString => [EmptyString]
  | String a s =>
      if Ascii.eqb a sep then EmptyString :: Split sep s
      else match Split sep s with
           | [] => [String a EmptyString]
           | w :: ws => String a w :: ws
           end
  end.

(** The character is not in the text. *)
Fixpoint not_in (sep : ascii) (s : string) : Prop :=
  match s with
  | EmptyString => True
  | String a s => a ≠ sep ∧ not_in sep s
  end.

Lemma Split_not_in (sep : ascii) (s : string) : not_in sep s → Split sep s = [s].
Proof.
  induction s as [|a s IH]; [done|]. intros [Ha Hs]. simpl. rewrite (IH Hs).
  by destruct (Ascii.eqb_spec a sep).
Qed.

Lemma Split_app (sep : ascii) (s t : string) :
  not_in sep s → Split sep (s +:+ String sep t) = s :: Split sep t.
Proof.
  induction s as [|a s IH]; simpl.
  - by rewrite Ascii.eqb_refl.
  - intros [Ha Hs]. destruct (Ascii.eqb_spec a sep); [done|]. by rewrite (IH Hs).
Qed.

(** The parts, joined by the separator, are the text. *)
Lemma Split_two (sep : ascii) (s a b : string) : Split sep s = [a; b] → s = a +:+ String sep b.
Proof.
  assert (∀ s w, Split sep s = [w] → s = w) as Hone.
  { clear. induction s as [|x s IH]; intros w; simpl; [by intros [=]|].
    destruct (Ascii.eqb x sep); [by destruct s; simpl; [|destruct (Ascii.eqb _ _), (Split sep s)]|].
    destruct (Split sep s) as [|v [|]] eqn:E; intros [=]; subst; [by destruct s; simpl in E; [|destruct (Ascii.eqb _ _), (Split sep s)]|].
    by rewrite (IH v). }
  revert a. induction s as [|x s IH]; intros a; simpl; [done|].
  destruct (Ascii.eqb_spec x sep) as [->|Hx].
  - intros [= <- Hs]. by apply Hone in Hs as ->.
  - destruct (Split sep s) as [|w ws] eqn:E; intros [=]; subst.
    by rewrite (IH w eq_refl).
Qed.

(** ** What is printed is read back *)

Lemma digit_val_pretty (x : N) : (x < 10)%N → digit_val (pretty_N_char x) = Some (Z.of_N x).
Proof.
  intros Hx. assert (x = 0 ∨ x = 1 ∨ x = 2 ∨ x = 3 ∨ x = 4 ∨ x = 5 ∨ x = 6 ∨ x = 7 ∨ x = 8 ∨ x = 9)%N
    as Hc by lia. by repeat destruct Hc as [->|Hc]; [..|rewrite Hc].
Qed.

Lemma parse_digits_go (x : N) (s : string) :
  parse_digits 0 (pretty_N_go x s) = parse_digits (Z.of_N x) s.
Proof.
  revert s. induction (N.lt_wf_0 x) as [x _ IH]; intros s.
  assert (x = 0 ∨ 0 < x)%N as [->|Hx] by lia; [by rewrite pretty_N_go_0|].
  rewrite pretty_N_go_step, IH by (done || by apply N.div_lt). simpl.
  rewrite digit_val_pretty by by apply N.mod_lt. f_equal.
  rewrite N2Z.inj_div, N2Z.inj_mod. pose proof (Z.div_mod (Z.of_N x) 10). lia.
Qed.

(** All characters are digits. *)
Fixpoint all_digits (s : string) : Prop :=
  match s with
  | String c s => is_Some (digit_val c) ∧ all_digits s
  | EmptyString => True
  end.

Lemma all_digits_not_in (s : string) : all_digits s → not_in " " s.
Proof.
  induction s as [|c s IH]; [done|]. intros [[d Hd] Hs]. split; [|by apply IH]. by intros ->.
Qed.

Lemma all_digits_go (x : N) (s : string) : all_digits s → all_digits (pretty_N_go x s).
Proof.
  revert s. induction (N.lt_wf_0 x) as [x _ IH]; intros s Hs.
  assert (x = 0 ∨ 0 < x)%N as [->|Hx] by lia; [by rewrite pretty_N_go_0|].
  rewrite pretty_N_go_step by done. apply IH; [by apply N.div_lt|].
  simpl. rewrite digit_val_pretty by by apply N.mod_lt. done.
Qed.

Lemma all_digits_pretty (x : N) : all_digits (pretty x).
Proof. unfold pretty, pretty_N. case_decide; [by split|]. by apply all_digits_go. Qed.

Lemma pretty_N_nonempty (x : N) : pretty x ≠ "".
Proof.
  intros H. unfold pretty, pretty_N in H. case_decide; [done|].
  rewrite pretty_N_go_step in H by lia.
  assert (∀ y c s, pretty_N_go y (String c s) ≠ "") as Hn.
  { intros y. induction (N.lt_wf_0 y) as [y _ IH]; intros c s.
    assert (y = 0 ∨ 0 < y)%N as [->|Hy] by lia; [by rewrite pretty_N_go_0|].
    rewrite pretty_N_go_step by done. apply IH. by apply N.div_lt. }
  by eapply Hn.
Qed.

Lemma parse_uint_pretty (x : N) : parse_uint (pretty x) = Some (Z.of_N x).
Proof.
  pose proof (pretty_N_nonempty x) as Hne. unfold parse_uint.
  assert (parse_digits 0 (pretty x) = Some (Z.of_N x)) as H; [|by destruct (pretty x)].
  unfold pretty, pretty_N. case_decide; [by subst|]. by rewrite parse_digits_go.
Qed.

(** A string of digits does not begin with a sign. *)
Lemma parse_int_digits (s : string) : all_digits s → parse_int s = parse_uint s.
Proof.
  destruct s as [|[[] [] [] [] [] [] [] []] s]; simpl; try done; intros [[d Hd] _]; discriminate Hd.
Qed.

Lemma parse_int_pretty (z : Z) : parse_int (pretty z) = Some z.
Proof.
  destruct z as [|p|p].
  - done.
  - change (pretty (Z.pos p)) with (pretty (N.pos p)).
    rewrite parse_int_digits by apply all_digits_pretty. by rewrite parse_uint_pretty.
  - change (pretty (Z.neg p)) with (String "-" (pretty (N.pos p))). simpl.
    by rewrite parse_uint_pretty.
Qed.

(** [strconv.Atoi] reads back every 64-bit integer that [%d] prints. *)
Lemma Atoi_in (s : string) : in_int64 (Atoi s).1.
Proof.
  unfold Atoi. destruct (parse_int s) as [n|]; [|done].
  destruct (Z.ltb_spec n min_int64), (Z.ltb_spec max_int64 n); done.
Qed.

Lemma Atoi_pretty (z : Z) : in_int64 z → Atoi (pretty z) = (z, true).
Proof.
  intros Hz. unfold Atoi. rewrite parse_int_pretty. unfold in_int64 in Hz.
  destruct (Z.ltb_spec z min_int64), (Z.ltb_spec max_int64 z); (done || lia).
Qed.

Lemma digit_prefix_all (s : string) : all_digits s → digit_prefix s = s.
Proof.
  induction s as [|c s IH]; simpl; [done|]. intros [[d ->] Hs]. by rewrite IH.
Qed.

Lemma number_prefix_digits (s : string) :
  all_digits s → number_prefix (skip_blanks s) = s.
Proof.
  intros Hs. destruct s as [|[[] [] [] [] [] [] [] []] s]; simpl in *; try done;
    try (destruct Hs as [[d Hd] _]; discriminate Hd); by rewrite digit_prefix_all by apply Hs.
Qed.

(** So does [fmt.Sscanf]. *)
Lemma Sscanf_d_pretty (z : Z) : in_int64 z → Sscanf_d (pretty z) = z.
Proof.
  intros Hz. unfold Sscanf_d.
  assert (number_prefix (skip_blanks (pretty z)) = pretty z) as ->; [|by rewrite Atoi_pretty].
  destruct z as [|p|p]; [done| |].
  - change (pretty (Z.pos p)) with (pretty (N.pos p)). apply number_prefix_digits, all_digits_pretty.
  - change (pretty (Z.neg p)) with (String "-" (pretty (N.pos p))). simpl.
    by rewrite digit_prefix_all by apply all_digits_pretty.
Qed.

Lemma pretty_digits (z : Z) : 0 <= z → all_digits (pretty z).
Proof. intros Hz. destruct z; [by split|apply (all_digits_pretty (N.pos _))|lia]. Qed.

Lemma string_app_length (s t : string) :
  String.length (s +:+ t) = (String.length s + String.length t)%nat.
Proof. induction s as [|c s IH]; [done|]. cbn. by rewrite <- IH. Qed.

(** Digits contain no colon, so a key that ends in [":<number>"] splits in one way. *)
Lemma app_colon_inj (a b s t : string) :
  all_digits s → all_digits t → a +:+ ":" +:+ s = b +:+ ":" +:+ t → a = b ∧ s = t.
Proof.
  assert (∀ s a t, all_digits s → s ≠ a +:+ ":" +:+ t) as Hno.
  { clear. induction s as [|c s IH]; intros a t Hs Heq; destruct a as [|c' a];
      inversion Heq; subst; destruct Hs as [[d Hd] Hs].
    - discriminate Hd.
    - by eapply IH. }
  intros Hs Ht. revert b. induction a as [|c a IH]; intros [|c' b] Heq.
  - by inversion Heq.
  - exfalso. inversion Heq. by eapply (Hno s).
  - exfalso. inversion Heq. by eapply (Hno t).
  - inversion Heq as [[Hc Heq']]. by apply IH in Heq' as [-> ->].
Qed.
