(* ===== verification/Rfc3339.v ===== *)
(** * Times as text

    The part of Go's package [time] that reads and writes times: the calendar,
    [time.Parse(time.RFC3339, s)] with the liberties that it takes (one digit
    for the hour, a fraction after a point or a comma, offsets up to 24:60), the
    format [time.RFC3339Nano] of a time in a zone, and the text of a time in
    JSON.  An instant is modelled without its zone: where the zone shows, the
    offset from UTC in seconds is an argument. *)

From S2P Require Import Prelude Strconv.
From Stdlib Require Import Ascii.

(** ** The calendar *)

Definition is_leap (y : Z) : bool := (y mod 4 =? 0) && (negb (y mod 100 =? 0) || (y mod 400 =? 0)).

Definition days_in (m y : Z) : Z :=
  if m =? 2 then (if is_leap y then 29 else 28)
  else if (m =? 4) || (m =? 6) || (m =? 9) || (m =? 11) then 30 else 31.

(** The days before a month of a year that is not a leap year. *)
Definition cumulative : list Z := [0; 31; 59; 90; 120; 151; 181; 212; 243; 273; 304; 334].

Definition days_before_month (m y : Z) : Z :=
  default 0 (cumulative !! Z.to_nat (m - 1)) + (if (2 <? m) && is_leap y then 1 else 0).

(** The days from January 1 of year 1 to January 1 of year [y]. *)
Definition year_start (y : Z) : Z := 365 * (y - 1) + (y - 1) / 4 - (y - 1) / 100 + (y - 1) / 400.

(** The day number, counted from January 1, 1970. *)
Definition day_number (y m d : Z) : Z := year_start y + days_before_month m y + (d - 1) - 719162.

(** ** Parsing *)

Definition lit (c : ascii) (s : string) : option string :=
  match s with String a s => if Ascii.eqb a c then Some s else None | EmptyString => None end.

(** [getnum]: two digits, or one where the layout allows it. *)
Definition getnum (fixed : bool) (s : string) : option (Z * string) :=
  match s with
  | String a s1 =>
      match digit_val a with
      | None => None
      | Some x =>
          match s1 with
          | String b s2 =>
              match digit_val b with
              | Some y => Some (x * 10 + y, s2)
              | None => if fixed then None else Some (x, s1)
              end
          | EmptyString => if fixed then None else Some (x, s1)
          end
      end
  | EmptyString => None
  end.

(** Four digits. *)
Definition get_year (s : string) : option (Z * string) :=
  '(h, s) ← getnum true s; '(l, s) ← getnum true s; Some (h * 100 + l, s).

(** The digits of a fraction, the first with the weight 10^(k-1); those after
    the [k]th are skipped. *)
Fixpoint scan_nanos (k : nat) (acc : Z) (s : string) : Z * string :=
  match s with
  | EmptyString => (acc, s)
  | String c s' =>
      match digit_val c with
      | None => (acc, s)
      | Some d => match k with
                  | O => scan_nanos O acc s'
                  | S k => scan_nanos k (acc + d * 10 ^ Z.of_nat k) s'
                  end
      end
  end.

Definition is_digit (s : string) : bool :=
  match s with String c _ => bool_decide (is_Some (digit_val c)) | EmptyString => false end.

(** The fraction of a second, if there is one. *)
Definition get_nanos (s : string) : Z * string :=
  match s with
  | String c s' =>
      if (Ascii.eqb c "." || Ascii.eqb c ",") && is_digit s' then scan_nanos 9 0 s' else (0, s)
  | EmptyString => (0, s)
  end.

(** The offset in seconds, from [Z] or [+hh:mm]. *)
Definition get_zone (s : string) : option (Z * string) :=
  match s with
  | String "Z" s => Some (0, s)
  | String sign s =>
      '(hr, s) ← getnum true s; s ← lit ":" s; '(mm, s) ← getnum true s;
      if (24 <? hr) || (60 <? mm) then None
      else if Ascii.eqb sign "+" then Some ((hr * 60 + mm) * 60, s)
      else if Ascii.eqb sign "-" then Some (- ((hr * 60 + mm) * 60), s)
      else None
  | EmptyString => None
  end.

(** [time.Parse(time.RFC3339, s)]. *)
Definition parse_RFC3339 (s : string) : option time :=
  '(year, s) ← get_year s; s ← lit "-" s;
  '(month, s) ← getnum true s;
  if (month <=? 0) || (12 <? month) then None else
  s ← lit "-" s; '(day, s) ← getnum true s; s ← lit "T" s;
  '(hr, s) ← getnum false s;
  if 24 <=? hr then None else
  s ← lit ":" s; '(min, s) ← getnum true s;
  if 60 <=? min then None else
  s ← lit ":" s; '(sec, s) ← getnum true s;
  if 60 <=? sec then None else
  let '(nsec, s) := get_nanos s in
  '(offset, s) ← get_zone s;
  if negb (String.eqb s "") then None
  else if (day <? 1) || (days_in month year <? day) then None
  else Some ((day_number year month day * 86400 + hr * 3600 + min * 60 + sec - offset) * second + nsec).

(** ** Formatting *)

Definition digit (d : Z) : ascii := ascii_of_N (Z.to_N (48 + d)).

Definition pad2 (n : Z) (s : string) : string := String (digit (n / 10)) (String (digit (n mod 10)) s).
Definition pad4 (n : Z) (s : string) : string := pad2 (n / 100) (pad2 (n mod 100) s).

(** The digits of the fraction [n / 10^k], without zeros at the end. *)
Fixpoint fraction_digits (k : nat) (n : Z) (s : string) : string :=
  match k with
  | O => s
  | S k => if n =? 0 then s
           else String (digit (n / 10 ^ Z.of_nat k)) (fraction_digits k (n mod 10 ^ Z.of_nat k) s)
  end.

(** The year, the month and the day of a day number. *)
Definition year_of (day : Z) : Z :=
  let y := (400 * day) / 146097 + 1 in
  if day <? year_start y then y - 1 else if year_start (y + 1) <=? day then y + 1 else y.

Fixpoint month_of (fuel : nat) (m y yday : Z) : Z * Z :=
  match fuel with
  | O => (m, yday)
  | S fuel => if yday <? days_in m y then (m, yday) else month_of fuel (m + 1) y (yday - days_in m y)
  end.

Definition civil (day : Z) : Z * Z * Z :=
  let day := day + 719162 in
  let y := year_of day in
  let '(m, d) := month_of 11 1 y (day - year_start y) in
  (y, m, d + 1).

(** The offset: [Z], or a sign, hours and minutes; seconds are dropped. *)
Definition format_zone (offset : Z) : string :=
  if offset =? 0 then "Z" else
  let zone := Z.abs (Z.quot offset 60) in
  String (if Z.quot offset 60 <? 0 then "-"%char else "+"%char) (pad2 (zone / 60) (String ":" (pad2 (zone mod 60) ""))).

Definition format_RFC3339 (offset : Z) (t : time) : string :=
  let zone := format_zone offset in
  let sec := t / second + offset in
  let nsec := t mod second in
  let '(y, m, d) := civil (sec / 86400) in
  let s := sec mod 86400 in
  let fraction := if nsec =? 0 then zone else String "." (fraction_digits 9 nsec zone) in
  let clock := pad2 (s / 3600) (String ":" (pad2 (s mod 3600 / 60) (String ":" (pad2 (s mod 60) fraction)))) in
  pad4 y (String "-" (pad2 m (String "-" (pad2 d (String "T" clock))))).

(** [Time.MarshalJSON] without the quotation marks: an error for a year that has
    not four digits, and for an offset of a day or more. *)
Definition marshal_time (offset : Z) (t : time) : option string :=
  let '(y, _, _) := civil ((t / second + offset) / 86400) in
  if (y <? 0) || (9999 <? y) || (24 <=? Z.abs (Z.quot offset 60) / 60) then None
  else Some (format_RFC3339 offset t).

(** The zone of the machine: the offset at an instant, which is less than a day.
    Since 1970 it is in whole minutes, Monrovia apart; before, the offsets of a
    local mean time have seconds. *)
Class LocalZone := {
  local_offset : time → Z;
  local_offset_day t : Z.abs (local_offset t) < 86400;
  local_offset_minutes t : 0 <= t → Z.rem (local_offset t) 60 = 0
}.

(** A machine set to UTC. *)
Definition utc : LocalZone := {| local_offset _ := 0; local_offset_day _ := eq_refl; local_offset_minutes _ _ := eq_refl |}.

(** ** What is formatted is parsed back *)

Lemma digit_val_digit (d : Z) : 0 <= d < 10 → digit_val (digit d) = Some d.
Proof.
  intros Hd. assert (d = 0 ∨ d = 1 ∨ d = 2 ∨ d = 3 ∨ d = 4 ∨ d = 5 ∨ d = 6 ∨ d = 7 ∨ d = 8 ∨ d = 9) as Hc by lia.
  by repeat destruct Hc as [->|Hc]; [..|rewrite Hc].
Qed.

Ltac option_step := cbn beta iota delta [mbind option_bind].

Lemma getnum_pad2 (fixed : bool) (n : Z) (s : string) : 0 <= n < 100 → getnum fixed (pad2 n s) = Some (n, s).
Proof.
  intros Hn. unfold getnum, pad2.
  rewrite (digit_val_digit (n / 10)), (digit_val_digit (n mod 10)) by (Z.div_mod_to_equations; lia).
  do 2 f_equal. pose proof (Z.div_mod n 10). lia.
Qed.

Lemma get_year_pad4 (n : Z) (s : string) : 0 <= n < 10000 → get_year (pad4 n s) = Some (n, s).
Proof.
  intros Hn. unfold get_year, pad4.
  rewrite getnum_pad2 by (split; [apply Z.div_pos|apply Z.div_lt_upper_bound]; lia). option_step.
  rewrite getnum_pad2 by (apply Z.mod_pos_bound; lia). option_step. do 2 f_equal. pose proof (Z.div_mod n 100). lia.
Qed.

Lemma lit_eq (c : ascii) (s : string) : lit c (String c s) = Some s.
Proof. unfold lit. by rewrite Ascii.eqb_refl. Qed.

Lemma scan_fraction (k : nat) (acc n : Z) (z : string) :
  is_digit z = false → 0 <= n < 10 ^ Z.of_nat k → scan_nanos k acc (fraction_digits k n z) = (acc + n, z).
Proof.
  intros Hz. assert (∀ k acc, scan_nanos k acc z = (acc, z)) as Hstop.
  { intros k' acc'. unfold is_digit in Hz. destruct z as [|c z]; [by destruct k'|].
    apply bool_decide_eq_false in Hz. destruct k'; simpl; destruct (digit_val c); done || by destruct Hz. }
  revert acc n. induction k as [|k IH]; intros acc n Hn.
  - simpl in *. assert (n = 0) as -> by lia. rewrite Z.add_0_r. apply (Hstop 0%nat).
  - simpl fraction_digits. destruct (Z.eqb_spec n 0) as [->|Hne]; [rewrite Z.add_0_r; apply (Hstop (S k))|].
    rewrite Nat2Z.inj_succ, Z.pow_succ_r in Hn by lia. set (w := 10 ^ Z.of_nat k) in *.
    assert (0 < w) as Hw by (apply Z.pow_pos_nonneg; lia).
    simpl. rewrite digit_val_digit by (split; [apply Z.div_pos|apply Z.div_lt_upper_bound]; lia).
    fold w. rewrite IH by (apply Z.mod_pos_bound; lia). f_equal. pose proof (Z.div_mod n w). lia.
Qed.

Lemma get_nanos_fraction (n : Z) (z : string) :
  is_digit z = false → get_nanos z = (0, z) → 0 <= n < second →
  get_nanos (if n =? 0 then z else String "." (fraction_digits 9 n z)) = (n, z).
Proof.
  intros Hz Hz0 Hn. destruct (Z.eqb_spec n 0) as [->|Hne]; [done|]. unfold get_nanos.
  assert (is_digit (fraction_digits 9 n z) = true) as Hd.
  { simpl fraction_digits. rewrite (proj2 (Z.eqb_neq _ _)) by done. unfold is_digit.
    rewrite digit_val_digit; [by apply bool_decide_eq_true|].
    unfold second in Hn. split; [apply Z.div_pos|apply Z.div_lt_upper_bound]; lia. }
  rewrite Hd. change (Ascii.eqb "." ".") with true. cbn [orb andb]. by rewrite scan_fraction.
Qed.

(** The zone is read back, and is not taken for a part of the fraction. *)
Lemma format_zone_head (offset : Z) : is_digit (format_zone offset) = false ∧ get_nanos (format_zone offset) = (0, format_zone offset).
Proof. unfold format_zone. destruct (_ =? _); [done|]. by destruct (_ <? _). Qed.

Lemma get_zone_format (offset : Z) :
  Z.abs offset < 86400 → get_zone (format_zone offset) = Some (offset - Z.rem offset 60, "").
Proof.
  intros Hd. unfold format_zone. destruct (Z.eqb_spec offset 0) as [->|Hne]; [done|].
  pose proof (Z.quot_rem' offset 60). set (q := Z.quot offset 60) in *.
  assert (Z.abs q < 1440) as Hq.
  { destruct (Z.le_gt_cases 0 offset).
    - pose proof (Z.rem_bound_pos offset 60 ltac:(lia) ltac:(lia)). lia.
    - pose proof (Z.rem_bound_pos_neg offset 60 ltac:(lia) ltac:(lia)). lia. }
  set (z := Z.abs q) in *.
  assert (0 <= z / 60 < 24) as Hh by (split; [apply Z.div_pos|apply Z.div_lt_upper_bound]; lia).
  assert (0 <= z mod 60 < 60) as Hmm by (apply Z.mod_pos_bound; lia).
  pose proof (Z.div_mod z 60 ltac:(lia)) as Hz.
  destruct (Z.ltb_spec q 0); unfold get_zone; rewrite getnum_pad2 by lia; option_step; rewrite lit_eq; option_step;
    rewrite getnum_pad2 by lia; option_step;
    (destruct (Z.ltb_spec 24 (z / 60)); [lia|]); (destruct (Z.ltb_spec 60 (z mod 60)); [lia|]); simpl;
    do 2 f_equal; lia.
Qed.

(** The year of a day. *)
Lemma year_of_spec (day : Z) :
  year_start (year_of day) <= day < year_start (year_of day + 1).
Proof.
  unfold year_of. set (y := 400 * day / 146097 + 1).
  assert (year_start (y - 1) <= day < year_start (y + 2)) as Hy.
  { unfold year_start, y. pose proof (Z.div_mod (400 * day) 146097 ltac:(lia)).
    pose proof (Z.mod_pos_bound (400 * day) 146097 ltac:(lia)). generalize dependent (400 * day / 146097).
    intros q ? Hq. assert (146097 * q <= 400 * day < 146097 * q + 146097) as Hb by lia. clear -Hb.
    Z.div_mod_to_equations. lia. }
  destruct (Z.ltb_spec day (year_start y)); [rewrite Z.sub_add; lia|].
  destruct (Z.leb_spec (year_start (y + 1)) day); [|lia].
  replace (y + 1 + 1) with (y + 2) by lia. lia.
Qed.

Lemma year_start_step (y : Z) : year_start (y + 1) = year_start y + 365 + (if is_leap y then 1 else 0).
Proof.
  unfold year_start, is_leap. replace (y + 1 - 1) with (y - 1 + 1) by lia.
  pose proof (Z.div_mod y 4). pose proof (Z.div_mod y 100). pose proof (Z.div_mod y 400).
  pose proof (Z.mod_pos_bound y 4). pose proof (Z.mod_pos_bound y 100). pose proof (Z.mod_pos_bound y 400).
  destruct (Z.eqb_spec (y mod 4) 0), (Z.eqb_spec (y mod 100) 0), (Z.eqb_spec (y mod 400) 0); simpl;
    Z.div_mod_to_equations; lia.
Qed.

(** The month of a day of the year. *)
Lemma month_step (m y : Z) : 1 <= m < 12 → days_before_month (m + 1) y = days_before_month m y + days_in m y.
Proof.
  intros Hm. assert (m = 1 ∨ m = 2 ∨ m = 3 ∨ m = 4 ∨ m = 5 ∨ m = 6 ∨ m = 7 ∨ m = 8 ∨ m = 9 ∨ m = 10 ∨ m = 11)
    as Hc by lia. unfold days_before_month, days_in.
  by repeat destruct Hc as [->|Hc]; [..|rewrite Hc]; simpl; destruct (is_leap y).
Qed.

Lemma month_of_spec (fuel : nat) (m y yday : Z) :
  m + Z.of_nat fuel = 12 → 1 <= m → 0 <= yday → days_before_month m y + yday < 365 + (if is_leap y then 1 else 0) →
  let '(m', d) := month_of fuel m y yday in
  1 <= m' <= 12 ∧ 0 <= d < days_in m' y ∧ days_before_month m' y + d = days_before_month m y + yday.
Proof.
  revert m yday. induction fuel as [|fuel IH]; intros m yday Hf Hm Hd Hlt; simpl.
  - assert (m = 12) as -> by lia. split_and!; [lia..| |done].
    unfold days_before_month, days_in in *. simpl in *. destruct (is_leap y); lia.
  - destruct (Z.ltb_spec yday (days_in m y)); [lia|]. pose proof (month_step m y ltac:(lia)).
    specialize (IH (m + 1) (yday - days_in m y)). destruct (month_of fuel _ _ _) as [m' d].
    destruct IH as (? & ? & ?); [lia..|]. split_and!; lia.
Qed.

Lemma civil_spec (day : Z) :
  let '(y, m, d) := civil day in
  year_start y <= day + 719162 < year_start (y + 1) ∧ 1 <= m <= 12 ∧ 1 <= d <= days_in m y ∧ day_number y m d = day.
Proof.
  unfold civil. set (n := day + 719162). pose proof (year_of_spec n) as Hy. set (y := year_of n) in *.
  pose proof (year_start_step y) as Hs.
  pose proof (month_of_spec 11 1 y (n - year_start y)) as Hm. destruct (month_of 11 1 y _) as [m d].
  destruct Hm as (Hm & Hd & He); [done|lia|lia|unfold days_before_month; simpl; lia|].
  unfold day_number. change (days_before_month 1 y) with 0 in He. split_and!; lia.
Qed.

Lemma days_in_le (m y : Z) : days_in m y <= 31.
Proof. unfold days_in. repeat case_match; lia. Qed.

Lemma year_start_mono (y z : Z) : y <= z → year_start y <= year_start z.
Proof. intros H. unfold year_start. Z.div_mod_to_equations. lia. Qed.

(** The year that a text shows. *)
Lemma civil_year (sec y m d : Z) :
  civil (sec / 86400) = (y, m, d) → -62167219200 <= sec < 253402300800 → 0 <= y < 10000.
Proof.
  intros Hc Hsec. pose proof (civil_spec (sec / 86400)) as Hs. rewrite Hc in Hs. destruct Hs as ([Hlo Hhi] & _).
  assert (-719528 <= sec / 86400 < 2932897) as Hrange.
  { split; [apply Z.div_le_lower_bound|apply Z.div_lt_upper_bound]; lia. }
  split.
  - destruct (decide (0 <= y)); [done|]. pose proof (year_start_mono (y + 1) 0 ltac:(lia)).
    change (year_start 0) with (-366) in *. lia.
  - destruct (decide (y < 10000)); [done|]. pose proof (year_start_mono 10000 y ltac:(lia)).
    change (year_start 10000) with 3652059 in *. lia.
Qed.

(** The instants whose year has four digits in every zone. *)
Definition printable (t : time) : Prop := zero_time <= t < 253402214400 * second.

Lemma printable_sec (t offset : Z) :
  printable t → Z.abs offset < 86400 → -62167219200 <= t / second + offset < 253402300800.
Proof.
  intros [Hlo Hhi] Ho. assert (-62135596800 <= t / second < 253402214400); [|lia].
  split; [apply Z.div_le_lower_bound|apply Z.div_lt_upper_bound]; unfold zero_time, second in *; lia.
Qed.

(** An instant of the years 1 to 9999, written in the format [RFC3339Nano] in any
    zone and with its nanoseconds, is read back, but for the seconds of the
    offset, which the text does not have. *)
Lemma parse_format_rem (offset : Z) (t : time) :
  printable t → Z.abs offset < 86400 →
  parse_RFC3339 (format_RFC3339 offset t) = Some (t + Z.rem offset 60 * second).
Proof.
  intros Ht Hday. unfold format_RFC3339.
  set (sec := t / second + offset). set (nsec := t mod second). set (s := sec mod 86400).
  pose proof (printable_sec t offset Ht Hday) as Hsec. fold sec in Hsec.
  assert (0 <= nsec < second) as Hns by (apply Z.mod_pos_bound; done).
  assert (0 <= s < 86400) as Hs by (apply Z.mod_pos_bound; lia).
  pose proof (civil_spec (sec / 86400)) as Hc. destruct (civil (sec / 86400)) as [[y m] d] eqn:Ec.
  destruct Hc as (_ & Hm & Hd & Hdn). pose proof (days_in_le m y). pose proof (civil_year _ _ _ _ Ec Hsec) as Hy.
  destruct (format_zone_head offset) as [Hz1 Hz2].
  unfold parse_RFC3339. rewrite get_year_pad4 by lia. option_step. rewrite lit_eq. option_step.
  rewrite getnum_pad2 by lia. option_step.
  destruct (Z.leb_spec m 0); [lia|]. destruct (Z.ltb_spec 12 m); [lia|]. cbn [orb].
  rewrite lit_eq. option_step. rewrite getnum_pad2 by lia. option_step. rewrite lit_eq. option_step.
  rewrite getnum_pad2 by (Z.div_mod_to_equations; lia). option_step.
  destruct (Z.leb_spec 24 (s / 3600)); [Z.div_mod_to_equations; lia|].
  rewrite lit_eq. option_step. rewrite getnum_pad2 by (Z.div_mod_to_equations; lia). option_step.
  destruct (Z.leb_spec 60 (s mod 3600 / 60)); [Z.div_mod_to_equations; lia|].
  rewrite lit_eq. option_step. rewrite getnum_pad2 by (Z.div_mod_to_equations; lia). option_step.
  destruct (Z.leb_spec 60 (s mod 60)); [Z.div_mod_to_equations; lia|].
  rewrite get_nanos_fraction by done. option_step. rewrite get_zone_format by done. option_step. cbn [String.eqb negb].
  destruct (Z.ltb_spec d 1); [lia|]. destruct (Z.ltb_spec (days_in m y) d); [lia|]. cbn [orb].
  rewrite Hdn. f_equal. assert (t = second * (t / second) + nsec) by (by apply Z.div_mod).
  assert (sec = 86400 * (sec / 86400) + s) by (by apply Z.div_mod).
  assert (s / 3600 * 3600 + s mod 3600 / 60 * 60 + s mod 60 = s) as Hr by (Z.div_mod_to_equations; lia).
  unfold second in *. lia.
Qed.

(** Times survive their text, in every zone with an offset in whole minutes. *)
Theorem parse_format (offset : Z) (t : time)
    (Ht : printable t) (Hday : Z.abs offset < 86400) (Hmin : Z.rem offset 60 = 0) :
  parse_RFC3339 (format_RFC3339 offset t) = Some t.
Proof. rewrite parse_format_rem by done. by rewrite Hmin, Z.mul_0_l, Z.add_0_r. Qed.

Lemma parse_format_witness :
  parse_RFC3339 "2025-11-15T00:15:33.123456Z" = Some 1763165733123456000 ∧
  format_RFC3339 19800 1763165733123456000 = "2025-11-15T05:45:33.123456+05:30" ∧
  parse_RFC3339 (format_RFC3339 19800 1763165733123456000) = Some 1763165733123456000.
Proof.
  split_and!; [vm_compute; reflexivity..|].
  apply (parse_format 19800 1763165733123456000); [vm_compute; split; [discriminate|done]|vm_compute; done|vm_compute; done].
Defined.

(** In JSON a time of the local zone is read back as a time, and as the same one
    if it is not before 1970. *)
Lemma marshal_time_ok `{LocalZone} (t : time) :
  printable t → ∃ s t', marshal_time (local_offset t) t = Some s ∧ parse_RFC3339 s = Some t' ∧ (0 <= t → t' = t).
Proof.
  intros Ht. pose proof (local_offset_day t) as Hd.
  exists (format_RFC3339 (local_offset t) t), (t + Z.rem (local_offset t) 60 * second).
  split; [|split; [by apply parse_format_rem|intros H0; by rewrite local_offset_minutes, Z.mul_0_l, Z.add_0_r]].
  unfold marshal_time. pose proof (printable_sec t (local_offset t) Ht Hd) as Hsec.
  destruct (civil _) as [[y m] d] eqn:Ec. apply civil_year in Ec; [|done].
  destruct (Z.ltb_spec y 0); [lia|]. destruct (Z.ltb_spec 9999 y); [lia|].
  assert (Z.abs (Z.quot (local_offset t) 60) / 60 < 24) as Hz.
  { revert Hd. generalize (local_offset t). intros o Ho.
    apply Z.div_lt_upper_bound; [lia|]. pose proof (Z.quot_rem' o 60). destruct (Z.le_gt_cases 0 o).
    - pose proof (Z.rem_bound_pos o 60 ltac:(lia) ltac:(lia)). lia.
    - pose proof (Z.rem_bound_pos_neg o 60 ltac:(lia) ltac:(lia)). lia. }
  by destruct (Z.leb_spec 24 (Z.abs (Z.quot (local_offset t) 60) / 60)); [lia|].
Qed.

(** A number is not a time. *)
Lemma getnum_digits (fixed : bool) (s s' : string) (n : Z) :
  all_digits s → getnum fixed s = Some (n, s') → all_digits s'.
Proof.
  destruct s as [|a [|b s]]; simpl; [done| |].
  - intros [[x ->] _]. destruct fixed; [done|]. by intros [= _ <-].
  - intros [[x ->] [[y ->] Hs]]. by intros [= _ <-].
Qed.

Lemma lit_digits (s : string) : all_digits s → lit "-" s = None.
Proof.
  destruct s as [|a s]; [done|]. intros [[x Hx] _]. simpl. destruct (Ascii.eqb_spec a "-"); [|done].
  by subst.
Qed.

Lemma parse_digits_None (s : string) : all_digits s → parse_RFC3339 s = None.
Proof.
  intros Hs. unfold parse_RFC3339, get_year.
  destruct (getnum true s) as [[h s1]|] eqn:E1; [|done]. apply getnum_digits in E1; [|done]. option_step.
  destruct (getnum true s1) as [[l s2]|] eqn:E2; [|done]. apply getnum_digits in E2; [|done]. option_step.
  by rewrite lit_digits.
Qed.

Lemma parse_number_None (n : Z) : parse_RFC3339 (pretty n) = None.
Proof.
  destruct (decide (0 <= n)); [by apply parse_digits_None, pretty_digits|].
  destruct n as [|p|p]; [lia|lia|]. done.
Qed.
