(* ===== verification/Database.v ===== *)
(** * What the tables have in common

    PostgreSQL behind GORM holds the keys, the users and the request log.  Each
    table is a class in the file of its component; this file has the errors of
    a query and the values that a column keeps unchanged. *)

From S2P Require Import Prelude Strconv.

(** ** Errors *)

Inductive db_error := ErrRecordNotFound | ErrDB (e : string).

Definition db_text (e : db_error) : string :=
  match e with ErrRecordNotFound => "record not found" | ErrDB e => e end.

#[export] Instance db_error_eq_dec : EqDecision db_error.
Proof. solve_decision. Defined.

(** A query or a statement as a computation: errors are values. *)
Definition query {S A} (m : S → S * A) : Comp S A := λ s, let '(s, a) := m s in (s, Ret a).

Lemma query_step {S A} (m : S → S * A) (s s' : S) (a : A) : m s = (s', a) → query m s = (s', Ret a).
Proof. intros Hm. unfold query. by rewrite Hm. Qed.

(** [if err != nil { return nil, err }]. *)
Definition or_fail {S A} (err : option db_error) (m : Comp S (option A * option db_error))
    : Comp S (option A * option db_error) :=
  match err with Some e => mret (None, Some e) | None => m end.

(** ** Texts and times that survive storage *)

Definition continuation (lo hi b : N) : bool := ((lo <=? b) && (b <=? hi))%N.

(** UTF-8 without zero bytes: what PostgreSQL stores in a text column. *)
Fixpoint utf8 (s : list N) : bool :=
  match s with
  | [] => true
  | a :: s =>
      if (a <? 0x80)%N then bool_decide (a ≠ 0%N) && utf8 s else
      match s with
      | [] => false
      | b :: s =>
          if ((0xC2 <=? a) && (a <=? 0xDF))%N then continuation 0x80 0xBF b && utf8 s else
          match s with
          | [] => false
          | c :: s =>
              if ((0xE0 <=? a) && (a <=? 0xEF))%N then
                continuation (if (a =? 0xE0)%N then 0xA0 else 0x80) (if (a =? 0xED)%N then 0x9F else 0xBF) b &&
                continuation 0x80 0xBF c && utf8 s
              else
              match s with
              | [] => false
              | d :: s =>
                  ((0xF0 <=? a) && (a <=? 0xF4))%N &&
                  continuation (if (a =? 0xF0)%N then 0x90 else 0x80) (if (a =? 0xF4)%N then 0x8F else 0xBF) b &&
                  continuation 0x80 0xBF c && continuation 0x80 0xBF d && utf8 s
              end
          end
      end
  end.

Definition valid_text (s : string) : bool := utf8 (bytes_of s).

(** The text of a UUID: hexadecimal digits in groups of 8, 4, 4, 4 and 12. *)
Definition valid_uuid (s : string) : bool :=
  bool_decide (String.length s = 36%nat) &&
  forallb (λ '(i, a),
    let n := Ascii.N_of_ascii a in
    if decide (i ∈ [8; 13; 18; 23]%nat) then (n =? 45)%N
    else ((48 <=? n) && (n <=? 57) || (97 <=? n) && (n <=? 102))%N) (imap pair (String.list_ascii_of_string s)).

(** [uuid.Parse] of github.com/google/uuid, which is also how a UUID is read from
    JSON: the identifier in its usual form.  Other forms may be accepted. *)
Class UuidParse := {
  uuid_Parse : string → option string;
  uuid_Parse_valid s : valid_uuid s = true → uuid_Parse s = Some s
}.

(** The usual form only. *)
#[program] Definition strict_uuid : UuidParse := {| uuid_Parse s := if valid_uuid s then Some s else None |}.
Next Obligation. intros s Hs. simpl. by rewrite Hs. Qed.

(** A time of the years 1 to 9999, but for the last day, which belongs to a year of
    five digits in some zones. *)
Definition valid_time (t : time) : Prop := zero_time <= t < 253402214400 * second.

#[export] Instance valid_time_dec (t : time) : Decision (valid_time t).
Proof. unfold valid_time. apply _. Defined.

(** The text of a UUID is plain. *)
Lemma utf8_ascii (l : list N) : Forall (λ n, 0 < n < 128)%N l → utf8 l = true.
Proof.
  induction 1 as [|a l [Hn Ha] Hl IH]; [done|]. simpl. rewrite (proj2 (N.ltb_lt _ _)) by done.
  rewrite bool_decide_eq_true_2 by lia. done.
Qed.

Lemma valid_uuid_text (s : string) : valid_uuid s = true → valid_text s = true.
Proof.
  unfold valid_uuid, valid_text, bytes_of. rewrite andb_true_iff, forallb_forall. intros [_ Hall].
  apply utf8_ascii, Forall_fmap, Forall_lookup_2. intros i a Ha.
  specialize (Hall (i, a)). cbv zeta beta iota in Hall.
  assert (In (i, a) (imap pair (String.list_ascii_of_string s))) as Hin.
  { apply list_elem_of_In, list_elem_of_lookup_2 with i. by rewrite list_lookup_imap, Ha. }
  specialize (Hall Hin). simpl. case_decide; [apply N.eqb_eq in Hall; lia|].
  apply orb_true_iff in Hall as [Hall|Hall]; apply andb_true_iff in Hall as [Hlo Hhi];
    apply N.leb_le in Hlo, Hhi; lia.
Qed.

Lemma all_digits_text (s : string) : all_digits s → valid_text s = true.
Proof.
  intros Hs. apply utf8_ascii, Forall_fmap. induction s as [|c s IH]; [constructor|].
  destruct Hs as [[d Hd] Hs]. constructor; [|by apply IH]. simpl. unfold digit_val in Hd.
  rewrite <- (N2Nat.id (Ascii.N_of_ascii c)). change (N.to_nat (Ascii.N_of_ascii c)) with (Ascii.nat_of_ascii c).
  destruct (Z.leb_spec 48 (Z.of_nat (Ascii.nat_of_ascii c))), (Z.leb_spec (Z.of_nat (Ascii.nat_of_ascii c)) 57);
    simpl in Hd; (done || lia).
Qed.
