(* ===== verification/Json.v ===== *)
(** * JSON texts

    The part of Go's [encoding/json] that works on text: the syntax that its
    scanner accepts, as a parser to a syntax tree; the compact text that
    [json.Marshal] writes; and the two directions between a Go string and the
    inside of a JSON string, with the escapes of both.  How Go values are made
    of a tree is in the file [Decode], numbers are in [Decimal].

    Texts are lists of bytes.  A tree keeps the text of numbers and of strings
    as it was written: some readers (that of [time.Time]) look at the escapes
    themselves. *)

From S2P Require Import Prelude Strconv Database.
From Stdlib Require Import Ascii.

Abbreviation text := (list N).

#[warnings="-register-all"]
Inductive value :=
  | VNull
  | VBool (b : bool)
  | VNum (lit : text)
  | VStr (raw : text)
  | VArr (vs : list value)
  | VObj (kvs : list (text * value)).

(** ** Scanning *)

Definition is_space (c : N) : bool := bool_decide (c ∈ [32; 9; 13; 10]%N).

Fixpoint skip_space (s : text) : text :=
  match s with
  | c :: s' => if is_space c then skip_space s' else s
  | [] => []
  end.

Definition is_dec (c : N) : bool := ((48 <=? c) && (c <=? 57))%N.

Fixpoint take_digits (s : text) : text * text :=
  match s with
  | c :: s' => if is_dec c then let '(ds, r) := take_digits s' in (c :: ds, r) else ([], s)
  | [] => ([], [])
  end.

(** The parts of a number: its sign, the digits before the point, the point
    and the digits after it, the exponent. *)
Definition scan_sign (s : text) : text * text :=
  match s with
  | c :: s' => if (c =? 45)%N then ([c], s') else ([], s)
  | [] => ([], [])
  end.

Definition scan_int (s : text) : option (text * text) :=
  match s with
  | c :: s' => if (c =? 48)%N then Some ([c], s')
               else if is_dec c then Some (take_digits s) else None
  | [] => None
  end.

Definition scan_frac (s : text) : option (text * text) :=
  match s with
  | c :: s' => if (c =? 46)%N
               then let '(ds, r) := take_digits s' in if decide (ds = []) then None else Some (c :: ds, r)
               else Some ([], s)
  | [] => Some ([], [])
  end.

Definition scan_exp (s : text) : option (text * text) :=
  match s with
  | c :: s' =>
      if ((c =? 101) || (c =? 69))%N then
        let '(sg, s') := match s' with
                         | d :: s'' => if ((d =? 43) || (d =? 45))%N then ([d], s'') else ([], s')
                         | [] => ([], [])
                         end in
        let '(ds, r) := take_digits s' in if decide (ds = []) then None else Some (c :: sg ++ ds, r)
      else Some ([], s)
  | [] => Some ([], [])
  end.

Definition scan_number (s : text) : option (text * text) :=
  let '(sg, s) := scan_sign s in
  '(i, s) ← scan_int s; '(f, s) ← scan_frac s; '(e, s) ← scan_exp s;
  Some (sg ++ i ++ f ++ e, s).

Definition hex_val (c : N) : option N :=
  if ((48 <=? c) && (c <=? 57))%N then Some (c - 48)%N
  else if ((97 <=? c) && (c <=? 102))%N then Some (c - 87)%N
  else if ((65 <=? c) && (c <=? 70))%N then Some (c - 55)%N
  else None.

Definition is_hex (c : N) : bool := bool_decide (is_Some (hex_val c)).

(** The inside of a string, up to the closing quotation mark. *)
Fixpoint scan_string (s : text) : option (text * text) :=
  match s with
  | [] => None
  | c :: s =>
      if (c =? 34)%N then Some ([], s)
      else if (c <? 32)%N then None
      else if (c =? 92)%N then
        match s with
        | [] => None
        | e :: s =>
            if bool_decide (e ∈ [98; 102; 110; 114; 116; 92; 47; 34]%N) then
              '(raw, r) ← scan_string s; Some (c :: e :: raw, r)
            else if (e =? 117)%N then
              match s with
              | h1 :: h2 :: h3 :: h4 :: s =>
                  if is_hex h1 && is_hex h2 && is_hex h3 && is_hex h4 then
                    '(raw, r) ← scan_string s; Some (c :: e :: h1 :: h2 :: h3 :: h4 :: raw, r)
                  else None
              | _ => None
              end
            else None
        end
      else '(raw, r) ← scan_string s; Some (c :: raw, r)
  end.

(** ** Parsing *)

Definition max_depth : Z := 10000.

Fixpoint expect (w s : text) : option text :=
  match w, s with
  | [], _ => Some s
  | a :: w, b :: s => if (a =? b)%N then expect w s else None
  | _ :: _, [] => None
  end.

Definition word (s : string) : text := bytes_of s.

(** The text after a character, white space before it skipped. *)
Definition next (c : N) (s : text) : option text :=
  match skip_space s with
  | d :: s => if (d =? c)%N then Some s else None
  | [] => None
  end.

(** A key, a colon and a value. *)
Definition parse_member (parse_value : text → option (value * text)) (s : text) : option (text * value * text) :=
  s ← next 34 s; '(k, s) ← scan_string s; s ← next 58 s; '(v, s) ← parse_value s; Some (k, v, s).

(** A value, the elements of an array after the bracket, and the members of an
    object after the brace; [depth] containers are open around it. *)
Fixpoint parse_value (fuel : nat) (depth : Z) (s : text) : option (value * text) :=
  match fuel with
  | O => None
  | S fuel =>
      match skip_space s with
      | [] => None
      | c :: s1 =>
          if (c =? 123)%N then
            if max_depth <? depth + 1 then None else
            match next 125 s1 with
            | Some s2 => Some (VObj [], s2)
            | None => '(kvs, s2) ← parse_members fuel (depth + 1) s1; Some (VObj kvs, s2)
            end
          else if (c =? 91)%N then
            if max_depth <? depth + 1 then None else
            match next 93 s1 with
            | Some s2 => Some (VArr [], s2)
            | None => '(vs, s2) ← parse_elements fuel (depth + 1) s1; Some (VArr vs, s2)
            end
          else if (c =? 34)%N then '(raw, s2) ← scan_string s1; Some (VStr raw, s2)
          else if (c =? 116)%N then s2 ← expect (word "rue") s1; Some (VBool true, s2)
          else if (c =? 102)%N then s2 ← expect (word "alse") s1; Some (VBool false, s2)
          else if (c =? 110)%N then s2 ← expect (word "ull") s1; Some (VNull, s2)
          else '(lit, s2) ← scan_number (c :: s1); Some (VNum lit, s2)
      end
  end
with parse_elements (fuel : nat) (depth : Z) (s : text) : option (list value * text) :=
  match fuel with
  | O => None
  | S fuel =>
      '(v, s) ← parse_value fuel depth s;
      match next 44 s with
      | Some s => '(vs, s) ← parse_elements fuel depth s; Some (v :: vs, s)
      | None => s ← next 93 s; Some ([v], s)
      end
  end
with parse_members (fuel : nat) (depth : Z) (s : text) : option (list (text * value) * text) :=
  match fuel with
  | O => None
  | S fuel =>
      '(k, v, s) ← parse_member (parse_value fuel depth) s;
      match next 44 s with
      | Some s => '(kvs, s) ← parse_members fuel depth s; Some ((k, v) :: kvs, s)
      | None => s ← next 125 s; Some ([(k, v)], s)
      end
  end.

(** A whole text, as [checkValid] accepts it.  Every call but that of
    [parse_elements] on its first element has read a byte, so the fuel is
    enough: [parse_fuel]. *)
Definition parse (s : text) : option value :=
  '(v, r) ← parse_value (2 * length s + 1) 0 s;
  match skip_space r with [] => Some v | _ => None end.

(** ** Printing *)

Fixpoint join (ts : list text) : text :=
  match ts with
  | [] => []
  | [t] => t
  | t :: ts => t ++ 44%N :: join ts
  end.

Definition member (k t : text) : text := 34%N :: k ++ 34%N :: 58%N :: t.

Fixpoint print (v : value) : text :=
  match v with
  | VNull => word "null"
  | VBool b => word (if b then "true" else "false")
  | VNum lit => lit
  | VStr raw => 34%N :: raw ++ [34%N]
  | VArr vs => 91%N :: join (map print vs) ++ [93%N]
  | VObj kvs => 123%N :: join (map (λ '(k, v), member k (print v)) kvs) ++ [125%N]
  end.

(** ** Strings *)

(** The length of the UTF-8 sequence at the head of a text, zero when there is
    no valid one. *)
Definition rune_len (s : text) : nat :=
  match s with
  | [] => 0
  | a :: s =>
      if (a <? 0x80)%N then 1 else
      match s with
      | [] => 0
      | b :: s =>
          if ((0xC2 <=? a) && (a <=? 0xDF))%N then if continuation 0x80 0xBF b then 2 else 0 else
          match s with
          | [] => 0
          | c :: s =>
              if ((0xE0 <=? a) && (a <=? 0xEF))%N then
                if continuation (if (a =? 0xE0)%N then 0xA0 else 0x80) (if (a =? 0xED)%N then 0x9F else 0xBF) b &&
                   continuation 0x80 0xBF c then 3 else 0
              else
              match s with
              | [] => 0
              | d :: _ =>
                  if ((0xF0 <=? a) && (a <=? 0xF4))%N &&
                     continuation (if (a =? 0xF0)%N then 0x90 else 0x80) (if (a =? 0xF4)%N then 0x8F else 0xBF) b &&
                     continuation 0x80 0xBF c && continuation 0x80 0xBF d then 4 else 0
              end
          end
      end
  end%nat.

Definition hex_digit (n : N) : N := (if n <? 10 then 48 + n else 87 + n)%N.

(** [\u] and four hexadecimal digits. *)
Definition u_escape (n : N) : text :=
  [92; 117; hex_digit (n / 4096 mod 16); hex_digit (n / 256 mod 16); hex_digit (n / 16 mod 16); hex_digit (n mod 16)]%N.

(** An ASCII character as [json.Marshal] writes it: angle brackets and ampersands
    are escaped as well. *)
Definition escape (a : N) : text :=
  if ((a =? 34) || (a =? 92))%N then [92; a]%N
  else if (a =? 8)%N then [92; 98]%N
  else if (a =? 12)%N then [92; 102]%N
  else if (a =? 10)%N then [92; 110]%N
  else if (a =? 13)%N then [92; 114]%N
  else if (a =? 9)%N then [92; 116]%N
  else if ((a <? 32) || (a =? 60) || (a =? 62) || (a =? 38))%N then u_escape a
  else [a].

(** [appendString]: of the sequence at the head, [copy] bytes are still to be
    copied, or [drop] to be dropped. *)
Fixpoint quote_go (copy drop : nat) (s : text) : text :=
  match s with
  | [] => []
  | a :: s' =>
      match copy, drop with
      | S copy, _ => a :: quote_go copy 0 s'
      | O, S drop => quote_go 0 drop s'
      | O, O =>
          if (a <? 0x80)%N then escape a ++ quote_go 0 0 s' else
          match rune_len s with
          | O => u_escape 0xFFFD ++ quote_go 0 0 s'
          | S n =>
              if bool_decide (take 2 s = [0xE2; 0x80]%N) && bool_decide (s !! 2%nat ∈ [Some 0xA8; Some 0xA9]%N)
              then u_escape (0x2000 + default 0 (s !! 2%nat) - 0x80)%N ++ quote_go 0 n s'
              else a :: quote_go n 0 s'
          end
      end
  end.

Definition quote (s : string) : text := quote_go 0 0 (bytes_of s).

(** [utf8.EncodeRune], for what four hexadecimal digits or a surrogate pair give. *)
Definition encode_rune (r : N) : text :=
  if (r <? 0x80)%N then [r]
  else if (r <? 0x800)%N then [0xC0 + r / 64; 0x80 + r mod 64]%N
  else if (r <? 0x10000)%N then [0xE0 + r / 4096; 0x80 + r / 64 mod 64; 0x80 + r mod 64]%N
  else [0xF0 + r / 262144; 0x80 + r / 4096 mod 64; 0x80 + r / 64 mod 64; 0x80 + r mod 64]%N.

(** [getu4]: the number after [\u]. *)
Definition getu4 (s : text) : option N :=
  match s with
  | b :: u :: h1 :: h2 :: h3 :: h4 :: _ =>
      if ((b =? 92) && (u =? 117))%N then
        a ← hex_val h1; b ← hex_val h2; c ← hex_val h3; d ← hex_val h4;
        Some (a * 4096 + b * 256 + c * 16 + d)%N
      else None
  | _ => None
  end.

Definition replacement : text := [0xEF; 0xBF; 0xBD]%N.

(** The rune of an escape [\u], and whether the next escape belongs to it. *)
Definition u_rune (r : N) (next : text) : text * bool :=
  if ((0xD800 <=? r) && (r <=? 0xDFFF))%N then
    match getu4 next with
    | Some r2 =>
        if ((r <? 0xDC00) && (0xDC00 <=? r2) && (r2 <=? 0xDFFF))%N
        then (encode_rune ((r - 0xD800) * 1024 + (r2 - 0xDC00) + 0x10000)%N, true)
        else (replacement, false)
    | None => (replacement, false)
    end
  else (encode_rune r, false).

(** [unquoteBytes] of a text that [scan_string] accepts. *)
Fixpoint unquote_go (copy drop : nat) (s : text) : text :=
  match s with
  | [] => []
  | a :: s' =>
      match copy, drop with
      | S copy, _ => a :: unquote_go copy 0 s'
      | O, S drop => unquote_go 0 drop s'
      | O, O =>
          if (a =? 92)%N then
            match s' with
            | [] => []
            | e :: s2 =>
                if (e =? 117)%N then
                  let '(r, both) := u_rune (default 0%N (getu4 s)) (list.drop 6 s) in
                  r ++ unquote_go 0 (if both : bool then 11 else 5) s'
                else (if (e =? 98)%N then 8 else if (e =? 102)%N then 12 else if (e =? 110)%N then 10
                      else if (e =? 114)%N then 13 else if (e =? 116)%N then 9 else e)%N :: unquote_go 0 1 s'
            end
          else if (a <? 0x80)%N then a :: unquote_go 0 0 s'
          else match rune_len s with
               | O => replacement ++ unquote_go 0 0 s'
               | S n => a :: unquote_go n 0 s'
               end
      end
  end.

Definition unquote (raw : text) : string := string_of_bytes (unquote_go 0 0 raw).

(** A text written with apostrophes for quotation marks. *)
Definition quoted (s : string) : string :=
  string_of_bytes ((λ c, if (c =? 39)%N then 34%N else c) <$> bytes_of s).

(** ** Every text is parsed or refused *)

Lemma skip_space_length (s : text) : (length (skip_space s) <= length s)%nat.
Proof. induction s as [|c s IH]; simpl; [done|]. destruct (is_space c); simpl; lia. Qed.

Lemma next_length (c : N) (s s' : text) : next c s = Some s' → (length s' < length s)%nat.
Proof.
  unfold next. pose proof (skip_space_length s) as Hl. destruct (skip_space s) as [|d s1]; [done|].
  simpl in Hl. destruct (_ =? _)%N; [|done]. intros [= <-]. lia.
Qed.

Lemma expect_length (w s s' : text) : expect w s = Some s' → (length s' <= length s)%nat.
Proof.
  revert s. induction w as [|a w IH]; intros [|b s]; simpl; try (by intros [= <-]).
  destruct (a =? b)%N; [|done]. intros H%IH. lia.
Qed.

Lemma take_digits_app (s : text) : (take_digits s).1 ++ (take_digits s).2 = s.
Proof.
  induction s as [|c s IH]; [done|]. simpl. destruct (is_dec c); [|done].
  destruct (take_digits s) as [ds r]. simpl in *. by f_equal.
Qed.

Lemma take_digits_eq (s ds r : text) : take_digits s = (ds, r) → s = ds ++ r.
Proof. intros H. pose proof (take_digits_app s) as E. by rewrite H in E. Qed.

(** The parts of a number are the beginning of the text. *)
Lemma scan_sign_eq (s sg r : text) : scan_sign s = (sg, r) → s = sg ++ r.
Proof. unfold scan_sign. destruct s as [|c s]; [by intros [= <- <-]|]. by destruct (_ =? _)%N; intros [= <- <-]. Qed.

Lemma scan_int_eq (s i r : text) : scan_int s = Some (i, r) → s = i ++ r ∧ i ≠ [].
Proof.
  unfold scan_int. destruct s as [|c s]; [done|]. destruct (_ =? _)%N; [by intros [= <- <-]|].
  destruct (is_dec c) eqn:Ed; [|done]. intros [= Hi]. split; [by apply take_digits_eq|].
  simpl in Hi. rewrite Ed in Hi. destruct (take_digits s). by simplify_eq.
Qed.

Lemma scan_frac_eq (s f r : text) : scan_frac s = Some (f, r) → s = f ++ r.
Proof.
  unfold scan_frac. destruct s as [|c s]; [by intros [= <- <-]|]. destruct (_ =? _)%N; [|by intros [= <- <-]].
  destruct (take_digits s) as [ds r'] eqn:Ed. case_decide; [done|]. intros [= <- <-].
  by rewrite (take_digits_eq _ _ _ Ed).
Qed.

Lemma scan_exp_eq (s e r : text) : scan_exp s = Some (e, r) → s = e ++ r.
Proof.
  unfold scan_exp. destruct s as [|c s]; [by intros [= <- <-]|]. destruct (_ || _); [|by intros [= <- <-]].
  assert (∀ sg s', s = sg ++ s' →
    (let '(ds, r) := take_digits s' in if decide (ds = []) then None else Some (c :: sg ++ ds, r)) = Some (e, r) →
    c :: s = e ++ r) as Hds.
  { intros sg s' ->. destruct (take_digits s') as [ds r'] eqn:Ed. case_decide; [done|]. intros [= <- <-].
    rewrite (take_digits_eq _ _ _ Ed). by rewrite <- app_comm_cons, <- app_assoc. }
  destruct s as [|d s]; [by apply Hds|]. by destruct (_ || _); apply Hds.
Qed.

Lemma scan_number_eq (s lit r : text) : scan_number s = Some (lit, r) → s = lit ++ r ∧ lit ≠ [].
Proof.
  unfold scan_number. destruct (scan_sign s) as [sg s0] eqn:Es. apply scan_sign_eq in Es as ->.
  destruct (scan_int s0) as [[i s1]|] eqn:Ei; [|done]. apply scan_int_eq in Ei as [-> Hi]. cbn [mbind option_bind].
  destruct (scan_frac s1) as [[f s2]|] eqn:Ef; [|done]. apply scan_frac_eq in Ef as ->. cbn [mbind option_bind].
  destruct (scan_exp s2) as [[e s3]|] eqn:Ee; [|done]. apply scan_exp_eq in Ee as ->. cbn [mbind option_bind].
  intros [= <- <-]. split; [by rewrite <- !app_assoc|]. destruct sg; [|done]. by destruct i.
Qed.

Lemma scan_number_length (s lit r : text) : scan_number s = Some (lit, r) → (length r < length s)%nat.
Proof. intros [-> Hne]%scan_number_eq. rewrite length_app. destruct lit; [done|]. simpl. lia. Qed.

(** The result of a bind, taken apart. *)
Ltac bind_inv H :=
  repeat match type of H with
  | mbind _ ?m = Some _ => let E := fresh "E" in destruct m as [[? ?]|] eqn:E; [|discriminate H]; cbn [mbind option_bind] in H
  | mbind _ ?m = Some _ => let E := fresh "E" in destruct m as [?|] eqn:E; [|discriminate H]; cbn [mbind option_bind] in H
  end.

Lemma scan_string_length (s raw r : text) : scan_string s = Some (raw, r) → (length r < length s)%nat.
Proof.
  assert (∀ n s raw r, (length s <= n)%nat → scan_string s = Some (raw, r) → (length r < length s)%nat) as H; [|by apply (H (length s))].
  clear. induction n as [|n IH]; intros [|c s] raw r Hn; simpl in *; try done; [lia|].
  destruct (c =? 34)%N; [by intros [= _ <-]; lia|]. destruct (c <? 32)%N; [done|]. destruct (c =? 92)%N.
  - destruct s as [|e s]; [done|]. simpl in *. destruct (bool_decide _).
    + intros H. bind_inv H. simplify_eq. apply IH in E; lia.
    + destruct (e =? 117)%N; [|done]. destruct s as [|h1 [|h2 [|h3 [|h4 s]]]]; try done. simpl in *.
      destruct (_ && _); [|done]. intros H. bind_inv H. simplify_eq. apply IH in E; lia.
  - intros H. bind_inv H. simplify_eq. apply IH in E; lia.
Qed.

Lemma scan_string_more (s raw t r : text) :
  scan_string s = Some (raw, t) → scan_string (s ++ r) = Some (raw, t ++ r).
Proof.
  assert (∀ n s raw t, (length s <= n)%nat → scan_string s = Some (raw, t) → scan_string (s ++ r) = Some (raw, t ++ r))
    as H; [|by apply (H (length s))].
  clear. induction n as [|n IH]; intros [|c s] raw t Hn; simpl in *; try done; [lia|].
  destruct (c =? 34)%N; [by intros [= <- <-]|].
  destruct (c <? 32)%N; [done|]. destruct (c =? 92)%N.
  - destruct s as [|e s]; [done|]. simpl in *. destruct (bool_decide _).
    + intros H. bind_inv H. simplify_eq. apply IH in E as ->; [done|lia].
    + destruct (e =? 117)%N; [|done]. destruct s as [|h1 [|h2 [|h3 [|h4 s]]]]; try done. simpl in *.
      destruct (_ && _); [|done]. intros H. bind_inv H. simplify_eq. apply IH in E as ->; [done|lia].
  - intros H. bind_inv H. simplify_eq. apply IH in E as ->; [done|lia].
Qed.

#[local] Arguments expect : simpl never.
#[local] Arguments next : simpl never.
#[local] Arguments scan_number : simpl never.
#[local] Arguments scan_string : simpl never.

Lemma parse_member_length (pv : text → option (value * text)) (s r : text) (k : text) (v : value) :
  (∀ s v r, pv s = Some (v, r) → (length r < length s)%nat) →
  parse_member pv s = Some (k, v, r) → (length r < length s)%nat.
Proof.
  intros Hpv. unfold parse_member. intros H.
  destruct (next 34 s) as [s1|] eqn:E1; [|done]. apply next_length in E1. cbn [mbind option_bind] in H.
  destruct (scan_string s1) as [[k' s2]|] eqn:E2; [|done]. apply scan_string_length in E2. cbn [mbind option_bind] in H.
  destruct (next 58 s2) as [s3|] eqn:E3; [|done]. apply next_length in E3. cbn [mbind option_bind] in H.
  destruct (pv s3) as [[v' s4]|] eqn:E; [|done]. apply Hpv in E. cbn [mbind option_bind] in H. simplify_eq. lia.
Qed.

Lemma parse_member_ext (pv pv' : text → option (value * text)) (s : text) :
  (∀ s', (length s' < length s)%nat → pv s' = pv' s') → parse_member pv s = parse_member pv' s.
Proof.
  intros Hpv. unfold parse_member.
  destruct (next 34 s) as [s1|] eqn:E1; [|done]. apply next_length in E1. cbn [mbind option_bind].
  destruct (scan_string s1) as [[k' s2]|] eqn:E2; [|done]. apply scan_string_length in E2. cbn [mbind option_bind].
  destruct (next 58 s2) as [s3|] eqn:E3; [|done]. apply next_length in E3. cbn [mbind option_bind].
  by rewrite Hpv by lia.
Qed.

#[local] Arguments parse_member : simpl never.

(** What is left is shorter. *)
Lemma parse_length (f : nat) : ∀ d s r,
  (∀ v, parse_value f d s = Some (v, r) → (length r < length s)%nat) ∧
  (∀ vs, parse_elements f d s = Some (vs, r) → (length r < length s)%nat) ∧
  (∀ kvs, parse_members f d s = Some (kvs, r) → (length r < length s)%nat).
Proof.
  induction f as [|f IH]; intros d s r; [done|]. split_and!; intros x H; simpl in H.
  - pose proof (skip_space_length s) as Hs. destruct (skip_space s) as [|c s1]; [done|]. simpl in Hs.
    assert (length r <= length s1)%nat; [|lia]. repeat case_match; try done; try bind_inv H; simplify_eq; repeat match goal with
      | E : next _ _ = Some _ |- _ => apply next_length in E
      | E : expect _ _ = Some _ |- _ => apply expect_length in E
      | E : scan_string _ = Some _ |- _ => apply scan_string_length in E
      | E : scan_number _ = Some _ |- _ => apply scan_number_length in E; simpl in E
      | E : parse_elements _ _ _ = Some _ |- _ => eapply IH in E
      | E : parse_members _ _ _ = Some _ |- _ => eapply IH in E
      end; lia.
  - destruct (parse_value f d s) as [[v s1]|] eqn:E; [|done]. apply IH in E. cbn [mbind option_bind] in H.
    destruct (next 44 s1) as [s2|] eqn:E2; bind_inv H; simplify_eq;
      repeat match goal with E : next _ _ = Some _ |- _ => apply next_length in E end; [|lia].
    match goal with E : parse_elements _ _ _ = Some _ |- _ => apply IH in E end. lia.
  - destruct (parse_member (parse_value f d) s) as [[[k v] s4]|] eqn:E; [|done]. cbn [mbind option_bind] in H.
    apply parse_member_length in E; [|intros s' v' r'; apply (proj1 (IH d s' r'))].
    destruct (next 44 s4) as [s5|] eqn:E5; bind_inv H; simplify_eq;
      repeat match goal with E : next _ _ = Some _ |- _ => apply next_length in E end; [|lia].
    match goal with E : parse_members _ _ _ = Some _ |- _ => apply IH in E end. lia.
Qed.

(** More fuel than [parse] takes makes no difference. *)
Lemma parse_more (f : nat) : ∀ f' d s, (f <= f')%nat →
  ((2 * length s + 1 <= f)%nat → parse_value f' d s = parse_value f d s) ∧
  ((2 * length s + 2 <= f)%nat → parse_elements f' d s = parse_elements f d s) ∧
  ((2 * length s + 2 <= f)%nat → parse_members f' d s = parse_members f d s).
Proof.
  induction f as [|f IH]; intros f' d s Hf; [split_and!; lia|]. destruct f' as [|f']; [lia|].
  split_and!; intros Hs; simpl.
  - pose proof (skip_space_length s) as Hl. destruct (skip_space s) as [|c s1]; [done|]. simpl in Hl.
    repeat case_match; try done.
    + f_equal. apply IH; lia.
    + f_equal. apply IH; lia.
  - rewrite (proj1 (IH f' d s ltac:(lia)) ltac:(lia)).
    destruct (parse_value f d s) as [[v s1]|] eqn:E; [|done]. apply parse_length in E. cbn [mbind option_bind].
    destruct (next 44 s1) as [s2|] eqn:E2; [|done]. apply next_length in E2. f_equal. apply IH; lia.
  - rewrite (parse_member_ext (parse_value f' d) (parse_value f d)) by (intros s' Hs'; apply IH; lia).
    destruct (parse_member (parse_value f d) s) as [[[k v] s4]|] eqn:E; [|done]. cbn [mbind option_bind].
    apply parse_member_length in E; [|intros ? ? ?; apply parse_length].
    destruct (next 44 s4) as [s5|] eqn:E5; [|done]. apply next_length in E5. f_equal. apply IH; lia.
Qed.

Lemma parse_fuel (f : nat) (d : Z) (s : text) :
  (2 * length s + 1 <= f)%nat → parse_value f d s = parse_value (2 * length s + 1) d s.
Proof. intros Hf. by apply parse_more. Qed.

(** ** What is printed is parsed back *)

(** What may follow a number. *)
Definition ends (r : text) : Prop :=
  match r with
  | c :: _ => is_dec c = false ∧ c ≠ 46%N ∧ c ≠ 101%N ∧ c ≠ 69%N
  | [] => True
  end.

Definition no_digit (r : text) : Prop :=
  match r with c :: _ => is_dec c = false | [] => True end.

Lemma ends_no_digit (r : text) : ends r → no_digit r.
Proof. destruct r; [done|]. by intros [? _]. Qed.

Lemma take_digits_more (s ds t r : text) : take_digits s = (ds, t) → no_digit r → take_digits (s ++ r) = (ds, t ++ r).
Proof.
  intros Hs Hr. revert ds t Hs. induction s as [|c s IH]; intros ds t; simpl.
  - intros [= <- <-]. destruct r as [|c r]; [done|]. simpl in *. by rewrite Hr.
  - destruct (is_dec c); [|by intros [= <- <-]]. destruct (take_digits s) as [ds' t'].
    intros [= <- <-]. by rewrite (IH ds' t').
Qed.

Lemma scan_number_more (s lit t r : text) :
  scan_number s = Some (lit, t) → ends r → scan_number (s ++ r) = Some (lit, t ++ r).
Proof.
  unfold scan_number. intros H Hr. pose proof (ends_no_digit r Hr) as Hnd. destruct (scan_sign s) as [sg s0] eqn:Es.
  destruct (scan_int s0) as [[i s1]|] eqn:Ei; [|done]. cbn [mbind option_bind] in H.
  destruct (scan_frac s1) as [[f s2]|] eqn:Ef; [|done]. cbn [mbind option_bind] in H.
  destruct (scan_exp s2) as [[e s3]|] eqn:Ee; [|done]. cbn [mbind option_bind] in H. simplify_eq.
  assert (scan_sign (s ++ r) = (sg, s0 ++ r)) as ->.
  { destruct s as [|c s]; simpl in *; [by simplify_eq|]. by destruct (_ =? _)%N; simplify_eq. }
  assert (scan_int (s0 ++ r) = Some (i, s1 ++ r)) as ->.
  { destruct s0 as [|c s0]; [done|]. cbn [scan_int app] in *. destruct (_ =? _)%N; [by simplify_eq|].
    destruct (is_dec c); [|done]. assert (take_digits (c :: s0) = (i, s1)) as Hd by congruence.
    by rewrite app_comm_cons, (take_digits_more _ _ _ _ Hd Hnd). }
  cbn [mbind option_bind]. assert (scan_frac (s1 ++ r) = Some (f, s2 ++ r)) as ->.
  { destruct s1 as [|c s1]; simpl in *.
    - simplify_eq. destruct r as [|c r]; [done|]. destruct Hr as (_ & Hc & _). simpl. by rewrite (proj2 (N.eqb_neq _ _)).
    - destruct (_ =? _)%N; [|by simplify_eq]. destruct (take_digits s1) as [ds t'] eqn:Ed.
      rewrite (take_digits_more _ _ _ _ Ed Hnd). case_decide; by simplify_eq. }
  cbn [mbind option_bind]. assert (scan_exp (s2 ++ r) = Some (e, t ++ r)) as ->; [|done].
  destruct s2 as [|c s2]; simpl in *.
  - simplify_eq. destruct r as [|c r]; [done|]. destruct Hr as (_ & _ & H1 & H2). simpl.
    by rewrite (proj2 (N.eqb_neq _ _) H1), (proj2 (N.eqb_neq _ _) H2).
  - destruct (_ || _); [|by simplify_eq]. destruct s2 as [|d s2]; simpl in *; [done|].
    destruct (_ || _); simpl in *.
    + destruct (take_digits s2) as [ds t'] eqn:Ed. rewrite (take_digits_more _ _ _ _ Ed Hnd). case_decide; by simplify_eq.
    + destruct (take_digits (d :: s2)) as [ds t'] eqn:Ed. pose proof (take_digits_more _ _ _ _ Ed Hnd) as Hm.
      simpl in Ed, Hm. rewrite Ed in Ee. rewrite Hm. case_decide; by simplify_eq.
Qed.

Definition number (lit : text) : Prop := scan_number lit = Some (lit, []).
Definition is_bytes (s : text) : Prop := Forall (λ c, (c < 256)%N) s.
Definition string_body (raw : text) : Prop := scan_string (raw ++ [34%N]) = Some (raw, []) ∧ is_bytes raw.

Lemma string_body_scan (raw r : text) : string_body raw → scan_string (raw ++ 34%N :: r) = Some (raw, r).
Proof. intros [H%(scan_string_more _ _ _ r) _]. by rewrite <- app_assoc in H. Qed.

(** The trees that a printed text stands for. *)
#[warnings="-register-all"]
Inductive wf : value → Prop :=
  | wf_null : wf VNull
  | wf_bool b : wf (VBool b)
  | wf_num lit : number lit → wf (VNum lit)
  | wf_str raw : string_body raw → wf (VStr raw)
  | wf_arr vs : Forall wf vs → wf (VArr vs)
  | wf_obj kvs : Forall (λ p, string_body p.1 ∧ wf p.2) kvs → wf (VObj kvs).

Fixpoint depth (v : value) : nat :=
  match v with
  | VArr vs => S (foldr max 0 (map depth vs))
  | VObj kvs => S (foldr max 0 (map (λ p, depth p.2) kvs))
  | _ => 0
  end%nat.

Lemma depth_in (n : nat) (ns : list nat) : n ∈ ns → (n <= foldr max 0 ns)%nat.
Proof. induction 1; simpl; lia. Qed.

Lemma number_head (lit : text) : number lit → ∃ c s, lit = c :: s ∧ (45 <= c <= 57)%N.
Proof.
  unfold number, scan_number, scan_sign. destruct lit as [|c lit]; [done|]. intros Hn. exists c, lit. split; [done|].
  destruct (N.eqb_spec c 45); [lia|]. simpl in Hn. destruct (N.eqb_spec c 48); [lia|].
  destruct (is_dec c) eqn:Hc; [|done]. unfold is_dec in Hc. apply andb_true_iff in Hc as [?%N.leb_le ?%N.leb_le]. lia.
Qed.

(** The first character of a value is not white space and does not close anything. *)
Lemma print_head (v : value) :
  wf v → ∃ c s, print v = c :: s ∧ is_space c = false ∧ c ≠ 93%N ∧ c ≠ 125%N.
Proof.
  destruct 1 as [|b|lit Hn|raw|vs|kvs]; [by do 2 eexists|by destruct b; do 2 eexists| |by do 2 eexists..].
  destruct (number_head lit Hn) as (c & s & -> & Hc). exists c, s. split_and!; [done| |lia..].
  unfold is_space. apply bool_decide_eq_false. rewrite !elem_of_cons, elem_of_nil. lia.
Qed.

Lemma next_found (c : N) (s : text) : is_space c = false → next c (c :: s) = Some s.
Proof. intros Hc. unfold next. simpl. by rewrite Hc, N.eqb_refl. Qed.

Lemma next_other (c d : N) (s : text) : is_space d = false → d ≠ c → next c (d :: s) = None.
Proof. intros Hd Hne. unfold next. simpl. by rewrite Hd, (proj2 (N.eqb_neq _ _)). Qed.

(** What [parse_value] makes of the text of [v], with any text after it. *)
Definition reads (v : value) : Prop := ∀ f d r,
  d + Z.of_nat (depth v) <= max_depth → (2 * length (print v) <= f)%nat → ends r →
  parse_value f d (print v ++ r) = Some (v, r).

Lemma parse_elements_print (vs : list value) (f : nat) (d : Z) (r : text) :
  vs ≠ [] → Forall wf vs → Forall reads vs → Forall (λ v, d + Z.of_nat (depth v) <= max_depth) vs →
  (2 * length (join (map print vs)) + 1 <= f)%nat →
  parse_elements f d (join (map print vs) ++ 93%N :: r) = Some (vs, r).
Proof.
  intros Hne Hwf. revert f. induction Hwf as [|v vs Hv Hvs IH]; intros f Hr Hd Hf; [done|].
  apply Forall_cons in Hr as [Hr Hrs]. apply Forall_cons in Hd as [Hd Hds].
  destruct f as [|f]; [lia|]. cbn [parse_elements]. destruct vs as [|v' vs].
  - simpl in *. rewrite (Hr f d (93%N :: r)) by (done || lia). cbn [mbind option_bind].
    by rewrite next_other, next_found.
  - change (join (map print (v :: v' :: vs))) with (print v ++ 44%N :: join (map print (v' :: vs))) in *.
    rewrite length_app in Hf. cbn [length] in Hf. rewrite <- app_assoc, <- app_comm_cons.
    rewrite (Hr f d) by (done || lia). cbn [mbind option_bind]. rewrite next_found by done.
    rewrite IH by (done || lia). done.
Qed.

Lemma parse_member_print (k : text) (v : value) (f : nat) (d : Z) (r : text) :
  string_body k → reads v → d + Z.of_nat (depth v) <= max_depth → (2 * length (print v) <= f)%nat → ends r →
  parse_member (parse_value f d) (member k (print v) ++ r) = Some (k, v, r).
Proof.
  intros Hk Hr Hd Hf He. unfold parse_member, member. rewrite <- !app_comm_cons, next_found by done.
  cbn [mbind option_bind]. rewrite <- app_assoc, <- !app_comm_cons. rewrite string_body_scan by done. cbn [mbind option_bind].
  rewrite next_found by done. cbn [mbind option_bind]. by rewrite (Hr f d r).
Qed.

#[local] Arguments member : simpl never.

Abbreviation members kvs := (join (map (λ '(k, v), member k (print v)) kvs)).

Lemma parse_members_print (kvs : list (text * value)) (f : nat) (d : Z) (r : text) :
  kvs ≠ [] → Forall (λ p, string_body p.1 ∧ wf p.2) kvs → Forall (λ p, reads p.2) kvs →
  Forall (λ p, d + Z.of_nat (depth p.2) <= max_depth) kvs → (2 * length (members kvs) + 1 <= f)%nat →
  parse_members f d (members kvs ++ 125%N :: r) = Some (kvs, r).
Proof.
  intros Hne Hwf. revert f. induction Hwf as [|[k v] kvs [Hk Hv] Hvs IH]; intros f Hr Hd Hf; [done|].
  apply Forall_cons in Hr as [Hr Hrs]. apply Forall_cons in Hd as [Hd Hds]. simpl in Hk, Hv, Hr, Hd.
  assert (length (print v) <= length (member k (print v)))%nat as Hl.
  { unfold member. simpl. rewrite length_app. simpl. lia. }
  destruct f as [|f]; [lia|]. cbn [parse_members]. destruct kvs as [|kv kvs].
  - cbn [join map] in *. rewrite parse_member_print by (done || lia). cbn [mbind option_bind].
    by rewrite next_other, next_found.
  - change (members ((k, v) :: kv :: kvs)) with (member k (print v) ++ 44%N :: members (kv :: kvs)) in *.
    rewrite length_app in Hf. cbn [length] in Hf. rewrite <- app_assoc, <- app_comm_cons.
    rewrite parse_member_print by (done || lia). cbn [mbind option_bind]. rewrite next_found by done.
    rewrite IH by (done || lia). done.
Qed.

(** A container of values is not closed at once. *)
Lemma next_join (c : N) (ts : list text) (r : text) :
  ts ≠ [] → (∀ t, t ∈ ts → ∃ a s, t = a :: s ∧ is_space a = false ∧ a ≠ c) → next c (join ts ++ r) = None.
Proof.
  intros Hne Hts. destruct ts as [|t ts]; [done|]. destruct (Hts t) as (a & s & -> & Ha & Hac); [by left|].
  destruct ts; simpl; by apply next_other.
Qed.

Lemma wf_reads (v : value) : wf v → reads v.
Proof.
  assert (∀ n v, (depth v <= n)%nat → wf v → reads v) as H; [|by apply (H (depth v))].
  clear v. induction n as [n IH] using lt_wf_ind. intros v Hn Hv f d r Hd Hf Hr.
  destruct f as [|f]; [destruct (print_head v Hv) as (c & s & Hc & _); rewrite Hc in Hf; simpl in Hf; lia|].
  destruct Hv as [|b|lit Hlit|raw Hraw|vs Hvs|kvs Hkvs].
  - done.
  - by destruct b.
  - destruct (print_head (VNum lit)) as (c & s & Hc & Hsp & _); [by constructor|]. simpl in Hc. subst lit.
    pose proof (scan_number_more _ _ _ r Hlit Hr) as Hs. destruct (number_head _ Hlit) as (? & ? & [= <- <-] & Hb).
    simpl in Hs |- *. rewrite Hsp. rewrite !(proj2 (N.eqb_neq c _)) by lia. by rewrite Hs.
  - cbn [print]. simpl. rewrite <- app_assoc. simpl. by rewrite string_body_scan.
  - destruct (decide (vs = [])) as [->|Hne]; [simpl; by destruct (Z.ltb_spec max_depth (d + 1)); [simpl in Hd; lia|]|].
    assert (Forall (λ v, d + 1 + Z.of_nat (depth v) <= max_depth ∧ (depth v < n)%nat) vs) as Hdep.
    { apply Forall_forall. intros v Hin. simpl in Hd, Hn.
      pose proof (depth_in (depth v) (map depth vs)) as Hle. rewrite list_elem_of_fmap in Hle. specialize (Hle ltac:(eauto)). lia. }
    cbn [print] in *. simpl in Hf |- *. rewrite length_app in Hf. simpl in Hf. rewrite <- app_assoc.
    destruct (Z.ltb_spec max_depth (d + 1)); [simpl in Hd; lia|].
    rewrite next_join; [|by destruct vs|].
    2:{ intros t (v & -> & Hin)%list_elem_of_fmap. rewrite Forall_forall in Hvs.
        destruct (print_head v (Hvs v Hin)) as (a & s & -> & ? & ? & ?). eauto. }
    change ([93%N] ++ r) with (93%N :: r). rewrite parse_elements_print; [done..| | | |lia]; [done| |].
    + apply Forall_forall. intros v Hin. rewrite Forall_forall in Hvs, Hdep. apply (IH (depth v)); auto. by apply Hdep.
    + eapply Forall_impl; [exact Hdep|]. by intros v [? _].
  - destruct (decide (kvs = [])) as [->|Hne]; [simpl; by destruct (Z.ltb_spec max_depth (d + 1)); [simpl in Hd; lia|]|].
    assert (Forall (λ p, d + 1 + Z.of_nat (depth p.2) <= max_depth ∧ (depth p.2 < n)%nat) kvs) as Hdep.
    { apply Forall_forall. intros p Hin. simpl in Hd, Hn.
      pose proof (depth_in (depth p.2) (map (λ p, depth p.2) kvs)) as Hle. rewrite list_elem_of_fmap in Hle.
      specialize (Hle ltac:(eauto)). lia. }
    cbn [print] in *. simpl in Hf |- *. rewrite length_app in Hf. simpl in Hf. rewrite <- app_assoc.
    destruct (Z.ltb_spec max_depth (d + 1)); [simpl in Hd; lia|].
    rewrite next_join; [|by destruct kvs|].
    2:{ intros t ([k v] & -> & Hin)%list_elem_of_fmap. by do 2 eexists. }
    change ([125%N] ++ r) with (125%N :: r). rewrite parse_members_print; [done..| | | |lia]; [done| |].
    + apply Forall_forall. intros p Hin. rewrite Forall_forall in Hkvs, Hdep. apply (IH (depth p.2)); auto; [by apply Hdep|by apply Hkvs].
    + eapply Forall_impl; [exact Hdep|]. by intros p [? _].
Qed.

(** What [json.Marshal] prints, [json.Unmarshal] reads, whatever is nested in
    what, to the depth that it allows. *)
Theorem parse_print (v : value) (Hv : wf v) (Hd : Z.of_nat (depth v) <= max_depth) : parse (print v) = Some v.
Proof.
  unfold parse. pose proof (wf_reads v Hv (2 * length (print v) + 1)%nat 0 []) as H. rewrite app_nil_r in H.
  by rewrite H by (done || lia).
Qed.

(** ** Strings survive their escapes *)

Lemma quote_go_copy (n : nat) (s : text) :
  (n <= length s)%nat → quote_go n 0 s = take n s ++ quote_go 0 0 (drop n s).
Proof.
  revert s. induction n as [|n IH]; intros s Hn; [done|]. destruct s as [|a s]; simpl in *; [lia|].
  by rewrite IH by lia.
Qed.

Lemma quote_go_drop (n : nat) (s : text) : quote_go 0 n s = quote_go 0 0 (drop n s).
Proof. revert s. induction n as [|n IH]; intros [|a s]; simpl; done. Qed.

Lemma unquote_go_copy (xs s : text) : unquote_go (length xs) 0 (xs ++ s) = xs ++ unquote_go 0 0 s.
Proof. induction xs as [|x xs IH]; [done|]. simpl. by rewrite IH. Qed.

(** The first character of a valid text. *)
Lemma utf8_rune (a : N) (s : text) :
  utf8 (a :: s) = true → (0x80 <= a)%N →
  ∃ n, rune_len (a :: s) = S n ∧ (n <= length s)%nat ∧ utf8 (drop n s) = true ∧ Forall (λ x, (0x80 <= x)%N) (take n s).
Proof.
  intros Hu Ha. simpl in *. rewrite (proj2 (N.ltb_ge a 0x80)) in * by done. unfold continuation in *.
  destruct s as [|b s]; [done|]. destruct ((0xC2 <=? a) && (a <=? 0xDF))%N.
  { apply andb_true_iff in Hu as [Hb Hu]. rewrite Hb. exists 1%nat.
    apply andb_true_iff in Hb as [Hb%N.leb_le _]. simpl. by split_and!; [|lia| |repeat constructor]. }
  destruct s as [|c s]; [done|]. destruct ((0xE0 <=? a) && (a <=? 0xEF))%N.
  { apply andb_true_iff in Hu as [Hbc Hu]. rewrite Hbc. exists 2%nat.
    apply andb_true_iff in Hbc as [Hb Hc]. apply andb_true_iff in Hb as [Hb%N.leb_le _], Hc as [Hc%N.leb_le _].
    simpl. split_and!; [done|lia|done|]. repeat constructor; [by destruct (_ =? _)%N; lia|done]. }
  destruct s as [|d s]; [done|]. apply andb_true_iff in Hu as [Hbcd Hu]. rewrite Hbcd. exists 3%nat.
  apply andb_true_iff in Hbcd as [Hbc Hd]. apply andb_true_iff in Hbc as [Hb Hc]. apply andb_true_iff in Hb as [_ Hb].
  apply andb_true_iff in Hb as [Hb%N.leb_le _], Hc as [Hc%N.leb_le _], Hd as [Hd%N.leb_le _].
  simpl. split_and!; [done|lia|done|]. repeat constructor; [by destruct (_ =? _)%N; lia|done..].
Qed.

(** What follows a character does not matter for its length. *)
Lemma rune_len_prefix (a : N) (n : nat) (s t : text) :
  rune_len (a :: s) = S n → rune_len (a :: take n s ++ t) = S n.
Proof.
  simpl. destruct (a <? 0x80)%N; [done|]. destruct s as [|b s]; [done|].
  destruct ((0xC2 <=? a) && (a <=? 0xDF))%N.
  { destruct (continuation _ _ b) eqn:Hb; [|done]. intros [= <-]. simpl. by rewrite Hb. }
  destruct s as [|c s]; [done|]. destruct ((0xE0 <=? a) && (a <=? 0xEF))%N.
  { destruct (continuation _ _ b) eqn:Hb, (continuation _ _ c) eqn:Hc; try done. intros [= <-]. simpl.
    by rewrite Hb, Hc. }
  destruct s as [|d s]; [done|]. destruct ((0xF0 <=? a) && (a <=? 0xF4))%N; [|done].
  destruct (continuation _ _ b) eqn:Hb, (continuation _ _ c) eqn:Hc, (continuation _ _ d) eqn:Hd; try done.
  intros [= <-]. simpl. by rewrite Hb, Hc, Hd.
Qed.

(** An escaped ASCII character, read back and scanned. *)
Lemma escape_read (a : N) (t : text) :
  (a < 0x80)%N → unquote_go 0 0 (escape a ++ t) = a :: unquote_go 0 0 t.
Proof.
  intros Ha. assert (Forall (λ a, unquote_go 0 0 (escape a ++ t) = a :: unquote_go 0 0 t) (N.of_nat <$> seq 0 128)) as H
    by (repeat constructor).
  rewrite Forall_fmap, Forall_forall in H. rewrite <- (N2Nat.id a). apply (H (N.to_nat a)). apply elem_of_seq. lia.
Qed.

#[local] Arguments scan_string : simpl nomatch.

Lemma escape_scan (a : N) (t raw r : text) :
  (a < 0x80)%N → scan_string t = Some (raw, r) → scan_string (escape a ++ t) = Some (escape a ++ raw, r).
Proof.
  intros Ha Ht. assert (Forall (λ a, scan_string (escape a ++ t) = Some (escape a ++ raw, r)) (N.of_nat <$> seq 0 128)) as H.
  { repeat (apply Forall_cons; split; [simpl; by rewrite Ht|]). constructor. }
  rewrite Forall_fmap, Forall_forall in H. rewrite <- (N2Nat.id a). apply (H (N.to_nat a)). apply elem_of_seq. lia.
Qed.

Lemma scan_high (xs t raw r : text) :
  Forall (λ x, (0x80 <= x)%N) xs → scan_string t = Some (raw, r) → scan_string (xs ++ t) = Some (xs ++ raw, r).
Proof.
  intros Hxs Ht. induction Hxs as [|x xs Hx _ IH]; [done|].
  rewrite <- app_comm_cons. unfold scan_string; fold scan_string. rewrite !(proj2 (N.eqb_neq x _)), (proj2 (N.ltb_ge x 32)) by lia. by rewrite IH.
Qed.

(** The first character of a text that is not plain, as [quote] writes it. *)
Lemma quote_rune (a : N) (s : text) :
  utf8 (a :: s) = true → (0x80 <= a)%N →
  ∃ n, (n <= length s)%nat ∧ utf8 (drop n s) = true ∧
    ∃ out, quote_go 0 0 (a :: s) = out ++ quote_go 0 0 (drop n s) ∧
      (∀ t, unquote_go 0 0 (out ++ t) = a :: take n s ++ unquote_go 0 0 t) ∧
      (∀ t raw r, scan_string t = Some (raw, r) → scan_string (out ++ t) = Some (out ++ raw, r)).
Proof.
  intros Hu Ha. destruct (utf8_rune a s Hu Ha) as (n & Hr & Hn & Hd & Hhigh). exists n. split_and!; [done..|].
  assert (∃ out, a :: quote_go n 0 s = out ++ quote_go 0 0 (drop n s) ∧
    (∀ t, unquote_go 0 0 (out ++ t) = a :: take n s ++ unquote_go 0 0 t) ∧
    (∀ t raw r, scan_string t = Some (raw, r) → scan_string (out ++ t) = Some (out ++ raw, r))) as Hcopy.
  { exists (a :: take n s). rewrite quote_go_copy by done. split; [done|].
    split; [|intros; by apply (scan_high (a :: take n s)); [constructor|]].
    intros t. cbn [unquote_go app]. rewrite (rune_len_prefix a n s t Hr), (proj2 (N.ltb_ge a 0x80)) by done.
    rewrite (proj2 (N.eqb_neq a 92)) by lia. f_equal. rewrite <- unquote_go_copy.
    by rewrite length_take, Nat.min_l. }
  cbn [quote_go]. rewrite (proj2 (N.ltb_ge a 0x80)) by done. rewrite Hr.
  destruct (bool_decide (take 2 (a :: s) = _)) eqn:E1; cbn [andb]; [destruct (bool_decide (_ ∈ _)) eqn:E2|];
    [|exact Hcopy..].
  exists (u_escape (0x2000 + default 0 ((a :: s) !! 2%nat) - 0x80)%N). split; [by rewrite quote_go_drop|].
  apply bool_decide_eq_true in E1, E2. rewrite !elem_of_cons, elem_of_nil in E2.
  destruct s as [|b [|c s]]; [done|by destruct E2 as [|[|]]|]. injection E1 as -> ->. simpl in E2.
  destruct E2 as [[= ->]|[[= ->]|[]]]; (assert (n = 2%nat) as -> by (vm_compute in Hr; congruence));
    (split; [done|intros t raw r Ht; simpl; by rewrite Ht]).
Qed.

Lemma quote_go_read (l : text) :
  utf8 l = true →
  unquote_go 0 0 (quote_go 0 0 l) = l ∧ scan_string (quote_go 0 0 l ++ [34%N]) = Some (quote_go 0 0 l, []).
Proof.
  assert (∀ n l, (length l <= n)%nat → utf8 l = true →
    unquote_go 0 0 (quote_go 0 0 l) = l ∧
    scan_string (quote_go 0 0 l ++ [34%N]) = Some (quote_go 0 0 l, [])) as H; [|by apply (H (length l))].
  clear l. induction n as [|n IH]; intros [|a s] Hn Hu; simpl in Hn; [done|lia|done|].
  destruct (N.ltb_spec a 0x80) as [Ha|Ha].
  - assert (utf8 s = true) as Hs.
    { simpl in Hu. rewrite (proj2 (N.ltb_lt a 0x80)) in Hu by done. by apply andb_true_iff in Hu as [_ Hu]. }
    destruct (IH s ltac:(lia) Hs) as [Hr Hb]. cbn [quote_go]. rewrite (proj2 (N.ltb_lt a 0x80)) by done.
    split; [by rewrite escape_read, Hr|]. rewrite <- app_assoc. by apply escape_scan.
  - destruct (quote_rune a s Hu Ha) as (k & Hk & Hd & out & -> & Hout & Hscan).
    destruct (IH (drop k s)) as [Hr Hb]; [rewrite length_drop; lia|done|].
    split; [by rewrite Hout, Hr, take_drop|]. rewrite <- app_assoc. by apply Hscan.
Qed.

Lemma length_bytes_of (s : string) : length (bytes_of s) = String.length s.
Proof. unfold bytes_of. rewrite length_fmap. induction s as [|a s IH]; [done|]. simpl. by rewrite IH. Qed.

Lemma string_of_bytes_of (s : string) : string_of_bytes (bytes_of s) = s.
Proof.
  unfold string_of_bytes, bytes_of. induction s as [|a s IH]; [done|]. csimpl.
  by rewrite Ascii.ascii_N_embedding, IH.
Qed.

Lemma bytes_of_app (s t : string) : bytes_of (s +:+ t) = bytes_of s ++ bytes_of t.
Proof.
  unfold bytes_of. induction s as [|a s IH]; [done|].
  change (String a s +:+ t) with (String a (s +:+ t)). csimpl. by rewrite IH.
Qed.

Lemma bytes_of_bytes (s : string) : is_bytes (bytes_of s).
Proof.
  apply Forall_fmap, Forall_true. intros a. simpl. destruct a as [[] [] [] [] [] [] [] []]; vm_compute; done.
Qed.

Lemma bytes_of_string (s : text) : is_bytes s → bytes_of (string_of_bytes s) = s.
Proof.
  unfold string_of_bytes, bytes_of. induction 1 as [|c s Hc _ IH]; [done|]. csimpl.
  by rewrite Ascii.N_ascii_embedding, IH.
Qed.

Lemma hex_digit_byte (n : N) : (hex_digit (n mod 16) < 256)%N.
Proof. unfold hex_digit. pose proof (N.mod_lt n 16). case_match; lia. Qed.

Lemma u_escape_bytes (n : N) : is_bytes (u_escape n).
Proof. repeat constructor; apply hex_digit_byte. Qed.

Lemma escape_bytes (a : N) : (a < 256)%N → is_bytes (escape a).
Proof.
  intros Ha. unfold escape.
  repeat (case_match; [done || apply u_escape_bytes || by repeat constructor|]). by repeat constructor.
Qed.

Lemma quote_go_bytes (copy drop : nat) (s : text) : is_bytes s → is_bytes (quote_go copy drop s).
Proof.
  intros Hs. revert copy drop. induction Hs as [|a s Ha Hs IH]; intros copy drop; [constructor|].
  cbn [quote_go]. destruct copy; [|constructor; [done|apply IH]]. destruct drop; [|apply IH].
  repeat case_match; try (by constructor; [|apply IH]); apply Forall_app; (split; [|apply IH]);
    [by apply escape_bytes|apply u_escape_bytes..].
Qed.

(** A string that is valid UTF-8 survives being quoted and unquoted. *)
Lemma unquote_quote (s : string) : valid_text s = true → unquote (quote s) = s.
Proof. intros Hs. unfold unquote, quote. rewrite (proj1 (quote_go_read _ Hs)). apply string_of_bytes_of. Qed.

Lemma quote_body (s : string) : valid_text s = true → string_body (quote s).
Proof. intros Hs. split; [by apply quote_go_read|apply quote_go_bytes, bytes_of_bytes]. Qed.

(** ** Texts are bytes *)

Lemma take_digits_bytes (s : text) : is_bytes (take_digits s).1.
Proof.
  induction s as [|c s IH]; [constructor|]. simpl. destruct (is_dec c) eqn:Hc; [|constructor].
  destruct (take_digits s) as [ds r]. constructor; [|done]. unfold is_dec in Hc.
  apply andb_true_iff in Hc as [?%N.leb_le ?%N.leb_le]. lia.
Qed.

Lemma scan_number_bytes (s lit r : text) : scan_number s = Some (lit, r) → is_bytes lit.
Proof.
  unfold scan_number. destruct (scan_sign s) as [sg s0] eqn:E0.
  destruct (scan_int s0) as [[i s1]|] eqn:E1; [|done]. cbn [mbind option_bind].
  destruct (scan_frac s1) as [[f s2]|] eqn:E2; [|done]. cbn [mbind option_bind].
  destruct (scan_exp s2) as [[e s3]|] eqn:E3; [|done]. cbn [mbind option_bind]. intros [= <- <-].
  unfold is_bytes. rewrite !Forall_app. split_and!.
  - unfold scan_sign in E0. destruct s as [|c s]; [by injection E0 as <- _|].
    destruct (N.eqb_spec c 45); injection E0 as <- _; by repeat constructor; subst.
  - unfold scan_int in E1. destruct s0 as [|c s0]; [done|]. destruct (N.eqb_spec c 48).
    { injection E1 as <- _. by repeat constructor; subst. }
    destruct (is_dec c) eqn:Hc; [|done]. pose proof (take_digits_bytes (c :: s0)) as Hb.
    by destruct (take_digits (c :: s0)); injection E1 as <- _.
  - unfold scan_frac in E2. destruct s1 as [|c s1]; [by injection E2 as <- _|].
    destruct (N.eqb_spec c 46); [|by injection E2 as <- _]. pose proof (take_digits_bytes s1) as Hb.
    destruct (take_digits s1) as [ds t]. case_decide; [done|]. injection E2 as <- _. by constructor; [subst|].
  - unfold scan_exp in E3. destruct s2 as [|c s2]; [by injection E3 as <- _|].
    destruct ((c =? 101) || (c =? 69))%N eqn:Hc; [|by injection E3 as <- _].
    assert (c < 256)%N by (apply orb_true_iff in Hc as [->%N.eqb_eq| ->%N.eqb_eq]; lia).
    destruct (match s2 with [] => _ | _ => _ end) as [sg' s2'] eqn:Es. pose proof (take_digits_bytes s2') as Hb.
    destruct (take_digits s2') as [ds t]. case_decide; [done|]. injection E3 as <- _. constructor; [done|].
    apply Forall_app. split; [|done]. destruct s2 as [|d s2]; [by injection Es as <- _|].
    destruct ((d =? 43) || (d =? 45))%N eqn:Hd; injection Es as <- _; [|constructor].
    repeat constructor. apply orb_true_iff in Hd as [->%N.eqb_eq| ->%N.eqb_eq]; lia.
Qed.

Lemma join_bytes (ts : list text) : Forall is_bytes ts → is_bytes (join ts).
Proof.
  induction 1 as [|t ts Ht Hts IH]; [constructor|]. destruct ts; [done|].
  apply Forall_app. split; [done|]. by constructor.
Qed.

Lemma print_bytes (v : value) : wf v → is_bytes (print v).
Proof.
  assert (∀ n v, (depth v <= n)%nat → wf v → is_bytes (print v)) as H; [|by apply (H (depth v))].
  clear v. induction n as [n IH] using lt_wf_ind. intros v Hn Hv.
  destruct Hv as [|b|lit Hlit|raw Hraw|vs Hvs|kvs Hkvs]; cbn [print].
  - apply bytes_of_bytes.
  - apply bytes_of_bytes.
  - by eapply scan_number_bytes.
  - constructor; [done|]. apply Forall_app. split; [apply Hraw|by repeat constructor].
  - constructor; [done|]. apply Forall_app. split; [|by repeat constructor]. apply join_bytes, Forall_fmap, Forall_forall.
    intros v Hin. rewrite Forall_forall in Hvs. pose proof (depth_in (depth v) (map depth vs)) as Hle.
    rewrite list_elem_of_fmap in Hle. specialize (Hle ltac:(eauto)). simpl in Hn. apply (IH (depth v)); [lia|done|auto].
  - constructor; [done|]. apply Forall_app. split; [|by repeat constructor]. apply join_bytes, Forall_fmap, Forall_forall.
    intros [k v] Hin. rewrite Forall_forall in Hkvs. destruct (Hkvs _ Hin) as [[_ Hk] Hv].
    pose proof (depth_in (depth v) (map (λ p, depth p.2) kvs)) as Hle.
    rewrite list_elem_of_fmap in Hle. specialize (Hle ltac:(by exists (k, v))). simpl in Hn.
    constructor; [done|]. apply Forall_app. split; [done|]. do 2 (constructor; [done|]). apply (IH (depth v)); [lia|done|auto].
Qed.
