(* ===== verification/CircuitBreaker.v ===== *)
(** * The circuit breaker

    Models [src/internal/circuitbreaker/breaker.go] and [state.go].

    [Call] runs its argument between two critical sections and holds no lock
    while the argument runs.  The sections are [begin_call] and [end_call];
    each clock reading the code takes is an argument of the operation that
    takes it, in program order.  [Call] composes the two for one caller, and
    the relation [step] interleaves the sections of any number of callers with
    [Reset].  [spec] is what the breaker promises, without the fields that no
    decision depends on, and [abs] the refinement map to it. *)

From S2P Require Import Prelude.

(** ** Data *)

Inductive State := StateClosed | StateOpen | StateHalfOpen.

#[export] Instance State_eq_dec : EqDecision State.
Proof. solve_decision. Defined.

(** The [default] of the source is for an [int] that is none of the three. *)
Definition State_String (s : State) : string :=
  match s with
  | StateClosed => "closed"
  | StateOpen => "open"
  | StateHalfOpen => "half-open"
  end.

Record CircuitBreaker := {
  state : State;
  failureCount : Z;
  successCount : Z;
  lastFailureTime : time;
  lastStateChange : time;
  maxFailures : Z;
  timeout : duration;
  halfOpenSuccess : Z
}.

Record Config := {
  MaxFailures : Z;
  Timeout : duration;
  HalfOpenSuccess : Z
}.

Record Metrics := {
  m_State : State;
  m_FailureCount : Z;
  m_SuccessCount : Z;
  m_LastFailureTime : time;
  m_LastStateChange : time
}.

(** The error a call returns: the breaker's own, or the one of the function. *)
Inductive call_error (E : Type) := ErrCircuitOpen | ErrFn (e : E).
Arguments ErrCircuitOpen {E}.
Arguments ErrFn {E} e.

(** ** Operations *)

Definition New (cfg : Config) (now : time) : CircuitBreaker := {|
  state := StateClosed;
  failureCount := 0;
  successCount := 0;
  lastFailureTime := zero_time;
  lastStateChange := now;
  maxFailures := if MaxFailures cfg <=? 0 then 5 else MaxFailures cfg;
  timeout := if Timeout cfg <=? 0 then 30 * second else Timeout cfg;
  halfOpenSuccess := if HalfOpenSuccess cfg <=? 0 then 1 else HalfOpenSuccess cfg
|}.

Definition setState (newState : State) (now : time) (cb : CircuitBreaker) : CircuitBreaker :=
  if decide (state cb = newState) then cb
  else {|
    state := newState;
    failureCount := failureCount cb;
    successCount := successCount cb;
    lastFailureTime := lastFailureTime cb;
    lastStateChange := now;
    maxFailures := maxFailures cb;
    timeout := timeout cb;
    halfOpenSuccess := halfOpenSuccess cb
  |}.

Definition set_failureCount (n : Z) (cb : CircuitBreaker) : CircuitBreaker := {|
  state := state cb; failureCount := n; successCount := successCount cb;
  lastFailureTime := lastFailureTime cb; lastStateChange := lastStateChange cb;
  maxFailures := maxFailures cb; timeout := timeout cb;
  halfOpenSuccess := halfOpenSuccess cb |}.

Definition set_successCount (n : Z) (cb : CircuitBreaker) : CircuitBreaker := {|
  state := state cb; failureCount := failureCount cb; successCount := n;
  lastFailureTime := lastFailureTime cb; lastStateChange := lastStateChange cb;
  maxFailures := maxFailures cb; timeout := timeout cb;
  halfOpenSuccess := halfOpenSuccess cb |}.

Definition set_lastFailureTime (t : time) (cb : CircuitBreaker) : CircuitBreaker := {|
  state := state cb; failureCount := failureCount cb; successCount := successCount cb;
  lastFailureTime := t; lastStateChange := lastStateChange cb;
  maxFailures := maxFailures cb; timeout := timeout cb;
  halfOpenSuccess := halfOpenSuccess cb |}.

(** [onFailure]: [t1] is the failure's own clock reading, [t2] that of [setState]. *)
Definition onFailure (t1 t2 : time) (cb : CircuitBreaker) : CircuitBreaker :=
  let cb := set_failureCount (wrap64 (failureCount cb + 1)) cb in
  let cb := set_lastFailureTime t1 cb in
  if decide (state cb = StateHalfOpen) then
    set_successCount 0 (setState StateOpen t2 cb)
  else if failureCount cb >=? maxFailures cb then
    setState StateOpen t2 cb
  else cb.

Definition onSuccess (t : time) (cb : CircuitBreaker) : CircuitBreaker :=
  match state cb with
  | StateHalfOpen =>
      let cb := set_successCount (wrap64 (successCount cb + 1)) cb in
      if successCount cb >=? halfOpenSuccess cb then
        set_failureCount 0 (setState StateClosed t cb)
      else cb
  | StateClosed => set_failureCount 0 cb
  | StateOpen => cb
  end.

(** The first critical section of [Call]: whether the function may run. *)
Definition begin_call (t1 t2 : time) (cb : CircuitBreaker) : CircuitBreaker * bool :=
  if decide (state cb = StateOpen) then
    if time_sub t1 (lastFailureTime cb) >? timeout cb then
      (set_successCount 0 (setState StateHalfOpen t2 cb), true)
    else (cb, false)
  else (cb, true).

(** The second critical section of [Call]: the function has returned [err]. *)
Definition end_call {E} (err : option E) (t1 t2 : time) (cb : CircuitBreaker) : CircuitBreaker :=
  match err with
  | Some _ => onFailure t1 t2 cb
  | None => onSuccess t1 cb
  end.

(** [Call] by a single caller.  The function acts on a state of its own; when
    it panics, the second critical section is never entered. *)
Definition Call {W E} (fn : Comp W (option E)) (t1 t2 t3 t4 : time)
    (cb : CircuitBreaker) (w : W) : CircuitBreaker * W * go (option (call_error E)) :=
  let '(cb, admitted) := begin_call t1 t2 cb in
  if admitted then
    match fn w with
    | (w, Ret err) => (end_call err t3 t4 cb, w, Ret (ErrFn <$> err))
    | (w, Panic msg) => (cb, w, Panic msg)
    end
  else (cb, w, Ret (Some ErrCircuitOpen)).

Definition Reset (now : time) (cb : CircuitBreaker) : CircuitBreaker := {|
  state := StateClosed;
  failureCount := 0;
  successCount := 0;
  lastFailureTime := lastFailureTime cb;
  lastStateChange := now;
  maxFailures := maxFailures cb;
  timeout := timeout cb;
  halfOpenSuccess := halfOpenSuccess cb
|}.

(** The method [State], under its read lock. *)
Definition GetState (cb : CircuitBreaker) : State := state cb.

Definition GetMetrics (cb : CircuitBreaker) : Metrics := {|
  m_State := state cb;
  m_FailureCount := failureCount cb;
  m_SuccessCount := successCount cb;
  m_LastFailureTime := lastFailureTime cb;
  m_LastStateChange := lastStateChange cb
|}.

(** ** The specification

    What a caller can observe depends on one counter or one instant per state:
    the consecutive failures while closed, the last failure while open, the
    successes since the trial began while half-open. *)

Inductive spec :=
  | SClosed (failures : Z)
  | SOpen (since : time)
  | SHalfOpen (successes : Z).

Inductive event :=
  | EBegin (t1 t2 : time)          (* a caller asks to run *)
  | ESuccess (t1 t2 : time)        (* an admitted function returned nil *)
  | EFailure (t1 t2 : time)        (* an admitted function returned an error *)
  | EReset (t : time).

Definition spec_step (maxF : Z) (tmo : duration) (need : Z) (ev : event) (s : spec)
    : spec * option bool :=
  match ev, s with
  | EBegin t _, SOpen since =>
      if tmo <? time_sub t since then (SHalfOpen 0, Some true) else (s, Some false)
  | EBegin _ _, _ => (s, Some true)
  | ESuccess _ _, SClosed _ => (SClosed 0, None)
  | ESuccess _ _, SHalfOpen n => (if need <=? n + 1 then SClosed 0 else SHalfOpen (n + 1), None)
  | ESuccess _ _, SOpen _ => (s, None)
  | EFailure t _, SClosed n => (if maxF <=? n + 1 then SOpen t else SClosed (n + 1), None)
  | EFailure t _, _ => (SOpen t, None)
  | EReset _, _ => (SClosed 0, None)
  end.

(** The same events on the code's state. *)
Definition apply_event (ev : event) (cb : CircuitBreaker) : CircuitBreaker * option bool :=
  match ev with
  | EBegin t1 t2 => let '(cb, ok) := begin_call t1 t2 cb in (cb, Some ok)
  | ESuccess t1 t2 => (end_call (@None unit) t1 t2 cb, None)
  | EFailure t1 t2 => (end_call (Some tt) t1 t2 cb, None)
  | EReset t => (Reset t cb, None)
  end.

Definition abs (cb : CircuitBreaker) : spec :=
  match state cb with
  | StateClosed => SClosed (failureCount cb)
  | StateOpen => SOpen (lastFailureTime cb)
  | StateHalfOpen => SHalfOpen (successCount cb)
  end.

(** The replies to a sequence of events, and the state after it. *)
Fixpoint run {S} (f : event → S → S * option bool) (evs : list event) (s : S)
    : S * list (option bool) :=
  match evs with
  | [] => (s, [])
  | ev :: evs =>
      let '(s, r) := f ev s in
      let '(s, rs) := run f evs s in (s, r :: rs)
  end.

(** ** The invariant *)

Definition config_ok (cb : CircuitBreaker) : Prop :=
  0 < maxFailures cb <= max_int64 ∧
  0 < timeout cb <= max_int64 ∧
  0 < halfOpenSuccess cb <= max_int64.

Definition wf (cb : CircuitBreaker) : Prop :=
  config_ok cb ∧
  match state cb with
  | StateClosed => 0 <= failureCount cb < maxFailures cb
  | StateHalfOpen => 0 <= successCount cb < halfOpenSuccess cb
  | StateOpen => True
  end.

(** ** Interleavings

    A system is a breaker and the number of calls that were admitted and have
    not finished.  A call whose function panics never reaches its second
    critical section. *)

Record system := Sys { breaker : CircuitBreaker; inflight : nat }.

Inductive label :=
  | LAdmit (t1 t2 : time)
  | LReject (t1 t2 : time)
  | LSuccess (t1 t2 : time)
  | LFailure (t1 t2 : time)
  | LPanic
  | LReset (t : time).

Inductive step : system → label → system → Prop :=
  | step_admit cb cb' n t1 t2 :
      begin_call t1 t2 cb = (cb', true) →
      step (Sys cb n) (LAdmit t1 t2) (Sys cb' (S n))
  | step_reject cb cb' n t1 t2 :
      begin_call t1 t2 cb = (cb', false) →
      step (Sys cb n) (LReject t1 t2) (Sys cb' n)
  | step_success cb n t1 t2 :
      step (Sys cb (S n)) (LSuccess t1 t2) (Sys (end_call (@None unit) t1 t2 cb) n)
  | step_failure cb n t1 t2 :
      step (Sys cb (S n)) (LFailure t1 t2) (Sys (end_call (Some tt) t1 t2 cb) n)
  | step_panic cb n :
      step (Sys cb (S n)) LPanic (Sys cb n)
  | step_reset cb n t :
      step (Sys cb n) (LReset t) (Sys (Reset t cb) n).

Inductive steps : system → list label → system → Prop :=
  | steps_nil s : steps s [] s
  | steps_cons s1 l s2 ls s3 : step s1 l s2 → steps s2 ls s3 → steps s1 (l :: ls) s3.

#[export] Hint Constructors step steps : gateway.

(** The edges of the state diagram other than [Reset]. *)
Inductive edge : State → State → Prop :=
  | edge_trip : edge StateClosed StateOpen
  | edge_trial : edge StateOpen StateHalfOpen
  | edge_fail : edge StateHalfOpen StateOpen
  | edge_recover : edge StateHalfOpen StateClosed.

(** A sequence of calls by one caller, each with its four clock readings. *)
Definition calls {W E} (fn : Comp W (option E)) (ts : list (time * time * time * time))
    (cb : CircuitBreaker) (w : W) : CircuitBreaker * W :=
  foldl (λ '(cb, w) '(t1, t2, t3, t4), (Call fn t1 t2 t3 t4 cb w).1) (cb, w) ts.

(** Functions that count how often they run. *)
Definition failing : Comp nat (option unit) := λ w, (S w, Ret (Some tt)).
Definition succeeding : Comp nat (option unit) := λ w, (S w, Ret None).

(** ** Lemmas *)

Lemma New_wf (cfg : Config) (now : time) :
  in_int64 (MaxFailures cfg) → in_int64 (Timeout cfg) → in_int64 (HalfOpenSuccess cfg) →
  wf (New cfg now).
Proof.
  unfold wf, config_ok, New, second; simpl. intros.
  repeat case_bool; int_solve.
Qed.

(** Unfold the operations on a breaker whose state is known. *)
Ltac cb_unfold :=
  unfold wf, config_ok, abs, apply_event, begin_call, end_call, onFailure, onSuccess,
    Reset, setState, set_failureCount, set_successCount, set_lastFailureTime in *;
  simpl in *.

Ltac cb_cases :=
  repeat (case_decide || case_bool); simpl in *; try discriminate; try congruence.

Lemma apply_event_config (ev : event) (cb : CircuitBreaker) :
  let cb' := (apply_event ev cb).1 in
  maxFailures cb' = maxFailures cb ∧ timeout cb' = timeout cb ∧
  halfOpenSuccess cb' = halfOpenSuccess cb.
Proof.
  destruct ev, cb as [[] ? ? ? ? ? ? ?]; cb_unfold; cb_cases; done.
Qed.

Lemma apply_event_wf (ev : event) (cb : CircuitBreaker) :
  wf cb → wf (apply_event ev cb).1.
Proof.
  destruct ev, cb as [[] f s ? ? ? ? ?]; cb_unfold; intros [Hc Hs]; cb_cases;
    try rewrite wrap64_id in * by int_solve; bool_to_prop; int_solve.
Qed.

Lemma apply_event_spec (ev : event) (cb : CircuitBreaker) :
  wf cb →
  let '(cb', r) := apply_event ev cb in
  spec_step (maxFailures cb) (timeout cb) (halfOpenSuccess cb) ev (abs cb) = (abs cb', r).
Proof.
  destruct ev, cb as [[] f s ? ? ? ? ?]; cb_unfold; intros [Hc Hs]; cb_cases;
    repeat (rewrite wrap64_id in * by int_solve); cb_cases; try done; try lia.
Qed.

Lemma step_event (s s' : system) (l : label) :
  step s l s' → breaker s' = breaker s ∨ ∃ ev, breaker s' = (apply_event ev (breaker s)).1.
Proof.
  destruct 1 as [cb cb' n t1 t2 H|cb cb' n t1 t2 H|cb n t1 t2|cb n t1 t2|cb n|cb n t]; simpl.
  1,2: right; exists (EBegin t1 t2); simpl; by rewrite H.
  - right. by exists (ESuccess t1 t2).
  - right. by exists (EFailure t1 t2).
  - by left.
  - right. by exists (EReset t).
Qed.

Lemma steps_wf (s s' : system) (ls : list label) :
  steps s ls s' → wf (breaker s) → wf (breaker s').
Proof.
  induction 1 as [|s1 l s2 ls s3 Hstep _ IH]; [done|]. intros Hwf. apply IH.
  destruct (step_event _ _ _ Hstep) as [->|[ev ->]]; [done|].
  by apply apply_event_wf.
Qed.

Lemma run_refines (evs : list event) (cb : CircuitBreaker) :
  wf cb →
  let '(cb', rs) := run apply_event evs cb in
  run (spec_step (maxFailures cb) (timeout cb) (halfOpenSuccess cb)) evs (abs cb) = (abs cb', rs).
Proof.
  revert cb. induction evs as [|ev evs IH]; intros cb Hwf; simpl; [done|].
  pose proof (apply_event_spec ev cb Hwf) as Hev.
  pose proof (apply_event_wf ev cb Hwf) as Hwf'.
  pose proof (apply_event_config ev cb) as (Hm & Ht & Hh).
  destruct (apply_event ev cb) as [cb1 r]; simpl in *. rewrite Hev.
  specialize (IH cb1 Hwf'). rewrite Hm, Ht, Hh in IH.
  destruct (run apply_event evs cb1) as [cb2 rs]. by rewrite IH.
Qed.

(** An open breaker whose timeout has not passed. *)
Lemma begin_call_open (t1 t2 : time) (cb : CircuitBreaker) :
  state cb = StateOpen → time_sub t1 (lastFailureTime cb) <= timeout cb →
  begin_call t1 t2 cb = (cb, false).
Proof. intros Hs Ht. unfold begin_call. rewrite Hs. cb_cases. lia. Qed.

(** What a step may do to an open breaker before its timeout. *)
Definition quiet (t0 : time) (d : duration) (l : label) : Prop :=
  match l with
  | LAdmit t _ | LReject t _ => time_sub t t0 <= d
  | LFailure t _ => t0 <= t
  | LReset _ => False
  | _ => True
  end.

Lemma time_sub_mono (t u u' : Z) : u <= u' → time_sub t u' <= time_sub t u.
Proof. unfold time_sub. lia. Qed.

Lemma open_step (s s' : system) (l : label) (t0 : time) :
  step s l s' → state (breaker s) = StateOpen → t0 <= lastFailureTime (breaker s) →
  quiet t0 (timeout (breaker s)) l →
  state (breaker s') = StateOpen ∧ t0 <= lastFailureTime (breaker s') ∧
  timeout (breaker s') = timeout (breaker s) ∧ (∀ t1 t2, l ≠ LAdmit t1 t2).
Proof.
  destruct 1 as [cb cb' n t1 t2 H|cb cb' n t1 t2 H|cb n t1 t2|cb n t1 t2|cb n|cb n t];
    simpl; intros Ho Ht Hq.
  1,2: rewrite begin_call_open in H by
         (done || (etrans; [by apply time_sub_mono|done])); by simplify_eq.
  - destruct cb as [[] ? ? ? ? ? ? ?]; cb_unfold; cb_cases; done.
  - destruct cb as [[] ? ? ? ? ? ? ?]; cb_unfold; cb_cases; done.
  - done.
  - done.
Qed.

Lemma open_steps (s s' : system) (ls : list label) (t0 : time) :
  steps s ls s' → state (breaker s) = StateOpen → t0 <= lastFailureTime (breaker s) →
  Forall (quiet t0 (timeout (breaker s))) ls →
  state (breaker s') = StateOpen ∧ ∀ t1 t2, LAdmit t1 t2 ∉ ls.
Proof.
  induction 1 as [s|s1 l s2 ls s3 Hstep _ IH]; intros Ho Ht Hq.
  - split; [done|]. intros t1 t2. apply not_elem_of_nil.
  - inversion Hq as [|? ? Hl Hls]; subst.
    destruct (open_step _ _ _ _ Hstep Ho Ht Hl) as (Ho' & Ht' & Htm & Hna).
    rewrite <- Htm in Hls. destruct (IH Ho' Ht' Hls) as [? Hin].
    split; [done|]. intros t1 t2. rewrite not_elem_of_cons.
    split; [|apply Hin]. intros E. by apply (Hna t1 t2).
Qed.

(** A failure on a closed breaker. *)
Lemma onFailure_closed (t1 t2 : time) (cb : CircuitBreaker) :
  wf cb → state cb = StateClosed →
  let cb' := onFailure t1 t2 cb in
  wf cb' ∧ maxFailures cb' = maxFailures cb ∧ timeout cb' = timeout cb ∧ failureCount cb' = failureCount cb + 1 ∧
  lastFailureTime cb' = t1 ∧
  state cb' = if maxFailures cb <=? failureCount cb + 1 then StateOpen else StateClosed.
Proof.
  intros Hwf Hs cb'. split; [apply (apply_event_wf (EFailure t1 t2) cb Hwf)|]. unfold cb'.
  destruct Hwf as [Hc Hf], cb as [[] ? ? ? ? ? ? ?]; cb_unfold; try done.
  repeat (rewrite wrap64_id in * by int_solve). cb_cases; try lia; done.
Qed.

(** A failing call on a closed breaker. *)
Lemma Call_failing_closed (t1 t2 t3 t4 : time) (cb : CircuitBreaker) (w : nat) :
  wf cb → state cb = StateClosed →
  ∃ cb', Call failing t1 t2 t3 t4 cb w = (cb', S w, Ret (Some (ErrFn tt))) ∧
    wf cb' ∧ maxFailures cb' = maxFailures cb ∧ failureCount cb' = failureCount cb + 1 ∧
    state cb' = if maxFailures cb <=? failureCount cb + 1 then StateOpen else StateClosed.
Proof.
  intros Hwf Hs. eexists. split; [unfold Call, begin_call; by rewrite Hs|].
  destruct (onFailure_closed t3 t4 cb Hwf Hs) as (? & ? & _ & ? & _ & ?). done.
Qed.

Lemma calls_failing (ts : list (time * time * time * time)) (cb : CircuitBreaker) (w : nat) :
  wf cb → state cb = StateClosed → failureCount cb + Z.of_nat (length ts) <= maxFailures cb →
  ∃ cb', calls failing ts cb w = (cb', (w + length ts)%nat) ∧
    failureCount cb' = failureCount cb + Z.of_nat (length ts) ∧
    state cb' = if failureCount cb + Z.of_nat (length ts) =? maxFailures cb
                then StateOpen else StateClosed.
Proof.
  revert cb w. induction ts as [|[[[t1 t2] t3] t4] ts IH]; intros cb w Hwf Hs Hle; simpl in *.
  - exists cb. rewrite Nat.add_0_r. destruct Hwf as [_ Hf]. rewrite Hs in Hf.
    repeat split; [lia|]. case_bool; [lia|done].
  - destruct (Call_failing_closed t1 t2 t3 t4 cb w Hwf Hs) as (cb1 & HC & Hwf1 & Hm & Hf & Hs1).
    unfold calls. simpl. rewrite HC. simpl.
    destruct ts as [|t ts].
    + simpl in *. exists cb1. rewrite Nat.add_1_r. repeat split; [lia|].
      rewrite Hs1. repeat case_bool; try done; lia.
    + assert (state cb1 = StateClosed) as Hc1.
      { rewrite Hs1. case_bool; [simpl in *; lia|done]. }
      destruct (IH cb1 (S w) Hwf1 Hc1) as (cb' & HC' & Hf' & Hs'); [lia|].
      exists cb'. rewrite Nat.add_succ_r. unfold calls in HC'. rewrite HC'.
      rewrite Hs', Hm, Hf. repeat split; [lia|]. repeat case_bool; try done; lia.
Qed.

(** Successful calls of a half-open breaker. *)
Lemma onFailure_open (t1 t2 : time) (cb : CircuitBreaker) :
  wf cb → state cb = StateOpen →
  let cb' := onFailure t1 t2 cb in
  wf cb' ∧ maxFailures cb' = maxFailures cb ∧ timeout cb' = timeout cb ∧ lastFailureTime cb' = t1 ∧ state cb' = StateOpen.
Proof.
  intros Hwf Hs cb'. split; [apply (apply_event_wf (EFailure t1 t2) cb Hwf)|]. unfold cb'.
  destruct cb as [[] ? ? ? ? ? ? ?]; cb_unfold; try done. cb_cases; done.
Qed.

Lemma onSuccess_half_open (t : time) (cb : CircuitBreaker) :
  wf cb → state cb = StateHalfOpen →
  let cb' := onSuccess t cb in
  wf cb' ∧ halfOpenSuccess cb' = halfOpenSuccess cb ∧
  (if halfOpenSuccess cb <=? successCount cb + 1
   then state cb' = StateClosed ∧ failureCount cb' = 0
   else state cb' = StateHalfOpen ∧ successCount cb' = successCount cb + 1).
Proof.
  intros Hwf Hs cb'. split; [apply (apply_event_wf (ESuccess t t) cb Hwf)|]. unfold cb'.
  destruct Hwf as [Hc Hf], cb as [[] ? ? ? ? ? ? ?]; cb_unfold; try done.
  repeat (rewrite wrap64_id in * by int_solve). cb_cases; try lia; done.
Qed.

Lemma Call_succeeding_half_open (t1 t2 t3 t4 : time) (cb : CircuitBreaker) (w : nat) :
  wf cb → state cb = StateHalfOpen →
  ∃ cb', Call succeeding t1 t2 t3 t4 cb w = (cb', S w, Ret None) ∧
    wf cb' ∧ halfOpenSuccess cb' = halfOpenSuccess cb ∧
    (if halfOpenSuccess cb <=? successCount cb + 1
     then state cb' = StateClosed ∧ failureCount cb' = 0
     else state cb' = StateHalfOpen ∧ successCount cb' = successCount cb + 1).
Proof.
  intros Hwf Hs. eexists. split; [unfold Call, begin_call; by rewrite Hs|]. by apply onSuccess_half_open.
Qed.

Lemma calls_succeeding (ts : list (time * time * time * time)) (cb : CircuitBreaker) (w : nat) :
  wf cb → state cb = StateHalfOpen →
  successCount cb + Z.of_nat (length ts) = halfOpenSuccess cb →
  ∃ cb', calls succeeding ts cb w = (cb', (w + length ts)%nat) ∧
    state cb' = StateClosed ∧ failureCount cb' = 0.
Proof.
  revert cb w. induction ts as [|[[[t1 t2] t3] t4] ts IH]; intros cb w Hwf Hs Hle; simpl in *.
  - destruct Hwf as [_ Hf]. rewrite Hs in Hf. lia.
  - destruct (Call_succeeding_half_open t1 t2 t3 t4 cb w Hwf Hs) as (cb1 & HC & Hwf1 & Hm & Hc).
    unfold calls. simpl. rewrite HC. simpl. case_bool.
    + destruct ts; [|simpl in *; lia]. exists cb1. by rewrite Nat.add_1_r.
    + destruct Hc as [Hs1 Hn]. destruct (IH cb1 (S w)) as (cb' & HC' & ?); [done..|lia|].
      exists cb'. rewrite Nat.add_succ_r. unfold calls in HC'. by rewrite HC'.
Qed.

(** The first call after the timeout moves the breaker to half-open. *)
Lemma begin_call_trial (t1 t2 : time) (cb : CircuitBreaker) :
  wf cb → state cb = StateOpen → timeout cb < time_sub t1 (lastFailureTime cb) →
  ∃ cb', begin_call t1 t2 cb = (cb', true) ∧ wf cb' ∧ state cb' = StateHalfOpen ∧
    successCount cb' = 0 ∧ halfOpenSuccess cb' = halfOpenSuccess cb.
Proof.
  intros Hwf Hs Ht. destruct cb as [[] ? ? ? ? ? ? ?]; cb_unfold; try done.
  cb_cases; [|lia]. eexists. split; [done|]. simpl. intuition lia.
Qed.

Lemma half_open_admits (cb : CircuitBreaker) (n k : nat) (t1 t2 : time) :
  state cb = StateHalfOpen →
  steps (Sys cb n) (replicate k (LAdmit t1 t2)) (Sys cb (k + n)).
Proof.
  intros Hs. revert n. induction k as [|k IH]; intros n; simpl; [constructor|].
  econstructor; [apply step_admit; unfold begin_call; by rewrite Hs|].
  rewrite <- Nat.add_succ_r. apply IH.
Qed.

(** ** Theorems *)

(** C2: The breaker refines its specification: on every sequence of admission
    requests, outcomes and resets, in any interleaving of the callers, a new
    breaker gives the replies of the three-state specification and ends in a
    state that the refinement map sends to the specification's. *)
Theorem breaker_refines_spec (cfg : Config) (now : time) (evs : list event)
    (Hm : in_int64 (MaxFailures cfg)) (Ht : in_int64 (Timeout cfg))
    (Hh : in_int64 (HalfOpenSuccess cfg)) :
  let cb := New cfg now in
  let '(cb', rs) := run apply_event evs cb in
  run (spec_step (maxFailures cb) (timeout cb) (halfOpenSuccess cb)) evs (SClosed 0) = (abs cb', rs).
Proof. apply (run_refines evs (New cfg now)). by apply New_wf. Qed.

(** C29: In every state that callers can reach by interleaving their critical
    sections with panics and resets, the failure counter of a closed breaker is
    below its threshold, the success counter of a half-open one is below its
    own, and the configuration is positive and in range: no counter that a
    decision reads can overflow. *)
Theorem breaker_invariant (cfg : Config) (now : time) (ls : list label) (s : system)
    (Hm : in_int64 (MaxFailures cfg)) (Ht : in_int64 (Timeout cfg))
    (Hh : in_int64 (HalfOpenSuccess cfg)) :
  steps (Sys (New cfg now) 0) ls s → wf (breaker s).
Proof. intros Hs. apply (steps_wf _ _ _ Hs). by apply New_wf. Qed.

(** Until its timeout has passed since the last failure, an open breaker
    admits no call and stays open, whatever the calls still in flight do, as
    long as the clock does not run backwards and nobody resets it. *)
Theorem open_admits_nothing (s s' : system) (ls : list label) (t0 : time) :
  steps s ls s' → state (breaker s) = StateOpen → lastFailureTime (breaker s) = t0 →
  Forall (quiet t0 (timeout (breaker s))) ls →
  state (breaker s') = StateOpen ∧ ∀ t1 t2, LAdmit t1 t2 ∉ ls.
Proof. intros Hs Ho <-. by apply open_steps. Qed.

(** A step other than a reset leaves the breaker's state alone or moves it
    along an edge of the diagram: closed to open, open to half-open, half-open
    to open or to closed.  An open breaker is never closed without a trial. *)
Theorem breaker_edges (s s' : system) (l : label) :
  step s l s' →
  state (breaker s') = state (breaker s) ∨ edge (state (breaker s)) (state (breaker s')) ∨
  ∃ t, l = LReset t.
Proof.
  destruct 1 as [cb cb' n t1 t2 H|cb cb' n t1 t2 H|cb n t1 t2|cb n t1 t2|cb n|cb n t];
    simpl; eauto; destruct cb as [[] ? ? ? ? ? ? ?]; cb_unfold; cb_cases; simplify_eq/=;
    eauto using edge.
Qed.

(** Starting from a new breaker, failing calls all run as long as there are
    at most [maxFailures] of them, and the breaker opens with the last of
    these and not before. *)
Theorem opens_after_max_failures (cfg : Config) (now : time) (ts : list (time * time * time * time))
    (Hm : in_int64 (MaxFailures cfg)) (Ht : in_int64 (Timeout cfg))
    (Hh : in_int64 (HalfOpenSuccess cfg)) :
  let cb := New cfg now in
  Z.of_nat (length ts) <= maxFailures cb →
  ∃ cb', calls failing ts cb 0%nat = (cb', length ts) ∧
    state cb' = if Z.of_nat (length ts) =? maxFailures cb then StateOpen else StateClosed.
Proof.
  intros cb Hle. destruct (calls_failing ts cb 0) as (cb' & HC & _ & Hs);
    [by apply New_wf|done|done|]. by exists cb'.
Qed.

(** Recovery.  An open breaker whose timeout has passed runs the next calls,
    and when [halfOpenSuccess] of them in a row succeed it is closed again with
    its failure counter at zero. *)
Theorem recovers_after_timeout (cb : CircuitBreaker) (t1 t2 t3 t4 : time)
    (ts : list (time * time * time * time)) (w : nat) :
  wf cb → state cb = StateOpen → timeout cb < time_sub t1 (lastFailureTime cb) →
  Z.of_nat (S (length ts)) = halfOpenSuccess cb →
  ∃ cb', calls succeeding ((t1, t2, t3, t4) :: ts) cb w = (cb', (w + S (length ts))%nat) ∧
    state cb' = StateClosed ∧ failureCount cb' = 0.
Proof.
  intros Hwf Hs Ht Hlen.
  destruct (begin_call_trial t1 t2 cb Hwf Hs Ht) as (cb1 & Hb & Hwf1 & Hs1 & Hn & Hh).
  destruct (calls_succeeding ((t1, t2, t3, t4) :: ts) cb1 w) as (cb' & HC & ?);
    [done..|simpl length; lia|].
  exists cb'. split; [|done]. etrans; [|exact HC]. unfold calls. simpl. do 2 f_equal.
  unfold Call. rewrite Hb. unfold begin_call. by rewrite Hs1.
Qed.

(** The half-open state does not limit its trial calls: once the timeout has
    passed, any number of callers is admitted before the first of them
    returns, although the comment on [StateHalfOpen] says that it allows
    limited requests. *)
Theorem half_open_unlimited (cb : CircuitBreaker) (n k : nat) (t1 t2 : time) :
  wf cb → state cb = StateOpen → timeout cb < time_sub t1 (lastFailureTime cb) →
  ∃ cb', steps (Sys cb n) (replicate (S k) (LAdmit t1 t2)) (Sys cb' (S k + n)) ∧
    state cb' = StateHalfOpen.
Proof.
  intros Hwf Hs Ht.
  destruct (begin_call_trial t1 t2 cb Hwf Hs Ht) as (cb1 & Hb & _ & Hs1 & _).
  exists cb1. split; [|done]. simpl. econstructor; [by apply step_admit|].
  rewrite <- Nat.add_succ_r. by apply half_open_admits.
Qed.

(** ** Witnesses *)

Definition cfg_example : Config := {| MaxFailures := 3; Timeout := 60 * second; HalfOpenSuccess := 2 |}.

(** The breaker of the example after three failures at [100 s]. *)
Definition tripped : CircuitBreaker :=
  let t := 100 * second in
  (calls failing [(t, t, t, t); (t, t, t, t); (t, t, t, t)] (New cfg_example 0) 0%nat).1.

Lemma breaker_refines_spec_witness :
  run (spec_step 3 (60 * second) 2)
    [EBegin 1 1; EFailure 2 2; EBegin 3 3; EFailure 4 4; EBegin 5 5; EFailure 6 6; EBegin 7 7]
    (SClosed 0) = (SOpen 6, [Some true; None; Some true; None; Some true; None; Some false]).
Proof.
  apply (breaker_refines_spec cfg_example 0
    [EBegin 1 1; EFailure 2 2; EBegin 3 3; EFailure 4 4; EBegin 5 5; EFailure 6 6; EBegin 7 7]);
    vm_compute; split; discriminate.
Defined.

Lemma breaker_invariant_witness :
  wf (end_call (Some tt) 2 3 (New cfg_example 0)).
Proof.
  apply (breaker_invariant cfg_example 0 [LAdmit 1 1; LFailure 2 3]
    (Sys (end_call (Some tt) 2 3 (New cfg_example 0)) 0)).
  1-3: vm_compute; split; discriminate.
  econstructor; [apply step_admit; reflexivity|].
  econstructor; [apply step_failure|constructor].
Defined.

Lemma open_admits_nothing_witness :
  state (breaker (Sys tripped 0)) = StateOpen ∧
  ∀ t1 t2, LAdmit t1 t2 ∉ [LReject (160 * second) 0].
Proof.
  apply (open_admits_nothing (Sys tripped 0) (Sys tripped 0) [LReject (160 * second) 0] (100 * second)).
  - econstructor; [apply step_reject; reflexivity|constructor].
  - reflexivity.
  - reflexivity.
  - constructor; [vm_compute; discriminate|constructor].
Defined.

Lemma breaker_edges_witness :
  state tripped = StateClosed ∨ edge StateOpen (state tripped) ∨ (∃ t, LReject 0 0 = LReset t)
  ∨ state tripped = StateOpen.
Proof.
  destruct (breaker_edges (Sys tripped 0) (Sys tripped 0) (LReject 0 0)) as [H|[H|H]].
  - apply step_reject. reflexivity.
  - right; right; right. exact H.
  - right; left. exact H.
  - right; right; left. exact H.
Defined.

Lemma opens_after_max_failures_witness :
  ∃ cb', calls failing [(1, 1, 1, 1); (2, 2, 2, 2); (3, 3, 3, 3)] (New cfg_example 0) 0%nat = (cb', 3%nat) ∧
    state cb' = StateOpen.
Proof.
  apply (opens_after_max_failures cfg_example 0 [(1, 1, 1, 1); (2, 2, 2, 2); (3, 3, 3, 3)]);
    vm_compute; try split; discriminate.
Defined.

Lemma tripped_wf : wf tripped.
Proof. vm_compute. repeat split; discriminate. Qed.

Lemma recovers_after_timeout_witness :
  ∃ cb', calls succeeding [(161 * second, 0, 0, 0); (162 * second, 0, 0, 0)] tripped 0%nat = (cb', 2%nat) ∧
    state cb' = StateClosed ∧ failureCount cb' = 0.
Proof.
  apply (recovers_after_timeout tripped (161 * second) 0 0 0 [(162 * second, 0, 0, 0)] 0).
  - exact tripped_wf.
  - reflexivity.
  - reflexivity.
  - reflexivity.
Defined.

Lemma half_open_unlimited_witness :
  ∃ cb', steps (Sys tripped 0) (replicate 1000 (LAdmit (161 * second) 0)) (Sys cb' 1000) ∧
    state cb' = StateHalfOpen.
Proof.
  apply (half_open_unlimited tripped 0 999 (161 * second) 0).
  - exact tripped_wf.
  - reflexivity.
  - reflexivity.
Defined.
