(* ===== verification/LoadBalancer.v ===== *)
(** * Load balancing strategies

    Models [src/internal/loadbalancer/]: [RoundRobin], [Random] and
    [LeastConnections], the [Strategy] interface and its factory.

    Every method body runs under the strategy's own lock, so a method is one
    atomic transition on the strategy's state.  Go's [math/rand] generator is
    the class [Rand]: a state and its [Intn], with the documented range as law.
    [Balancer] is what the proxy relies on: it is stated once, discharged for
    each strategy, and the proxy's theorems use nothing else. *)

From stdpp Require Import gmultiset.
From S2P Require Import Prelude.

(** ** Round robin *)

Record RoundRobin := { current : Z }.

Definition NewRoundRobin : RoundRobin := {| current := 0 |}.

Definition RoundRobin_Next (targets : list string) : Comp RoundRobin string :=
  if decide (targets = []) then mret ""
  else
    r ← get_state;
    target ← slice_index targets (Z.rem (current r) (Z.of_nat (length targets)));
    put_state {| current := wrap64 (current r + 1) |};;
    mret target.

(** ** Random *)

Class Rand (G : Type) := {
  rand_new : Z → G;
  rand_intn : Z → G → G * Z
}.

(** [Intn(n)] returns an integer in [[0, n)] for positive [n]. *)
Class RandLaws (G : Type) `{Rand G} : Prop :=
  rand_intn_range : ∀ (n : Z) (g : G), 0 < n → 0 <= (rand_intn n g).2 < n.

Record Random (G : Type) := { rng : G }.
Arguments rng {G} _.

Definition NewRandom {G} `{Rand G} (now : time) : Random G := {| rng := rand_new (wrap64 now) |}.

Definition Random_Next {G} `{Rand G} (targets : list string) : Comp (Random G) string :=
  if decide (targets = []) then mret ""
  else
    r ← get_state;
    let '(g, i) := rand_intn (Z.of_nat (length targets)) (rng r) in
    put_state {| rng := g |};;
    slice_index targets i.

(** ** Least connections *)

Record LeastConnections := { connections : gmap string Z }.

Definition NewLeastConnections : LeastConnections := {| connections := ∅ |}.

(** [l.connections[target]]: a missing key reads as zero. *)
Definition conn (l : LeastConnections) (target : string) : Z :=
  default 0 (connections l !! target).

(** The body of the loop over the targets, on [selected] and [minConn]. *)
Definition lc_select (l : LeastConnections) (acc : string * Z) (target : string) : string * Z :=
  let '(selected, minConn) := acc in
  if conn l target <? minConn then (target, conn l target) else (selected, minConn).

Definition LeastConnections_Next (l : LeastConnections) (targets : list string) : string :=
  match targets with
  | [] => ""
  | first :: _ =>
      let '(selected, _) := foldl (lc_select l) ("", max_int64) targets in
      if decide (selected = "") then first else selected
  end.

Definition Increment (target : string) (l : LeastConnections) : LeastConnections :=
  {| connections := <[target := wrap64 (conn l target + 1)]> (connections l) |}.

Definition Decrement (target : string) (l : LeastConnections) : LeastConnections :=
  if conn l target >? 0
  then {| connections := <[target := wrap64 (conn l target - 1)]> (connections l) |}
  else l.

(** ** The interface and its factory *)

Inductive Strategy (G : Type) :=
  | SRoundRobin (r : RoundRobin)
  | SRandom (r : Random G)
  | SLeastConnections (l : LeastConnections).
Arguments SRoundRobin {G} r.
Arguments SRandom {G} r.
Arguments SLeastConnections {G} l.

Definition RoundRobin_Name : string := "round_robin".
Definition Random_Name : string := "random".
Definition LeastConnections_Name : string := "least_connections".

Definition Name {G} (s : Strategy G) : string :=
  match s with
  | SRoundRobin _ => RoundRobin_Name
  | SRandom _ => Random_Name
  | SLeastConnections _ => LeastConnections_Name
  end.

(** Dynamic dispatch of [Next] on the strategy behind the interface. *)
Definition Next {G} `{Rand G} (targets : list string) : Comp (Strategy G) string := λ s,
  match s with
  | SRoundRobin r => let '(r, t) := RoundRobin_Next targets r in (SRoundRobin r, t)
  | SRandom r => let '(r, t) := Random_Next targets r in (SRandom r, t)
  | SLeastConnections l => (SLeastConnections l, Ret (LeastConnections_Next l targets))
  end.

Definition NewStrategy {G} `{Rand G} (strategyName : string) (now : time) : Strategy G + string :=
  if decide (strategyName = "round-robin" ∨ strategyName = "round_robin" ∨ strategyName = "")
  then inl (SRoundRobin NewRoundRobin)
  else if decide (strategyName = "random") then inl (SRandom (NewRandom now))
  else if decide (strategyName = "least-connection" ∨ strategyName = "least_connections")
  then inl (SLeastConnections NewLeastConnections)
  else inr ("unknown load balancing strategy: " +:+ strategyName).

(** ** What the proxy relies on

    [bal_ok n s]: the strategy can serve [n] more selections.  A selection from
    a non-empty list returns one of its elements and does not panic. *)
Class Balancer (S : Type) (next : list string → Comp S string) (bal_ok : nat → S → Prop) : Prop :=
  balancer_next : ∀ n targets s, targets ≠ [] → bal_ok (Datatypes.S n) s →
    ∃ s' t, next targets s = (s', Ret t) ∧ t ∈ targets ∧ bal_ok n s'.

(** ** Round robin: lemmas *)

(** The target at position [c] of the endless repetition of the list. *)
Definition rr_pick (targets : list string) (c : Z) : string :=
  default "" (targets !! Z.to_nat (c mod Z.of_nat (length targets))).

Lemma length_pos {A} (l : list A) : l ≠ [] → 0 < Z.of_nat (length l).
Proof. destruct l; [done|simpl; lia]. Qed.

Lemma rr_pick_lookup (targets : list string) (c : Z) :
  targets ≠ [] →
  targets !! Z.to_nat (c mod Z.of_nat (length targets)) = Some (rr_pick targets c).
Proof.
  intros Hne%length_pos. unfold rr_pick.
  pose proof (Z.mod_pos_bound c _ Hne).
  destruct (lookup_lt_is_Some_2 targets (Z.to_nat (c mod Z.of_nat (length targets)))) as [t Ht];
    [lia|]. by rewrite Ht.
Qed.

Lemma rr_pick_in (targets : list string) (c : Z) : targets ≠ [] → rr_pick targets c ∈ targets.
Proof. intros Hne. eapply list_elem_of_lookup_2, rr_pick_lookup, Hne. Qed.

Lemma rr_next (targets : list string) (r : RoundRobin) :
  targets ≠ [] → 0 <= current r →
  RoundRobin_Next targets r = ({| current := wrap64 (current r + 1) |}, Ret (rr_pick targets (current r))).
Proof.
  intros Hne Hc. unfold RoundRobin_Next. rewrite decide_False by done.
  unfold mbind, comp_bind. simpl. pose proof (length_pos _ Hne).
  rewrite (slice_index_Some _ _ (rr_pick targets (current r))); [done|by apply Z.rem_nonneg; lia|].
  rewrite Z.rem_mod_nonneg by lia. by apply rr_pick_lookup.
Qed.

Lemma rr_run (targets : list string) (n : nat) (c : Z) :
  targets ≠ [] → 0 <= c → c + Z.of_nat n <= max_int64 →
  repeat_comp n (RoundRobin_Next targets) {| current := c |} =
    ({| current := c + Z.of_nat n |}, Ret (rr_pick targets <$> seqZ c (Z.of_nat n))).
Proof.
  intros Hne. revert c. induction n as [|n IH]; intros c Hc Hn.
  - simpl. by rewrite Z.add_0_r.
  - rewrite seqZ_cons by lia. cbn [repeat_comp fmap list_fmap].
    erewrite comp_bind_step by by apply rr_next.
    cbn [current]. rewrite wrap64_id by int_solve.
    erewrite comp_bind_step by by apply IH; lia.
    replace (Z.pred (Z.of_nat (S n))) with (Z.of_nat n) by lia.
    by replace (c + Z.of_nat (S n)) with (c + 1 + Z.of_nat n) by lia.
Qed.

Lemma rr_pick_inj (targets : list string) (c d : Z) :
  NoDup targets → targets ≠ [] → Z.abs (c - d) < Z.of_nat (length targets) →
  rr_pick targets c = rr_pick targets d → c = d.
Proof.
  intros Hnd Hne Hlt Heq. pose proof (length_pos _ Hne) as Hpos.
  pose proof (rr_pick_lookup targets c Hne) as H1.
  pose proof (rr_pick_lookup targets d Hne) as H2. rewrite Heq in H1.
  pose proof (NoDup_lookup _ _ _ _ Hnd H1 H2) as Hm.
  pose proof (Z.mod_pos_bound c _ Hpos). pose proof (Z.mod_pos_bound d _ Hpos).
  apply (eq_of_mod_near (Z.of_nat (length targets))); lia.
Qed.

Lemma rr_window_NoDup (targets : list string) (c : Z) (k : nat) :
  NoDup targets → targets ≠ [] → (k <= length targets)%nat →
  NoDup (rr_pick targets <$> seqZ c (Z.of_nat k)).
Proof.
  intros Hnd Hne Hk. apply NoDup_fmap_2_strong; [|apply NoDup_seqZ].
  intros x y Hx%elem_of_seqZ Hy%elem_of_seqZ. apply rr_pick_inj; [done..|lia].
Qed.

(** A full turn visits every target once. *)
Lemma rr_turn (targets : list string) (c : Z) :
  NoDup targets → targets ≠ [] →
  rr_pick targets <$> seqZ c (Z.of_nat (length targets)) ≡ₚ targets.
Proof.
  intros Hnd Hne. apply submseteq_length_Permutation.
  - apply NoDup_submseteq; [by apply rr_window_NoDup|].
    intros t (i & -> & _)%list_elem_of_fmap. by apply rr_pick_in.
  - rewrite length_fmap, length_seqZ. lia.
Qed.

Lemma rr_counts (targets : list string) (t : string) (m : nat) (c : Z) :
  NoDup targets → t ∈ targets →
  let k := occurrences t (rr_pick targets <$> seqZ c (Z.of_nat m)) in
  (m / length targets <= k <= m / length targets + 1)%nat.
Proof.
  intros Hnd Ht. assert (targets ≠ []) as Hne by (by intros ->; apply not_elem_of_nil in Ht).
  assert (0 < length targets)%nat as Hpos by (destruct targets; [done|simpl; lia]).
  revert c. induction (lt_wf m) as [m _ IH]; intros c; simpl.
  destruct (decide (m < length targets)%nat) as [Hlt|Hge].
  - rewrite Nat.div_small by done.
    rewrite occurrences_NoDup by (apply rr_window_NoDup; [done..|lia]). case_decide; lia.
  - assert (m / length targets = (m - length targets) / length targets + 1)%nat as Hdiv.
    { rewrite <- Nat.div_add by lia. f_equal. lia. }
    replace (Z.of_nat m) with (Z.of_nat (length targets) + Z.of_nat (m - length targets)) by lia.
    rewrite seqZ_app, fmap_app, occurrences_app, (occurrences_perm _ _ _ (rr_turn _ _ Hnd Hne)) by lia.
    rewrite (occurrences_NoDup _ _ Hnd), decide_True by done.
    specialize (IH (m - length targets)%nat ltac:(lia) (c + Z.of_nat (length targets))).
    simpl in IH. rewrite Hdiv. lia.
Qed.

(** ** Least connections: lemmas *)

(** The loop keeps its accumulator, or moves to the first target with the
    fewest connections when that is below the accumulated minimum. *)
Lemma lc_select_spec (l : LeastConnections) (targets : list string) (sel : string) (m : Z) :
  let r := foldl (lc_select l) (sel, m) targets in
  (r = (sel, m) ∧ ∀ t, t ∈ targets → m <= conn l t) ∨
  (∃ l1 l2, targets = l1 ++ r.1 :: l2 ∧ r.2 = conn l r.1 ∧ conn l r.1 < m ∧
     (∀ t, t ∈ l1 → conn l r.1 < conn l t) ∧ (∀ t, t ∈ l2 → conn l r.1 <= conn l t)).
Proof.
  revert sel m. induction targets as [|t ts IH]; intros sel m; simpl.
  { left. split; [done|]. intros t Ht. by apply not_elem_of_nil in Ht. }
  destruct (conn l t <? m) eqn:Hlt; bool_to_prop.
  - right. destruct (IH t (conn l t)) as [[-> Hmin]|(l1 & l2 & Hts & Hr & Hc & H1 & H2)].
    + exists [], ts. simpl. split_and!; [done..|set_solver|done].
    + exists (t :: l1), l2. simpl. split_and!; [by f_equal|done|lia| |done].
      intros t' [->|Ht']%elem_of_cons; [done|by apply H1].
  - destruct (IH sel m) as [[-> Hmin]|(l1 & l2 & Hts & Hr & Hc & H1 & H2)].
    + left. split; [done|]. intros t' [->|Ht']%elem_of_cons; [lia|by apply Hmin].
    + right. exists (t :: l1), l2. simpl. split_and!; [by f_equal|done|done| |done].
      intros t' [->|Ht']%elem_of_cons; [lia|by apply H1].
Qed.

Lemma lc_next_in (l : LeastConnections) (targets : list string) :
  targets ≠ [] → LeastConnections_Next l targets ∈ targets.
Proof.
  destruct targets as [|first ts]; [done|]. intros _. unfold LeastConnections_Next.
  destruct (lc_select_spec l (first :: ts) "" max_int64) as [[-> _]|(l1 & l2 & Hts & _)].
  - rewrite decide_True by done. set_solver.
  - destruct (foldl _ _ _) as [sel m]. simpl in Hts. case_decide; [set_solver|].
    rewrite Hts. set_solver.
Qed.

Lemma conn_Increment (l : LeastConnections) (t u : string) :
  conn (Increment t l) u = if decide (t = u) then wrap64 (conn l t + 1) else conn l u.
Proof.
  unfold conn at 1, Increment. simpl. case_decide; subst.
  - by rewrite lookup_insert_eq.
  - by rewrite lookup_insert_ne.
Qed.

Lemma conn_Decrement (l : LeastConnections) (t u : string) :
  conn (Decrement t l) u =
    if decide (t = u ∧ 0 < conn l t) then wrap64 (conn l t - 1) else conn l u.
Proof.
  unfold Decrement. rewrite Z.gtb_ltb. case_bool.
  - unfold conn at 1. simpl. case_decide as Hd.
    + destruct Hd as [-> _]. by rewrite lookup_insert_eq.
    + rewrite lookup_insert_ne; [done|]. naive_solver.
  - rewrite decide_False; [done|]. lia.
Qed.

(** Requests in flight: each has incremented the counter of its target and
    will decrement it when it finishes, by return or by panic. *)
Inductive lc_event := LStart (t : string) | LFinish (t : string).

Inductive lc_steps : LeastConnections → gmultiset string → list lc_event →
    LeastConnections → gmultiset string → Prop :=
  | lc_nil l fl : lc_steps l fl [] l fl
  | lc_start l fl t evs l' fl' :
      lc_steps (Increment t l) ({[+ t +]} ⊎ fl) evs l' fl' →
      lc_steps l fl (LStart t :: evs) l' fl'
  | lc_finish l fl t evs l' fl' :
      t ∈ fl → lc_steps (Decrement t l) (fl ∖ {[+ t +]}) evs l' fl' →
      lc_steps l fl (LFinish t :: evs) l' fl'.

Lemma lc_steps_counts (l l' : LeastConnections) (fl fl' : gmultiset string) (evs : list lc_event) (b : Z) :
  lc_steps l fl evs l' fl' →
  (∀ t, conn l t = Z.of_nat (multiplicity t fl) ∧ conn l t <= b) →
  b + Z.of_nat (length evs) <= max_int64 →
  ∀ t, conn l' t = Z.of_nat (multiplicity t fl') ∧ conn l' t <= b + Z.of_nat (length evs).
Proof.
  intros Hs. revert b.
  induction Hs as [l fl|l fl t evs l' fl' _ IH|l fl t evs l' fl' Hin _ IH]; intros b Hc Hb u; simpl in *.
  - specialize (Hc u). lia.
  - destruct (IH (b + 1)) with (t := u) as [? ?]; [|lia|lia]. clear u. intros u.
    rewrite conn_Increment, multiplicity_disj_union, multiplicity_singleton.
    pose proof (Hc t). pose proof (Hc u). case_decide; subst.
    + rewrite decide_True by done. rewrite wrap64_id by int_solve. lia.
    + rewrite decide_False by done. lia.
  - destruct (IH b) with (t := u) as [? ?]; [|lia|lia]. clear u. intros u.
    rewrite conn_Decrement, multiplicity_difference, multiplicity_singleton.
    pose proof (Hc t). pose proof (Hc u). pose proof (proj1 (elem_of_multiplicity _ _) Hin).
    case_decide as Hd; [destruct Hd as [-> Hd]; rewrite decide_True by done; rewrite wrap64_id by int_solve; lia|].
    rewrite decide_False; [lia|]. intros ->. apply Hd. split; [done|lia].
Qed.

Lemma lc_reachable_counts (l : LeastConnections) (fl : gmultiset string) (evs : list lc_event) :
  lc_steps NewLeastConnections ∅ evs l fl → Z.of_nat (length evs) < max_int64 →
  ∀ t, conn l t = Z.of_nat (multiplicity t fl) ∧ conn l t < max_int64.
Proof.
  intros Hs Hlen t.
  destruct (lc_steps_counts _ _ _ _ _ 0 Hs) with (t := t) as [? ?]; [|lia|lia].
  intros u. rewrite multiplicity_empty. unfold conn. simpl. rewrite lookup_empty. simpl. lia.
Qed.

(** ** The strategies as balancers *)

Definition rr_ok (n : nat) (r : RoundRobin) : Prop :=
  n = 0%nat ∨ (0 <= current r ∧ current r + Z.of_nat n <= max_int64 + 1).

#[export] Instance RoundRobin_Balancer : Balancer RoundRobin RoundRobin_Next rr_ok.
Proof.
  intros n targets r Hne [?|[Hc Hn]]; [done|]. do 2 eexists. split; [by apply rr_next|].
  split; [by apply rr_pick_in|]. unfold rr_ok. simpl. destruct n as [|n]; [by left|right].
  rewrite wrap64_succ by int_solve. case_decide; lia.
Qed.

#[export] Instance LeastConnections_Balancer :
  Balancer LeastConnections (λ ts l, (l, Ret (LeastConnections_Next l ts))) (λ _ _, True).
Proof. intros n targets l Hne _. do 2 eexists. split; [done|]. split; [by apply lc_next_in|done]. Qed.

#[export] Instance Random_Balancer {G} `{RandLaws G} :
  Balancer (Random G) Random_Next (λ _ _, True).
Proof.
  intros n targets r Hne _. unfold Random_Next. rewrite decide_False by done.
  unfold mbind, comp_bind. simpl. pose proof (length_pos _ Hne) as Hpos.
  pose proof (rand_intn_range _ (rng r) Hpos) as Hr.
  destruct (rand_intn (Z.of_nat (length targets)) (rng r)) as [g i]; simpl in *.
  destruct (lookup_lt_is_Some_2 targets (Z.to_nat i)) as [t Ht]; [lia|].
  do 2 eexists. split; [apply slice_index_Some; [lia|done]|].
  split; [by eapply list_elem_of_lookup_2|done].
Qed.

(** The budget of a strategy behind the interface. *)
Definition strategy_ok {G} (n : nat) (s : Strategy G) : Prop :=
  match s with
  | SRoundRobin r => rr_ok n r
  | _ => True
  end.

Lemma strategy_less {G} (n : nat) (s : Strategy G) : strategy_ok (S n) s → strategy_ok n s.
Proof. destruct s; simpl; [|done..]. intros [?|?]; [done|]. destruct n; [by left|right; lia]. Qed.

#[export] Instance Strategy_Balancer {G} `{RandLaws G} : Balancer (Strategy G) Next strategy_ok.
Proof.
  intros n targets [r|r|l] Hne Hok; simpl.
  - destruct (balancer_next n targets r Hne Hok) as (r' & t & -> & ? & ?). by exists (SRoundRobin r'), t.
  - destruct (balancer_next n targets r Hne I) as (r' & t & -> & ? & ?). by exists (SRandom r'), t.
  - exists (SLeastConnections l), (LeastConnections_Next l targets). split; [done|].
    split; [by apply lc_next_in|done].
Qed.

(** ** Theorems *)

(** Every strategy, behind the interface, returns one of the targets it was
    given and does not panic; a round robin does so until its counter has
    counted to the largest integer. *)
Theorem next_selects_target {G} `{RandLaws G} (n : nat) (targets : list string) (s : Strategy G)
    (Hne : targets ≠ []) (Hok : strategy_ok (S n) s) :
  ∃ s' t, Next targets s = (s', Ret t) ∧ t ∈ targets ∧ strategy_ok n s'.
Proof. by apply balancer_next. Qed.

(** Round robin is fair.  Over any [m] consecutive selections from a fixed
    list of [k] distinct targets, each target is selected [m / k] times or
    once more. *)
Theorem round_robin_fair (targets : list string) (t : string) (m : nat) (c : Z)
    (Hnd : NoDup targets) (Ht : t ∈ targets) (Hc : 0 <= c)
    (Hm : c + Z.of_nat m <= max_int64) :
  ∃ r picks, repeat_comp m (RoundRobin_Next targets) {| current := c |} = (r, Ret picks) ∧
    (m / length targets <= occurrences t picks <= m / length targets + 1)%nat.
Proof.
  do 2 eexists. split.
  - apply rr_run; [|done..]. intros ->. by apply not_elem_of_nil in Ht.
  - by apply rr_counts.
Qed.

(** The counter of a round robin is never reduced, so it overflows: the
    selection at the largest integer leaves it negative, and the next one
    indexes the list with a negative remainder and panics, unless the number
    of targets divides [2^63]. *)
Theorem round_robin_overflow_panics (targets : list string) (Hne : targets ≠ [])
    (Hrem : Z.rem min_int64 (Z.of_nat (length targets)) ≠ 0) :
  ∃ t msg, RoundRobin_Next targets {| current := max_int64 |} = ({| current := min_int64 |}, Ret t) ∧
    RoundRobin_Next targets {| current := min_int64 |} = ({| current := min_int64 |}, Panic msg).
Proof.
  do 2 eexists. split; [by apply (rr_next targets {| current := max_int64 |})|].
  unfold RoundRobin_Next. rewrite decide_False by done. unfold mbind, comp_bind. simpl.
  unfold slice_index. rewrite decide_False; [done|].
  pose proof (Z.rem_nonpos min_int64 (Z.of_nat (length targets))).
  pose proof (length_pos _ Hne). unfold min_int64 in *. lia.
Qed.

(** With all connection counts below the largest integer and no empty
    target, [LeastConnections.Next] returns the first of the targets that have
    the fewest connections. *)
Theorem least_connections_minimal (l : LeastConnections) (targets : list string)
    (Hne : targets ≠ []) (Hlt : ∀ t, t ∈ targets → conn l t < max_int64) (Hemp : "" ∉ targets) :
  let t := LeastConnections_Next l targets in
  ∃ l1 l2, targets = l1 ++ t :: l2 ∧ (∀ u, u ∈ l1 → conn l t < conn l u) ∧
    (∀ u, u ∈ targets → conn l t <= conn l u).
Proof.
  destruct targets as [|first ts]; [done|]. unfold LeastConnections_Next.
  destruct (lc_select_spec l (first :: ts) "" max_int64) as [[-> Hmin]|(l1 & l2 & Hts & _ & Hc & H1 & H2)].
  - pose proof (Hmin first (list_elem_of_here _ _)). pose proof (Hlt first (list_elem_of_here _ _)). lia.
  - destruct (foldl _ _ _) as [sel m]. simpl in *.
    rewrite decide_False by (intros ->; apply Hemp; rewrite Hts; set_solver).
    exists l1, l2. split_and!; [done..|]. intros u Hu. rewrite Hts in Hu.
    apply elem_of_app in Hu as [Hu|[->|Hu]%elem_of_cons]; [apply H1 in Hu; lia|lia|by apply H2].
Qed.

(** C17: The connection counters are exact.  After any interleaving of requests
    that start and finish, the counter of a target is the number of requests
    to it that are in flight; once all have finished, it is zero. *)
Theorem least_connections_exact (l : LeastConnections) (fl : gmultiset string) (evs : list lc_event) :
  lc_steps NewLeastConnections ∅ evs l fl → Z.of_nat (length evs) < max_int64 →
  ∀ t, conn l t = Z.of_nat (multiplicity t fl).
Proof. intros Hs Hlen t. by apply (lc_reachable_counts l fl evs). Qed.

(** The factory: the names of the configuration file and the empty name give
    the strategy they denote, and any other name is an error. *)
Theorem new_strategy_total {G} `{Rand G} (name : string) (now : time) :
  match NewStrategy name now : Strategy G + string with
  | inl s => (name ∈ ["round-robin"; "round_robin"; ""] ∧ Name s = "round_robin") ∨
             (name = "random" ∧ Name s = "random") ∨
             (name ∈ ["least-connection"; "least_connections"] ∧ Name s = "least_connections")
  | inr e => name ∉ ["round-robin"; "round_robin"; ""; "random"; "least-connection"; "least_connections"]
  end.
Proof. unfold NewStrategy. repeat case_decide; simpl; set_solver. Qed.

(** ** Witnesses *)

(** A generator that counts: its [Intn] is in range. *)
#[export] Instance counting_rand : Rand Z := {|
  rand_new := λ seed, seed;
  rand_intn := λ n g, (g + 1, g mod n)
|}.

#[export] Instance counting_rand_laws : RandLaws Z.
Proof. intros n g Hn. by apply Z.mod_pos_bound. Qed.

Lemma next_selects_target_witness :
  ∃ s' t, Next ["a"; "b"] (SRandom {| rng := 7 |} : Strategy Z) = (s', Ret t) ∧ t ∈ ["a"; "b"] ∧
    strategy_ok 0 s'.
Proof. apply (next_selects_target 0 ["a"; "b"] (SRandom {| rng := 7 |} : Strategy Z)); [discriminate|exact I]. Defined.

Lemma round_robin_fair_witness :
  ∃ r picks, repeat_comp 7 (RoundRobin_Next ["a"; "b"; "c"]) {| current := 5 |} = (r, Ret picks) ∧
    (2 <= occurrences "b" picks <= 3)%nat.
Proof.
  apply (round_robin_fair ["a"; "b"; "c"] "b" 7 5).
  - repeat (constructor; [set_solver|]). constructor.
  - set_solver.
  - discriminate.
  - vm_compute. discriminate.
Defined.

Lemma round_robin_overflow_panics_witness :
  ∃ t msg, RoundRobin_Next ["a"; "b"; "c"] {| current := max_int64 |} = ({| current := min_int64 |}, Ret t) ∧
    RoundRobin_Next ["a"; "b"; "c"] {| current := min_int64 |} = ({| current := min_int64 |}, Panic msg).
Proof. apply (round_robin_overflow_panics ["a"; "b"; "c"]); [discriminate|]. vm_compute. discriminate. Defined.

Lemma least_connections_minimal_witness :
  let l := Increment "a" NewLeastConnections in
  let t := LeastConnections_Next l ["a"; "b"; "c"] in
  ∃ l1 l2, ["a"; "b"; "c"] = l1 ++ t :: l2 ∧ (∀ u, u ∈ l1 → conn l t < conn l u) ∧
    (∀ u, u ∈ ["a"; "b"; "c"] → conn l t <= conn l u).
Proof.
  apply (least_connections_minimal (Increment "a" NewLeastConnections) ["a"; "b"; "c"]).
  - discriminate.
  - intros t Ht. repeat (apply elem_of_cons in Ht as [->|Ht]; [reflexivity|]).
    by apply not_elem_of_nil in Ht.
  - set_solver.
Defined.

Lemma least_connections_exact_witness :
  conn (Decrement "a" (Increment "b" (Increment "a" NewLeastConnections))) "a" =
    Z.of_nat (multiplicity "a" (({[+ "b" +]} ⊎ ({[+ "a" +]} ⊎ ∅)) ∖ {[+ "a" +]} : gmultiset string)).
Proof.
  apply (least_connections_exact _ _ [LStart "a"; LStart "b"; LFinish "a"]).
  - apply lc_start, lc_start, lc_finish; [multiset_solver|constructor].
  - reflexivity.
Defined.
