(* ===== verification/HealthCheck.v ===== *)
(** * Health checking

    Models [src/internal/healthcheck/checker.go] and [status.go].

    A round ([checkAll]) probes every target in a goroutine of its own; all a
    goroutine does to the checker is one critical section, [recordSuccess] or
    [recordFailure].  A round is therefore a sequence of such sections in an
    order the scheduler picks, followed by [updateHealthyTargets]; the order is
    an argument.  What the HTTP client reports for a probe is an argument too.
    The relation [life] interleaves the critical sections of [Start], [Stop] and
    of the goroutines that probe. *)

From S2P Require Import Prelude.

(** ** Data *)

Record Status := {
  Target : string;
  IsHealthy : bool;
  LastCheck : time;
  LastSuccess : time;
  LastFailure : time;
  FailureCount : Z
}.

Inductive HealthStatus := Healthy | Degraded | Unhealthy.

Definition HealthStatus_String (h : HealthStatus) : string :=
  match h with
  | Healthy => "healthy"
  | Degraded => "degraded"
  | Unhealthy => "unhealthy"
  end.

Record Config := {
  Targets : list string;
  Endpoint : string;
  Interval : duration;
  Timeout : duration;
  MaxFailures : Z
}.

(** [stopClosed]: whether [stopChan] has been closed. *)
Record Checker := {
  targets : list string;
  healthStatus : gmap string Status;
  healthyTargets : list string;
  endpoint : string;
  interval : duration;
  timeout : duration;
  maxFailures : Z;
  stopClosed : bool;
  running : bool
}.

Definition set_healthStatus (m : gmap string Status) (c : Checker) : Checker := {|
  targets := targets c; healthStatus := m; healthyTargets := healthyTargets c;
  endpoint := endpoint c; interval := interval c; timeout := timeout c;
  maxFailures := maxFailures c; stopClosed := stopClosed c; running := running c |}.

Definition set_healthyTargets (l : list string) (c : Checker) : Checker := {|
  targets := targets c; healthStatus := healthStatus c; healthyTargets := l;
  endpoint := endpoint c; interval := interval c; timeout := timeout c;
  maxFailures := maxFailures c; stopClosed := stopClosed c; running := running c |}.

Definition set_running (closed run : bool) (c : Checker) : Checker := {|
  targets := targets c; healthStatus := healthStatus c; healthyTargets := healthyTargets c;
  endpoint := endpoint c; interval := interval c; timeout := timeout c;
  maxFailures := maxFailures c; stopClosed := closed; running := run |}.

(** What the probe of a target gave: the request could not be built, it failed
    (a timeout included), or it was answered with a status code. *)
Inductive probe := BadRequest | NoResponse | Response (code : Z).

(** ** Operations *)

(** The status a target starts with. *)
Definition initial_status (target : string) (now : time) : Status := {|
  Target := target; IsHealthy := true; LastCheck := now;
  LastSuccess := zero_time; LastFailure := zero_time; FailureCount := 0 |}.

(** [NewChecker]; [now i] is the clock reading of the loop's [i]-th turn. *)
Definition NewChecker (cfg : Config) (now : nat → time) : Checker := {|
  targets := Targets cfg;
  healthStatus :=
    foldl (λ m '(i, target), <[target := initial_status target (now i)]> m) ∅
      (imap pair (Targets cfg));
  healthyTargets := [];
  endpoint := if decide (Endpoint cfg = "") then "/health" else Endpoint cfg;
  interval := if Interval cfg <=? 0 then 10 * second else Interval cfg;
  timeout := if Timeout cfg <=? 0 then 5 * second else Timeout cfg;
  maxFailures := if MaxFailures cfg <=? 0 then 3 else MaxFailures cfg;
  stopClosed := false;
  running := false
|}.

Definition success_status (t1 t2 : time) (s : Status) : Status := {|
  Target := Target s; IsHealthy := true; LastCheck := t1; LastSuccess := t2;
  LastFailure := LastFailure s; FailureCount := 0 |}.

Definition failure_status (maxF : Z) (t1 t2 : time) (s : Status) : Status :=
  let n := wrap64 (FailureCount s + 1) in {|
  Target := Target s;
  IsHealthy := if IsHealthy s && (n >=? maxF) then false else IsHealthy s;
  LastCheck := t1; LastSuccess := LastSuccess s; LastFailure := t2; FailureCount := n |}.

(** [status := c.healthStatus[target]], a pointer: an update through it panics
    when the map has no such key. *)
Definition update_status (target : string) (f : Status → Status) : Comp Checker unit :=
  c ← get_state;
  match healthStatus c !! target with
  | Some s => put_state (set_healthStatus (<[target := f s]> (healthStatus c)) c)
  | None => panic "invalid memory address or nil pointer dereference"
  end.

Definition recordSuccess (target : string) (t1 t2 : time) : Comp Checker unit :=
  update_status target (success_status t1 t2).

Definition recordFailure (target : string) (t1 t2 : time) : Comp Checker unit :=
  c ← get_state;
  update_status target (failure_status (maxFailures c) t1 t2).

(** [checkTarget]; [client] is the answer of the HTTP client to a [GET] of a URL. *)
Definition checkTarget (client : string → probe) (target : string) (t1 t2 : time)
    : Comp Checker unit :=
  c ← get_state;
  let url := target +:+ endpoint c in
  match client url with
  | BadRequest => recordFailure target t1 t2
  | NoResponse => recordFailure target t1 t2
  | Response code =>
      if (code >=? 200) && (code <? 400) then recordSuccess target t1 t2
      else recordFailure target t1 t2
  end.

(** [updateHealthyTargets]: its loop dereferences the status of each target. *)
Fixpoint healthy_of (m : gmap string Status) (ts : list string) : option (list string) :=
  match ts with
  | [] => Some []
  | t :: ts =>
      match m !! t, healthy_of m ts with
      | Some s, Some l => Some (if IsHealthy s then t :: l else l)
      | _, _ => None
      end
  end.

Definition updateHealthyTargets : Comp Checker unit :=
  c ← get_state;
  match healthy_of (healthStatus c) (targets c) with
  | Some l => put_state (set_healthyTargets l c)
  | None => panic "invalid memory address or nil pointer dereference"
  end.

(** One goroutine of a round: its target, what the client answers it and the
    clock readings of its critical section. *)
Record job := { j_target : string; j_client : string → probe; j_t1 : time; j_t2 : time }.

Definition run_job (j : job) : Comp Checker unit :=
  checkTarget (j_client j) (j_target j) (j_t1 j) (j_t2 j).

Fixpoint run_jobs (js : list job) : Comp Checker unit :=
  match js with
  | [] => mret tt
  | j :: js => run_job j;; run_jobs js
  end.

(** [checkAll], with its goroutines in the order their sections ran. *)
Definition checkAll (js : list job) : Comp Checker unit :=
  run_jobs js;; updateHealthyTargets.

(** The jobs of a round are one goroutine per element of [c.targets]. *)
Definition round_of (js : list job) (c : Checker) : Prop := j_target <$> js ≡ₚ targets c.

(** The critical section of [Start]: whether it goes on. *)
Definition start_section : Comp Checker bool :=
  c ← get_state;
  if running c then mret false
  else put_state (set_running (stopClosed c) true c);; mret true.

(** [Start]: the initial round, when not running; the result says whether the
    background loop was started. *)
Definition Start (js : list job) : Comp Checker bool :=
  go_on ← start_section;
  if (go_on : bool) then checkAll js;; mret true else mret false.

(** [Stop]: closing a closed channel panics. *)
Definition Stop : Comp Checker unit :=
  c ← get_state;
  if running c then
    if stopClosed c then panic "close of closed channel"
    else put_state (set_running true false c)
  else mret tt.

(** The copies the accessors return. *)
Definition GetHealthyTargets (c : Checker) : list string := healthyTargets c.
Definition GetAllTargets (c : Checker) : list string := targets c.
Definition GetStatus (c : Checker) (target : string) : option Status := healthStatus c !! target.
Definition GetAllStatus (c : Checker) : gmap string Status := healthStatus c.

Definition OverallHealth (c : Checker) : HealthStatus :=
  let totalTargets := length (targets c) in
  let healthyCount := length (healthyTargets c) in
  if decide (healthyCount = 0%nat) then Unhealthy
  else if decide (healthyCount < totalTargets)%nat then Degraded
  else Healthy.

(** ** Goroutines

    A goroutine of the checker is in the loop that [Start] leaves behind, at its
    [select], or in a round, [checkAll]: the probes of [pending] have not recorded
    their results yet.  What takes the lock is one step: the sections of [Start]
    and [Stop], the recording of one probe, and [updateHealthyTargets]; between
    them everything else may run, rounds of other goroutines included. *)
Inductive goroutine :=
  | Loop
  | Round (pending : list string).

(** A loop begins a round on a tick of its ticker and ends once the channel is
    closed; when both are ready, [select] picks either.  The goroutine of
    [Start] goes from its first round to the loop as the others do. *)
Inductive life : Checker * list goroutine → Checker * list goroutine → Prop :=
  | life_start c c' gs go_on :
      start_section c = (c', Ret go_on) →
      life (c, gs) (c', if go_on then Round (targets c) :: gs else gs)
  | life_stop c c' gs : Stop c = (c', Ret tt) → life (c, gs) (c', gs)
  | life_tick c gs1 gs2 : life (c, gs1 ++ Loop :: gs2) (c, gs1 ++ Round (targets c) :: gs2)
  | life_probe j c c' ps1 ps2 gs1 gs2 :
      run_job j c = (c', Ret tt) →
      life (c, gs1 ++ Round (ps1 ++ j_target j :: ps2) :: gs2) (c', gs1 ++ Round (ps1 ++ ps2) :: gs2)
  | life_update c c' gs1 gs2 :
      updateHealthyTargets c = (c', Ret tt) → life (c, gs1 ++ Round [] :: gs2) (c', gs1 ++ Loop :: gs2)
  | life_exit c gs1 gs2 : stopClosed c = true → life (c, gs1 ++ Loop :: gs2) (c, gs1 ++ gs2).

(** ** The invariant

    Every target has a status, its failure counter counts from zero to at most
    [b], and the target is unhealthy exactly when the counter has reached the
    threshold; the healthy list is part of the target list. *)

Definition status_ok (maxF b : Z) (s : Status) : Prop :=
  0 <= FailureCount s <= b ∧ IsHealthy s = (FailureCount s <? maxF).

Record inv (b : Z) (c : Checker) : Prop := {
  inv_config : 0 < maxFailures c <= max_int64;
  inv_dom : ∀ t, t ∈ targets c → is_Some (healthStatus c !! t);
  inv_status : ∀ t s, healthStatus c !! t = Some s → status_ok (maxFailures c) b s;
  inv_healthy : healthyTargets c `sublist_of` targets c
}.

(** ** Lemmas *)

(** Whether a probe counts as a success: any 2xx or 3xx answer. *)
Definition probe_ok (p : probe) : bool :=
  match p with
  | Response code => (code >=? 200) && (code <? 400)
  | _ => false
  end.

(** The effect of a job on the status of its target. *)
Definition check_status (maxF : Z) (ok : bool) (t1 t2 : time) : Status → Status :=
  if ok then success_status t1 t2 else failure_status maxF t1 t2.

Definition job_ok (ep : string) (j : job) : bool := probe_ok (j_client j (j_target j +:+ ep)).

Definition job_status (c : Checker) (j : job) : Status → Status :=
  check_status (maxFailures c) (job_ok (endpoint c) j) (j_t1 j) (j_t2 j).

Lemma run_job_eq (j : job) (c : Checker) :
  run_job j c =
    match healthStatus c !! j_target j with
    | Some s => (set_healthStatus (<[j_target j := job_status c j s]> (healthStatus c)) c, Ret tt)
    | None => (c, Panic "invalid memory address or nil pointer dereference")
    end.
Proof.
  unfold run_job, checkTarget, job_status, job_ok, check_status, recordSuccess, recordFailure,
    update_status, mbind, comp_bind. simpl.
  destruct (j_client j _) as [| |code]; simpl; try case_bool; simpl;
    by destruct (healthStatus c !! j_target j).
Qed.

(** The statuses after a sequence of jobs, each of which finds its target. *)
Definition jobs_status (c : Checker) (js : list job) (m : gmap string Status) : gmap string Status :=
  foldl (λ m j, alter (job_status c j) (j_target j) m) m js.

Lemma run_jobs_eq (js : list job) (c : Checker) :
  (∀ j, j ∈ js → is_Some (healthStatus c !! j_target j)) →
  run_jobs js c = (set_healthStatus (jobs_status c js (healthStatus c)) c, Ret tt).
Proof.
  revert c. induction js as [|j js IH]; intros c Hin; simpl; [by destruct c|].
  destruct (Hin j) as [s Hs]; [set_solver|].
  erewrite comp_bind_step by (rewrite run_job_eq, Hs; done).
  rewrite IH; simpl.
  - unfold jobs_status. simpl. unfold set_healthStatus. simpl. repeat f_equal.
    apply map_eq. intros t. rewrite lookup_alter, lookup_insert.
    case_decide; subst; [by rewrite Hs|done].
  - intros j' Hj'. rewrite lookup_insert. case_decide; [done|]. apply Hin. set_solver.
Qed.

(** With distinct targets, each status is changed by its own job only. *)
Lemma jobs_status_lookup (c : Checker) (js : list job) (m : gmap string Status) (t : string) :
  NoDup (j_target <$> js) →
  jobs_status c js m !! t =
    match (list_to_map ((λ j, (j_target j, j)) <$> js) : gmap string job) !! t with
    | Some j => job_status c j <$> m !! t
    | None => m !! t
    end.
Proof.
  revert m. induction js as [|j js IH]; intros m Hnd; simpl; [done|].
  inversion_clear Hnd as [|? ? Hj Hjs]. unfold jobs_status in *. simpl. rewrite IH by done.
  rewrite lookup_alter, lookup_insert. case_decide; subst; [|done].
  rewrite (not_elem_of_list_to_map_1 _ (j_target j)); [done|].
  rewrite <- list_fmap_compose. done.
Qed.

Lemma jobs_status_is_Some (c : Checker) (js : list job) (m : gmap string Status) (t : string) :
  is_Some (m !! t) → is_Some (jobs_status c js m !! t).
Proof.
  unfold jobs_status. revert m. induction js as [|j js IH]; [done|].
  intros m Hm. apply IH. rewrite lookup_alter.
  case_decide; subst; [by rewrite fmap_is_Some|done].
Qed.

Lemma healthy_of_eq (m : gmap string Status) (ts : list string) :
  (∀ t, t ∈ ts → is_Some (m !! t)) →
  healthy_of m ts = Some (filter (λ t, IsHealthy <$> m !! t = Some true) ts).
Proof.
  induction ts as [|t ts IH]; intros Hin; simpl; [done|].
  destruct (Hin t) as [s Hs]; [set_solver|]. rewrite Hs, IH by set_solver.
  rewrite filter_cons, Hs. simpl. destruct (IsHealthy s); [by rewrite decide_True|by rewrite decide_False].
Qed.

Lemma checkAll_eq (js : list job) (c : Checker) :
  (∀ t, t ∈ targets c → is_Some (healthStatus c !! t)) → round_of js c →
  let m := jobs_status c js (healthStatus c) in
  checkAll js c =
    (set_healthyTargets (filter (λ t, IsHealthy <$> m !! t = Some true) (targets c))
      (set_healthStatus m c), Ret tt).
Proof.
  intros Hdom Hround m. unfold checkAll.
  erewrite comp_bind_step; [|apply run_jobs_eq].
  - unfold updateHealthyTargets, mbind, comp_bind. simpl.
    rewrite healthy_of_eq; [done|]. intros t Ht. by apply jobs_status_is_Some, Hdom.
  - intros j Hj. apply Hdom. rewrite <- Hround. by apply list_elem_of_fmap_2.
Qed.

(** A failure moves a target that was below the threshold across it. *)
Lemma threshold_step (n m : Z) :
  (if (n <? m) && (n + 1 >=? m) then false else n <? m) = (n + 1 <? m).
Proof.
  rewrite Z.geb_leb. destruct (Z.ltb_spec n m), (Z.leb_spec m (n + 1)), (Z.ltb_spec (n + 1) m);
    simpl; (done || lia).
Qed.

Lemma check_status_ok (maxF b : Z) (ok : bool) (t1 t2 : time) (s : Status) :
  0 < maxF <= max_int64 → status_ok maxF b s → b < max_int64 →
  status_ok maxF (b + 1) (check_status maxF ok t1 t2 s).
Proof.
  unfold status_ok, check_status. intros HF [Hb Hh] Hlt. destruct ok; simpl.
  - split; [lia|]. symmetry. apply Z.ltb_lt. lia.
  - rewrite wrap64_id by int_solve. split; [lia|]. rewrite Hh.
    apply threshold_step.
Qed.

Lemma jobs_status_ok (c : Checker) (js : list job) (m : gmap string Status) (b : Z) :
  0 < maxFailures c <= max_int64 → b + Z.of_nat (length js) <= max_int64 →
  (∀ t s, m !! t = Some s → status_ok (maxFailures c) b s) →
  ∀ t s, jobs_status c js m !! t = Some s → status_ok (maxFailures c) (b + Z.of_nat (length js)) s.
Proof.
  intros HF. unfold jobs_status. revert m b. induction js as [|j js IH]; intros m b Hb Hm t s; simpl.
  - rewrite Z.add_0_r. apply Hm.
  - intros Hs. simpl in Hb.
    replace (b + Z.of_nat (S (length js))) with ((b + 1) + Z.of_nat (length js)) by lia.
    eapply IH; [lia| |exact Hs]. intros u s'. rewrite lookup_alter. case_decide; subst.
    + rewrite fmap_Some. intros (s0 & Hs0 & ->). apply check_status_ok; [done|by eapply Hm|lia].
    + intros Hu. destruct (Hm u s' Hu) as [? ?]. split; [lia|done].
Qed.

Lemma checkAll_inv (js : list job) (c : Checker) (b : Z) :
  inv b c → round_of js c → b + Z.of_nat (length (targets c)) <= max_int64 →
  ∃ c', checkAll js c = (c', Ret tt) ∧ inv (b + Z.of_nat (length (targets c))) c' ∧
    targets c' = targets c ∧ stopClosed c' = stopClosed c ∧ running c' = running c.
Proof.
  intros [HF Hdom Hst Hh] Hround Hb. eexists. split; [by apply checkAll_eq|].
  assert (length js = length (targets c)) as Hlen by (by rewrite <- Hround, length_fmap).
  split_and!; try done. split; simpl; [done| | |].
  - intros t Ht. by apply jobs_status_is_Some, Hdom.
  - rewrite <- Hlen. apply jobs_status_ok; [done|lia|done].
  - apply sublist_filter.
Qed.

(** The initial map: each target of the list has an initial status. *)
Lemma initial_lookup (now : nat → time) (l : list (nat * string)) (m : gmap string Status) (t : string) :
  let m' := foldl (λ m '(i, target), <[target := initial_status target (now i)]> m) m l in
  (t ∈ l.*2 → ∃ i, m' !! t = Some (initial_status t (now i))) ∧ (t ∉ l.*2 → m' !! t = m !! t).
Proof.
  revert m. induction l as [|[i u] l IH]; intros m; simpl.
  { split; [intros H; by apply not_elem_of_nil in H|done]. }
  destruct (IH (<[u := initial_status u (now i)]> m)) as [IH1 IH2]. split.
  - intros Ht. destruct (decide (t ∈ l.*2)) as [Hl|Hl]; [by apply IH1|].
    apply elem_of_cons in Ht as [->|]; [|done]. exists i. rewrite IH2 by done. apply lookup_insert_eq.
  - intros [Hne Hl]%not_elem_of_cons. rewrite IH2 by done. by apply lookup_insert_ne.
Qed.

Lemma imap_pair_snd {A} (l : list A) : (imap pair l).*2 = l.
Proof. rewrite fmap_imap. change (imap (λ i x, x) l = l). rewrite (imap_const (λ x, x)). apply list_fmap_id. Qed.

Lemma NewChecker_lookup (cfg : Config) (now : nat → time) (t : string) :
  (t ∈ Targets cfg → ∃ i, healthStatus (NewChecker cfg now) !! t = Some (initial_status t (now i))) ∧
  (t ∉ Targets cfg → healthStatus (NewChecker cfg now) !! t = None).
Proof.
  pose proof (initial_lookup now (imap pair (Targets cfg)) ∅ t) as H.
  rewrite imap_pair_snd, lookup_empty in H. exact H.
Qed.

Lemma NewChecker_inv (cfg : Config) (now : nat → time) :
  in_int64 (MaxFailures cfg) → inv 0 (NewChecker cfg now).
Proof.
  intros HM. assert (0 < maxFailures (NewChecker cfg now) <= max_int64) as HF
    by (simpl; case_bool; int_solve).
  split; [done| | |apply sublist_nil_l].
  - intros t Ht. destruct (proj1 (NewChecker_lookup cfg now t) Ht) as [i ->]. done.
  - intros t s Hs. destruct (decide (t ∈ Targets cfg)) as [Ht|Ht].
    + destruct (proj1 (NewChecker_lookup cfg now t) Ht) as [i Hi]. rewrite Hi in Hs. simplify_eq.
      split; simpl; [lia|]. symmetry. apply Z.ltb_lt. apply HF.
    + rewrite (proj2 (NewChecker_lookup cfg now t) Ht) in Hs. done.
Qed.

(** Rounds probe targets of the checker. *)
Definition probing (ts : list string) (g : goroutine) : Prop :=
  match g with Loop => True | Round pending => Forall (λ t, t ∈ ts) pending end.

Lemma inv_weaken (b b' : Z) (c : Checker) : b <= b' → inv b c → inv b' c.
Proof.
  intros Hb [? ? Hst ?]. split; [done..| |done]. intros t s Hs. destruct (Hst t s Hs). split; [lia|done].
Qed.

(** The sections that could panic, on a checker that satisfies the invariant. *)
Lemma run_job_inv (j : job) (c : Checker) (b : Z) :
  inv b c → j_target j ∈ targets c → b < max_int64 →
  ∃ c', run_job j c = (c', Ret tt) ∧ inv (b + 1) c' ∧ targets c' = targets c.
Proof.
  intros [HF Hdom Hst Hh] Hj Hb. destruct (Hdom _ Hj) as [s Hs]. rewrite run_job_eq, Hs. eexists. split; [done|].
  split; [|done]. split; simpl; [done| |  |done].
  - intros t Ht. rewrite lookup_insert. case_decide; [done|by apply Hdom].
  - intros t s'. rewrite lookup_insert. case_decide; subst.
    + intros [= <-]. apply check_status_ok; [done|by eapply Hst|done].
    + intros Ht. destruct (Hst t s' Ht). split; [lia|done].
Qed.

Lemma updateHealthyTargets_inv (c : Checker) (b : Z) :
  inv b c → ∃ c', updateHealthyTargets c = (c', Ret tt) ∧ inv b c' ∧ targets c' = targets c.
Proof.
  intros [HF Hdom Hst Hh]. unfold updateHealthyTargets. comp_unfold. rewrite healthy_of_eq by done.
  eexists. split; [done|]. split; [|done]. split; simpl; [done..|]. apply sublist_filter.
Qed.

(** One step of the life of a checker keeps the invariant. *)
Lemma life_inv (c c' : Checker) (gs gs' : list goroutine) (b : Z) :
  life (c, gs) (c', gs') → inv b c → Forall (probing (targets c)) gs → b < max_int64 →
  inv (b + 1) c' ∧ targets c' = targets c ∧ Forall (probing (targets c')) gs'.
Proof.
  intros Hl Hinv Hgs Hb. assert (inv (b + 1) c) as Hweak by (apply (inv_weaken b); [lia|done]).
  assert (∀ p, inv (b + 1) (set_running p.1 p.2 c)) as Hset by (intros p; by destruct Hweak).
  inversion Hl as [? ? ? go_on HS|? ? ? HS|? gs1 gs2|j ? ? ps1 ps2 gs1 gs2 HS|? ? gs1 gs2 HS|? gs1 gs2]; subst;
    rewrite ?Forall_app, ?Forall_cons in Hgs.
  - unfold start_section in HS. comp_unfold. destruct (running c); simplify_eq/=; [done|].
    split; [apply (Hset (stopClosed c, true))|]. split; [done|]. constructor; [|done]. by apply Forall_forall.
  - unfold Stop in HS. comp_unfold. destruct (running c); [|by simplify_eq/=].
    destruct (stopClosed c); simplify_eq/=. split; [apply (Hset (true, false))|done].
  - destruct Hgs as (? & _ & ?). split_and!; [done..|]. rewrite Forall_app, Forall_cons. split_and!; [done| |done].
    by apply Forall_forall.
  - destruct Hgs as (? & Hp & ?). simpl in Hp. rewrite Forall_app, Forall_cons in Hp. destruct Hp as (Hp1 & Hj & Hp2).
    destruct (run_job_inv j c b Hinv Hj Hb) as (c1 & HR & Hi & Ht). rewrite HR in HS. simplify_eq. rewrite Ht.
    split_and!; [done..|]. rewrite Forall_app, Forall_cons. simpl. by rewrite Forall_app.
  - destruct Hgs as (? & _ & ?). destruct (updateHealthyTargets_inv c (b + 1) Hweak) as (c1 & HR & Hi & Ht).
    rewrite HR in HS. simplify_eq. rewrite Ht. split_and!; [done..|]. by rewrite Forall_app, Forall_cons.
  - destruct Hgs as (? & _ & ?). split_and!; [done..|]. by rewrite Forall_app.
Qed.

Lemma life_steps_inv (k : nat) (c c' : Checker) (gs gs' : list goroutine) (b : Z) :
  nsteps life k (c, gs) (c', gs') → inv b c → Forall (probing (targets c)) gs → b + Z.of_nat k <= max_int64 →
  inv (b + Z.of_nat k) c' ∧ targets c' = targets c ∧ Forall (probing (targets c')) gs'.
Proof.
  intros Hs. remember (c, gs) as x eqn:Ex. remember (c', gs') as y eqn:Ey. revert c gs b Ex.
  induction Hs as [x|k x [c1 gs1] y Hstep _ IH]; intros c gs b -> Hinv Hgs Hb; simplify_eq.
  - by rewrite Z.add_0_r.
  - destruct (life_inv _ _ _ _ b Hstep Hinv Hgs) as (Hi1 & Ht1 & Hg1); [lia|].
    destruct (IH eq_refl c1 gs1 _ eq_refl Hi1 Hg1) as (Hi2 & Ht2 & Hg2); [lia|].
    replace (b + Z.of_nat (S k)) with (b + 1 + Z.of_nat k) by lia. by rewrite <- Ht1, <- Ht2.
Qed.

(** A whole round, as [checkAll] and [Start] have it, is one of these runs. *)
Lemma checkAll_life (js : list job) (c c' : Checker) (gs1 gs2 : list goroutine) :
  checkAll js c = (c', Ret tt) → rtc life (c, gs1 ++ Round (j_target <$> js) :: gs2) (c', gs1 ++ Loop :: gs2).
Proof.
  unfold checkAll. revert c. induction js as [|j js IH]; intros c HC.
  - apply rtc_once, life_update. exact HC.
  - cbn [run_jobs] in HC. unfold mbind, comp_bind in HC. destruct (run_job j c) as [c1 [[]|msg]] eqn:HR; [|done].
    rewrite fmap_cons. eapply rtc_l; [exact (life_probe j c c1 [] (j_target <$> js) gs1 gs2 HR)|]. by apply IH.
Qed.

Lemma Start_life (js : list job) (c c' : Checker) (gs : list goroutine) :
  j_target <$> js = targets c → Start js c = (c', Ret true) → rtc life (c, gs) (c', Loop :: gs).
Proof.
  intros Hjs HS. unfold Start in HS. destruct (start_section c) as [c1 [go_on|msg]] eqn:Hsec;
    unfold mbind, comp_bind in HS; rewrite Hsec in HS; [|done]. destruct go_on; [|done].
  eapply rtc_l; [by apply (life_start c c1 gs true)|]. simpl. rewrite <- Hjs.
  destruct (checkAll js c1) as [c2 [[]|msg]] eqn:HC; [|done]. injection HS as <-.
  exact (checkAll_life js c1 c2 [] gs HC).
Qed.

(** The jobs of one target, in the order they ran. *)
Definition jobs_for (t : string) (js : list job) : list job := filter (λ j, j_target j = t) js.

Lemma jobs_status_for (c : Checker) (js : list job) (m : gmap string Status) (t : string) :
  jobs_status c js m !! t =
    (λ s, foldl (λ s j, job_status c j s) s (jobs_for t js)) <$> m !! t.
Proof.
  unfold jobs_status, jobs_for. revert m. induction js as [|j js IH]; intros m; simpl.
  - by destruct (m !! t).
  - rewrite IH, lookup_alter, filter_cons. destruct (decide (j_target j = t)) as [->|]; [|done].
    by destruct (m !! t).
Qed.

(** The number of failures since the last success. *)
Definition trailing (oks : list bool) : nat := foldl (λ n (ok : bool), if ok then 0 else S n)%nat 0%nat oks.

Lemma trailing_snoc (oks : list bool) (ok : bool) :
  trailing (oks ++ [ok]) = if ok then 0%nat else S (trailing oks).
Proof. unfold trailing. by rewrite foldl_app. Qed.

Lemma trailing_le (oks : list bool) : (trailing oks <= length oks)%nat.
Proof.
  induction oks as [|ok oks IH] using rev_ind; [done|].
  rewrite trailing_snoc, length_app. simpl. destruct ok; lia.
Qed.

Lemma trailing_suffix (oks : list bool) (k : nat) :
  (k <= trailing oks)%nat ↔ replicate k false `suffix_of` oks.
Proof.
  revert k. induction oks as [|ok oks IH] using rev_ind; intros [|k].
  1,3: split; [intros _; apply suffix_nil|lia].
  - split; [unfold trailing; simpl; lia|]. intros H%suffix_length. simpl in H. lia.
  - rewrite trailing_snoc. replace (replicate (S k) false) with (replicate k false ++ [false])
      by (rewrite <- replicate_S_end; done).
    destruct ok.
    + split; [lia|]. by intros ?%suffix_snoc_inv_1.
    + rewrite <- Nat.succ_le_mono, IH. split; [apply suffix_snoc|apply suffix_snoc_inv_2].
Qed.

Lemma check_fold (c : Checker) (js : list job) (s : Status) :
  let oks := job_ok (endpoint c) <$> js in
  0 < maxFailures c → Z.of_nat (length js) <= max_int64 →
  FailureCount s = 0 → IsHealthy s = true →
  let s' := foldl (λ s j, job_status c j s) s js in
  FailureCount s' = Z.of_nat (trailing oks) ∧
  IsHealthy s' = (FailureCount s' <? maxFailures c).
Proof.
  simpl. intros HF Hlen H0 Hh. induction js as [|j js IH] using rev_ind.
  - simpl. rewrite H0, Hh. split; [done|]. symmetry. by apply Z.ltb_lt.
  - rewrite length_app in Hlen. simpl in Hlen. destruct IH as [IH1 IH2]; [lia|].
    rewrite foldl_app, fmap_app. simpl. rewrite trailing_snoc.
    pose proof (trailing_le (job_ok (endpoint c) <$> js)) as Hle. rewrite length_fmap in Hle.
    unfold job_status at 1 3 5, check_status. destruct (job_ok (endpoint c) j); simpl.
    + split; [done|]. symmetry. by apply Z.ltb_lt.
    + rewrite IH2, IH1, wrap64_id by int_solve. split; [lia|apply threshold_step].
Qed.

Definition is_healthy (c : Checker) (t : string) : Prop := IsHealthy <$> healthStatus c !! t = Some true.

#[export] Instance is_healthy_dec (c : Checker) (t : string) : Decision (is_healthy c t).
Proof. unfold is_healthy. apply _. Defined.

(** After a round the healthy list is in step with the statuses. *)
Definition settled (c : Checker) : Prop := healthyTargets c = filter (is_healthy c) (targets c).

Lemma checkAll_settled (js : list job) (c : Checker) :
  (∀ t, t ∈ targets c → is_Some (healthStatus c !! t)) → round_of js c →
  ∃ c', checkAll js c = (c', Ret tt) ∧ settled c' ∧ targets c' = targets c ∧
    healthStatus c' = jobs_status c js (healthStatus c).
Proof. intros Hd Hr. eexists. split; [by apply checkAll_eq|]. done. Qed.

(** ** Theorems *)

(** C30: Whatever the interleaving of starts, stops, ticks, single probes and
    updates of the healthy list, rounds of several goroutines included, a checker
    has a status for every target, marks a target unhealthy exactly when its
    consecutive failures have reached the threshold, and offers only configured
    targets as healthy; the next probe of a target and the next update do not
    panic on a missing status. *)
Theorem checker_invariant (cfg : Config) (now : nat → time) (k : nat) (c : Checker) (gs : list goroutine)
    (HM : in_int64 (MaxFailures cfg)) (Hk : Z.of_nat k < max_int64)
    (Hrun : nsteps life k (NewChecker cfg now, []) (c, gs)) :
  inv (Z.of_nat k) c ∧ targets c = Targets cfg ∧
  (∀ pending j, Round pending ∈ gs → j_target j ∈ pending → ∃ c', run_job j c = (c', Ret tt)) ∧
  ∃ c', updateHealthyTargets c = (c', Ret tt).
Proof.
  destruct (life_steps_inv k _ _ _ _ 0 Hrun) as (Hi & Ht & Hgs); [by apply NewChecker_inv|constructor|lia|].
  split_and!; [done|done| |].
  - intros pending j Hg Hj. rewrite Forall_forall in Hgs. specialize (Hgs _ Hg). simpl in Hgs.
    rewrite Forall_forall in Hgs. destruct (run_job_inv j c (Z.of_nat k) Hi (Hgs _ Hj)) as (c' & HR & _); [done|by exists c'].
  - destruct (updateHealthyTargets_inv c _ Hi) as (c' & HU & _). by exists c'.
Qed.

(** C3: From a new checker, run any sequence of probes of configured targets, in
    any interleaving.  A target is then unhealthy exactly when the last
    [maxFailures] probes of that target all failed: one success makes it
    healthy again, and fewer failures never make it unhealthy. *)
Theorem unhealthy_iff_last_probes_failed (cfg : Config) (now : nat → time) (js : list job) (t : string)
    (HM : in_int64 (MaxFailures cfg)) (Hlen : Z.of_nat (length js) <= max_int64)
    (Hjs : ∀ j, j ∈ js → j_target j ∈ Targets cfg) (Ht : t ∈ Targets cfg) :
  let c := NewChecker cfg now in
  ∃ c' s, run_jobs js c = (c', Ret tt) ∧ healthStatus c' !! t = Some s ∧
    (IsHealthy s = false ↔
     replicate (Z.to_nat (maxFailures c)) false `suffix_of` (job_ok (endpoint c) <$> jobs_for t js)).
Proof.
  intros c. destruct (NewChecker_inv cfg now HM) as [HF Hdom _ _]. fold c in HF, Hdom.
  destruct (proj1 (NewChecker_lookup cfg now t) Ht) as [i Hi]. fold c in Hi.
  do 2 eexists. split; [apply run_jobs_eq; intros j Hj; by apply Hdom, Hjs|].
  split; [etrans; [apply jobs_status_for|by rewrite Hi]|].
  assert (length (jobs_for t js) <= length js)%nat by apply length_filter.
  destruct (check_fold c (jobs_for t js) (initial_status t (now i))) as [Hc Hh]; [lia..|done|done|].
  rewrite Hh, Z.ltb_ge, Hc, <- trailing_suffix. lia.
Qed.

(** The order in which the goroutines of a round record their results does
    not matter: with distinct targets, any two schedules of a round leave the
    same checker. *)
Theorem round_order_irrelevant (c : Checker) (b : Z) (js1 js2 : list job)
    (Hinv : inv b c) (Hnd : NoDup (targets c)) (Hround : round_of js1 c) (Hperm : js1 ≡ₚ js2) :
  checkAll js1 c = checkAll js2 c.
Proof.
  destruct Hinv as [_ Hdom _ _].
  assert (round_of js2 c) as Hround2 by (unfold round_of; by rewrite <- Hperm).
  rewrite !checkAll_eq by done.
  assert (NoDup (j_target <$> js1)) as Hnd1 by (unfold round_of in Hround; by rewrite Hround).
  assert (jobs_status c js1 (healthStatus c) = jobs_status c js2 (healthStatus c)) as ->; [|done].
  apply map_eq. intros t. rewrite !jobs_status_lookup by (done || by rewrite <- Hperm).
  erewrite (list_to_map_proper _ ((λ j, (j_target j, j)) <$> js2)); [done| |by rewrite Hperm].
  rewrite <- list_fmap_compose. exact Hnd1.
Qed.

(** After a round the service is reported healthy exactly when it has
    targets and all of them are healthy, unhealthy exactly when none is, and
    degraded in between; the healthy list holds exactly the healthy targets. *)
Theorem overall_health_after_round (c : Checker) (b : Z) (js : list job)
    (Hinv : inv b c) (Hround : round_of js c) :
  ∃ c', checkAll js c = (c', Ret tt) ∧ targets c' = targets c ∧
    (∀ t, t ∈ GetHealthyTargets c' ↔ t ∈ targets c ∧ is_healthy c' t) ∧
    (OverallHealth c' = Healthy ↔ targets c ≠ [] ∧ ∀ t, t ∈ targets c → is_healthy c' t) ∧
    (OverallHealth c' = Unhealthy ↔ ∀ t, t ∈ targets c → ¬ is_healthy c' t).
Proof.
  destruct (checkAll_settled js c) as (c' & HC & Hset & Htg & _); [apply Hinv|done|].
  exists c'. unfold settled in Hset. rewrite <- Htg. split_and!; [done|done| | |].
  - intros t. unfold GetHealthyTargets. rewrite Hset, list_elem_of_filter. naive_solver.
  - unfold OverallHealth. rewrite <- (filter_keeps_all (is_healthy c')), Hset.
    destruct (targets c') as [|t ts] eqn:E; [simpl; split; [done|by intros [? _]]|].
    rewrite <- E. pose proof (length_filter (is_healthy c') (targets c')).
    repeat case_decide; split; try done; rewrite E in *; simpl in *; [intros [_ ?]; lia..|].
    intros _. split; [done|lia].
  - unfold OverallHealth. rewrite <- (filter_keeps_none (is_healthy c')), Hset.
    repeat case_decide; naive_solver.
Qed.

(** [Stop] is idempotent, but a checker that is started again after a stop
    cannot be stopped: the second [close] of the stop channel panics. *)
Theorem restart_then_stop_panics (c : Checker) (b : Z) (js1 js2 : list job)
    (Hinv : inv b c) (Hrun : running c = false) (Hopen : stopClosed c = false)
    (Hr1 : round_of js1 c) (Hr2 : round_of js2 c)
    (Hb : b + 2 * Z.of_nat (length (targets c)) <= max_int64) :
  (∃ c1, (Start js1;; Stop;; Stop) c = (c1, Ret tt)) ∧
  ∃ c2, (Start js1;; Stop;; Start js2;; Stop) c = (c2, Panic "close of closed channel").
Proof.
  destruct (checkAll_inv js1 (set_running (stopClosed c) true c) b)
    as (c1 & HC1 & Hi1 & Ht1 & Hs1 & Hn1); [by destruct Hinv|done|simpl; lia|]. simpl in *.
  destruct (checkAll_inv js2 (set_running true true (set_running true false c1))
    (b + Z.of_nat (length (targets c)))) as (c2 & HC2 & _ & _ & Hs2 & Hn2).
  { by destruct Hi1. } { unfold round_of. simpl. by rewrite Ht1. } { simpl. rewrite Ht1. lia. }
  simpl in *. split; eexists; unfold Start, start_section, Stop; comp_unfold; rewrite Hrun; simpl; rewrite HC1; simpl;
    rewrite Hn1, Hs1, Hopen; simpl; [done|]. rewrite HC2; simpl. by rewrite Hn2, Hs2.
Qed.

(** ** Witnesses *)

Definition cfg_example : Config := {|
  Targets := ["http://a"; "http://b"]; Endpoint := ""; Interval := 0; Timeout := 0; MaxFailures := 2 |}.

Definition checker_example : Checker := NewChecker cfg_example (λ i, Z.of_nat i).

(** A client that finds one server up. *)
Definition only_a (url : string) : probe :=
  if decide (url = "http://a/health") then Response 204 else NoResponse.

Definition job_example (t : string) : job := {| j_target := t; j_client := only_a; j_t1 := 7; j_t2 := 8 |}.

Lemma example_inv : inv 0 checker_example.
Proof. apply NewChecker_inv. vm_compute. split; discriminate. Qed.

(** A second round is under way: the server that is down has failed twice and is
    marked, but the healthy list still offers it. *)
Definition after_job (t : string) (c : Checker) : Checker := (run_job (job_example t) c).1.

Definition first_round : Checker :=
  after_job "http://a" (after_job "http://b" (set_running false true checker_example)).

Definition mid_round : Checker := after_job "http://b" (updateHealthyTargets first_round).1.

Lemma ret_tt (m : Comp Checker unit) (c : Checker) : (m c).2 = Ret tt → m c = ((m c).1, Ret tt).
Proof. destruct (m c) as [c' o]. simpl. by intros ->. Qed.

Lemma mid_round_reached : nsteps life 6 (checker_example, []) (mid_round, [Round ["http://a"]]).
Proof.
  eapply nsteps_l; [by apply (life_start checker_example (set_running false true checker_example) [] true)|].
  eapply nsteps_l; [apply (life_probe (job_example "http://b") _ (after_job "http://b" (set_running false true checker_example))
    ["http://a"] [] [] []), ret_tt; vm_compute; reflexivity|].
  eapply nsteps_l; [apply (life_probe (job_example "http://a") _ first_round [] [] [] []), ret_tt; vm_compute; reflexivity|].
  eapply nsteps_l; [apply (life_update _ (updateHealthyTargets first_round).1 [] []), ret_tt; vm_compute; reflexivity|].
  eapply nsteps_l; [apply (life_tick _ [] [])|].
  apply nsteps_once.
  apply (life_probe (job_example "http://b") _ mid_round ["http://a"] [] [] []), ret_tt; vm_compute; reflexivity.
Qed.

Lemma checker_invariant_witness :
  (IsHealthy <$> healthStatus mid_round !! "http://b") = Some false ∧ healthyTargets mid_round = ["http://a"; "http://b"] ∧
  inv 6 mid_round ∧ targets mid_round = ["http://a"; "http://b"] ∧
  ∃ c', run_job (job_example "http://a") mid_round = (c', Ret tt).
Proof.
  split; [vm_compute; reflexivity|]. split; [vm_compute; reflexivity|].
  destruct (checker_invariant cfg_example (λ i, Z.of_nat i) 6 mid_round [Round ["http://a"]])
    as (Hinv & Ht & Hjob & _).
  - vm_compute. split; discriminate.
  - vm_compute. reflexivity.
  - exact mid_round_reached.
  - split; [exact Hinv|]. split; [exact Ht|]. apply (Hjob ["http://a"]); by left.
Defined.

Lemma unhealthy_iff_last_probes_failed_witness :
  ∃ c' s, run_jobs (job_example <$> ["http://b"; "http://a"; "http://b"]) checker_example = (c', Ret tt) ∧
    healthStatus c' !! "http://b" = Some s ∧
    (IsHealthy s = false ↔
     replicate (Z.to_nat (maxFailures checker_example)) false `suffix_of`
       (job_ok (endpoint checker_example) <$>
         jobs_for "http://b" (job_example <$> ["http://b"; "http://a"; "http://b"]))).
Proof.
  apply (unhealthy_iff_last_probes_failed cfg_example (λ i, Z.of_nat i)
    (job_example <$> ["http://b"; "http://a"; "http://b"]) "http://b").
  - vm_compute. split; discriminate.
  - vm_compute. discriminate.
  - simpl. intros j Hj. set_solver.
  - simpl. set_solver.
Defined.

(** Both probes of the server that is down failed. *)
Example example_probes :
  job_ok (endpoint checker_example) <$>
    jobs_for "http://b" (job_example <$> ["http://b"; "http://a"; "http://b"]) = [false; false].
Proof. reflexivity. Qed.

Lemma example_round : round_of (job_example <$> ["http://a"; "http://b"]) checker_example.
Proof. unfold round_of. reflexivity. Qed.

Lemma round_order_irrelevant_witness :
  checkAll (job_example <$> ["http://a"; "http://b"]) checker_example =
  checkAll (job_example <$> ["http://b"; "http://a"]) checker_example.
Proof.
  apply (round_order_irrelevant checker_example 0).
  - exact example_inv.
  - simpl. repeat (constructor; [set_solver|]). constructor.
  - exact example_round.
  - apply perm_swap.
Defined.

Lemma overall_health_after_round_witness :
  ∃ c', checkAll (job_example <$> ["http://a"; "http://b"]) checker_example = (c', Ret tt) ∧
    targets c' = targets checker_example ∧
    (∀ t, t ∈ GetHealthyTargets c' ↔ t ∈ targets checker_example ∧ is_healthy c' t) ∧
    (OverallHealth c' = Healthy ↔
      targets checker_example ≠ [] ∧ ∀ t, t ∈ targets checker_example → is_healthy c' t) ∧
    (OverallHealth c' = Unhealthy ↔ ∀ t, t ∈ targets checker_example → ¬ is_healthy c' t).
Proof.
  apply (overall_health_after_round checker_example 0 (job_example <$> ["http://a"; "http://b"])).
  - exact example_inv.
  - exact example_round.
Defined.

Lemma restart_then_stop_panics_witness :
  let js := job_example <$> ["http://a"; "http://b"] in
  (∃ c1, (Start js;; Stop;; Stop) checker_example = (c1, Ret tt)) ∧
  ∃ c2, (Start js;; Stop;; Start js;; Stop) checker_example = (c2, Panic "close of closed channel").
Proof.
  apply (restart_then_stop_panics checker_example 0 (job_example <$> ["http://a"; "http://b"])
    (job_example <$> ["http://a"; "http://b"])).
  - exact example_inv.
  - reflexivity.
  - reflexivity.
  - exact example_round.
  - exact example_round.
  - vm_compute. discriminate.
Defined.
