(* ===== verification/Float64.v ===== *)
(** * float64

    The finite values of Go's [float64] are the integer multiples of [2^-1074]
    with a 53-bit significand.  A value is modelled as that multiple, an
    integer, so that comparison of floats is comparison of integers; each
    operation is the exact one followed by [f64_round], rounding to nearest
    with ties to even.  Subnormals are included (the multiple has no lower
    bound on its exponent below zero); the exponent is not bounded above, so
    infinities do not arise, and there is no NaN: JSON can carry neither, and
    the gateway's own values stay below [2^70]. *)

From S2P Require Import Prelude.

Definition f64_scale : Z := 2 ^ 1074.

(** [n / d] rounded to the nearest integer, ties to even, for positive [d]. *)
Definition rne (n d : Z) : Z :=
  let q := n / d in
  let r := n mod d in
  if 2 * r <? d then q
  else if d <? 2 * r then q + 1
  else if Z.even q then q else q + 1.

(** The exponent of the last place of a significand for [n / d]. *)
Definition f64_exp (n d : Z) : Z := Z.max 0 (Z.log2 (Z.abs n / d) - 52).

(** The rational [n / d], in units of [2^-1074], rounded to a float64. *)
Definition f64_round (n d : Z) : Z :=
  let k := f64_exp n d in rne n (d * 2 ^ k) * 2 ^ k.

Definition f64_of_Z (z : Z) : Z := f64_round (z * f64_scale) 1.
Definition f64_add (a b : Z) : Z := f64_round (a + b) 1.
Definition f64_sub (a b : Z) : Z := f64_round (a - b) 1.
Definition f64_mul (a b : Z) : Z := f64_round (a * b) f64_scale.

(** Division by a non-zero float. *)
Definition f64_div (a b : Z) : Z :=
  if b <? 0 then f64_round (- a * f64_scale) (- b) else f64_round (a * f64_scale) b.

Definition f64_min (a b : Z) : Z := Z.min a b.

(** Conversion to an integer type drops the fraction. *)
Definition f64_to_Z (a : Z) : Z := Z.quot a f64_scale.

(** [d.Seconds()]. *)
Definition Seconds (d : duration) : Z :=
  f64_add (f64_of_Z (Z.quot d second)) (f64_div (f64_of_Z (Z.rem d second)) (f64_of_Z second)).

(** [x] is a float64: a 53-bit significand times a power of two. *)
Definition f64 (x : Z) : Prop := ∃ m e, 0 <= e ∧ Z.abs m <= 2 ^ 53 ∧ x = m * 2 ^ e.

(** ** Rounding to an integer *)

Lemma rne_le (n d c : Z) : 0 < d → n <= c * d → rne n d <= c.
Proof.
  intros Hd Hn. unfold rne. pose proof (Z.div_mod n d ltac:(lia)).
  pose proof (Z.mod_pos_bound n d Hd). repeat case_bool; nia.
Qed.

Lemma rne_ge (n d c : Z) : 0 < d → c * d <= n → c <= rne n d.
Proof.
  intros Hd Hn. unfold rne. pose proof (Z.div_mod n d ltac:(lia)).
  pose proof (Z.mod_pos_bound n d Hd). repeat case_bool; nia.
Qed.

Lemma rne_opp (n d : Z) : 0 < d → rne (- n) d = - rne n d.
Proof.
  intros Hd. unfold rne.
  pose proof (Z.div_mod n d ltac:(lia)). pose proof (Z.mod_pos_bound n d Hd).
  destruct (decide (n mod d = 0)) as [E|E].
  - rewrite (Z.div_opp_l_z n d), (Z.mod_opp_l_z n d), E by lia. case_bool; lia.
  - rewrite (Z.div_opp_l_nz n d), (Z.mod_opp_l_nz n d) by lia.
    rewrite Z.even_sub, Z.even_opp. destruct (Z.even (n / d)); simpl; repeat case_bool; lia.
Qed.

(** The rounding error is at most one half. *)
Lemma rne_error (n d : Z) : 0 < d → 2 * Z.abs (rne n d * d - n) <= d.
Proof.
  intros Hd. unfold rne. pose proof (Z.div_mod n d ltac:(lia)).
  pose proof (Z.mod_pos_bound n d Hd). repeat case_bool; nia.
Qed.

Lemma rne_mono (n1 n2 d : Z) : 0 < d → n1 <= n2 → rne n1 d <= rne n2 d.
Proof.
  intros Hd Hn. unfold rne.
  pose proof (Z.div_mod n1 d ltac:(lia)) as E1. pose proof (Z.div_mod n2 d ltac:(lia)) as E2.
  pose proof (Z.mod_pos_bound n1 d Hd). pose proof (Z.mod_pos_bound n2 d Hd).
  assert (n1 / d <= n2 / d) as Hq by (apply Z.div_le_mono; lia).
  destruct (decide (n1 / d = n2 / d)) as [Eq|Ne].
  - rewrite Eq in *. repeat case_bool; lia.
  - repeat case_bool; lia.
Qed.

(** Scaling both sides of the fraction does not change the result. *)
Lemma rne_scale (n d c : Z) : 0 < d → 0 < c → rne (n * c) (d * c) = rne n d.
Proof.
  intros Hd Hc. unfold rne.
  rewrite Z.div_mul_cancel_r, Z.mul_mod_distr_r by lia.
  repeat case_bool; try done; nia.
Qed.

(** ** Rounding to a float64 *)

Lemma f64_exp_nonneg (n d : Z) : 0 <= f64_exp n d.
Proof. unfold f64_exp. lia. Qed.

Lemma f64_exp_opp (n d : Z) : f64_exp (- n) d = f64_exp n d.
Proof. unfold f64_exp. by rewrite Z.abs_opp. Qed.

Lemma f64_exp_upper (n d : Z) : 0 < d → Z.abs n < 2 ^ (53 + f64_exp n d) * d.
Proof.
  intros Hd. pose proof (f64_exp_nonneg n d).
  assert (Z.abs n / d < 2 ^ (53 + f64_exp n d)) as Hlt.
  { pose proof (Z.log2_spec_alt (Z.abs n / d)) as Hlog.
    destruct (decide (Z.abs n / d <= 0)) as [Hz|Hp].
    - pose proof (Z.pow_pos_nonneg 2 (53 + f64_exp n d)). lia.
    - apply Z.log2_lt_pow2; [lia|]. unfold f64_exp. lia. }
  pose proof (Z.mul_succ_div_gt (Z.abs n) d Hd). nia.
Qed.

Lemma f64_exp_lower (n d : Z) : 0 < d → 0 < f64_exp n d → 2 ^ (52 + f64_exp n d) * d <= Z.abs n.
Proof.
  intros Hd Hk. unfold f64_exp in *.
  assert (0 < Z.abs n / d) as Hq.
  { destruct (decide (Z.abs n / d <= 0)) as [Hz|]; [|lia].
    rewrite Z.log2_nonpos in Hk by done. lia. }
  pose proof (proj1 (Z.log2_spec _ Hq)) as Hs.
  replace (52 + Z.max 0 (Z.log2 (Z.abs n / d) - 52)) with (Z.log2 (Z.abs n / d)) by lia.
  pose proof (Z.mul_div_le (Z.abs n) d Hd). nia.
Qed.

Lemma f64_round_opp (n d : Z) : 0 < d → f64_round (- n) d = - f64_round n d.
Proof.
  intros Hd. unfold f64_round. rewrite f64_exp_opp, rne_opp; [lia|].
  pose proof (f64_exp_nonneg n d). apply Z.mul_pos_pos; [done|by apply Z.pow_pos_nonneg].
Qed.

Lemma f64_opp (x : Z) : f64 x → f64 (- x).
Proof. intros (m & e & ? & ? & ->). exists (- m), e. rewrite Z.abs_opp. repeat split; lia. Qed.

(** The multiples of [2^k] that rounding can reach. *)
Lemma f64_split (x k : Z) :
  f64 x → 0 <= k → (∃ c, x = c * 2 ^ k) ∨ Z.abs x < 2 ^ (52 + k) ∨ Z.abs x = 2 ^ (52 + k).
Proof.
  intros (m & e & He & Hm & ->) Hk. destruct (decide (k <= e)) as [Hle|Hlt].
  - left. exists (m * 2 ^ (e - k)). rewrite <- Z.mul_assoc, <- Z.pow_add_r by lia. do 2 f_equal. lia.
  - right. rewrite Z.abs_mul, (Z.abs_eq (2 ^ e)) by (apply Z.pow_nonneg; lia).
    assert (Z.abs m * 2 ^ e <= 2 ^ (52 + k)) as Hle; [|lia].
    replace (52 + k) with (53 + e + (k - 1 - e)) by lia. rewrite !Z.pow_add_r by lia.
    pose proof (Z.pow_pos_nonneg 2 e). pose proof (Z.pow_pos_nonneg 2 (k - 1 - e)). nia.
Qed.

(** Rounding does not cross a float64 from below, nor from above. *)
Lemma f64_round_le (n d x : Z) : 0 < d → f64 x → n <= x * d → f64_round n d <= x.
Proof.
  intros Hd Hx Hn. unfold f64_round. set (k := f64_exp n d).
  assert (0 <= k) as Hk by apply f64_exp_nonneg.
  assert (0 < 2 ^ k) as H2 by by apply Z.pow_pos_nonneg.
  assert (∀ c, n <= c * 2 ^ k * d → rne n (d * 2 ^ k) * 2 ^ k <= c * 2 ^ k) as Hc.
  { intros c Hnc. apply Z.mul_le_mono_nonneg_r; [lia|]. apply rne_le; nia. }
  destruct (f64_split x k Hx Hk) as [[c ->]|Hb]; [by apply Hc|].
  assert (2 ^ (52 + k) = 2 ^ 52 * 2 ^ k) as E by (rewrite Z.pow_add_r; lia).
  destruct (decide (k = 0)) as [Hk0|Hk0].
  { specialize (Hc x). rewrite Hk0, Z.pow_0_r, !Z.mul_1_r in *. by apply Hc. }
  pose proof (f64_exp_lower n d Hd ltac:(fold k; lia)) as Hlow. fold k in Hlow.
  destruct (decide (0 <= n)) as [Hn0|Hn0].
  - assert (x = 2 ^ 52 * 2 ^ k) as -> by nia. by apply Hc.
  - etrans; [apply (Hc (- 2 ^ 52)); nia|]. lia.
Qed.

Lemma f64_round_ge (n d x : Z) : 0 < d → f64 x → x * d <= n → x <= f64_round n d.
Proof.
  intros Hd Hx Hn. pose proof (f64_round_le (- n) d (- x) Hd (f64_opp x Hx) ltac:(lia)) as H.
  rewrite f64_round_opp in H by done. lia.
Qed.

Lemma f64_round_exact (d x : Z) : 0 < d → f64 x → f64_round (x * d) d = x.
Proof.
  intros Hd Hx. apply Z.le_antisymm; [apply f64_round_le|apply f64_round_ge]; done || lia.
Qed.

Lemma f64_round_1 (x : Z) : f64 x → f64_round x 1 = x.
Proof. intros Hx. pose proof (f64_round_exact 1 x) as H. rewrite Z.mul_1_r in H. by apply H. Qed.

Lemma f64_of_round (n d : Z) : 0 < d → f64 (f64_round n d).
Proof.
  intros Hd. pose proof (f64_exp_nonneg n d) as Hk. pose proof (f64_exp_upper n d Hd) as Hu.
  unfold f64_round. exists (rne n (d * 2 ^ f64_exp n d)), (f64_exp n d).
  split_and!; [done| |done].
  rewrite Z.pow_add_r in Hu by lia. assert (0 < 2 ^ f64_exp n d) by by apply Z.pow_pos_nonneg.
  apply Z.abs_le. split; [apply rne_ge|apply rne_le]; nia.
Qed.

Lemma f64_0 : f64 0.
Proof. exists 0, 0. simpl. lia. Qed.

Lemma f64_pow (e : Z) : 0 <= e → f64 (2 ^ e).
Proof. intros He. exists 1, e. simpl. lia. Qed.

Lemma f64_shift (x k : Z) : f64 x → 0 <= k → f64 (x * 2 ^ k).
Proof.
  intros (m & e & He & Hm & ->) Hk. exists m, (e + k). rewrite Z.pow_add_r by lia.
  split_and!; [lia|done|lia].
Qed.

Lemma f64_round_mono_pos (n1 d1 n2 d2 : Z) :
  0 < d1 → 0 < d2 → 0 <= n1 → n1 * d2 <= n2 * d1 → f64_round n1 d1 <= f64_round n2 d2.
Proof.
  intros Hd1 Hd2 Hn1 Hle. assert (0 <= n2) by nia.
  set (k1 := f64_exp n1 d1). set (k2 := f64_exp n2 d2).
  assert (0 <= k1) by apply f64_exp_nonneg. assert (0 <= k2) by apply f64_exp_nonneg.
  pose proof (f64_exp_upper n1 d1 Hd1) as Hu1. pose proof (f64_exp_upper n2 d2 Hd2) as Hu2.
  fold k1 in Hu1. fold k2 in Hu2. rewrite Z.abs_eq in Hu1, Hu2 by done.
  destruct (Z.lt_trichotomy k1 k2) as [Hk|[Hk|Hk]].
  - pose proof (f64_exp_lower n2 d2 Hd2 ltac:(fold k2; lia)) as Hl2. fold k2 in Hl2.
    rewrite Z.abs_eq in Hl2 by done.
    assert (2 ^ (53 + k1) <= 2 ^ (52 + k2)) by (apply Z.pow_le_mono_r; lia).
    trans (2 ^ (52 + k2)).
    + apply f64_round_le; [done|apply f64_pow; lia|nia].
    + apply f64_round_ge; [done|apply f64_pow; lia|nia].
  - unfold f64_round. fold k1 k2. rewrite Hk.
    assert (0 < 2 ^ k2) by (by apply Z.pow_pos_nonneg).
    apply Z.mul_le_mono_nonneg_r; [lia|].
    rewrite <- (rne_scale n1 (d1 * 2 ^ k2) d2), <- (rne_scale n2 (d2 * 2 ^ k2) d1) by nia.
    replace (d2 * 2 ^ k2 * d1) with (d1 * 2 ^ k2 * d2) by lia. apply rne_mono; [nia|done].
  - pose proof (f64_exp_lower n1 d1 Hd1 ltac:(fold k1; lia)) as Hl1. fold k1 in Hl1.
    rewrite Z.abs_eq in Hl1 by done.
    assert (2 ^ (53 + k2) <= 2 ^ (52 + k1)) by (apply Z.pow_le_mono_r; lia).
    assert (0 < 2 ^ (52 + k1)) by (apply Z.pow_pos_nonneg; lia). nia.
Qed.

(** Rounding is monotone. *)
Lemma f64_round_mono (n1 d1 n2 d2 : Z) :
  0 < d1 → 0 < d2 → n1 * d2 <= n2 * d1 → f64_round n1 d1 <= f64_round n2 d2.
Proof.
  intros Hd1 Hd2 Hle. destruct (decide (0 <= n1)); [by apply f64_round_mono_pos|].
  destruct (decide (0 <= n2)).
  - trans 0; [apply f64_round_le|apply f64_round_ge]; auto using f64_0; nia.
  - pose proof (f64_round_mono_pos (- n2) d2 (- n1) d1 Hd2 Hd1 ltac:(lia) ltac:(lia)) as H.
    rewrite !f64_round_opp in H by done. lia.
Qed.

(** ** The operations *)

(** A number close to a float64 is rounded to it. *)
Lemma rne_close (n d c : Z) : 0 < d → 2 * Z.abs (n - c * d) < d → rne n d = c.
Proof. intros Hd Hc. pose proof (rne_error n d Hd). nia. Qed.

Lemma f64_round_close (n d x : Z) :
  0 < d → 0 < x → f64 x → 2 ^ 54 * Z.abs (n - x * d) < x * d → f64_round n d = x.
Proof.
  intros Hd Hx Hf Hc. assert (0 < n) as Hn by nia.
  pose proof (f64_exp_nonneg n d) as Hk. pose proof (f64_exp_upper n d Hd) as Hu.
  pose proof (f64_exp_lower n d Hd) as Hl. unfold f64_round. set (k := f64_exp n d) in *.
  rewrite Z.abs_eq in Hu, Hl by lia. rewrite Z.pow_add_r in Hu by lia.
  assert (0 < 2 ^ k) as H2 by by apply Z.pow_pos_nonneg.
  assert (∀ c, x = c * 2 ^ k → rne n (d * 2 ^ k) * 2 ^ k = x) as Hmult.
  { intros c ->. f_equal. apply rne_close; [nia|].
    assert (c <= 2 ^ 53) as Hcb.
    { destruct (decide (c <= 2 ^ 53)); [done|exfalso].
      assert (2 ^ 54 * (c * 2 ^ k * d) - c * 2 ^ k * d < 2 ^ 54 * (2 ^ 53 * 2 ^ k * d)) by nia.
      assert ((2 ^ 53 + 1) * (2 ^ k * d) <= c * (2 ^ k * d)) by (apply Z.mul_le_mono_nonneg_r; nia). nia. }
    assert (c * 2 ^ k * d <= 2 ^ 53 * (2 ^ k * d)) by nia. nia. }
  destruct (f64_split x k Hf Hk) as [[c Hxc]|[Hlt|Heq]]; [by apply (Hmult c)| |].
  - rewrite Z.abs_eq in Hlt by lia. destruct (decide (k = 0)) as [->|Hk0]; [apply (Hmult x); lia|].
    specialize (Hl ltac:(lia)). exfalso. rewrite Z.pow_add_r in Hlt, Hl by lia.
    replace k with (k - 1 + 1) in Hlt, Hl by lia. rewrite Z.pow_add_r in Hlt, Hl by lia.
    assert (0 < 2 ^ (k - 1)) as H2' by (apply Z.pow_pos_nonneg; lia).
    destruct (f64_split x (k - 1) Hf ltac:(lia)) as [[c ->]|Hsmall].
    + assert (c <= 2 ^ 53 - 1) by nia. assert (c * 2 ^ (k - 1) * d <= (2 ^ 53 - 1) * (2 ^ (k - 1) * d)) by nia. nia.
    + rewrite Z.abs_eq, Z.pow_add_r in Hsmall by lia. assert (x <= 2 ^ 52 * 2 ^ (k - 1)) by lia.
      assert (x * d <= 2 ^ 52 * 2 ^ (k - 1) * d) by nia. nia.
  - apply (Hmult (2 ^ 52)). rewrite Z.abs_eq, Z.pow_add_r in Heq by lia. done.
Qed.

Lemma f64_scale_pos : 0 < f64_scale.
Proof. by apply Z.pow_pos_nonneg. Qed.

Lemma f64_scale_eq : f64_scale = 2 ^ 1074.
Proof. reflexivity. Qed.

#[global] Opaque f64_scale.
#[global] Arguments f64_of_Z : simpl never.

#[export] Hint Resolve f64_scale_pos f64_0 : gateway.

(** Integers of up to 53 bits are floats. *)
Lemma f64_int (z : Z) : Z.abs z <= 2 ^ 53 → f64 (z * f64_scale).
Proof. intros Hz. exists z, 1074. done. Qed.

Lemma f64_of_Z_exact (z : Z) : Z.abs z <= 2 ^ 53 → f64_of_Z z = z * f64_scale.
Proof.
  intros Hz. by apply f64_round_1, f64_int.
Qed.

Lemma f64_of_Z_f64 (z : Z) : f64 (f64_of_Z z).
Proof. by apply f64_of_round. Qed.

Lemma f64_of_Z_mono (x y : Z) : x <= y → f64_of_Z x <= f64_of_Z y.
Proof. intros Hxy. apply f64_round_mono; [lia..|]. pose proof f64_scale_pos. nia. Qed.

Lemma f64_of_Z_lt_inv (x y : Z) : f64_of_Z x < f64_of_Z y → x < y.
Proof.
  intros Hlt. destruct (decide (x < y)); [done|].
  pose proof (f64_of_Z_mono y x ltac:(lia)). lia.
Qed.

(** Int64 values this far apart are not rounded to the same float. *)
Lemma f64_of_Z_gap (x y : Z) : 0 <= x → x + 2048 <= y <= max_int64 → f64_of_Z x < f64_of_Z y.
Proof.
  intros Hx Hy. set (c := x / 1024 + 1). unfold max_int64 in Hy.
  pose proof (Z.div_mod x 1024 ltac:(lia)). pose proof (Z.mod_pos_bound x 1024 ltac:(lia)).
  pose proof f64_scale_pos as Hs.
  assert (∀ i, 0 <= i <= 2 ^ 53 → f64 (i * 1024 * f64_scale)) as Hf.
  { intros i Hi. replace (i * 1024 * f64_scale) with (i * f64_scale * 2 ^ 10) by lia.
    apply f64_shift; [apply f64_int; lia|lia]. }
  assert (f64_of_Z x <= c * 1024 * f64_scale).
  { apply f64_round_le; [lia|apply Hf; unfold c; lia|unfold c; nia]. }
  assert ((c + 1) * 1024 * f64_scale <= f64_of_Z y); [|nia].
  apply f64_round_ge; [lia|apply Hf; unfold c; lia|unfold c; nia].
Qed.

Lemma f64_of_Z_nonneg (z : Z) : 0 <= z → 0 <= f64_of_Z z.
Proof. intros Hz. pose proof f64_scale_pos. apply f64_round_ge; auto with gateway; nia. Qed.

Lemma f64_add_nonneg (a b : Z) : 0 <= a → 0 <= b → 0 <= f64_add a b.
Proof. intros. apply f64_round_ge; auto with gateway; lia. Qed.

Lemma f64_sub_nonneg (a b : Z) : b <= a → 0 <= f64_sub a b.
Proof. intros. apply f64_round_ge; auto with gateway; lia. Qed.

Lemma f64_sub_le (a b : Z) : f64 a → 0 <= b → f64_sub a b <= a.
Proof. intros. apply f64_round_le; [lia|done|lia]. Qed.

Lemma f64_mul_nonneg (a b : Z) : 0 <= a → 0 <= b → 0 <= f64_mul a b.
Proof. intros. apply f64_round_ge; auto with gateway; nia. Qed.

Lemma f64_div_nonneg (a b : Z) : 0 <= a → 0 < b → 0 <= f64_div a b.
Proof.
  intros. unfold f64_div. case_bool; [lia|]. pose proof f64_scale_pos.
  apply f64_round_ge; auto with gateway; nia.
Qed.

(** Adding zero changes nothing. *)
Lemma f64_add_0_r (a : Z) : f64 a → f64_add a 0 = a.
Proof.
  intros. unfold f64_add. rewrite Z.add_0_r. by apply f64_round_1.
Qed.

Lemma f64_mul_0_l (b : Z) : f64_mul 0 b = 0.
Proof.
  unfold f64_mul. replace (0 * b) with (0 * f64_scale) by lia.
  apply f64_round_exact; auto with gateway.
Qed.

(** Subtraction of small integers is exact. *)
Lemma f64_sub_int (x y : Z) :
  Z.abs (x - y) <= 2 ^ 53 → f64_sub (x * f64_scale) (y * f64_scale) = (x - y) * f64_scale.
Proof.
  intros H. unfold f64_sub. replace (x * f64_scale - y * f64_scale) with ((x - y) * f64_scale) by lia.
  by apply f64_round_1, f64_int.
Qed.

Lemma f64_to_Z_int (z : Z) : f64_to_Z (z * f64_scale) = z.
Proof. unfold f64_to_Z. apply Z.quot_mul. pose proof f64_scale_pos. lia. Qed.

(** Durations of whole seconds. *)
Lemma f64_second : f64_of_Z second = second * f64_scale.
Proof. by apply f64_of_Z_exact. Qed.

Lemma Seconds_nonneg (d : Z) : 0 <= d → 0 <= Seconds d.
Proof.
  intros Hd. unfold Seconds. apply f64_add_nonneg.
  - apply f64_of_Z_nonneg, Z.quot_pos; unfold second; lia.
  - apply f64_div_nonneg; [apply f64_of_Z_nonneg, Z.rem_nonneg; unfold second; lia|].
    rewrite f64_second. pose proof f64_scale_pos. unfold second. lia.
Qed.

Lemma Seconds_0 : Seconds 0 = 0.
Proof. vm_compute. done. Qed.

Lemma Seconds_whole (s : Z) : Z.abs s <= 2 ^ 53 → Seconds (s * second) = s * f64_scale.
Proof.
  intros Hs. unfold Seconds. rewrite Z.quot_mul, Z.rem_mul, !f64_of_Z_exact by (done || unfold second; lia).
  assert (f64_div (0 * f64_scale) (second * f64_scale) = 0) as ->.
  { unfold f64_div. pose proof f64_scale_pos. case_bool; [unfold second in *; lia|].
    replace (0 * f64_scale * f64_scale) with (0 * (second * f64_scale)) by lia.
    apply f64_round_exact; auto with gateway; unfold second; lia. }
  by apply f64_add_0_r, f64_int.
Qed.

(** [int64(time.Minute.Seconds())]. *)
Lemma minute_seconds : f64_to_Z (Seconds minute) = 60.
Proof.
  change minute with (60 * second). rewrite Seconds_whole by lia. apply f64_to_Z_int.
Qed.

(** ** Rounding errors *)

(** Rounding up adds at most one part in [2^53], or half a unit. *)
Lemma f64_round_upper (n d : Z) :
  0 < d → 0 <= n → 2 ^ 53 * (f64_round n d * d) <= (2 ^ 53 + 1) * n + 2 ^ 52 * d.
Proof.
  intros Hd Hn. pose proof (f64_exp_nonneg n d) as Hk. pose proof (f64_exp_lower n d Hd) as Hl.
  unfold f64_round. set (k := f64_exp n d) in *.
  assert (0 < 2 ^ k) as Hpk by by apply Z.pow_pos_nonneg.
  pose proof (rne_error n (d * 2 ^ k) ltac:(nia)) as He. set (q := rne n (d * 2 ^ k)) in *.
  destruct (decide (k = 0)) as [->|Hk0].
  - change (2 ^ 0) with 1 in *. rewrite !Z.mul_1_r in *. lia.
  - specialize (Hl ltac:(lia)). rewrite Z.pow_add_r in Hl by lia. set (p := 2 ^ k) in *.
    rewrite Z.abs_eq in Hl by lia.
    replace (q * p * d) with (q * (d * p)) by lia. set (x := q * (d * p)) in *. set (y := d * p) in *.
    replace (2 ^ 52 * p * d) with (2 ^ 52 * y) in Hl by (unfold y; lia). lia.
Qed.

(** Taking one from a float of moderate size is exact. *)
Lemma f64_sub_1 (x : Z) : f64 x → f64_scale <= x <= 2 ^ 53 * f64_scale → f64_sub x (f64_of_Z 1) = x - f64_scale.
Proof.
  intros Hf Hx. rewrite f64_of_Z_exact, Z.mul_1_l by lia. unfold f64_sub. apply f64_round_1.
  destruct Hf as (m & e & He & Hm & ->). pose proof f64_scale_pos.
  assert (0 < 2 ^ e) by by apply Z.pow_pos_nonneg.
  destruct (decide (e <= 1074)) as [Hle|Hgt].
  - exists (m - 2 ^ (1074 - e)), e. pose proof (Z.pow_pos_nonneg 2 (1074 - e) ltac:(lia) ltac:(lia)).
    assert (f64_scale = 2 ^ (1074 - e) * 2 ^ e) as Hs.
    { rewrite <- Z.pow_add_r by lia. replace (1074 - e + e) with 1074 by lia. apply f64_scale_eq. }
    rewrite Hs in *. split_and!; [done|nia|lia].
  - assert (2 ^ e = 2 ^ (e - 1074) * f64_scale) as Hs.
    { rewrite f64_scale_eq, <- Z.pow_add_r by lia. f_equal. lia. }
    rewrite Hs in *. replace (m * (2 ^ (e - 1074) * f64_scale) - f64_scale) with
      ((m * 2 ^ (e - 1074) - 1) * f64_scale) by lia.
    apply f64_int. nia.
Qed.

(** Durations of at least a second. *)
Lemma Seconds_ge_1 (d : Z) : second <= d <= max_int64 → f64_scale <= Seconds d.
Proof.
  intros Hd. unfold Seconds. pose proof f64_scale_pos. unfold second, max_int64 in *.
  assert (1 <= d ÷ 1000000000) as Hq by (apply Z.quot_le_lower_bound; lia).
  pose proof (f64_of_Z_mono 1 _ Hq) as Hm. rewrite f64_of_Z_exact, Z.mul_1_l in Hm by lia.
  assert (0 <= f64_div (f64_of_Z (Z.rem d 1000000000)) (f64_of_Z 1000000000)).
  { apply f64_div_nonneg; [apply f64_of_Z_nonneg, Z.rem_nonneg; lia|].
    rewrite f64_of_Z_exact by lia. lia. }
  apply f64_round_ge; [lia| |lia]. rewrite <- (Z.mul_1_l f64_scale). apply f64_int. lia.
Qed.

Lemma f64_scale_big : 2 ^ 100 <= f64_scale.
Proof. rewrite f64_scale_eq. apply Z.pow_le_mono_r; lia. Qed.

(** The fraction of a second in [Seconds]. *)
Lemma fraction_upper (m : Z) :
  0 <= m < second →
  0 <= f64_div (f64_of_Z m) (f64_of_Z second) ∧
  2 ^ 53 * (f64_div (f64_of_Z m) (f64_of_Z second) * second)
    <= (2 ^ 53 + 1) * (m * f64_scale) + 2 ^ 52 * second.
Proof.
  intros Hm. pose proof f64_scale_pos as Hs. unfold second in *.
  rewrite !f64_of_Z_exact by lia. split; [apply f64_div_nonneg; nia|].
  unfold f64_div. rewrite (proj2 (Z.ltb_ge _ _)) by lia.
  pose proof (f64_round_upper (m * f64_scale * f64_scale) (1000000000 * f64_scale)
    ltac:(lia) ltac:(nia)) as Hu.
  set (x := f64_round _ _) in *. apply (Zmult_le_reg_r _ _ f64_scale); lia.
Qed.

(** [Seconds] exceeds the exact quotient by less than one part in [2^51]. *)
Lemma Seconds_upper (d : Z) :
  0 < d <= max_int64 → 2 ^ 51 * (Seconds d * second) <= (2 ^ 51 + 1) * (d * f64_scale).
Proof.
  intros Hd. pose proof f64_scale_big as Hbig.
  assert (Hdm : d = second * (d ÷ second) + Z.rem d second) by (apply Z.quot_rem; done).
  pose proof (Z.rem_bound_pos d second ltac:(lia) ltac:(done)) as Hrem.
  assert (0 <= d ÷ second <= 2 ^ 53) as Hq.
  { split; [apply Z.quot_pos; unfold second; lia|].
    apply Z.quot_le_upper_bound; unfold second, max_int64 in *; lia. }
  unfold Seconds. destruct (fraction_upper _ Hrem) as [Hf0 Hfrac].
  set (q := d ÷ second) in *. set (m := Z.rem d second) in *. set (frac := f64_div _ _) in *.
  rewrite (f64_of_Z_exact q) by lia.
  pose proof (f64_round_upper (q * f64_scale + frac) 1 ltac:(lia) ltac:(nia)) as Hsec.
  unfold f64_add. set (sec := f64_round _ _) in *. clearbody q m sec frac.
  replace (d * f64_scale) with (second * (q * f64_scale) + m * f64_scale) by (rewrite Hdm; ring).
  unfold second in *.
  assert (0 < q * f64_scale + m * f64_scale) by nia.
  assert (f64_scale <= 1000000000 * (q * f64_scale) + m * f64_scale) by nia.
  set (A := q * f64_scale) in *. set (B := m * f64_scale) in *. lia.
Qed.

(** [Seconds] times a rate exceeds the exact product by less than one part in
    [2^50]. *)
Lemma Seconds_rate_upper (d rate : Z) :
  0 <= d <= max_int64 → 0 <= rate <= 2 ^ 53 →
  2 ^ 50 * (f64_mul (Seconds d) (f64_of_Z rate) * second) <= (2 ^ 50 + 1) * (d * rate * f64_scale).
Proof.
  intros Hd Hr. pose proof f64_scale_pos as Hs. pose proof f64_scale_big as Hbig.
  destruct (decide (d = 0)) as [->|Hd0]; [rewrite Seconds_0, f64_mul_0_l; lia|].
  rewrite f64_of_Z_exact by lia.
  assert (0 <= Seconds d) as Hs0 by (apply Seconds_nonneg; lia).
  pose proof (Seconds_upper d ltac:(lia)) as Hsec. set (sec := Seconds d) in *.
  pose proof (f64_round_upper (sec * (rate * f64_scale)) f64_scale Hs ltac:(nia)) as Hmul.
  unfold f64_mul. set (x := f64_round _ _) in *.
  assert (2 ^ 53 * x <= (2 ^ 53 + 1) * (sec * rate) + 2 ^ 52) as Hx.
  { apply (Zmult_le_reg_r _ _ f64_scale); lia. }
  destruct (decide (rate = 0)) as [->|Hr0].
  { assert (x <= 0); [|unfold second; lia]. apply f64_round_le; [done|apply f64_0|lia]. }
  assert (2 ^ 51 * (sec * rate * second) <= (2 ^ 51 + 1) * (d * rate * f64_scale)) by nia.
  assert (f64_scale <= d * rate * f64_scale) by nia.
  unfold second in *. set (P := sec * rate) in *. set (Q := d * rate * f64_scale) in *. lia.
Qed.

#[global] Opaque f64_round.
