(* ===== verification/Decimal.v ===== *)
(** * Floating-point numbers as text

    How [encoding/json] reads and writes a [float64] ([strconv.ParseFloat] and
    [strconv.AppendFloat] with the precision -1): a literal is rounded to the
    nearest float64, and a float64 is written with the fewest digits that are
    read back as the same number. *)

From S2P Require Import Prelude Strconv Database Float64 Json.

(** ** Reading *)

(** The number of a sequence of digits. *)
Definition dec_val (ds : text) : Z := foldl (λ n c, n * 10 + (Z.of_N c - 48)) 0 ds.

(** [m * 10^e], rounded. *)
Definition dec_round (m e : Z) : Z :=
  if 0 <=? e then f64_round (m * 10 ^ e * f64_scale) 1 else f64_round (m * f64_scale) (10 ^ (- e)).

(** The exponent after the letter. *)
Definition exp_val (s : text) : Z :=
  match s with
  | _ :: c :: s' => if (c =? 45)%N then - dec_val s' else if (c =? 43)%N then dec_val s' else dec_val (c :: s')
  | _ => 0
  end.

(** The digits of a literal without its sign and its exponent. *)
Definition decimal (lit : text) : option (Z * Z) :=
  let '(sg, s) := scan_sign lit in
  '(i, s) ← scan_int s; '(f, s) ← scan_frac s; '(e, _) ← scan_exp s;
  let ds := list.tail f in
  let m := dec_val (i ++ ds) in
  Some (if decide (sg = []) then m else - m, exp_val e - Z.of_nat (length ds)).

(** [strconv.ParseFloat] of a number of JSON: none when it is out of range. *)
Definition parse_float (lit : text) : option Z :=
  '(m, e) ← decimal lit;
  let x := dec_round m e in
  if 2 ^ 1024 * f64_scale <=? Z.abs x then None else Some x.

(** ** Writing *)

Definition digits (n : Z) : text := bytes_of (pretty (Z.to_N n)).

(** The number of digits before the point of [x], not positive for a fraction. *)
Definition dec_len (x : Z) : Z :=
  if x <? f64_scale then 1 - Z.of_nat (length (digits ((f64_scale - 1) / x)))
  else Z.of_nat (length (digits (x / f64_scale))).

(** The decimal with the exponent [e] that is nearest to [x], or else the one on
    the other side of [x], if it is read back as [x]. *)
Definition try_exp (x e : Z) : option Z :=
  let '(n, d) := if 0 <=? e then (x, f64_scale * 10 ^ e) else (x * 10 ^ (- e), f64_scale) in
  let c := rne n d in
  let c' := if c =? n / d then c + 1 else n / d in
  if dec_round c e =? x then Some c
  else if dec_round c' e =? x then Some c'
  else None.

(** From the exponent [e] down: the first of [n] that has a decimal for [x].  17
    digits are always enough: [shortest_found]. *)
Fixpoint shortest_from (n : nat) (x e : Z) : Z * Z :=
  match n with
  | O => (0, 0)
  | S n => match try_exp x e with Some c => (c, e) | None => shortest_from n x (e - 1) end
  end.

(** Without zeros at the end: 9.99 is nearest to 10 among the numbers with one
    digit. *)
Fixpoint strip_zeros (n : nat) (m e : Z) : Z * Z :=
  match n with
  | O => (m, e)
  | S n => if m mod 10 =? 0 then strip_zeros n (m / 10) (e + 1) else (m, e)
  end.

Definition shortest (x : Z) : Z * Z :=
  let '(m, e) := shortest_from 17 x (dec_len x - 1) in strip_zeros 17 m e.

Definition zeros (n : nat) : text := replicate n 48%N.

(** [%e] with the shortest digits, its exponent without zeros in front. *)
Definition format_e (m e : Z) : text :=
  let ds := digits m in
  let x := e + Z.of_nat (length ds) - 1 in
  take 1 ds ++ (if decide (drop 1 ds = []) then [] else 46%N :: drop 1 ds) ++
  101%N :: (if 0 <=? x then 43%N :: digits x else 45%N :: digits (- x)).

(** [%f] with the shortest digits. *)
Definition format_f (m e : Z) : text :=
  let ds := digits m in
  let p := Z.of_nat (length ds) + e in
  if 0 <=? e then ds ++ zeros (Z.to_nat e)
  else if 0 <? p then take (Z.to_nat p) ds ++ 46%N :: drop (Z.to_nat p) ds
  else 48%N :: 46%N :: zeros (Z.to_nat (- p)) ++ ds.

(** A positive number, as [floatEncoder] writes it. *)
Definition format_pos (x : Z) : text :=
  let '(m, e) := shortest x in
  if (x <? dec_round 1 (-6)) || (dec_round 1 21 <=? x) then format_e m e else format_f m e.

Definition format_float (x : Z) : text :=
  if x =? 0 then [48%N] else if x <? 0 then 45%N :: format_pos (- x) else format_pos x.

(** ** Decimals that stand for the same number *)

(** The rounding of a decimal depends on its value alone. *)
Lemma dec_round_scale (m e : Z) (k : nat) : dec_round (m * 10 ^ Z.of_nat k) e = dec_round m (e + Z.of_nat k).
Proof.
  assert (∀ n1 d1 n2 d2, 0 < d1 → 0 < d2 → n1 * d2 = n2 * d1 → f64_round n1 d1 = f64_round n2 d2) as Heq.
  { intros n1 d1 n2 d2 H1 H2 H. apply Z.le_antisymm; apply f64_round_mono; lia. }
  assert (∀ i, 0 <= i → 0 < 10 ^ i) as Hp by (intros; by apply Z.pow_pos_nonneg).
  unfold dec_round. destruct (Z.leb_spec 0 e), (Z.leb_spec 0 (e + Z.of_nat k)); [|lia|..].
  - rewrite Z.pow_add_r by lia. f_equal. lia.
  - apply Heq; [by apply Hp; lia|lia|]. replace (Z.of_nat k) with ((e + Z.of_nat k) + - e) at 1 by lia.
    rewrite Z.pow_add_r by lia. lia.
  - apply Heq; [by apply Hp; lia..|]. replace (- e) with (- (e + Z.of_nat k) + Z.of_nat k) by lia.
    rewrite Z.pow_add_r by lia. lia.
Qed.

Lemma strip_zeros_round (n : nat) (m e : Z) :
  0 < m → let '(m', e') := strip_zeros n m e in 0 < m' ∧ dec_round m' e' = dec_round m e.
Proof.
  revert m e. induction n as [|n IH]; intros m e Hm; simpl; [done|].
  destruct (Z.eqb_spec (m mod 10) 0) as [H|H]; [|done].
  assert (m = m / 10 * 10) as Hdiv by (pose proof (Z.div_mod m 10); lia).
  specialize (IH (m / 10) (e + 1) ltac:(lia)). destruct (strip_zeros n (m / 10) (e + 1)) as [m' e'].
  destruct IH as [? ->]. split; [done|]. rewrite Hdiv at 2. symmetry. apply (dec_round_scale (m / 10) e 1).
Qed.

Lemma dec_round_0 (e : Z) : dec_round 0 e = 0.
Proof.
  unfold dec_round. destruct (0 <=? e) eqn:E; [by apply f64_round_1, f64_0|]. apply Z.leb_gt in E.
  replace (0 * f64_scale) with (0 * 10 ^ (- e)) by lia. apply f64_round_exact; [apply Z.pow_pos_nonneg; lia|apply f64_0].
Qed.

Lemma try_exp_round (x e c : Z) : 0 < x → try_exp x e = Some c → 0 < c ∧ dec_round c e = x.
Proof.
  intros Hx. unfold try_exp. pose proof f64_scale_pos as Hs.
  set (p := if 0 <=? e then (x, f64_scale * 10 ^ e) else (x * 10 ^ (- e), f64_scale)).
  assert (0 < p.2 ∧ 0 <= p.1) as [Hd Hn].
  { unfold p. destruct (Z.leb_spec 0 e); simpl; [pose proof (Z.pow_pos_nonneg 10 e)|pose proof (Z.pow_pos_nonneg 10 (- e))]; nia. }
  destruct p as [n d]. simpl in *. assert (0 <= rne n d) as Hc by (apply rne_ge; lia).
  assert (0 <= n / d) by (by apply Z.div_pos).
  assert (∀ c, 0 <= c → dec_round c e = x → 0 < c ∧ dec_round c e = x) as Hpos.
  { intros c' Hc' Hr. split; [|done]. destruct (decide (c' = 0)) as [->|]; [|lia]. rewrite dec_round_0 in Hr. lia. }
  destruct (Z.eqb_spec (dec_round (rne n d) e) x); [intros [= <-]; by apply Hpos|].
  destruct (Z.eqb_spec (dec_round (if rne n d =? n / d then rne n d + 1 else n / d) e) x); [|done].
  intros [= <-]. apply Hpos; [|done]. destruct (_ =? _); lia.
Qed.

(** ** Digits *)

Lemma dec_val_app (xs ys : text) : dec_val (xs ++ ys) = dec_val xs * 10 ^ Z.of_nat (length ys) + dec_val ys.
Proof.
  unfold dec_val. rewrite foldl_app. generalize (foldl (λ n c, n * 10 + (Z.of_N c - 48)) 0 xs) as m.
  induction ys as [|y ys IH] using rev_ind; intros m; simpl; [lia|].
  rewrite !foldl_app, IH, length_app. simpl. rewrite Nat.add_1_r, Nat2Z.inj_succ, Z.pow_succ_r by lia. lia.
Qed.

Lemma dec_val_zeros (n : nat) : dec_val (zeros n) = 0.
Proof. unfold dec_val, zeros. induction n as [|n IH]; [done|]. simpl. exact IH. Qed.

Lemma dec_val_parse (s : string) (n m : Z) :
  parse_digits n s = Some m → foldl (λ n c, n * 10 + (Z.of_N c - 48)) n (bytes_of s) = m.
Proof.
  revert n. induction s as [|c s IH]; intros n; simpl; [by intros [= ->]|].
  unfold digit_val at 1. destruct (_ && _); [|done]. intros H%IH. unfold bytes_of in *. csimpl.
  rewrite <- H. f_equal. rewrite <- (N2Nat.id (Ascii.N_of_ascii c)), nat_N_Z. unfold Ascii.nat_of_ascii. lia.
Qed.

Lemma digits_val (n : Z) : 0 <= n → dec_val (digits n) = n.
Proof.
  intros Hn. apply dec_val_parse. pose proof (parse_uint_pretty (Z.to_N n)) as H. unfold parse_uint in H.
  destruct (pretty (Z.to_N n)); [done|]. rewrite H. f_equal. lia.
Qed.

Lemma all_digits_dec (s : string) : all_digits s → Forall (λ c, is_dec c = true) (bytes_of s).
Proof.
  induction s as [|c s IH]; [constructor|]. intros [[d Hd] Hs]. unfold bytes_of in *. csimpl. constructor; [|by apply IH].
  unfold digit_val in Hd. unfold is_dec. destruct (_ && _) eqn:E; [|done].
  apply andb_true_iff in E as [E1%Z.leb_le E2%Z.leb_le]. unfold Ascii.nat_of_ascii in *.
  apply andb_true_iff. split; apply N.leb_le; lia.
Qed.

Lemma digits_dec (n : Z) : Forall (λ c, is_dec c = true) (digits n).
Proof. apply all_digits_dec, all_digits_pretty. Qed.

(** A positive number does not begin with a zero. *)
Lemma pretty_N_go_head (x : N) (s : string) :
  (0 < x)%N → ∃ d t, (0 < d < 10)%N ∧ pretty_N_go x s = String (pretty_N_char d) t.
Proof.
  revert s. induction (N.lt_wf_0 x) as [x _ IH]; intros s Hx. rewrite pretty_N_go_step by done.
  destruct (decide (x < 10)%N) as [Hlt|Hge].
  - rewrite N.div_small, N.mod_small by done. rewrite pretty_N_go_0. by exists x, s.
  - apply IH; [by apply N.div_lt|]. apply N.div_str_pos. lia.
Qed.

Lemma digits_head (n : Z) : 0 < n → ∃ c ds, digits n = c :: ds ∧ is_dec c = true ∧ c ≠ 48%N.
Proof.
  intros Hn. unfold digits, pretty, pretty_N. rewrite decide_False by lia.
  destruct (pretty_N_go_head (Z.to_N n) "" ltac:(lia)) as (d & t & Hd & ->).
  assert (d = 1 ∨ d = 2 ∨ d = 3 ∨ d = 4 ∨ d = 5 ∨ d = 6 ∨ d = 7 ∨ d = 8 ∨ d = 9)%N as Hc by lia.
  unfold bytes_of. csimpl. do 2 eexists. split; [reflexivity|].
  repeat destruct Hc as [->|Hc]; [by vm_compute..|by rewrite Hc].
Qed.

Lemma digits_nonempty (n : Z) : digits n ≠ [].
Proof.
  unfold digits. pose proof (pretty_N_nonempty (Z.to_N n)) as H. by destruct (pretty (Z.to_N n)).
Qed.

Lemma dec_val_bounds (ds : text) :
  Forall (λ c, is_dec c = true) ds → 0 <= dec_val ds < 10 ^ Z.of_nat (length ds).
Proof.
  induction ds as [|c ds IH] using rev_ind; intros Hds; [done|]. apply Forall_app in Hds as [Hds Hc].
  apply Forall_cons in Hc as [Hc _]. unfold is_dec in Hc. apply andb_true_iff in Hc as [?%N.leb_le ?%N.leb_le].
  rewrite dec_val_app, length_app. change (10 ^ Z.of_nat (length [c])) with 10. cbn [length].
  rewrite Nat.add_1_r, Nat2Z.inj_succ, Z.pow_succ_r by lia. change (dec_val [c]) with (0 * 10 + (Z.of_N c - 48)). specialize (IH Hds). lia.
Qed.

(** A positive number of [l] digits. *)
Lemma digits_length (n : Z) :
  0 < n → let l := Z.of_nat (length (digits n)) in 1 <= l ∧ 10 ^ (l - 1) <= n < 10 ^ l.
Proof.
  intros Hn. pose proof (digits_val n ltac:(lia)) as Hv. pose proof (digits_dec n) as Hd.
  destruct (digits_head n Hn) as (c & ds & Hds & Hc & H48). rewrite Hds in *.
  pose proof (dec_val_bounds _ Hd) as Hb. rewrite Hv in Hb.
  split_and!; [cbn [length]; lia| |by apply Hb]. apply Forall_cons in Hd as [_ Hd]. pose proof (dec_val_bounds ds Hd) as Hb'.
  change (c :: ds) with ([c] ++ ds) in Hv. rewrite dec_val_app in Hv.
  change (dec_val [c]) with (0 * 10 + (Z.of_N c - 48)) in Hv.
  replace (Z.of_nat (length (c :: ds)) - 1) with (Z.of_nat (length ds)) by (cbn [length]; lia).
  unfold is_dec in Hc. apply andb_true_iff in Hc as [?%N.leb_le ?%N.leb_le].
  assert (0 < 10 ^ Z.of_nat (length ds)) by (apply Z.pow_pos_nonneg; lia). nia.
Qed.

(** ** 17 digits are enough *)

(** [x] is at least the power of ten of its first digit. *)
Lemma dec_len_le (x : Z) :
  0 < x → let e := dec_len x - 1 in
  f64_scale * 10 ^ Z.max 0 e <= x * 10 ^ Z.max 0 (- e).
Proof.
  intros Hx. unfold dec_len. pose proof f64_scale_pos as Hs. destruct (Z.ltb_spec x f64_scale).
  - destruct (digits_length ((f64_scale - 1) / x)) as (Hl & _ & Hu); [apply Z.div_str_pos; lia|].
    set (l := Z.of_nat (length (digits ((f64_scale - 1) / x)))) in *.
    rewrite Z.max_l, Z.max_r by lia. replace (- (1 - l - 1)) with l by lia.
    pose proof (Z.div_mod (f64_scale - 1) x ltac:(lia)). pose proof (Z.mod_pos_bound (f64_scale - 1) x ltac:(lia)). nia.
  - destruct (digits_length (x / f64_scale)) as (Hl & Hlo & _); [apply Z.div_str_pos; lia|].
    set (l := Z.of_nat (length (digits (x / f64_scale)))) in *. rewrite Z.max_r, Z.max_l by lia.
    pose proof (Z.mul_div_le x f64_scale Hs). nia.
Qed.

Lemma try_exp_17 (x : Z) : 0 < x → f64 x → ∃ c, try_exp x (dec_len x - 17) = Some c.
Proof.
  intros Hx Hf. pose proof (dec_len_le x Hx) as Hl. simpl in Hl. pose proof f64_scale_pos as Hs.
  unfold try_exp. set (e := dec_len x - 17) in *.
  set (p := if 0 <=? e then (x, f64_scale * 10 ^ e) else (x * 10 ^ (- e), f64_scale)).
  assert (0 < p.2 ∧ 10 ^ 16 * p.2 <= p.1 ∧
    ∀ c, 2 * Z.abs (c * p.2 - p.1) <= p.2 → dec_round c e = x) as (Hd & Hle & Hround).
  { unfold p, dec_round. destruct (Z.leb_spec 0 e); cbn [fst snd].
    - assert (0 < 10 ^ e) by (by apply Z.pow_pos_nonneg). rewrite Z.max_r, Z.max_l in Hl by lia.
      replace (dec_len x - 1) with (16 + e) in Hl by lia. rewrite Z.pow_add_r in Hl by lia.
      split_and!; [nia|lia|]. intros c Hc. apply f64_round_close; [lia|done|done|]. nia.
    - assert (0 < 10 ^ (- e)) by (apply Z.pow_pos_nonneg; lia).
      assert (10 ^ 16 * f64_scale <= x * 10 ^ (- e)) as Hle.
      { destruct (decide (0 <= dec_len x - 1)).
        - rewrite Z.max_r, Z.max_l in Hl by lia. assert (16 = dec_len x - 1 + - e) as H16 by lia. rewrite H16 at 1.
          rewrite Z.pow_add_r by lia. nia.
        - rewrite Z.max_l, Z.max_r in Hl by lia. replace (- e) with (16 + - (dec_len x - 1)) by lia.
          rewrite Z.pow_add_r by lia. lia. }
      split_and!; [done|done|]. intros c Hc. apply f64_round_close; [done|done|done|]. nia. }
  destruct p as [n d]. cbn [fst snd] in *. rewrite (Hround (rne n d)) by (by apply rne_error).
  rewrite Z.eqb_refl. eauto.
Qed.

(** The search ends with a decimal that is read back as [x]. *)
Lemma shortest_found (x : Z) :
  0 < x → f64 x → let '(m, e) := shortest_from 17 x (dec_len x - 1) in try_exp x e = Some m.
Proof.
  intros Hx Hf. destruct (try_exp_17 x Hx Hf) as [c Hc].
  assert (∀ n k, dec_len x - 17 = k - Z.of_nat n → let '(m, e) := shortest_from (S n) x k in try_exp x e = Some m) as H.
  { induction n as [|n IH]; intros k Hk; cbn [shortest_from].
    - replace k with (dec_len x - 17) by lia. by rewrite Hc.
    - destruct (try_exp x k) as [m|] eqn:E; [done|]. apply IH. lia. }
  apply (H 16%nat). lia.
Qed.

Lemma shortest_round (x : Z) :
  0 < x → f64 x → let '(m, e) := shortest x in 0 < m ∧ dec_round m e = x.
Proof.
  intros Hx Hf. unfold shortest. pose proof (shortest_found x Hx Hf) as H.
  destruct (shortest_from 17 x (dec_len x - 1)) as [m e]. apply try_exp_round in H as [Hm Hr]; [|done].
  pose proof (strip_zeros_round 17 m e Hm) as Hst. destruct (strip_zeros 17 m e) as [m' e'].
  destruct Hst as [? ->]. done.
Qed.

Lemma take_digits_all (ds r : text) : Forall (λ c, is_dec c = true) ds → no_digit r → take_digits (ds ++ r) = (ds, r).
Proof.
  intros Hds Hr. apply (take_digits_more ds ds [] r); [|done].
  induction Hds as [|c ds Hc _ IH]; [done|]. simpl. by rewrite Hc, IH.
Qed.

(** ** What is written is read back *)

(** A literal that is put together from its parts. *)
Lemma literal (i f e : text) (m x : Z) :
  (∃ s, i ++ f ++ e = s ∧ scan_int s = Some (i, f ++ e) ∧ (∀ c t, s = c :: t → c ≠ 45%N)) →
  scan_frac (f ++ e) = Some (f, e) → scan_exp e = Some (e, []) →
  dec_val (i ++ list.tail f) = m → exp_val e - Z.of_nat (length (list.tail f)) = x →
  let s := i ++ f ++ e in
  number s ∧ number (45%N :: s) ∧ decimal s = Some (m, x) ∧ decimal (45%N :: s) = Some (- m, x).
Proof.
  intros (s & Hs & Hi & Hh) Hf He Hm Hx. rewrite Hs. simpl.
  assert (scan_sign s = ([], s)) as Hsg.
  { destruct s as [|c t]; [done|]. simpl. by rewrite (proj2 (N.eqb_neq _ _) (Hh c t eq_refl)). }
  unfold number, scan_number, decimal. rewrite Hsg. cbn [scan_sign N.eqb Pos.eqb].
  rewrite Hi. cbn [mbind option_bind]. rewrite Hf. cbn [mbind option_bind]. rewrite He. cbn [mbind option_bind].
  rewrite Hm, Hx. cbn [app]. rewrite Hs. rewrite decide_True, decide_False by done. done.
Qed.

(** A literal that is read as the decimal [m * 10^e], with either sign. *)
Definition stands_for (s : text) (m e : Z) : Prop :=
  number s ∧ number (45%N :: s) ∧
  ∃ m' e', decimal s = Some (m', e') ∧ decimal (45%N :: s) = Some (- m', e') ∧
    dec_round m' e' = dec_round m e ∧ dec_round (- m') e' = - dec_round m e.

Lemma dec_round_opp (m e : Z) : dec_round (- m) e = - dec_round m e.
Proof.
  unfold dec_round. destruct (Z.leb_spec 0 e).
  - rewrite !Z.mul_opp_l. by apply f64_round_opp.
  - rewrite Z.mul_opp_l. apply f64_round_opp, Z.pow_pos_nonneg; lia.
Qed.

Lemma scan_int_digits (c : N) (ds r : text) :
  Forall (λ c, is_dec c = true) (c :: ds) → c ≠ 48%N → no_digit r →
  scan_int ((c :: ds) ++ r) = Some (c :: ds, r) ∧ (∀ a t, (c :: ds) ++ r = a :: t → a ≠ 45%N).
Proof.
  intros Hds Hc Hr. split.
  - simpl. rewrite (proj2 (N.eqb_neq c 48)) by done. pose proof (take_digits_all (c :: ds) r Hds Hr) as Ht.
    simpl in Ht. apply Forall_cons in Hds as [Hdec _]. rewrite Hdec in *. by rewrite Ht.
  - intros a t [= <- _]. apply Forall_cons in Hds as [Hdec _]. by intros ->.
Qed.

Lemma scan_frac_digits (ds r : text) :
  ds ≠ [] → Forall (λ c, is_dec c = true) ds → no_digit r → scan_frac (46%N :: ds ++ r) = Some (46%N :: ds, r).
Proof. intros Hne Hds Hr. simpl. rewrite take_digits_all by done. by rewrite decide_False. Qed.

Lemma scan_exp_digits (sg : N) (ds : text) :
  sg ∈ [43; 45]%N → ds ≠ [] → Forall (λ c, is_dec c = true) ds →
  scan_exp (101%N :: sg :: ds) = Some (101%N :: sg :: ds, []).
Proof.
  intros Hsg Hne Hds. pose proof (take_digits_all ds [] Hds I) as Ht. rewrite app_nil_r in Ht.
  rewrite !elem_of_cons, elem_of_nil in Hsg. simpl.
  destruct Hsg as [->|[->|[]]]; simpl; rewrite Ht; by rewrite decide_False.
Qed.

Lemma stands_for_literal (s : text) (m e m' e' : Z) :
  number s ∧ number (45%N :: s) ∧ decimal s = Some (m', e') ∧ decimal (45%N :: s) = Some (- m', e') →
  dec_round m' e' = dec_round m e → stands_for s m e.
Proof.
  intros (H1 & H2 & H3 & H4) Hr. split_and!; [done..|]. exists m', e'. split_and!; [done..|].
  by rewrite dec_round_opp, Hr.
Qed.

Lemma format_e_stands (m e : Z) : 0 < m → stands_for (format_e m e) m e.
Proof.
  intros Hm. unfold format_e. pose proof (digits_val m ltac:(lia)) as Hv. pose proof (digits_dec m) as Hd.
  destruct (digits_head m Hm) as (c & ds & Hds & Hc & H48). rewrite Hds in *. cbn [take drop].
  set (x := e + Z.of_nat (length (c :: ds)) - 1).
  set (f := if decide (ds = []) then [] else 46%N :: ds).
  set (t := 101%N :: (if 0 <=? x then 43%N :: digits x else 45%N :: digits (- x))).
  apply Forall_cons in Hd as [_ Hd].
  assert (list.tail f = ds) as Htl by (unfold f; case_decide; by subst).
  assert (no_digit (f ++ t)) as Hef by (unfold f; by case_decide).
  apply (stands_for_literal _ m e m e); [|done]. apply (literal [c] f t m e).
  - eexists. split; [done|]. apply (scan_int_digits c []); [by constructor|done|done].
  - unfold f. case_decide; [done|]. by apply scan_frac_digits.
  - unfold t. destruct (0 <=? x); apply scan_exp_digits; auto using digits_nonempty, digits_dec; set_solver.
  - by rewrite Htl.
  - rewrite Htl. unfold t, exp_val. destruct (Z.leb_spec 0 x); simpl; rewrite digits_val by lia; unfold x; simpl; lia.
Qed.

Section format_f.
Context (m e : Z) (Hm : 0 < m).
Let l : text := digits m.
Let p : Z := Z.of_nat (length l) + e.

(** A whole number. *)
Lemma format_whole : 0 <= e → stands_for (l ++ zeros (Z.to_nat e)) m e.
Proof.
  intros He. pose proof (digits_val m ltac:(lia)) as Hv. pose proof (digits_dec m) as Hd.
  destruct (digits_head m Hm) as (c & ds & Hds & Hc & H48). fold l in Hv, Hd, Hds.
  apply (stands_for_literal _ m e (m * 10 ^ e) 0).
  2:{ pose proof (dec_round_scale m 0 (Z.to_nat e)) as Hs. rewrite Z2Nat.id in Hs by done. by rewrite Hs. }
  pose proof (literal (l ++ zeros (Z.to_nat e)) [] [] (m * 10 ^ e) 0) as HL. simpl in HL. rewrite !app_nil_r in HL.
  apply HL; [|done..| |done].
  - eexists. split; [done|]. rewrite Hds in *. pose proof (scan_int_digits c (ds ++ zeros (Z.to_nat e)) []) as Hi.
    rewrite app_nil_r in Hi. apply Hi; [|done|done]. rewrite app_comm_cons. apply Forall_app.
    split; [done|]. by apply Forall_replicate.
  - rewrite dec_val_app, Hv, dec_val_zeros. unfold zeros. rewrite length_replicate, Z2Nat.id by done. lia.
Qed.

(** A number with a point among its digits. *)
Lemma format_point :
  e < 0 → 0 < p → stands_for (take (Z.to_nat p) l ++ 46%N :: drop (Z.to_nat p) l) m e.
Proof.
  intros He Hp. pose proof (digits_val m ltac:(lia)) as Hv. pose proof (digits_dec m) as Hd.
  destruct (digits_head m Hm) as (c & ds & Hds & Hc & H48). fold l in Hv, Hd, Hds.
  apply (stands_for_literal _ m e m e); [|done].
  assert (Z.to_nat p < length l)%nat as Hlt by (unfold p; lia).
  assert (take (Z.to_nat p) l ++ drop (Z.to_nat p) l = l) as Htd by apply take_drop.
  assert (Forall (λ c, is_dec c = true) (take (Z.to_nat p) l) ∧ Forall (λ c, is_dec c = true) (drop (Z.to_nat p) l))
    as [Hti Htf] by (by rewrite <- Forall_app, Htd).
  assert (drop (Z.to_nat p) l ≠ []) as Hne.
  { intros E. apply (f_equal length) in E. rewrite length_drop in E. simpl in E. lia. }
  pose proof (literal (take (Z.to_nat p) l) (46%N :: drop (Z.to_nat p) l) [] m e) as HL. rewrite app_nil_r in HL.
  apply HL; [|..|done| |].
  - eexists. split; [done|]. destruct (Z.to_nat p) as [|k] eqn:Ek; [lia|]. rewrite Hds in *. cbn [take] in *.
    by apply scan_int_digits.
  - pose proof (scan_frac_digits (drop (Z.to_nat p) l) [] Hne Htf I) as Hs. by rewrite app_nil_r in Hs.
  - cbn [list.tail]. by rewrite Htd.
  - cbn [list.tail exp_val]. rewrite length_drop. unfold p in *. lia.
Qed.

(** A number below one. *)
Lemma format_small :
  p <= 0 → stands_for (48%N :: 46%N :: zeros (Z.to_nat (- p)) ++ l) m e.
Proof.
  intros Hp. pose proof (digits_val m ltac:(lia)) as Hv. pose proof (digits_dec m) as Hd. fold l in Hv, Hd.
  apply (stands_for_literal _ m e m e); [|done]. set (f := zeros (Z.to_nat (- p)) ++ l).
  pose proof (literal [48%N] (46%N :: f) [] m e) as HL. rewrite app_nil_r in HL. apply HL; [|..|done| |].
  - eexists. split; [done|]. by split; [|intros ? ? [= <- _]].
  - pose proof (scan_frac_digits f []) as Hs. rewrite app_nil_r in Hs. apply Hs; [|apply Forall_app|done].
    + unfold f, l. pose proof (digits_nonempty m). by destruct (zeros _).
    + split; [by apply Forall_replicate|done].
  - cbn [list.tail]. change ([48%N] ++ f) with ((48%N :: zeros (Z.to_nat (- p))) ++ l).
    rewrite dec_val_app, Hv. change (48%N :: zeros (Z.to_nat (- p))) with (zeros (S (Z.to_nat (- p)))).
    rewrite dec_val_zeros. lia.
  - cbn [list.tail exp_val]. unfold f. rewrite length_app. unfold zeros. rewrite length_replicate. unfold p in *. lia.
Qed.

Lemma format_f_stands : stands_for (format_f m e) m e.
Proof.
  unfold format_f. fold l p. destruct (Z.leb_spec 0 e); [by apply format_whole|].
  destruct (Z.ltb_spec 0 p); [by apply format_point|by apply format_small].
Qed.
End format_f.

Lemma format_pos_stands (x : Z) :
  0 < x → f64 x → ∃ m e, dec_round m e = x ∧ stands_for (format_pos x) m e.
Proof.
  intros Hx Hf. unfold format_pos. pose proof (shortest_round x Hx Hf) as Hs. destruct (shortest x) as [m e].
  destruct Hs as [Hm Hr]. exists m, e. split; [done|].
  destruct (_ || _); [by apply format_e_stands|by apply format_f_stands].
Qed.

(** Every float64 survives its text. *)
Theorem parse_format_float (x : Z) (Hf : f64 x) (Hx : Z.abs x < 2 ^ 1024 * f64_scale) :
  number (format_float x) ∧ parse_float (format_float x) = Some x.
Proof.
  assert (∀ s m e, decimal s = Some (m, e) → dec_round m e = x → parse_float s = Some x) as Hp.
  { intros s m e Hs Hr. unfold parse_float. rewrite Hs. cbn [mbind option_bind]. rewrite Hr.
    destruct (Z.leb_spec (2 ^ 1024 * f64_scale) (Z.abs x)); [lia|done]. }
  unfold format_float. destruct (Z.eqb_spec x 0) as [->|Hne].
  { split; [done|]. apply (Hp _ 0 0); [done|]. apply dec_round_0. }
  destruct (Z.ltb_spec x 0).
  - destruct (format_pos_stands (- x)) as (m & e & Hr & _ & Hn & m' & e' & _ & Hd & _ & Ho); [lia|by apply f64_opp|].
    split; [done|]. apply (Hp _ _ _ Hd). lia.
  - destruct (format_pos_stands x) as (m & e & Hr & Hn & _ & m' & e' & Hd & _ & Ho & _); [lia|done|].
    split; [done|]. apply (Hp _ _ _ Hd). lia.
Qed.
