(* ===== verification/Decode.v ===== *)
(** * Go values from JSON

    [json.Unmarshal] for the types that the gateway reads: structs with their
    field names, slices, pointers, numbers, strings, booleans and times.  A
    decoder changes the value that is there: what a text does not mention stays.

    The first error of a type is remembered and decoding goes on ([Saved]);
    the error of a type that decodes itself, as [time.Time] does, ends it
    ([Aborted]). *)

From S2P Require Import Prelude Strconv Rfc3339 Database Float64 Json Decimal.
From Stdlib Require Import Ascii.

Inductive status := Decoded | Saved | Aborted.

Definition decoder (A : Type) := value → A → A * status.

(** ** Names of fields *)

(** [foldName]: lower case and upper case are the same, and so are two letters
    outside ASCII, the Kelvin sign and the long s. *)
Fixpoint fold_name (s : text) : text :=
  match s with
  | [] => []
  | a :: s1 =>
      if ((97 <=? a) && (a <=? 122))%N then (a - 32)%N :: fold_name s1
      else match s1 with
           | b :: s2 =>
               if ((a =? 0xC5) && (b =? 0xBF))%N then 83%N :: fold_name s2
               else match s2 with
                    | c :: s3 =>
                        if ((a =? 0xE2) && (b =? 0x84) && (c =? 0xAA))%N then 75%N :: fold_name s3
                        else a :: fold_name s1
                    | [] => a :: fold_name s1
                    end
           | [] => [a]
           end
  end.

Fixpoint find_by (p : string → bool) (names : list string) : option nat :=
  match names with
  | [] => None
  | name :: names => if p name then Some 0%nat else S <$> find_by p names
  end.

(** The field with exactly this name, or else the first one with a name that
    differs in case only. *)
Definition find_name (names : list string) (key : string) : option nat :=
  match find_by (String.eqb key) names with
  | Some i => Some i
  | None => find_by (λ name, bool_decide (fold_name (bytes_of name) = fold_name (bytes_of key))) names
  end.

Section struct.
Context {A : Type}.

Definition find_field (fs : list (string * decoder A)) (key : string) : option (decoder A) :=
  match find_name fs.*1 key with
  | Some i => snd <$> fs !! i
  | None => None
  end.

Fixpoint members (fs : list (string * decoder A)) (kvs : list (text * value)) (a : A) (st : status) : A * status :=
  match kvs with
  | [] => (a, st)
  | (k, v) :: kvs =>
      match find_field fs (unquote k) with
      | None => members fs kvs a st
      | Some d =>
          match d v a with
          | (a, Decoded) => members fs kvs a st
          | (a, Saved) => members fs kvs a Saved
          | (a, Aborted) => (a, Aborted)
          end
      end
  end.

Definition struct (fs : list (string * decoder A)) : decoder A := λ v a,
  match v with
  | VObj kvs => members fs kvs a Decoded
  | VNull => (a, Decoded)
  | _ => (a, Saved)
  end.

Definition pointer (zero : A) (d : decoder A) : decoder (option A) := λ v o,
  match v with
  | VNull => (None, Decoded)
  | _ => let '(a, st) := d v (default zero o) in (Some a, st)
  end.

(** The elements of an array are decoded into those that the slice has, and into
    new ones after them.  An array that occurs more than once under one name
    starts from the elements that the last occurrence left; what a shorter one
    cut off is forgotten, where Go would still have it in the spare capacity. *)
Fixpoint elements (zero : A) (d : decoder A) (vs : list value) (old : list A) (st : status) : list A * status :=
  match vs with
  | [] => ([], st)
  | v :: vs =>
      match d v (default zero (head old)) with
      | (a, Aborted) => (a :: list.tail old, Aborted)
      | (a, s) =>
          let '(l, st) := elements zero d vs (list.tail old) (if s is Saved then Saved else st) in (a :: l, st)
      end
  end.

Definition slice (zero : A) (d : decoder A) : decoder (list A) := λ v l,
  match v with
  | VArr vs => elements zero d vs l Decoded
  | VNull => ([], Decoded)
  | _ => (l, Saved)
  end.

(** A field of a larger struct. *)
Definition at_field {B} (get : B → A) (put : A → B → B) (d : decoder A) : decoder B := λ v b,
  let '(a, st) := d v (get b) in (put a b, st).

Lemma members_step (fs : list (string * decoder A)) (k : text) (v : value) (kvs : list (text * value)) (a : A)
    (st : status) (i : nat) (name : string) (d : decoder A) :
  find_name fs.*1 (unquote k) = Some i → fs !! i = Some (name, d) →
  members fs ((k, v) :: kvs) a st =
    match d v a with
    | (a, Decoded) => members fs kvs a st
    | (a, Saved) => members fs kvs a Saved
    | (a, Aborted) => (a, Aborted)
    end.
Proof. intros Hi Hd. cbn [members]. unfold find_field. by rewrite Hi, Hd. Qed.
End struct.

(** One field of a text whose names are known. *)
Ltac decode_member :=
  erewrite members_step; [|vm_compute; reflexivity|reflexivity]; unfold at_field at 1; cbv beta iota.

(** ** Plain values *)

Definition d_string : decoder string := λ v s,
  match v with
  | VStr raw => (unquote raw, Decoded)
  | VNull => (s, Decoded)
  | _ => (s, Saved)
  end.

Definition d_bool : decoder bool := λ v b,
  match v with
  | VBool b => (b, Decoded)
  | VNull => (b, Decoded)
  | _ => (b, Saved)
  end.

(** An [int]: a number with a fraction or an exponent is an error. *)
Definition d_int : decoder Z := λ v n,
  match v with
  | VNum lit => match Atoi (string_of_bytes lit) with (m, true) => (m, Decoded) | _ => (n, Saved) end
  | VNull => (n, Decoded)
  | _ => (n, Saved)
  end.

Definition d_float : decoder Z := λ v x,
  match v with
  | VNum lit => match parse_float lit with Some y => (y, Decoded) | None => (x, Saved) end
  | VNull => (x, Decoded)
  | _ => (x, Saved)
  end.

(** [Time.UnmarshalJSON], which looks at the text between the quotation marks as
    it is written. *)
Definition d_time : decoder time := λ v t,
  match v with
  | VStr raw => match parse_RFC3339 (string_of_bytes raw) with Some t => (t, Decoded) | None => (t, Aborted) end
  | VNull => (t, Decoded)
  | _ => (t, Aborted)
  end.

(** A type with [UnmarshalText]. *)
Definition d_text {A} (of_text : string → option A) : decoder A := λ v a,
  match v with
  | VStr raw => match of_text (unquote raw) with Some a => (a, Decoded) | None => (a, Aborted) end
  | VNull => (a, Decoded)
  | _ => (a, Saved)
  end.

(** Strings as [json.Marshal] writes them. *)
Lemma d_string_quote (s x : string) : valid_text s = true → d_string (VStr (quote s)) x = (s, Decoded).
Proof. intros Hs. unfold d_string. by rewrite unquote_quote. Qed.

Lemma d_text_quote {A} (of_text : string → option A) (s : string) (a x : A) :
  valid_text s = true → of_text s = Some a → d_text of_text (VStr (quote s)) x = (a, Decoded).
Proof. intros Hs Ha. unfold d_text. by rewrite unquote_quote, Ha. Qed.

Lemma d_time_text (s : string) (t x : time) : parse_RFC3339 s = Some t → d_time (VStr (bytes_of s)) x = (t, Decoded).
Proof. intros Ht. unfold d_time. by rewrite string_of_bytes_of, Ht. Qed.

(** ** A whole text *)

(** [json.Unmarshal]: the value, and whether the error is nil.  A text that is not
    JSON changes nothing. *)
Definition Unmarshal {A} (d : decoder A) (s : string) (a : A) : A * bool :=
  match parse (bytes_of s) with
  | None => (a, false)
  | Some v => match d v a with (a, Decoded) => (a, true) | (a, _) => (a, false) end
  end.

(** What [json.Marshal] prints of a tree. *)
Definition text_of (v : value) : string := string_of_bytes (print v).

(** ** Times between quotation marks *)

(** The text of a time has no character that JSON would escape. *)
Fixpoint plain (s : string) : Prop :=
  match s with
  | EmptyString => True
  | String c s => (32 <= N_of_ascii c < 128 ∧ N_of_ascii c ≠ 34 ∧ N_of_ascii c ≠ 92)%N ∧ plain s
  end.

Lemma digit_plain (c : ascii) (d : Z) : digit_val c = Some d → (48 <= N_of_ascii c <= 57)%N.
Proof. unfold digit_val. destruct (_ && _) eqn:E; [|done]. intros _. bool_to_prop. unfold nat_of_ascii in *. lia. Qed.

Lemma digit_cons_plain (c : ascii) (d : Z) (s : string) : digit_val c = Some d → plain s → plain (String c s).
Proof. intros Hd Hs. apply digit_plain in Hd. split; [lia|done]. Qed.

Lemma getnum_plain (fixed : bool) (s s' : string) (n : Z) : getnum fixed s = Some (n, s') → plain s' → plain s.
Proof.
  destruct s as [|a [|b s]]; [done|cbn [getnum]..].
  - destruct (digit_val a) eqn:Ha; [|done]. destruct fixed; [done|]. intros [= _ <-] _. by apply (digit_cons_plain a _ "" Ha).
  - destruct (digit_val a) eqn:Ha; [|done]. destruct (digit_val b) eqn:Hb; [|destruct fixed; [done|]]; intros [= _ <-] Hs.
    + eapply (digit_cons_plain a); [done|]. by eapply (digit_cons_plain b).
    + by eapply (digit_cons_plain a).
Qed.

Lemma get_year_plain (s s' : string) (n : Z) : get_year s = Some (n, s') → plain s' → plain s.
Proof.
  unfold get_year. destruct (getnum true s) as [[h s1]|] eqn:E1; [|done]. option_step.
  destruct (getnum true s1) as [[l s2]|] eqn:E2; [|done]. option_step. intros [= _ <-] Hs.
  eapply getnum_plain; [done|]. by eapply getnum_plain.
Qed.

Lemma lit_plain (c : ascii) (s s' : string) :
  plain (String c "") → lit c s = Some s' → plain s' → plain s.
Proof.
  intros [Hc _]. destruct s as [|a s]; [done|]. cbn [lit]. destruct (Ascii.eqb_spec a c) as [->|]; [|done].
  by intros [= <-].
Qed.

Lemma scan_nanos_plain (k : nat) (acc n : Z) (s s' : string) : scan_nanos k acc s = (n, s') → plain s' → plain s.
Proof.
  revert k acc. induction s as [|c s IH]; intros k acc; cbn [scan_nanos]; [by intros [= _ <-]|].
  destruct (digit_val c) eqn:Hc; [|by intros [= _ <-]].
  destruct k; intros H Hs; apply (digit_cons_plain c _ _ Hc), (IH _ _ H Hs).
Qed.

Lemma get_nanos_plain (n : Z) (s s' : string) : get_nanos s = (n, s') → plain s' → plain s.
Proof.
  destruct s as [|c s]; [by intros [= _ <-]|]. unfold get_nanos.
  destruct (Ascii.eqb_spec c "."), (Ascii.eqb_spec c ","); subst; try done; cbn [orb andb];
    try (by intros [= _ <-]); destruct (is_digit s); try (by intros [= _ <-]);
    intros H Hs; (split; [vm_compute; intuition done|by eapply scan_nanos_plain]).
Qed.

Lemma get_zone_plain (n : Z) (s s' : string) : get_zone s = Some (n, s') → plain s' → plain s.
Proof.
  intros H Hs'. destruct s as [|c s]; [done|].
  assert (c = "Z"%char ∧ s = s' ∨ c ≠ "Z"%char) as [[-> <-]|Hc].
  { destruct (decide (c = "Z"%char)) as [->|]; [left|by right]. split; [done|]. by injection H. }
  { split; [vm_compute; intuition done|done]. }
  assert (get_zone (String c s) = ('(hr, s) ← getnum true s; s ← lit ":" s; '(mm, s) ← getnum true s;
      if (24 <? hr) || (60 <? mm) then None
      else if Ascii.eqb c "+" then Some ((hr * 60 + mm) * 60, s)
      else if Ascii.eqb c "-" then Some (- ((hr * 60 + mm) * 60), s)
      else None)) as E.
  { destruct c as [[] [] [] [] [] [] [] []]; try reflexivity. done. }
  rewrite E in H. clear E.
  destruct (getnum true s) as [[h s1]|] eqn:E1; [|done]. cbn [mbind option_bind] in H.
  destruct (lit ":" s1) as [s2|] eqn:E2; [|done]. cbn [mbind option_bind] in H.
  destruct (getnum true s2) as [[m s3]|] eqn:E3; [|done]. cbn [mbind option_bind] in H.
  assert (plain s) as Hp.
  { destruct (_ || _); [done|]. assert (s3 = s') as -> by (repeat case_match; simplify_eq; done).
    eapply getnum_plain; [done|]. eapply lit_plain; [|done|by eapply getnum_plain]. vm_compute. intuition done. }
  destruct (_ || _); [done|]. destruct (Ascii.eqb_spec c "+"); [subst; split; [vm_compute; intuition done|done]|].
  destruct (Ascii.eqb_spec c "-"); [subst; split; [vm_compute; intuition done|done]|done].
Qed.

Lemma parse_RFC3339_plain (s : string) (t : time) : parse_RFC3339 s = Some t → plain s.
Proof.
  unfold parse_RFC3339. intros H.
  repeat (match type of H with
  | context [get_year ?s] => destruct (get_year s) as [[? ?]|] eqn:?; [|done]
  | context [getnum ?f ?s] => destruct (getnum f s) as [[? ?]|] eqn:?; [|done]
  | context [lit ?c ?s] => destruct (lit c s) eqn:?; [|done]
  | context [get_nanos ?s] => destruct (get_nanos s) eqn:?
  | context [get_zone ?s] => destruct (get_zone s) as [[? ?]|] eqn:?; [|done]
  | context [if ?b then None else _] => destruct b eqn:?; [done|]
  end; cbn [mbind option_bind] in H).
  match goal with E : negb (String.eqb ?s _) = false |- _ => apply negb_false_iff, String.eqb_eq in E; subst s end.
  repeat first
    [ eassumption
    | match goal with
      | E : get_year s = Some _ |- _ => eapply (get_year_plain _ _ _ E); clear E
      | E : getnum _ ?u = Some _ |- plain ?u => eapply (getnum_plain _ _ _ _ E); clear E
      | E : lit ?c ?u = Some ?v |- plain ?u => apply (lit_plain c u v); [vm_compute; intuition done|exact E|clear E]
      | E : get_nanos ?u = _ |- plain ?u => eapply (get_nanos_plain _ _ _ E); clear E
      | E : get_zone ?u = _ |- plain ?u => eapply (get_zone_plain _ _ _ E); clear E
      end ].
  done.
Qed.

Lemma plain_body (s : string) : plain s → string_body (bytes_of s).
Proof.
  intros Hs. split; [|apply bytes_of_bytes]. revert Hs.
  induction s as [|c s IH]; [done|]. intros [Hc Hs]. unfold bytes_of in *. csimpl. specialize (IH Hs). unfold scan_string; fold scan_string.
  rewrite (proj2 (N.eqb_neq _ 34)), (proj2 (N.ltb_ge _ 32)), (proj2 (N.eqb_neq _ 92)) by lia. by rewrite IH.
Qed.

Lemma wf_quote (s : string) : valid_text s = true → wf (VStr (quote s)).
Proof. intros Hs. by apply wf_str, quote_body. Qed.

Lemma wf_time (s : string) (t : time) : parse_RFC3339 s = Some t → wf (VStr (bytes_of s)).
Proof. intros Ht. by eapply wf_str, plain_body, parse_RFC3339_plain. Qed.

(** What [json.Marshal] wrote is what is decoded. *)
Lemma Unmarshal_text {A} (d : decoder A) (v : value) (a : A) :
  wf v → Z.of_nat (depth v) <= max_depth →
  Unmarshal d (text_of v) a = match d v a with (a, Decoded) => (a, true) | (a, _) => (a, false) end.
Proof.
  intros Hv Hd. unfold Unmarshal, text_of. by rewrite bytes_of_string, parse_print by (done || by apply print_bytes).
Qed.

(** A struct, its names plain: what remains is that its values are well formed. *)
Ltac wf_struct :=
  apply wf_obj;
  repeat (apply Forall_cons; split; [split; [apply plain_body; vm_compute; intuition done|cbn [snd]]|]);
  try apply Forall_nil_2.
