(* ===== verification/Crypto.v ===== *)
(** * Hashes and encodings

    The parts of Go's standard library with which an API key is made and
    recognised: [sha256.Sum256] (FIPS 180-4), [hex.EncodeToString] and
    [base64.URLEncoding.EncodeToString].  Bytes and 32-bit words are numbers of
    type [N]; sums of words are taken modulo [2^32]. *)

From S2P Require Import Prelude Strconv Database Json.
From Stdlib Require Import Ascii.

(** ** SHA-256 *)

Definition mask32 (x : N) : N := N.land x 0xFFFFFFFF.
Definition add32 (x y : N) : N := mask32 (x + y).
Definition rotr (n x : N) : N := N.lor (N.shiftr x n) (mask32 (N.shiftl x (32 - n))).

Definition Ch (x y z : N) : N := N.lxor (N.land x y) (N.land (N.lxor x 0xFFFFFFFF) z).
Definition Maj (x y z : N) : N := N.lxor (N.lxor (N.land x y) (N.land x z)) (N.land y z).
Definition Sigma0 (x : N) : N := N.lxor (N.lxor (rotr 2 x) (rotr 13 x)) (rotr 22 x).
Definition Sigma1 (x : N) : N := N.lxor (N.lxor (rotr 6 x) (rotr 11 x)) (rotr 25 x).
Definition sigma0 (x : N) : N := N.lxor (N.lxor (rotr 7 x) (rotr 18 x)) (N.shiftr x 3).
Definition sigma1 (x : N) : N := N.lxor (N.lxor (rotr 17 x) (rotr 19 x)) (N.shiftr x 10).

(** The constants are the first 32 bits of the fractional parts of roots of the
    first primes: cube roots for the rounds, square roots for the digest to begin
    with. *)
Definition is_prime (n : N) : bool := forallb (λ d, negb (n mod N.of_nat d =? 0)%N) (seq 2 (N.to_nat n - 2)).
Definition primes_below (n : nat) : list N := List.filter is_prime (N.of_nat <$> seq 2 (n - 2)).

(** The [k]-th root of [x], rounded down: the [n] bits below [r], from the highest. *)
Fixpoint root (k : N) (n : nat) (r x : N) : N :=
  match n with
  | O => r
  | S n => let r' := (r + 2 ^ N.of_nat n)%N in root k n (if (r' ^ k <=? x)%N then r' else r) x
  end.

Definition root_bits (k p : N) : N := mask32 (root k 40 0 (p * 2 ^ (32 * k))).

Definition round_constants : list N := Eval vm_compute in root_bits 3 <$> primes_below 312.

Record digest := { dA : N; dB : N; dC : N; dD : N; dE : N; dF : N; dG : N; dH : N }.

Definition initial : digest := Eval vm_compute in
  let h := root_bits 2 in
  {| dA := h 2; dB := h 3; dC := h 5; dD := h 7; dE := h 11; dF := h 13; dG := h 17; dH := h 19 |}%N.

Definition round (s : digest) (kw : N * N) : digest :=
  let t1 := add32 (add32 (add32 (add32 (dH s) (Sigma1 (dE s))) (Ch (dE s) (dF s) (dG s))) kw.1) kw.2 in
  let t2 := add32 (Sigma0 (dA s)) (Maj (dA s) (dB s) (dC s)) in
  {| dA := add32 t1 t2; dB := dA s; dC := dB s; dD := dC s; dE := add32 (dD s) t1; dF := dE s; dG := dF s; dH := dG s |}.

(** The message schedule, the last word first. *)
Fixpoint schedule (n : nat) (ws : list N) : list N :=
  match n with
  | O => ws
  | S n =>
      let w i := default 0%N (ws !! i) in
      schedule n (add32 (add32 (sigma1 (w 1%nat)) (w 6%nat)) (add32 (sigma0 (w 14%nat)) (w 15%nat)) :: ws)
  end.

Definition compress (s : digest) (block : list N) : digest :=
  let t := foldl round s (zip round_constants (reverse (schedule 48 (reverse block)))) in
  {| dA := add32 (dA s) (dA t); dB := add32 (dB s) (dB t); dC := add32 (dC s) (dC t); dD := add32 (dD s) (dD t);
     dE := add32 (dE s) (dE t); dF := add32 (dF s) (dF t); dG := add32 (dG s) (dG t); dH := add32 (dH s) (dH t) |}.

(** The [n] low bytes of a number, the highest first. *)
Fixpoint be_bytes (n : nat) (x : N) : list N :=
  match n with
  | O => []
  | S n => N.land (N.shiftr x (8 * N.of_nat n)) 0xFF :: be_bytes n x
  end.

(** A one bit, zeros, and the length in bits, to a multiple of 64 bytes. *)
Definition pad (msg : list N) : list N :=
  msg ++ 0x80%N :: replicate ((119 - length msg mod 64) mod 64) 0%N ++ be_bytes 8 (8 * N.of_nat (length msg)).

Fixpoint words (s : list N) : list N :=
  match s with
  | a :: b :: c :: d :: s => N.lor (N.lor (N.shiftl a 24) (N.shiftl b 16)) (N.lor (N.shiftl c 8) d) :: words s
  | _ => []
  end.

Fixpoint blocks (n : nat) (ws : list N) : list (list N) :=
  match n with
  | O => []
  | S n => take 16 ws :: blocks n (drop 16 ws)
  end.

Definition Sum256 (msg : list N) : list N :=
  let ws := words (pad msg) in
  let s := foldl compress initial (blocks (length ws / 16) ws) in
  be_bytes 4 (dA s) ++ be_bytes 4 (dB s) ++ be_bytes 4 (dC s) ++ be_bytes 4 (dD s) ++
  be_bytes 4 (dE s) ++ be_bytes 4 (dF s) ++ be_bytes 4 (dG s) ++ be_bytes 4 (dH s).

(** ** Text *)

Definition hex_EncodeToString (bs : list N) : string :=
  string_of_bytes (concat ((λ b, [hex_digit (b / 16); hex_digit (b mod 16)]) <$> bs)).

(** [hex.EncodeToString(sha256.Sum256([]byte(s))[:])]. *)
Definition sha256_hex (s : string) : string := hex_EncodeToString (Sum256 (bytes_of s)).

(** The character of six bits. *)
Definition base64_char (x : N) : N :=
  if (x <? 26)%N then 65 + x
  else if (x <? 52)%N then 71 + x
  else if (x <? 62)%N then x - 4
  else if (x =? 62)%N then 45 else 95.

(** [base64.URLEncoding], with its padding. *)
Fixpoint base64_go (bs : list N) : list N :=
  match bs with
  | [] => []
  | [a] => [base64_char (a / 4); base64_char (a mod 4 * 16); 61; 61]%N
  | [a; b] => [base64_char (a / 4); base64_char (a mod 4 * 16 + b / 16); base64_char (b mod 16 * 4); 61]%N
  | a :: b :: c :: bs =>
      base64_char (a / 4) :: base64_char (a mod 4 * 16 + b / 16) ::
      base64_char (b mod 16 * 4 + c / 64) :: base64_char (c mod 64) :: base64_go bs
  end%N.

Definition base64_EncodeToString (bs : list N) : string := string_of_bytes (base64_go bs).

#[global] Arguments sha256_hex : simpl never.
#[global] Arguments base64_EncodeToString : simpl never.

Lemma root_spec (k x : N) (n : nat) (r : N) :
  (r ^ k <= x < (r + 2 ^ N.of_nat n) ^ k → root k n r x ^ k <= x < (root k n r x + 1) ^ k)%N.
Proof.
  revert r. induction n as [|n IH]; intros r Hr; cbn [root]; [exact Hr|]. apply IH.
  destruct (N.leb_spec ((r + 2 ^ N.of_nat n) ^ k) x); split; try tauto.
  replace (r + 2 ^ N.of_nat n + 2 ^ N.of_nat n)%N with (r + 2 ^ N.of_nat (S n))%N; [tauto|].
  rewrite Nat2N.inj_succ, N.pow_succ_r'. lia.
Qed.

(** Forty bits are enough for the roots that are taken. *)
Lemma root_enough (k p : N) :
  (k = 2 ∨ k = 3)%N → (p < 312)%N →
  let x := (p * 2 ^ (32 * k))%N in (root k 40 0 x ^ k <= x < (root k 40 0 x + 1) ^ k)%N.
Proof.
  intros Hk Hp x. apply root_spec. unfold x. clear x. split; [destruct Hk as [->| ->]; apply N.le_0_l|].
  apply N.lt_trans with (312 * 2 ^ (32 * k))%N.
  - apply N.mul_lt_mono_pos_r; [|done]. destruct Hk as [->| ->]; reflexivity.
  - destruct Hk as [->| ->]; reflexivity.
Qed.

(** The examples of the standard. *)
Lemma sha256_examples :
  sha256_hex "" = "e3b0c44298fc1c149afbf4c8996fb92427ae41e4649b934ca495991b7852b855" ∧
  sha256_hex "abc" = "ba7816bf8f01cfea414140de5dae2223b00361a396177a9cb410ff61f20015ad" ∧
  sha256_hex "abcdbcdecdefdefgefghfghighijhijkijkljklmklmnlmnomnopnopq" =
    "248d6a61d20638b8e5c026930c3e6039a33ce45964ff2167f6ecedd419db06c1".
Proof. vm_compute. done. Qed.

(** ** Every byte of a message counts *)

Lemma be_bytes_length (n : nat) (x : N) : length (be_bytes n x) = n.
Proof. induction n as [|n IH]; simpl; [done|]. by rewrite IH. Qed.

(** A padded message is made of whole blocks. *)
Lemma pad_length (msg : list N) : (length (pad msg) mod 64 = 0)%nat.
Proof.
  unfold pad. rewrite length_app. cbn [length]. rewrite length_app, length_replicate, be_bytes_length.
  set (n := length msg). pose proof (Nat.mod_upper_bound n 64). pose proof (Nat.div_mod_eq n 64).
  set (r := (n mod 64)%nat) in *. set (q := (n / 64)%nat) in *.
  assert (n + S ((119 - r) mod 64 + 8) = (q + (if (r <? 56)%nat then 1 else 2)) * 64)%nat as ->.
  { destruct (Nat.ltb_spec r 56).
    - replace (119 - r)%nat with (55 - r + 1 * 64)%nat by lia. rewrite Nat.Div0.mod_add, Nat.mod_small by lia. lia.
    - rewrite Nat.mod_small by lia. lia. }
  apply Nat.Div0.mod_mul.
Qed.

Lemma words_length (k : nat) (s : list N) : length s = (4 * k)%nat → length (words s) = k.
Proof.
  revert s. induction k as [|k IH]; intros s Hs; [by destruct s|].
  destruct s as [|a [|b [|c [|d s]]]]; simpl in Hs; try lia. simpl. by rewrite IH by lia.
Qed.

(** Nothing is left over when the words are cut into blocks. *)
Lemma blocks_concat (n : nat) (ws : list N) :
  length ws = (16 * n)%nat → concat (blocks n ws) = ws ∧ Forall (λ b, length b = 16%nat) (blocks n ws).
Proof.
  revert ws. induction n as [|n IH]; intros ws Hws; simpl.
  - by destruct ws; [split; [|constructor]|simpl in Hws; lia].
  - destruct (IH (drop 16 ws)) as [Hc Hl]; [rewrite length_drop; lia|]. rewrite Hc, take_drop. split; [done|].
    constructor; [|done]. rewrite length_take. lia.
Qed.

(** [Sum256] takes all words of the padded message, sixteen at a time. *)
Lemma Sum256_blocks (msg : list N) :
  let ws := words (pad msg) in
  concat (blocks (length ws / 16) ws) = ws ∧ Forall (λ b, length b = 16%nat) (blocks (length ws / 16) ws).
Proof.
  intros ws. pose proof (pad_length msg) as Hp. pose proof (Nat.div_mod_eq (length (pad msg)) 64) as Hd.
  set (k := (length (pad msg) / 64)%nat) in *.
  assert (length ws = (16 * k)%nat) as Hl by (unfold ws; apply words_length; lia).
  apply blocks_concat. rewrite Hl, (Nat.mul_comm 16), Nat.div_mul by done. lia.
Qed.

(** ** The text of a key *)


Ltac base64_cases := unfold base64_char; repeat match goal with
  | |- context [(?x <? ?y)%N] => destruct (N.ltb_spec x y)
  | |- context [(?x =? ?y)%N] => destruct (N.eqb_spec x y)
  end; try lia.

Lemma base64_char_printable (x : N) : (x < 64)%N → (45 <= base64_char x < 123)%N.
Proof. intros Hx. base64_cases. Qed.

Lemma base64_char_inj (x y : N) : (x < 64)%N → (y < 64)%N → base64_char x = base64_char y → x = y.
Proof. intros Hx Hy. base64_cases. Qed.

(** The four groups of six bits of three bytes. *)
Definition sextets (a b c : N) : list N :=
  [a / 4; a mod 4 * 16 + b / 16; b mod 16 * 4 + c / 64; c mod 64]%N.

Lemma sextets_small (a b c : N) :
  (a < 256)%N → (b < 256)%N → (c < 256)%N → Forall (λ x, (x < 64)%N) (sextets a b c).
Proof.
  intros Ha Hb Hc. repeat constructor.
  - by apply N.Div0.div_lt_upper_bound.
  - pose proof (N.mod_lt a 4). assert (b / 16 < 16)%N by (by apply N.Div0.div_lt_upper_bound). lia.
  - pose proof (N.mod_lt b 16). assert (c / 64 < 4)%N by (by apply N.Div0.div_lt_upper_bound). lia.
  - by apply N.mod_lt.
Qed.

Lemma sextets_inj (a b c a' b' c' : N) :
  (a < 256)%N → (b < 256)%N → (c < 256)%N → (a' < 256)%N → (b' < 256)%N → (c' < 256)%N →
  sextets a b c = sextets a' b' c' → a = a' ∧ b = b' ∧ c = c'.
Proof.
  intros Ha Hb Hc Ha' Hb' Hc' [= H1 H2 H3 H4].
  assert (∀ x n, n ≠ 0%N → x = n * (x / n) + x mod n ∧ x mod n < n)%N as Hdiv.
  { intros x n Hn. split; [by apply N.div_mod|by apply N.mod_lt]. }
  pose proof (Hdiv a 4 ltac:(done))%N. pose proof (Hdiv a' 4 ltac:(done))%N. pose proof (Hdiv b 16 ltac:(done))%N.
  pose proof (Hdiv b' 16 ltac:(done))%N. pose proof (Hdiv c 64 ltac:(done))%N. pose proof (Hdiv c' 64 ltac:(done))%N.
  clear Hdiv. generalize dependent (a / 4)%N. generalize dependent (a' / 4)%N. generalize dependent (b / 16)%N.
  generalize dependent (b' / 16)%N. generalize dependent (c / 64)%N. generalize dependent (c' / 64)%N.
  generalize dependent (a mod 4)%N. generalize dependent (a' mod 4)%N. generalize dependent (b mod 16)%N.
  generalize dependent (b' mod 16)%N. generalize dependent (c mod 64)%N. generalize dependent (c' mod 64)%N.
  intros. lia.
Qed.

Lemma base64_go_step (a b c : N) (bs : list N) :
  base64_go (a :: b :: c :: bs) = (base64_char <$> sextets a b c) ++ base64_go bs.
Proof. done. Qed.

(** The last group of one or two bytes is that of a group filled with zeros. *)
Lemma base64_go_last (a : N) : base64_go [a] = take 2 (base64_char <$> sextets a 0 0) ++ [61; 61]%N.
Proof. simpl. by rewrite N.add_0_r. Qed.

Lemma base64_go_last2 (a b : N) : base64_go [a; b] = take 3 (base64_char <$> sextets a b 0) ++ [61]%N.
Proof. simpl. by rewrite N.add_0_r. Qed.

(** Groups of three. *)
Lemma triples_ind (P : list N → Prop) :
  P [] → (∀ a, P [a]) → (∀ a b, P [a; b]) → (∀ a b c bs, P bs → P (a :: b :: c :: bs)) → ∀ bs, P bs.
Proof.
  intros H0 H1 H2 H3 bs. assert (∀ n bs, (length bs <= n)%nat → P bs) as H; [|by apply (H (length bs))].
  clear bs. induction n as [|n IH]; intros [|a [|b [|c bs]]] Hn; simpl in Hn; try done; try lia.
  apply H3, IH. lia.
Qed.

Definition printable_ascii (c : N) : Prop := (32 < c < 128)%N.

Lemma base64_group_printable (a b c : N) :
  (a < 256)%N → (b < 256)%N → (c < 256)%N → Forall printable_ascii (base64_char <$> sextets a b c).
Proof.
  intros Ha Hb Hc. apply Forall_fmap. eapply Forall_impl; [by apply sextets_small|].
  intros x Hx. simpl. pose proof (base64_char_printable x Hx). unfold printable_ascii. lia.
Qed.

Lemma base64_go_printable (bs : list N) : is_bytes bs → Forall printable_ascii (base64_go bs).
Proof.
  unfold is_bytes. induction bs as [|a|a b|a b c bs IH] using triples_ind; rewrite ?Forall_cons.
  - constructor.
  - intros (Ha & _). rewrite base64_go_last. apply Forall_app. split; [|by repeat constructor].
    by apply Forall_take, base64_group_printable.
  - intros (Ha & Hb & _). rewrite base64_go_last2. apply Forall_app. split; [|by repeat constructor].
    by apply Forall_take, base64_group_printable.
  - intros (Ha & Hb & Hc & Hbs). rewrite base64_go_step. apply Forall_app.
    split; [by apply base64_group_printable|auto].
Qed.

(** Different bytes have different texts. *)
Lemma base64_group_inj (a b c a' b' c' : N) :
  (a < 256)%N → (b < 256)%N → (c < 256)%N → (a' < 256)%N → (b' < 256)%N → (c' < 256)%N →
  base64_char <$> sextets a b c = base64_char <$> sextets a' b' c' → a = a' ∧ b = b' ∧ c = c'.
Proof.
  intros Ha Hb Hc Ha' Hb' Hc' Heq. apply sextets_inj; [done..|].
  pose proof (sextets_small a b c Ha Hb Hc) as Hs. pose proof (sextets_small a' b' c' Ha' Hb' Hc') as Hs'.
  unfold sextets in *. rewrite !Forall_cons in Hs, Hs'. destruct Hs as (?&?&?&?&_), Hs' as (?&?&?&?&_).
  rewrite !fmap_cons in Heq. injection Heq as E1 E2 E3 E4. apply base64_char_inj in E1, E2, E3, E4; [|done..].
  congruence.
Qed.

Lemma base64_go_inj (bs bs' : list N) :
  is_bytes bs → is_bytes bs' → length bs = length bs' → base64_go bs = base64_go bs' → bs = bs'.
Proof.
  unfold is_bytes. revert bs'.
  induction bs as [|a|a b|a b c bs IH] using triples_ind; intros [|a' [|b' [|c' bs']]]; rewrite ?Forall_cons;
    intros Hb Hb' Hl Heq; simpl in Hl; try done.
  - rewrite !base64_go_last in Heq. apply app_inv_tail in Heq.
    assert (base64_char <$> sextets a 0 0 = base64_char <$> sextets a' 0 0) as Hg
      by (unfold sextets in *; csimpl in *; injection Heq as -> ->; done).
    apply base64_group_inj in Hg; [|by destruct Hb, Hb'..]. by destruct Hg as [-> _].
  - rewrite !base64_go_last2 in Heq. apply app_inv_tail in Heq.
    assert (base64_char <$> sextets a b 0 = base64_char <$> sextets a' b' 0) as Hg
      by (unfold sextets in *; csimpl in *; injection Heq as -> -> ->; done).
    apply base64_group_inj in Hg; [|by destruct Hb as (?&?&_), Hb' as (?&?&_)..]. by destruct Hg as (-> & -> & _).
  - rewrite !base64_go_step in Heq. apply app_inj_1 in Heq as [Hg Heq]; [|done].
    destruct Hb as (?&?&?&?), Hb' as (?&?&?&?). apply base64_group_inj in Hg as (-> & -> & ->); [|done..].
    do 3 f_equal. apply IH; [done..|lia|done].
Qed.

(** ** Text without white space *)

Lemma strip_one_other (ps : list (list N)) (c : N) (s : list N) :
  Forall (λ p, from_option (λ a, a ≠ c) False (head p)) ps → strip_one ps (c :: s) = None.
Proof.
  induction 1 as [|p ps Hp _ IH]; [done|]. destruct p as [|a p]; [done|]. simpl in *.
  by rewrite (proj2 (N.eqb_neq a c)).
Qed.

Lemma trim_left_id (fuel : nat) (ps : list (list N)) (s : list N) : strip_one ps s = None → trim_left fuel ps s = s.
Proof. intros Hs. destruct fuel; simpl; [done|]. by rewrite Hs. Qed.

(** No white space begins, or ends, with a printable ASCII character. *)
Lemma spaces_not_printable (s : list N) :
  Forall printable_ascii s → strip_one spaces s = None ∧ strip_one (reverse <$> spaces) s = None.
Proof.
  destruct s as [|c s]; [done|]. intros [Hc _]%Forall_cons.
  set (ok := λ p : list N, from_option (λ a, (a <=? 32)%N || (128 <=? a)%N) false (head p)).
  assert (Forall (λ p, ok p = true) spaces ∧ Forall (λ p, ok p = true) (reverse <$> spaces)) as [H1 H2].
  { split; (apply (bool_decide_unpack _); vm_compute; done). }
  split; apply strip_one_other; (eapply Forall_impl; [done|]); intros [|a p]; unfold ok; simpl; try done;
    unfold printable_ascii in Hc; intros [?%N.leb_le|?%N.leb_le]%orb_true_iff; lia.
Qed.

Lemma TrimSpace_printable (s : string) : Forall printable_ascii (bytes_of s) → TrimSpace s = s.
Proof.
  intros Hs. unfold TrimSpace. rewrite (trim_left_id _ _ _ (proj1 (spaces_not_printable _ Hs))).
  rewrite (trim_left_id _ _ _ (proj2 (spaces_not_printable _ (proj2 (Forall_reverse _ _) Hs)))), reverse_involutive.
  apply string_of_bytes_of.
Qed.

Lemma base64_bytes (bs : list N) : is_bytes bs → bytes_of (base64_EncodeToString bs) = base64_go bs.
Proof.
  intros Hb. apply bytes_of_string. eapply Forall_impl; [by apply base64_go_printable|].
  intros c [_ Hc]. simpl. lia.
Qed.

Lemma base64_inj (bs bs' : list N) :
  is_bytes bs → is_bytes bs' → length bs = length bs' →
  base64_EncodeToString bs = base64_EncodeToString bs' → bs = bs'.
Proof.
  intros Hb Hb' Hl Heq%(f_equal bytes_of). rewrite !base64_bytes in Heq by done. by apply base64_go_inj.
Qed.
