(* ===== verification/Quote.v ===== *)
(** * Quoted strings

    [strconv.Quote] of the Go standard library, which error texts use.  Which
    characters beyond Latin-1 are printable is a table of the Unicode standard,
    the class [Unicode]. *)

From S2P Require Import Prelude Strconv Database Json.

Class Unicode := wide_print : N → bool.

(** Nothing but Latin-1. *)
Definition latin1 : Unicode := λ _, false.

(** [strconv.IsPrint]. *)
Definition IsPrint `{Unicode} (r : N) : bool :=
  if (r <=? 0xFF)%N then
    ((0x20 <=? r) && (r <? 0x7F))%N || ((0xA1 <=? r) && negb (r =? 0xAD))%N
  else wide_print r.

(** The rune of a valid UTF-8 sequence of length [n]. *)
Definition decode_rune (n : nat) (s : text) : N :=
  let b i := default 0%N (s !! i) in
  match n with
  | 1%nat => b 0%nat
  | 2%nat => (b 0%nat mod 32 * 64 + b 1%nat mod 64)%N
  | 3%nat => (b 0%nat mod 16 * 4096 + b 1%nat mod 64 * 64 + b 2%nat mod 64)%N
  | _ => (b 0%nat mod 8 * 262144 + b 1%nat mod 64 * 4096 + b 2%nat mod 64 * 64 + b 3%nat mod 64)%N
  end.

(** The [k] last hexadecimal digits of a number. *)
Fixpoint hex_digits (k : nat) (r : N) : text :=
  match k with
  | O => []
  | S k => hex_digit (N.shiftr r (4 * N.of_nat k) mod 16) :: hex_digits k r
  end.

(** [appendEscapedRune]; [raw] are the bytes of the rune. *)
Definition escape_rune `{Unicode} (r : N) (raw : text) : text :=
  if ((r =? 34) || (r =? 92))%N then [92; r]%N
  else if IsPrint r then raw
  else if (r =? 7)%N then [92; 97]%N
  else if (r =? 8)%N then [92; 98]%N
  else if (r =? 12)%N then [92; 102]%N
  else if (r =? 10)%N then [92; 110]%N
  else if (r =? 13)%N then [92; 114]%N
  else if (r =? 9)%N then [92; 116]%N
  else if (r =? 11)%N then [92; 118]%N
  else if ((r <? 32) || (r =? 0x7F))%N then [92; 120]%N ++ hex_digits 2 r
  else if (r <? 0x10000)%N then [92; 117]%N ++ hex_digits 4 r
  else [92; 85]%N ++ hex_digits 8 r.

(** Of the sequence at the head, [skip] bytes are done. *)
Fixpoint Quote_go `{Unicode} (skip : nat) (s : text) : text :=
  match s with
  | [] => []
  | a :: s' =>
      match skip with
      | S skip => Quote_go skip s'
      | O =>
          match rune_len s with
          | O => [92; 120]%N ++ hex_digits 2 a ++ Quote_go 0 s'
          | S n => escape_rune (decode_rune (S n) s) (take (S n) s) ++ Quote_go n s'
          end
      end
  end.

(** [strconv.Quote]. *)
Definition Quote `{Unicode} (s : string) : string := string_of_bytes (34%N :: Quote_go 0 (bytes_of s) ++ [34%N]).

(** ASCII text without quotation marks and backslashes is only put between
    quotation marks. *)
Lemma Quote_plain `{Unicode} (s : text) :
  Forall (λ c, (0x20 <= c < 0x7F ∧ c ≠ 34 ∧ c ≠ 92)%N) s → Quote_go 0 s = s.
Proof.
  induction 1 as [|c s Hc _ IH]; [done|]. cbn [Quote_go]. unfold rune_len, escape_rune, IsPrint.
  rewrite (proj2 (N.ltb_lt c 0x80)) by lia. change (decode_rune 1 (c :: s)) with c. change (take 1 (c :: s)) with [c].
  rewrite (proj2 (N.eqb_neq c 34)), (proj2 (N.eqb_neq c 92)), (proj2 (N.leb_le c 0xFF)) by lia.
  rewrite (proj2 (N.leb_le 0x20 c)), (proj2 (N.ltb_lt c 0x7F)) by lia. simpl. by rewrite IH.
Qed.
