(* ===== verification/Url.v ===== *)
(** * URLs

    [url.Parse] of the Go standard library, as far as the gateway uses its
    result: the error, the scheme and the host.  A host with a bracket is an IP
    literal, which [net/netip] parses; that is the class [IpLiteral]. *)

From S2P Require Import Prelude Strconv Database Json Quote.

Record URL := { Scheme : string; Host : string }.

(** The host of an authority with a bracket, or the text of the error. *)
Class IpLiteral := ip_literal : text → text + string.

(** No literals. *)
Definition no_literals : IpLiteral := λ _, inr "invalid IP-literal".

(** ** Cutting texts *)

(** [strings.Cut] at a byte: what is before it, and what is after it if it is
    there. *)
Fixpoint cut (c : N) (s : text) : text * option text :=
  match s with
  | [] => ([], None)
  | a :: s => if (a =? c)%N then ([], Some s) else let '(l, r) := cut c s in (a :: l, r)
  end.

(** The text after the last occurrence, and before it. *)
Definition cut_last (c : N) (s : text) : text * option text :=
  let '(l, r) := cut c (reverse s) in (reverse l, reverse <$> r).

Definition contains (c : N) (s : text) : bool := existsb (N.eqb c) s.

(** ** Escapes *)

Inductive encoding := encodeHost | encodeOther.

#[export] Instance encoding_eq_dec : EqDecision encoding.
Proof. solve_decision. Defined.

Definition is_letter (c : N) : bool := ((97 <=? c) && (c <=? 122) || (65 <=? c) && (c <=? 90))%N.

(** [shouldEscape] in a host, for ASCII. *)
Definition host_char (c : N) : bool :=
  is_letter c || is_dec c || bool_decide (c ∈ bytes_of "-_.~!$&'()*+,;=:[]<>") || (c =? 34)%N.

Section parse.
Context `{Unicode} `{IpLiteral}.

Definition EscapeError (s : text) : string := "invalid URL escape " +:+ Quote (string_of_bytes s).
Definition InvalidHostError (c : N) : string :=
  "invalid character " +:+ Quote (string_of_bytes [c]) +:+ " in host name".

(** [unescape]: first the whole text is checked, so the error is the first one. *)
Fixpoint unescape (mode : encoding) (s : text) : text + string :=
  match s with
  | [] => inl []
  | a :: s1 =>
      if (a =? 37)%N then
        match s1 with
        | h :: l :: s3 =>
            match hex_val h, hex_val l with
            | Some x, Some y =>
                if bool_decide (mode = encodeHost) && (x <? 8)%N && negb ((x =? 2) && (y =? 5))%N
                then inr (EscapeError [a; h; l])
                else match unescape mode s3 with
                     | inl r => inl ((16 * x + y)%N :: r)
                     | inr e => inr e
                     end
            | _, _ => inr (EscapeError [a; h; l])
            end
        | _ => inr (EscapeError s)
        end
      else if bool_decide (mode = encodeHost) && (a <? 0x80)%N && negb (host_char a) then inr (InvalidHostError a)
      else match unescape mode s1 with
           | inl r => inl (a :: r)
           | inr e => inr e
           end
  end.

(** ** The authority *)

Definition validOptionalPort (port : text) : bool :=
  match port with
  | [] => true
  | c :: digits => (c =? 58)%N && forallb is_dec digits
  end.

Definition parseHost (host : text) : text + string :=
  if contains 91 host then ip_literal host else
  match cut_last 58 host with
  | (port, Some _) =>
      if validOptionalPort (58%N :: port) then unescape encodeHost host
      else inr ("invalid port " +:+ Quote (string_of_bytes (58%N :: port)) +:+ " after host")
  | (_, None) => unescape encodeHost host
  end.

Definition validUserinfo (s : text) : bool :=
  forallb (λ c, is_letter c || is_dec c || bool_decide (c ∈ bytes_of "-._:~!$&'()*+,;=%@")) s.

Definition checked {A} (o : text + string) (k : A + string) : A + string :=
  match o with inl _ => k | inr e => inr e end.

Definition parseAuthority (authority : text) : text + string :=
  match cut_last 64 authority with
  | (_, None) => parseHost authority
  | (host, Some userinfo) =>
      match parseHost host with
      | inr e => inr e
      | inl host =>
          if negb (validUserinfo userinfo) then inr "net/url: invalid userinfo" else
          let '(username, password) := cut 58 userinfo in
          checked (unescape encodeOther username)
            (checked (unescape encodeOther (default [] password)) (inl host))
      end
  end.

(** ** The whole URL *)

(** [getScheme], from the byte with index [i] on: the scheme and the rest. *)
Fixpoint getScheme_go (first : bool) (s : text) : option (text * text) + string :=
  match s with
  | [] => inl None
  | c :: s' =>
      if is_letter c || (is_dec c || bool_decide (c ∈ bytes_of "+-.")) && negb first then
        match getScheme_go false s' with
        | inl (Some (scheme, rest)) => inl (Some (c :: scheme, rest))
        | o => o
        end
      else if (c =? 58)%N then if first then inr "missing protocol scheme" else inl (Some ([], s'))
      else inl None
  end.

Definition getScheme (rawURL : text) : text * text + string :=
  match getScheme_go true rawURL with
  | inl (Some p) => inl p
  | inl None => inl ([], rawURL)
  | inr e => inr e
  end.

Definition to_lower (s : text) : text := (λ c, if ((65 <=? c) && (c <=? 90))%N then c + 32 else c)%N <$> s.

Definition url_of (scheme host : text) : URL := {| Scheme := string_of_bytes scheme; Host := string_of_bytes host |}.

(** [parse(rawURL, false)]. *)
Definition parse_url (rawURL : text) : URL + string :=
  if existsb (λ b, (b <? 32) || (b =? 0x7F))%N rawURL then inr "net/url: invalid control character in URL" else
  if bool_decide (rawURL = [42%N]) then inl (url_of [] []) else
  match getScheme rawURL with
  | inr e => inr e
  | inl (scheme, rest) =>
      let scheme := to_lower scheme in
      let '(rest, _) := cut 63 rest in
      if negb (bool_decide (head rest = Some 47%N)) then
        if negb (bool_decide (scheme = [])) then inl (url_of scheme [])
        else if contains 58 (cut 47 rest).1 then inr "first path segment in URL cannot contain colon"
        else checked (unescape encodeOther rest) (inl (url_of [] []))
      else
        match (if bool_decide (scheme = []) && bool_decide (is_Some (strip_prefix [47; 47; 47]%N rest)) then None
               else strip_prefix [47; 47]%N rest) with
        | Some rest =>
            let '(authority, path) := cut 47 rest in
            match parseAuthority authority with
            | inr e => inr e
            | inl host => checked (unescape encodeOther (from_option (cons 47%N) [] path)) (inl (url_of scheme host))
            end
        | None => checked (unescape encodeOther rest) (inl (url_of scheme []))
        end
  end.

Definition Error (url : text) (err : string) : string :=
  "parse " +:+ Quote (string_of_bytes url) +:+ ": " +:+ err.

(** [url.Parse]. *)
Definition Parse (rawURL : string) : URL + string :=
  let '(u, frag) := cut 35 (bytes_of rawURL) in
  match parse_url u with
  | inr e => inr (Error u e)
  | inl url =>
      match unescape encodeOther (default [] frag) with
      | inr e => inr (Error (bytes_of rawURL) e)
      | inl _ => inl url
      end
  end.
End parse.

(** ** The usual targets are URLs *)

Lemma cut_none (c : N) (s : text) : Forall (λ a, a ≠ c) s → cut c s = (s, None).
Proof. induction 1 as [|a s Ha _ IH]; [done|]. simpl. by rewrite (proj2 (N.eqb_neq a c)), IH. Qed.

Lemma cut_app (c : N) (l r : text) : Forall (λ a, a ≠ c) l → cut c (l ++ c :: r) = (l, Some r).
Proof. induction 1 as [|a l Ha _ IH]; simpl; [by rewrite N.eqb_refl|]. by rewrite (proj2 (N.eqb_neq a c)), IH. Qed.

Lemma cut_last_none (c : N) (s : text) : Forall (λ a, a ≠ c) s → cut_last c s = (s, None).
Proof. intros Hs. unfold cut_last. by rewrite cut_none, reverse_involutive by by apply Forall_reverse. Qed.

Lemma cut_last_app (c : N) (l r : text) : Forall (λ a, a ≠ c) r → cut_last c (l ++ c :: r) = (r, Some l).
Proof.
  intros Hr. unfold cut_last. rewrite reverse_app, reverse_cons, <- app_assoc. simpl.
  rewrite cut_app by by apply Forall_reverse. simpl. by rewrite !reverse_involutive.
Qed.

Lemma contains_none (c : N) (s : text) : Forall (λ a, a ≠ c) s → contains c s = false.
Proof.
  unfold contains. induction 1 as [|a s Ha _ IH]; [done|]. simpl. by rewrite IH, (proj2 (N.eqb_neq c a)) by done.
Qed.

Lemma unescape_id `{Unicode} (mode : encoding) (s : text) :
  Forall (λ c, c ≠ 37%N ∧ host_char c = true) s → unescape mode s = inl s.
Proof.
  induction 1 as [|c s [H37 Hc] _ IH]; [done|]. simpl. rewrite (proj2 (N.eqb_neq c 37)), Hc by done.
  rewrite andb_false_r. by rewrite IH.
Qed.

(** The characters of a host name or an IPv4 address. *)
Definition name_char (c : N) : bool := is_letter c || is_dec c || (c =? 45)%N || (c =? 46)%N.

Lemma name_char_range (c : N) : name_char c = true → (45 <= c <= 46 ∨ 48 <= c <= 57 ∨ 65 <= c <= 90 ∨ 97 <= c <= 122)%N.
Proof.
  unfold name_char, is_letter, is_dec. intros Hc.
  repeat (apply orb_true_iff in Hc as [Hc|Hc]); try apply N.eqb_eq in Hc; try lia;
    apply andb_true_iff in Hc as [?%N.leb_le ?%N.leb_le]; lia.
Qed.

Lemma name_host (c : N) : name_char c = true → host_char c = true.
Proof.
  unfold name_char, host_char. intros Hc. apply orb_true_iff in Hc as [Hc|Hc%N.eqb_eq]; [|by subst].
  apply orb_true_iff in Hc as [->|Hc%N.eqb_eq]; [done|by subst].
Qed.

Lemma Forall_name (P : N → Prop) (s : text) :
  (∀ c, (45 <= c <= 46 ∨ 48 <= c <= 57 ∨ 65 <= c <= 90 ∨ 97 <= c <= 122)%N → P c) →
  Forall (λ c, name_char c = true) s → Forall P s.
Proof. intros HP Hs. eapply Forall_impl; [exact Hs|]. intros c Hc%name_char_range. by apply HP. Qed.

Lemma parseAuthority_name `{Unicode} `{IpLiteral} (host port : text) :
  Forall (λ c, name_char c = true) host → Forall (λ c, is_dec c = true) port →
  parseAuthority (host ++ 58%N :: port) = inl (host ++ 58%N :: port).
Proof.
  intros Hh Hp. assert (Forall (λ c, name_char c = true) port) as Hp'.
  { eapply Forall_impl; [done|]. intros c Hc. unfold name_char. simpl in Hc. rewrite Hc. by rewrite orb_true_r. }
  assert (∀ c, (c < 45 ∨ c = 47 ∨ 58 < c < 65 ∨ 90 < c < 97)%N → Forall (λ a, a ≠ c) (host ++ 58%N :: port)) as Hne.
  { intros c Hc. apply Forall_app. split; [|constructor; [lia|]]; eapply Forall_name; try done; intros a Ha; lia. }
  unfold parseAuthority. rewrite cut_last_none by (apply Hne; lia). unfold parseHost.
  rewrite contains_none by (apply Hne; lia).
  rewrite cut_last_app by (eapply Forall_name; [|done]; intros a Ha; lia). simpl.
  assert (forallb is_dec port = true) as -> by (apply forallb_forall; intros c Hc%list_elem_of_In; by eapply Forall_forall in Hp).
  apply unescape_id, Forall_app. split; [|constructor; [done|]].
  - eapply Forall_impl; [exact Hh|]. intros c Hc. split; [|by apply name_host]. apply name_char_range in Hc. lia.
  - eapply Forall_impl; [exact Hp'|]. intros c Hc. split; [|by apply name_host]. apply name_char_range in Hc. lia.
Qed.

(** [http://host:port] is a URL with that host, whatever the name and the port. *)
Lemma Parse_http `{Unicode} `{IpLiteral} (host port : string) :
  Forall (λ c, name_char c = true) (bytes_of host) → Forall (λ c, is_dec c = true) (bytes_of port) →
  Parse ("http://" +:+ host +:+ ":" +:+ port) = inl {| Scheme := "http"; Host := host +:+ ":" +:+ port |}.
Proof.
  intros Hh Hp. set (a := bytes_of host ++ 58%N :: bytes_of port).
  assert (bytes_of ("http://" +:+ host +:+ ":" +:+ port) = bytes_of "http://" ++ a) as E.
  { by rewrite !bytes_of_app. }
  assert (Forall (λ c, name_char c = true ∨ c = 58%N) a) as Ha.
  { apply Forall_app. split; [by eapply Forall_impl; [exact Hh|]; auto|]. constructor; [by right|].
    eapply Forall_impl; [exact Hp|]. intros c Hc. left. unfold name_char. simpl in Hc. rewrite Hc. by rewrite orb_true_r. }
  assert (∀ P : N → Prop, (∀ c, (45 <= c <= 46 ∨ 48 <= c <= 58 ∨ 65 <= c <= 90 ∨ 97 <= c <= 122)%N → P c) → Forall P a) as HP.
  { intros P Hc. eapply Forall_impl; [exact Ha|]. intros c [Hn%name_char_range| ->]; apply Hc; lia. }
  unfold Parse. rewrite E. rewrite cut_none by (apply Forall_app; split; [by repeat constructor|apply HP; lia]).
  assert (parse_url (bytes_of "http://" ++ a) = inl (url_of (bytes_of "http") a)) as ->.
  { unfold parse_url. rewrite existsb_app. replace (existsb _ a) with false.
    2:{ symmetry. apply not_true_iff_false. rewrite existsb_exists. intros (c & Hin%list_elem_of_In & Hc).
        assert (Forall (λ c, (32 <= c)%N ∧ c ≠ 0x7F%N) a) as Hr by (apply HP; lia).
        rewrite Forall_forall in Hr. destruct (Hr c Hin).
        apply orb_true_iff in Hc as [?%N.ltb_lt|?%N.eqb_eq]; lia. }
    change (existsb _ (bytes_of "http://")) with false. cbn [orb].
    rewrite bool_decide_eq_false_2 by done.
    change (getScheme _) with (@inl (text * text) string (bytes_of "http", 47%N :: 47%N :: a)). cbv beta iota zeta.
    rewrite cut_none by (do 2 (constructor; [done|]); apply HP; lia). cbv beta iota.
    change (to_lower (bytes_of "http")) with (bytes_of "http"). cbn [head strip_prefix].
    rewrite bool_decide_eq_true_2, bool_decide_eq_false_2 by done. cbn [negb andb N.eqb Pos.eqb].
    rewrite cut_none by (apply HP; lia). unfold a. by rewrite parseAuthority_name. }
  simpl. f_equal. unfold url_of. f_equal. unfold a. by rewrite <- (string_of_bytes_of (host +:+ ":" +:+ port)), !bytes_of_app.
Qed.
