(* ===== verification/Redis.v ===== *)
(** * The Redis client

    Models [src/internal/storage/redis.go].  The server is not part of the
    repository: it is a parameter, the class [Redis], a state with one
    transition per command.  [RedisLaws] is what the gateway relies on, the
    documented effect of the commands it sends ([redis_sem]): a command that
    is answered without error has had that effect and given that reply; one
    that is answered with an error (the server's, or the network's) has had
    it or has had none.  Where the documentation leaves the effect of an
    argument open, or the gateway never sends it, [redis_sem] is undefined.
    Keys expire by the clock; an expired key is as good as absent, whether or
    not the server has dropped it yet, so databases are compared by their live
    entries only ([db_eq]). *)

From stdpp Require Import sorting.
From S2P Require Import Prelude Strconv Float64.

(** ** Databases *)

(** A sorted set maps its members to their scores, which are float64. *)
Inductive rval := RString (s : string) | RZSet (z : gmap string Z).

(** A value and the instant, in milliseconds, after which it is gone. *)
Record entry := Entry { e_val : rval; e_deadline : option Z }.

(** The server's clock counts milliseconds. *)
Definition ms (t : time) : Z := t / millisecond.

Definition expired (t : time) (e : entry) : bool :=
  match e_deadline e with
  | Some d => d <? ms t
  | None => false
  end.

Definition live (t : time) (k : string) (d : gmap string entry) : option entry :=
  match d !! k with
  | Some e => if expired t e then None else Some e
  | None => None
  end.

Definition db_eq (t : time) (d1 d2 : gmap string entry) : Prop := ∀ k, live t k d1 = live t k d2.

Notation "d1 '≡{' t '}' d2" := (db_eq t d1 d2) (at level 70, t at level 9).

(** ** Commands *)

Inductive cmd :=
  | GET (k : string)
  | SET (k v : string) (ttl : duration)
  | INCR (k : string)
  | EXPIRE (k : string) (ttl : duration)
  | ZADD (k : string) (score : Z) (member : string)
  | ZREMRANGEBYSCORE (k min max : string)
  | ZCARD (k : string)
  | ZCOUNT (k min max : string)
  | ZRANGE (k : string) (start stop : Z)
  | PING.

Inductive reply :=
  | RStr (s : string)
  | RNil
  | RInt (n : Z)
  | ROk
  | RList (l : list string)
  | RErr (e : string).

Definition is_error (r : reply) : bool := match r with RErr _ => true | _ => false end.

Definition wrongtype : reply :=
  RErr "WRONGTYPE Operation against a key holding the wrong kind of value".

(** The deadline of a time to live of whole seconds; other ones are left open. *)
Definition deadline (t : time) (ttl : duration) : option Z :=
  if (0 <? ttl) && (Z.rem ttl second =? 0) then Some (ms t + ttl / millisecond) else None.

(** A score bound given as an integer in decimal. *)
Definition score_bound (s : string) : option Z := f64_of_Z <$> parse_int s.

Definition in_scores (lo hi : Z) (p : string * Z) : Prop := lo <= p.2 <= hi.

#[export] Instance in_scores_dec (lo hi : Z) (p : string * Z) : Decision (in_scores lo hi p).
Proof. unfold in_scores. apply _. Defined.

(** Sorted sets are ordered by score, members of equal score by their bytes. *)
Definition zset_le (p q : string * Z) : Prop :=
  p.2 < q.2 ∨ (p.2 = q.2 ∧ String.leb p.1 q.1 = true).

#[export] Instance zset_le_dec (p q : string * Z) : Decision (zset_le p q).
Proof. unfold zset_le. apply _. Defined.

Definition zset_list (z : gmap string Z) : list string := (merge_sort zset_le (map_to_list z)).*1.

(** Store a sorted set; an empty one is removed. *)
Definition put_zset (k : string) (z : gmap string Z) (dl : option Z) (d : gmap string entry)
    : gmap string entry :=
  if decide (z = ∅) then delete k d else <[k := Entry (RZSet z) dl]> d.

(** The documented effect of a command at time [t], where it is specified. *)
Definition redis_sem (c : cmd) (t : time) (d : gmap string entry)
    : option (gmap string entry * reply) :=
  match c with
  | PING => Some (d, RStr "PONG")
  | GET k =>
      Some (d, match live t k d with
               | None => RNil
               | Some (Entry (RString s) _) => RStr s
               | Some _ => wrongtype
               end)
  | SET k v ttl =>
      if ttl =? 0 then Some (<[k := Entry (RString v) None]> d, ROk)
      else match deadline t ttl with
           | Some dl => Some (<[k := Entry (RString v) (Some dl)]> d, ROk)
           | None => None
           end
  | INCR k =>
      Some match live t k d with
           | None => (<[k := Entry (RString "1") None]> d, RInt 1)
           | Some (Entry (RString s) dl) =>
               match parse_int s with
               | Some n =>
                   if decide (pretty n = s ∧ min_int64 <= n < max_int64)
                   then (<[k := Entry (RString (pretty (n + 1))) dl]> d, RInt (n + 1))
                   else (d, RErr "ERR value is not an integer or out of range")
               | None => (d, RErr "ERR value is not an integer or out of range")
               end
           | Some _ => (d, wrongtype)
           end
  | EXPIRE k ttl =>
      match deadline t ttl with
      | Some dl =>
          Some match live t k d with
               | None => (d, RInt 0)
               | Some e => (<[k := Entry (e_val e) (Some dl)]> d, RInt 1)
               end
      | None => None
      end
  | ZADD k score member =>
      Some match live t k d with
           | None => (<[k := Entry (RZSet {[member := score]}) None]> d, RInt 1)
           | Some (Entry (RZSet z) dl) =>
               (<[k := Entry (RZSet (<[member := score]> z)) dl]> d,
                RInt (if decide (is_Some (z !! member)) then 0 else 1))
           | Some _ => (d, wrongtype)
           end
  | ZREMRANGEBYSCORE k min max =>
      match score_bound min, score_bound max with
      | Some lo, Some hi =>
          Some match live t k d with
               | None => (d, RInt 0)
               | Some (Entry (RZSet z) dl) =>
                   (put_zset k (filter (λ p, ¬ in_scores lo hi p) z) dl d,
                    RInt (Z.of_nat (size (filter (in_scores lo hi) z))))
               | Some _ => (d, wrongtype)
               end
      | _, _ => None
      end
  | ZCARD k =>
      Some (d, match live t k d with
               | None => RInt 0
               | Some (Entry (RZSet z) _) => RInt (Z.of_nat (size z))
               | Some _ => wrongtype
               end)
  | ZCOUNT k min max =>
      match score_bound min, score_bound max with
      | Some lo, Some hi =>
          Some (d, match live t k d with
                   | None => RInt 0
                   | Some (Entry (RZSet z) _) => RInt (Z.of_nat (size (filter (in_scores lo hi) z)))
                   | Some _ => wrongtype
                   end)
      | _, _ => None
      end
  | ZRANGE k start stop =>
      if (0 <=? start) && (0 <=? stop) then
        Some (d, match live t k d with
                 | None => RList []
                 | Some (Entry (RZSet z) _) =>
                     RList (take (Z.to_nat (stop - start + 1)) (drop (Z.to_nat start) (zset_list z)))
                 | Some _ => wrongtype
                 end)
      else None
  end.

(** ** The server *)

Class Redis (R : Type) := rd_exec : time → cmd → R → R * reply.

Class RedisLaws (R : Type) `{Redis R} := {
  rd_db : R → gmap string entry;
  rd_answer : ∀ t c r r' rep d' rep',
    rd_exec t c r = (r', rep) → is_error rep = false → redis_sem c t (rd_db r) = Some (d', rep') →
    rep = rep' ∧ rd_db r' ≡{t} d';
  rd_fault : ∀ t c r r' e d' rep',
    rd_exec t c r = (r', RErr e) → redis_sem c t (rd_db r) = Some (d', rep') →
    rd_db r' ≡{t} rd_db r ∨ rd_db r' ≡{t} d'
}.

(** A server and a network without faults: every specified command is answered. *)
Class RedisReliable (R : Type) `{RedisLaws R} : Prop :=
  rd_reliable : ∀ t c r d' rep', redis_sem c t (rd_db r) = Some (d', rep') → (rd_exec t c r).2 = rep'.

(** ** The client of [storage/redis.go]

    Each method sends one command, at the time [t], and gives its result and
    error; [redis.Nil] is the error of a missing key. *)

Inductive redis_error := Nil | Failed (e : string).

#[export] Instance redis_error_eq_dec : EqDecision redis_error.
Proof. solve_decision. Defined.

Section client.
Context {R : Type} `{Redis R}.

Definition err_of (rep : reply) : option redis_error :=
  match rep with
  | RErr e => Some (Failed e)
  | RNil => Some Nil
  | _ => None
  end.

Definition Ping (t : time) : Comp R (option redis_error) := λ r,
  let '(r, rep) := rd_exec t PING r in (r, Ret (err_of rep)).

Definition Get (t : time) (key : string) : Comp R (string * option redis_error) := λ r,
  let '(r, rep) := rd_exec t (GET key) r in
  (r, Ret (match rep with RStr s => s | _ => "" end, err_of rep)).

Definition Set_ (t : time) (key value : string) (expiration : duration)
    : Comp R (option redis_error) := λ r,
  let '(r, rep) := rd_exec t (SET key value expiration) r in (r, Ret (err_of rep)).

Definition Incr (t : time) (key : string) : Comp R (Z * option redis_error) := λ r,
  let '(r, rep) := rd_exec t (INCR key) r in
  (r, Ret (match rep with RInt n => n | _ => 0 end, err_of rep)).

Definition Expire (t : time) (key : string) (expiration : duration)
    : Comp R (option redis_error) := λ r,
  let '(r, rep) := rd_exec t (EXPIRE key expiration) r in (r, Ret (err_of rep)).

Definition ZAdd (t : time) (key : string) (score : Z) (member : string)
    : Comp R (option redis_error) := λ r,
  let '(r, rep) := rd_exec t (ZADD key score member) r in (r, Ret (err_of rep)).

Definition ZCount (t : time) (key min max : string) : Comp R (Z * option redis_error) := λ r,
  let '(r, rep) := rd_exec t (ZCOUNT key min max) r in
  (r, Ret (match rep with RInt n => n | _ => 0 end, err_of rep)).

Definition ZRange (t : time) (key : string) (start stop : Z)
    : Comp R (list string * option redis_error) := λ r,
  let '(r, rep) := rd_exec t (ZRANGE key start stop) r in
  (r, Ret (match rep with RList l => l | _ => [] end, err_of rep)).

(** [Pipeline] and its [Exec]: the queued commands in order, each at its own
    time, with their replies and the first error. *)
Fixpoint Pipeline_Exec (cs : list (time * cmd)) : Comp R (list reply * option redis_error) :=
  match cs with
  | [] => mret ([], None)
  | (t, c) :: cs =>
      rep ← (λ r, let '(r, rep) := rd_exec t c r in (r, Ret rep));
      '(reps, err) ← Pipeline_Exec cs;
      mret (rep :: reps, match err_of rep with Some e => Some e | None => err end)
  end.
End client.

(** What every command leaves true. *)
Section stable.
Context {R : Type} `{Redis R} (P : R → Prop).

Definition stable : Prop := ∀ t c r, P r → P (rd_exec t c r).1.

Ltac one_command :=
  intros HP r Hr; unfold Get, Set_, Incr, Expire, ZAdd, ZCount, ZRange;
  match goal with |- context [rd_exec ?t ?c r] =>
    specialize (HP t c r Hr); by destruct (rd_exec t c r) end.

Lemma stable_Get (t : time) (key : string) : stable → preserves P (Get t key).
Proof. one_command. Qed.
Lemma stable_Set (t : time) (key value : string) (d : duration) : stable → preserves P (Set_ t key value d).
Proof. one_command. Qed.
Lemma stable_Incr (t : time) (key : string) : stable → preserves P (Incr t key).
Proof. one_command. Qed.
Lemma stable_Expire (t : time) (key : string) (d : duration) : stable → preserves P (Expire t key d).
Proof. one_command. Qed.
Lemma stable_ZAdd (t : time) (key : string) (score : Z) (m : string) : stable → preserves P (ZAdd t key score m).
Proof. one_command. Qed.
Lemma stable_ZCount (t : time) (key min max : string) : stable → preserves P (ZCount t key min max).
Proof. one_command. Qed.
Lemma stable_ZRange (t : time) (key : string) (a b : Z) : stable → preserves P (ZRange t key a b).
Proof. one_command. Qed.

Lemma stable_Pipeline (cs : list (time * cmd)) : stable → preserves P (Pipeline_Exec cs).
Proof.
  intros HP. induction cs as [|[t c] cs IH]; [apply preserves_ret|]. cbn [Pipeline_Exec].
  apply preserves_bind; [|intros rep; apply preserves_bind; [done|intros []; apply preserves_ret]].
  intros r Hr. specialize (HP t c r Hr). by destruct (rd_exec t c r).
Qed.
End stable.
#[export] Hint Resolve stable_Get stable_Set stable_Incr stable_Expire stable_ZAdd stable_ZCount stable_ZRange
  stable_Pipeline : gateway.

Lemma score_bound_pretty (z : Z) : score_bound (pretty z) = Some (f64_of_Z z).
Proof. unfold score_bound. by rewrite parse_int_pretty. Qed.

(** Times to live of whole seconds. *)
Lemma ms_add_seconds (t W : Z) : ms (t + W * second) = ms t + W * 1000.
Proof.
  unfold ms, second, millisecond. replace (W * 1000000000) with (W * 1000 * 1000000) by lia.
  by apply Z.div_add.
Qed.

Lemma deadline_seconds (t W : Z) : 0 < W → deadline t (W * second) = Some (ms t + W * 1000).
Proof.
  intros HW. unfold deadline. rewrite Z.rem_mul by done. unfold second, millisecond.
  destruct (Z.ltb_spec 0 (W * 1000000000)); [|lia]. simpl. do 2 f_equal.
  replace (W * 1000000000) with (W * 1000 * 1000000) by lia. by apply Z.div_mul.
Qed.

(** ** Live entries *)

Lemma ms_mono (t u : Z) : t <= u → ms t <= ms u.
Proof. intros. apply Z.div_le_mono; [done|lia]. Qed.

Lemma expired_mono (t u : Z) (e : entry) : t <= u → expired t e = true → expired u e = true.
Proof.
  intros Hle%ms_mono. unfold expired. destruct (e_deadline e); [|done]. rewrite !Z.ltb_lt. lia.
Qed.

(** What is live later is what is live now and has not expired since. *)
Lemma live_later (t u : Z) (k : string) (d : gmap string entry) :
  t <= u →
  live u k d = match live t k d with
               | Some e => if expired u e then None else Some e
               | None => None
               end.
Proof.
  intros Hle. unfold live. destruct (d !! k) as [e|]; [|done].
  destruct (expired t e) eqn:Ht; [|done]. by rewrite (expired_mono t u e Hle Ht).
Qed.

#[export] Instance db_eq_equivalence (t : time) : Equivalence (db_eq t).
Proof.
  split.
  - by intros d k.
  - intros d1 d2 H k. by rewrite H.
  - intros d1 d2 d3 H1 H2 k. by rewrite H1, H2.
Qed.

#[export] Instance live_proper (t : time) (k : string) : Proper (db_eq t ==> eq) (live t k).
Proof. intros d1 d2 H. apply H. Qed.

Lemma db_eq_later (t u : Z) (d1 d2 : gmap string entry) : t <= u → d1 ≡{t} d2 → d1 ≡{u} d2.
Proof. intros Hle H k. by rewrite !(live_later t u), H. Qed.

Lemma live_not_expired (t : Z) (k : string) (d : gmap string entry) (e : entry) :
  live t k d = Some e → expired t e = false.
Proof. unfold live. destruct (d !! k) as [e'|]; [|done]. destruct (expired t e') eqn:E; naive_solver. Qed.

Lemma live_insert (t : Z) (k j : string) (e : entry) (d : gmap string entry) :
  live t j (<[k := e]> d) =
    if decide (k = j) then (if expired t e then None else Some e) else live t j d.
Proof. unfold live. rewrite lookup_insert. by case_decide. Qed.

Lemma live_delete (t : Z) (k j : string) (d : gmap string entry) :
  live t j (delete k d) = if decide (k = j) then None else live t j d.
Proof. unfold live. rewrite lookup_delete. by case_decide. Qed.

Lemma live_put_zset (t : Z) (k j : string) (z : gmap string Z) (dl : option Z) (d : gmap string entry) :
  live t j (put_zset k z dl d) =
    if decide (k = j) then
      (if decide (z = ∅) then None
       else if expired t (Entry (RZSet z) dl) then None else Some (Entry (RZSet z) dl))
    else live t j d.
Proof. unfold put_zset. destruct (decide (z = ∅)); [apply live_delete|apply live_insert]. Qed.

(** ** The order of a sorted set *)

#[export] Instance zset_le_total : Total zset_le.
Proof.
  intros [m1 s1] [m2 s2]. unfold zset_le. simpl.
  destruct (String.leb_total m1 m2), (Z.lt_trichotomy s1 s2) as [|[]]; naive_solver.
Qed.

(** The first member has the least score. *)
Lemma zset_list_head (z : gmap string Z) (m : string) (l : list string) :
  zset_list z = m :: l → ∃ sc, z !! m = Some sc ∧ ∀ m' sc', z !! m' = Some sc' → sc <= sc'.
Proof.
  unfold zset_list. intros Heq. pose proof (Sorted_merge_sort zset_le (map_to_list z)) as Hs.
  pose proof (merge_sort_Permutation zset_le (map_to_list z)) as Hp.
  destruct (merge_sort zset_le (map_to_list z)) as [|[m0 sc] l']; simplify_eq/=.
  exists sc. split; [apply elem_of_map_to_list; rewrite <- Hp; set_solver|].
  intros m' sc' Hm'%elem_of_map_to_list. rewrite <- Hp in Hm'.
  assert (Sorted (λ p q : string * Z, p.2 <= q.2) ((m, sc) :: l')) as Hs'.
  { clear -Hs. induction Hs as [|p q ? ? Hhd]; constructor; [done|].
    destruct Hhd as [|? ? Hle]; constructor. destruct Hle; lia. }
  apply Sorted_StronglySorted in Hs'; [|intros x y w; lia].
  apply StronglySorted_inv in Hs' as [_ Hall]. rewrite Forall_forall in Hall.
  apply elem_of_cons in Hm' as [[= -> ->]|Hm']; [lia|]. by specialize (Hall _ Hm').
Qed.

Lemma zset_list_nil (z : gmap string Z) : zset_list z = [] → z = ∅.
Proof.
  unfold zset_list. intros Heq%fmap_nil_inv. apply map_to_list_empty_iff.
  pose proof (merge_sort_Permutation zset_le (map_to_list z)) as Hp. rewrite Heq in Hp.
  by apply Permutation_nil_l in Hp.
Qed.

(** ** Frame: the key a command writes *)

Definition cmd_key (c : cmd) : option string :=
  match c with
  | GET _ | ZCARD _ | ZCOUNT _ _ _ | ZRANGE _ _ _ | PING => None
  | SET k _ _ | INCR k | EXPIRE k _ | ZADD k _ _ | ZREMRANGEBYSCORE k _ _ => Some k
  end.

Lemma redis_sem_frame (c : cmd) (t : Z) (d d' : gmap string entry) (rep : reply) (j : string) :
  redis_sem c t d = Some (d', rep) → cmd_key c ≠ Some j → live t j d' = live t j d.
Proof.
  intros H Hne. destruct c; simplify_eq/=; repeat (case_match; simplify_eq/=); try done;
    (rewrite live_insert || rewrite live_put_zset); by rewrite decide_False by congruence.
Qed.

Section laws.
Context {R : Type} `{RedisLaws R}.

(** Whatever the reply, a command leaves the live entries of other keys alone. *)
Lemma rd_frame (t : Z) (c : cmd) (r r' : R) (rep : reply) (j : string) :
  rd_exec t c r = (r', rep) → is_Some (redis_sem c t (rd_db r)) → cmd_key c ≠ Some j →
  live t j (rd_db r') = live t j (rd_db r).
Proof.
  intros Hx [[d' rep'] Hs] Hne. pose proof (redis_sem_frame _ _ _ _ _ _ Hs Hne) as Hf.
  destruct rep as [| | | | |e];
    [edestruct (rd_answer t c r) as [_ Hd]; [exact Hx|done|exact Hs|]; by rewrite (Hd j)..|].
  destruct (rd_fault t c r r' e d' rep' Hx Hs) as [Hd|Hd]; by rewrite (Hd j).
Qed.

(** Commands that write nothing. *)
Lemma rd_readonly (t : Z) (c : cmd) (r r' : R) (rep : reply) :
  rd_exec t c r = (r', rep) → is_Some (redis_sem c t (rd_db r)) → cmd_key c = None →
  rd_db r' ≡{t} rd_db r.
Proof. intros Hx Hs Hn j. eapply rd_frame; [done..|]. by rewrite Hn. Qed.

(** The states after a command: its effect happened or it did not. *)
Lemma rd_either (t : Z) (c : cmd) (r r' : R) (rep : reply) (d' : gmap string entry) (rep' : reply) :
  rd_exec t c r = (r', rep) → redis_sem c t (rd_db r) = Some (d', rep') →
  rd_db r' ≡{t} rd_db r ∨ rd_db r' ≡{t} d'.
Proof.
  intros Hx Hs. destruct (is_error rep) eqn:He.
  - destruct rep; try done. by eapply rd_fault.
  - right. by eapply rd_answer.
Qed.

Lemma rd_ok (t : Z) (c : cmd) (r : R) (d' : gmap string entry) (rep' : reply) `{!RedisReliable R} :
  redis_sem c t (rd_db r) = Some (d', rep') → is_error rep' = false →
  ∃ r', rd_exec t c r = (r', rep') ∧ rd_db r' ≡{t} d'.
Proof.
  intros Hs He. pose proof (rd_reliable t c r d' rep' Hs) as Hr.
  destruct (rd_exec t c r) as [r' rep] eqn:Hx. simpl in Hr. subst rep.
  exists r'. split; [done|]. by eapply rd_answer.
Qed.
End laws.

(** ** Two servers

    The commands applied to a database, and the same with a list of faults:
    [true] loses the command, [false] the answer. *)

Definition RefRedis : Type := gmap string entry.

#[export] Instance RefRedis_exec : Redis RefRedis := λ t c d,
  match redis_sem c t d with
  | Some (d', rep) => (d', rep)
  | None => (d, RErr "ERR unspecified")
  end.

#[export] Program Instance RefRedis_laws : RedisLaws RefRedis := {| rd_db := λ d, d |}.
Next Obligation.
  intros t c r r' rep d' rep' Hx _ Hs. unfold rd_exec, RefRedis_exec in Hx. rewrite Hs in Hx.
  by simplify_eq.
Qed.
Next Obligation.
  intros t c r r' e d' rep' Hx Hs. unfold rd_exec, RefRedis_exec in Hx. rewrite Hs in Hx.
  simplify_eq. by right.
Qed.

#[export] Instance RefRedis_reliable : RedisReliable RefRedis.
Proof. intros t c r d' rep' Hs. unfold rd_exec, RefRedis_exec. simpl in Hs. by rewrite Hs. Qed.

Record FaultyRedis := { fr_db : gmap string entry; fr_faults : list (option bool) }.

#[export] Instance FaultyRedis_exec : Redis FaultyRedis := λ t c r,
  let fs := tail (fr_faults r) in
  match redis_sem c t (fr_db r) with
  | Some (d', rep) =>
      match head (fr_faults r) with
      | Some (Some true) => ({| fr_db := fr_db r; fr_faults := fs |}, RErr "i/o timeout")
      | Some (Some false) => ({| fr_db := d'; fr_faults := fs |}, RErr "i/o timeout")
      | _ => ({| fr_db := d'; fr_faults := fs |}, rep)
      end
  | None => (r, RErr "ERR unspecified")
  end.

#[export] Program Instance FaultyRedis_laws : RedisLaws FaultyRedis := {| rd_db := fr_db |}.
Next Obligation.
  intros t c r r' rep d' rep' Hx He Hs. unfold rd_exec, FaultyRedis_exec in Hx. rewrite Hs in Hx.
  by repeat (case_match; simplify_eq/=).
Qed.
Next Obligation.
  intros t c r r' e d' rep' Hx Hs. unfold rd_exec, FaultyRedis_exec in Hx. rewrite Hs in Hx.
  repeat (case_match; simplify_eq/=); by (left + right).
Qed.
