(* ===== verification/Storage.v ===== *)
(** * Connections and tables

    Models [src/internal/storage/postgres.go], the opening and closing of
    [src/internal/storage/redis.go], and the tables of [src/internal/models].

    go-redis, GORM and [database/sql] are outside the repository: the class
    [Drivers] has the calls that the gateway makes on them, in a world [W] of
    clients [RC] and databases [PG], and [DriversLaws] what is documented of
    them: a client is open from its creation until it is closed, a pool has the
    limits that were set last, a migration that succeeds has created its tables. *)

From S2P Require Import Prelude.

(** ** The tables *)

(** [models.RateLimitTier]. *)
Record RateLimitTier := {
  rlt_Name : string; rlt_RequestsPerMinute : Z; rlt_RequestsPerHour : Z; rlt_Algorithm : string
}.

(** The models that the gateway stores. *)
Inductive model := MAPIKey | MRateLimitTier | MUser | MRequestLog.

Definition TableName (m : model) : string :=
  match m with
  | MAPIKey => "api_keys"
  | MRateLimitTier => "rate_limit_tiers"
  | MUser => "users"
  | MRequestLog => "request_logs"
  end.

(** ** The drivers *)

Record redis_Options := {
  Addr : string; Password : string; DB : Z; DialTimeout : duration; ReadTimeout : duration; WriteTimeout : duration;
  PoolSize : Z; MinIdleConns : Z
}.

(** The limits of a connection pool of [database/sql]. *)
Record limits := { MaxIdleConns : Z; MaxOpenConns : Z; ConnMaxLifetime : duration }.

Class Drivers (W RC PG : Type) := {
  redis_NewClient : redis_Options → W → W * RC;
  redis_Ping : duration → RC → W → W * option string;          (* with a timeout *)
  redis_Close : RC → W → W * option string;
  gorm_Open : string → W → W * (PG + string);
  gorm_DB : PG → W → W * option string;                        (* the error of [db.DB()] *)
  sql_set : (limits → limits) → PG → W → W;                    (* the setters of [sql.DB] *)
  sql_Ping : PG → W → W * option string;
  sql_Close : PG → W → W * option string;
  gorm_AutoMigrate : list string → PG → W → W * option string; (* the tables of the models *)
  gorm_Transaction : Comp W (option string) → PG → W → W * go (option string)
}.

(** What can be seen of a client and of a database. *)
Class DriversLaws (W RC PG : Type) `{Drivers W RC PG} := {
  client : RC → W → option redis_Options;                      (* [None] once it is closed *)
  pool : PG → W → option limits;                               (* likewise *)
  tables : PG → W → gset string;
  redis_NewClient_open o w :
    let '(w', c) := redis_NewClient o w in client c w' = Some o ∧ (∀ p, pool p w' = pool p w) ∧ ∀ p, tables p w' = tables p w;
  redis_Ping_frame timeout c w :
    let '(w', _) := redis_Ping timeout c w in
    (∀ c', client c' w' = client c' w) ∧ (∀ p, pool p w' = pool p w) ∧ ∀ p, tables p w' = tables p w;
  redis_Close_closed c w :
    let '(w', err) := redis_Close c w in (err = None → client c w' = None) ∧ ∀ p, pool p w' = pool p w;
  gorm_Open_open dsn w :
    let '(w', o) := gorm_Open dsn w in
    (∀ c, client c w' = client c w) ∧ match o with inl p => is_Some (pool p w') | inr _ => True end;
  gorm_DB_frame p w :
    let '(w', _) := gorm_DB p w in
    (∀ c, client c w' = client c w) ∧ (∀ q, pool q w' = pool q w) ∧ ∀ q, tables q w' = tables q w;
  sql_set_limits f p w :
    pool p (sql_set f p w) = f <$> pool p w ∧ (∀ c, client c (sql_set f p w) = client c w) ∧
    ∀ q, tables q (sql_set f p w) = tables q w;
  sql_Close_closed p w :
    let '(w', err) := sql_Close p w in (err = None → pool p w' = None) ∧ ∀ c, client c w' = client c w;
  gorm_AutoMigrate_tables ts p w :
    let '(w', err) := gorm_AutoMigrate ts p w in
    (∀ c, client c w' = client c w) ∧ (∀ q, pool q w' = pool q w) ∧
    tables p w ⊆ tables p w' ∧ (err = None → ∀ t, t ∈ ts → t ∈ tables p w')
}.

Section storage.
Context {W RC PG : Type} `{Drivers W RC PG}.

Definition call {A} (m : W → W * A) : Comp W A := λ w, let '(w, a) := m w in (w, Ret a).

(** ** Redis *)

Definition redis_options (addr password : string) (db : Z) : redis_Options := {|
  Addr := addr; Password := password; DB := db; DialTimeout := 5 * second; ReadTimeout := 3 * second;
  WriteTimeout := 3 * second; PoolSize := 10; MinIdleConns := 5 |}.

Definition NewRedis (addr password : string) (db : Z) : Comp W (RC + string) :=
  client ← call (redis_NewClient (redis_options addr password db));
  err ← call (redis_Ping (5 * second) client);
  match err with
  | Some e => mret (inr ("failed to connect to Redis: " +:+ e))
  | None => mret (inl client)
  end.

Definition redis_close (client : RC) : Comp W (option string) := call (redis_Close client).

(** ** PostgreSQL

    GORM is told to take the time in UTC; instants have no zone here. *)

(** [p.DB.DB()], and then something with the pool. *)
Definition with_pool (p : PG) (m : Comp W (option string)) : Comp W (option string) :=
  err ← call (gorm_DB p);
  match err with Some e => mret (Some e) | None => m end.

Definition NewPostgres (dsn : string) : Comp W (PG + string) :=
  o ← call (gorm_Open dsn);
  match o with
  | inr e => mret (inr ("failed to connect to database: " +:+ e))
  | inl db =>
      err ← call (gorm_DB db);
      match err with
      | Some e => mret (inr ("failed to get database instance: " +:+ e))
      | None =>
          call (λ w, (sql_set (λ l, {| MaxIdleConns := 10; MaxOpenConns := MaxOpenConns l;
                                       ConnMaxLifetime := ConnMaxLifetime l |}) db w, tt));;
          call (λ w, (sql_set (λ l, {| MaxIdleConns := MaxIdleConns l; MaxOpenConns := 100;
                                       ConnMaxLifetime := ConnMaxLifetime l |}) db w, tt));;
          call (λ w, (sql_set (λ l, {| MaxIdleConns := MaxIdleConns l; MaxOpenConns := MaxOpenConns l;
                                       ConnMaxLifetime := hour |}) db w, tt));;
          mret (inl db)
      end
  end.

Definition pg_Ping (p : PG) : Comp W (option string) := with_pool p (call (sql_Ping p)).

Definition AutoMigrate (p : PG) : Comp W (option string) :=
  call (gorm_AutoMigrate (TableName <$> [MAPIKey; MRateLimitTier; MUser; MRequestLog]) p).

Definition pg_Close (p : PG) : Comp W (option string) := with_pool p (call (sql_Close p)).

Definition Transaction (fn : Comp W (option string)) (p : PG) : Comp W (option string) := λ w, gorm_Transaction fn p w.
End storage.

(** ** What they establish *)

Section specs.
Context {W RC PG : Type} `{DriversLaws W RC PG}.

(** A client that is returned is open, with the options that were asked for; if
    Redis does not answer, the client is left open. *)
Lemma NewRedis_spec (addr password : string) (db : Z) (w : W) :
  ∃ w' o, NewRedis addr password db w = (w', Ret o) ∧
    (∃ c, client c w' = Some (redis_options addr password db) ∧ match o with inl c' => c' = c | inr _ => True end) ∧
    (∀ p, pool p w' = pool p w) ∧ ∀ p, tables p w' = tables p w.
Proof.
  unfold NewRedis, call. comp_unfold. set (opts := redis_options addr password db).
  pose proof (redis_NewClient_open opts w) as Hnew. destruct (redis_NewClient opts w) as [w1 c].
  destruct Hnew as (Hc & Hp & Ht).
  pose proof (redis_Ping_frame (5 * second) c w1) as Hping. destruct (redis_Ping (5 * second) c w1) as [w2 err].
  destruct Hping as (Hc2 & Hp2 & Ht2). exists w2. destruct err as [e|]; eexists; (split; [reflexivity|]);
    (split; [exists c; by rewrite Hc2|]); split; congruence.
Qed.

(** A database that is returned has a pool of at most 100 connections, 10 of them
    idle, each for at most an hour. *)
Lemma NewPostgres_spec (dsn : string) (w : W) :
  ∃ w' o, NewPostgres dsn w = (w', Ret o) ∧ (∀ c, client c w' = client c w) ∧
    match o with
    | inl p => pool p w' = Some {| MaxIdleConns := 10; MaxOpenConns := 100; ConnMaxLifetime := hour |}
    | inr _ => True
    end.
Proof.
  unfold NewPostgres, call. comp_unfold. pose proof (gorm_Open_open dsn w) as Ho.
  destruct (gorm_Open dsn w) as [w1 [p|e]]; [|eexists _, _; split_and!; [reflexivity|apply Ho|done]].
  destruct Ho as [Hc [l Hl]]. pose proof (gorm_DB_frame p w1) as Hdb. destruct (gorm_DB p w1) as [w2 err].
  destruct Hdb as (Hc2 & Hp2 & _). destruct err as [e|]; [eexists _, _; split_and!; [reflexivity|congruence|done]|].
  eexists _, _. split; [reflexivity|].
  assert (∀ f w c, client c (sql_set f p w) = client c w) as Hsc by (intros f w' c; apply sql_set_limits).
  assert (∀ f w, pool p (sql_set f p w) = f <$> pool p w) as Hsp by (intros f w'; apply sql_set_limits).
  split; [intros c; by rewrite !Hsc, Hc2, Hc|by rewrite !Hsp, Hp2, Hl].
Qed.

(** After a successful migration every table of the gateway exists. *)
Lemma AutoMigrate_spec (p : PG) (w : W) :
  ∃ w' err, AutoMigrate p w = (w', Ret err) ∧ (∀ c, client c w' = client c w) ∧ (∀ q, pool q w' = pool q w) ∧
    (err = None → ∀ m, TableName m ∈ tables p w').
Proof.
  unfold AutoMigrate, call. pose proof (gorm_AutoMigrate_tables (TableName <$> [MAPIKey; MRateLimitTier; MUser; MRequestLog]) p w) as Hm.
  destruct (gorm_AutoMigrate _ p w) as [w' err]. destruct Hm as (Hc & Hp & _ & Ht).
  exists w', err. split_and!; [done..|]. intros He m. apply Ht; [done|]. apply list_elem_of_fmap_2. destruct m; set_solver.
Qed.

(** Closing. *)
Lemma redis_close_spec (c : RC) (w : W) :
  ∃ w' err, redis_close c w = (w', Ret err) ∧ (err = None → client c w' = None) ∧ ∀ p, pool p w' = pool p w.
Proof.
  unfold redis_close, call. pose proof (redis_Close_closed c w) as Hc. destruct (redis_Close c w) as [w' err].
  by exists w', err.
Qed.

Lemma pg_Close_spec (p : PG) (w : W) :
  ∃ w' err, pg_Close p w = (w', Ret err) ∧ (err = None → pool p w' = None) ∧ ∀ c, client c w' = client c w.
Proof.
  unfold pg_Close, with_pool, call. comp_unfold. pose proof (gorm_DB_frame p w) as Hdb.
  destruct (gorm_DB p w) as [w1 [e|]]; destruct Hdb as (Hc & _ & _); [by exists w1, (Some e)|].
  pose proof (sql_Close_closed p w1) as Hcl. destruct (sql_Close p w1) as [w2 err]. destruct Hcl as [Hp Hc2].
  exists w2, err. split_and!; [done..|congruence].
Qed.
End specs.

(** ** Drivers in memory *)

(** One client and one database, on servers that can be reached. *)
Record net := { n_client : option redis_Options; n_pool : option limits; n_tables : gset string }.

#[local] Instance net_drivers : Drivers net unit unit := {|
  redis_NewClient o w := ({| n_client := Some o; n_pool := n_pool w; n_tables := n_tables w |}, tt);
  redis_Ping _ _ w := (w, None);
  redis_Close _ w := ({| n_client := None; n_pool := n_pool w; n_tables := n_tables w |}, None);
  gorm_Open dsn w := ({| n_client := n_client w;
    n_pool := Some {| MaxIdleConns := 2; MaxOpenConns := 0; ConnMaxLifetime := 0 |}; n_tables := n_tables w |}, inl tt);
  gorm_DB _ w := (w, None);
  sql_set f _ w := {| n_client := n_client w; n_pool := f <$> n_pool w; n_tables := n_tables w |};
  sql_Ping _ w := (w, None);
  sql_Close _ w := ({| n_client := n_client w; n_pool := None; n_tables := n_tables w |}, None);
  gorm_AutoMigrate ts _ w :=
    ({| n_client := n_client w; n_pool := n_pool w; n_tables := list_to_set ts ∪ n_tables w |}, None);
  gorm_Transaction fn _ w := fn w
|}.

#[local] Program Instance net_laws : DriversLaws net unit unit := {|
  client _ w := n_client w; pool _ w := n_pool w; tables _ w := n_tables w |}.
Solve Obligations with (intros; simpl; split_and?; set_solver || eauto || done).

Definition new_net : net := {| n_client := None; n_pool := None; n_tables := ∅ |}.
