(* ===== verification/FixedWindow.v ===== *)
(** * The fixed window limiter

    Models [src/internal/ratelimit/fixed_window.go].  [Allow] sends one [INCR]
    and, after the first of a window, one [EXPIRE]; between the two, other
    gateways may send their own commands.  [fw_run] runs any interleaving of
    the two halves of any number of calls. *)

From S2P Require Import Prelude Strconv Float64 Redis.

Record FixedWindowLimiter := { limit : Z; window : duration }.

Definition NewFixedWindow (lim : Z) (win : duration) : FixedWindowLimiter :=
  {| limit := lim; window := win |}.

(** [int64(f.window.Seconds())]. *)
Definition windowSeconds (f : FixedWindowLimiter) : Z := f64_to_Z (Seconds (window f)).

Definition fixed_key (key : string) (w : Z) : string :=
  "ratelimit:fixed:" +:+ key +:+ ":" +:+ pretty w.

(** The key that [Remaining] reads. *)
Definition remaining_key (key : string) (w : Z) : string :=
  "ratelimit:" +:+ key +:+ ":" +:+ pretty w.

Section limiter.
Context {R : Type} `{Redis R}.

(** [time.Now().Unix() / int64(f.window.Seconds())]. *)
Definition currentWindow (f : FixedWindowLimiter) (now : time) : Comp R Z :=
  int_div (unix now) (windowSeconds f).

(** [Allow] up to the reply to [INCR]. *)
Definition allow_count (f : FixedWindowLimiter) (key : string) (now t : time)
    : Comp R (string * Z * option redis_error) :=
  w ← currentWindow f now;
  let redisKey := fixed_key key w in
  '(count, err) ← Incr t redisKey;
  mret (redisKey, count, err).

Definition Allow (f : FixedWindowLimiter) (key : string) (now t1 t2 : time)
    : Comp R (bool * option redis_error) :=
  '(redisKey, count, err) ← allow_count f key now t1;
  match err with
  | Some e => mret (false, Some e)
  | None =>
      (if count =? 1 then Expire t2 redisKey (window f);; mret tt else mret tt);;
      mret (count <=? limit f, None)
  end.

Definition Remaining (f : FixedWindowLimiter) (key : string) (now t : time)
    : Comp R (Z * option redis_error) :=
  w ← currentWindow f now;
  let redisKey := remaining_key key w in
  '(val, err) ← Get t redisKey;
  match err with
  | Some Nil => mret (limit f, None)
  | Some e => mret (0, Some e)
  | None =>
      let '(count, _) := Atoi val in
      let remaining := wrap64 (limit f - count) in
      mret (if remaining <? 0 then 0 else remaining, None)
  end.

Definition Limit (f : FixedWindowLimiter) : Z := limit f.
Definition Window (f : FixedWindowLimiter) : duration := window f.

(** [Reset]: the instant [time.Unix(nextWindow, 0)]. *)
Definition Reset (f : FixedWindowLimiter) (key : string) (now : time) : Comp R (time * option redis_error) :=
  w ← currentWindow f now;
  let nextWindow := wrap64 (wrap64 (w + 1) * windowSeconds f) in
  mret (nextWindow * second, None).

(** ** Interleavings *)

Inductive fw_event :=
  | FCount (key : string) (now t : time)   (* a call up to its [INCR], at [t] *)
  | FExpire (k : string) (t : time).       (* the [EXPIRE] of a call, at [t] *)

Definition ev_time (ev : fw_event) : time :=
  match ev with FCount _ _ t => t | FExpire _ t => t end.

(** Whether a call is admitted is settled by the reply to its [INCR]. *)
Definition decision (f : FixedWindowLimiter) (count : Z) (err : option redis_error) : bool :=
  match err with Some _ => false | None => count <=? limit f end.

Definition fw_step (f : FixedWindowLimiter) (ev : fw_event) (r : R) : R * bool :=
  match ev with
  | FCount key now t =>
      match allow_count f key now t r with
      | (r, Ret (_, count, err)) => (r, decision f count err)
      | (r, Panic _) => (r, false)
      end
  | FExpire k t => ((Expire t k (window f) r).1, false)
  end.

Fixpoint fw_run (f : FixedWindowLimiter) (evs : list fw_event) (r : R) : R * list bool :=
  match evs with
  | [] => (r, [])
  | ev :: evs =>
      let '(r, b) := fw_step f ev r in
      let '(r, bs) := fw_run f evs r in (r, b :: bs)
  end.

(** A call is the two halves in a row. *)
Definition second_half (k : string) (count : Z) (err : option redis_error) (t2 : time) : list fw_event :=
  match err with
  | None => if count =? 1 then [FExpire k t2] else []
  | Some _ => []
  end.

Lemma Allow_events (f : FixedWindowLimiter) (key : string) (now t1 t2 : time) (r r1 : R)
    (k : string) (count : Z) (err : option redis_error) :
  allow_count f key now t1 r = (r1, Ret (k, count, err)) →
  ∃ bs, fw_run f (FCount key now t1 :: second_half k count err t2) r =
      ((Allow f key now t1 t2 r).1, decision f count err :: bs) ∧
    (Allow f key now t1 t2 r).2 = Ret (decision f count err, err).
Proof.
  intros HA. unfold Allow. rewrite (comp_bind_step _ _ _ _ _ HA). simpl. rewrite HA.
  destruct err as [e|]; simpl; [by eexists|].
  destruct (count =? 1); simpl; [|by eexists].
  unfold Expire. comp_unfold. destruct (rd_exec t2 (EXPIRE k (window f)) r1). by eexists.
Qed.
End limiter.

(** ** Keys *)

(** Windows and clients have counters of their own. *)
Lemma fixed_key_inj (key1 key2 : string) (w1 w2 : Z) :
  0 <= w1 → 0 <= w2 → fixed_key key1 w1 = fixed_key key2 w2 → key1 = key2 ∧ w1 = w2.
Proof.
  unfold fixed_key. intros H1 H2 Heq.
  apply (inj (String.append "ratelimit:fixed:")) in Heq.
  apply app_colon_inj in Heq as [-> Hp]; [|by apply pretty_digits..]. by apply (inj pretty) in Hp.
Qed.

(** The key of [Remaining] is not the key of [Allow]. *)
Lemma fixed_not_remaining (key : string) (w1 w2 : Z) :
  0 <= w1 → 0 <= w2 → fixed_key key w1 ≠ remaining_key key w2.
Proof.
  unfold fixed_key, remaining_key. intros H1 H2 Heq.
  change ("ratelimit:" +:+ (("fixed:" +:+ key) +:+ ":" +:+ pretty w1) =
          "ratelimit:" +:+ (key +:+ ":" +:+ pretty w2)) in Heq.
  apply (inj (String.append "ratelimit:")) in Heq.
  apply app_colon_inj in Heq as [Hk _]; [|by apply pretty_digits..].
  apply (f_equal String.length) in Hk. rewrite string_app_length in Hk. simpl in Hk. lia.
Qed.

(** ** Safety of all interleavings *)

(** Clock readings in order; a call reads the clock before it sends its [INCR]. *)
Fixpoint ordered (T : time) (evs : list fw_event) : Prop :=
  match evs with
  | [] => True
  | ev :: evs =>
      T <= ev_time ev ∧
      match ev with FCount _ now t => 0 <= now <= t ∧ t <= max_int64 | FExpire _ _ => True end ∧
      ordered (ev_time ev) evs
  end.

(** A call for [key] that was counted in window [w] and admitted. *)
Definition counted (f : FixedWindowLimiter) (key : string) (w : Z) (p : fw_event * bool) : Prop :=
  match p with
  | (FCount key' now t, true) => key' = key ∧ now / window f = w ∧ t / window f = w
  | _ => False
  end.

#[export] Instance counted_dec f key w p : Decision (counted f key w p).
Proof. unfold counted. destruct p as [[] []]; apply _. Defined.

Definition admitted (f : FixedWindowLimiter) (key : string) (w : Z) (evs : list fw_event) (bs : list bool) : nat :=
  length (filter (counted f key w) (zip evs bs)).

Section safety.
Context {R : Type} `{RedisLaws R} (f : FixedWindowLimiter) (W : Z).
Hypothesis W_range : 0 < W <= 9223372036.
Hypothesis window_W : window f = W * second.

Lemma windowSeconds_W : windowSeconds f = W.
Proof. unfold windowSeconds. rewrite window_W, Seconds_whole by lia. apply f64_to_Z_int. Qed.

Lemma window_pos : 0 < window f.
Proof. rewrite window_W. unfold second. lia. Qed.

(** The window of an instant. *)
Lemma currentWindow_eq (now : time) (r : R) :
  0 <= now <= max_int64 → currentWindow f now r = (r, Ret (now / window f)).
Proof.
  intros Hnow. unfold currentWindow, int_div. rewrite windowSeconds_W.
  destruct (Z.eqb_spec W 0); [lia|]. unfold unix.
  assert (0 <= now / second) by (apply Z.div_pos; unfold second; lia).
  rewrite Z.quot_div_nonneg, Z.div_div by (done || lia).
  rewrite window_W, (Z.mul_comm W). unfold mret, comp_ret. rewrite wrap64_id; [done|].
  assert (0 <= now / (second * W) <= now); [|int_solve].
  split; [apply Z.div_pos; unfold second; lia|]. apply Z.div_le_upper_bound; unfold second; nia.
Qed.

Lemma allow_count_eq (key : string) (now t : time) (r r' : R) (rep : reply) :
  0 <= now <= max_int64 → rd_exec t (INCR (fixed_key key (now / window f))) r = (r', rep) →
  allow_count f key now t r =
    (r', Ret (fixed_key key (now / window f), match rep with RInt n => n | _ => 0 end, err_of rep)).
Proof.
  intros Hnow Hx. unfold allow_count. erewrite comp_bind_step by by apply currentWindow_eq.
  unfold Incr. comp_unfold. by rewrite Hx.
Qed.

Lemma window_deadline (t : time) : deadline t (window f) = Some (ms t + W * 1000).
Proof. rewrite window_W. apply deadline_seconds. lia. Qed.

Lemma ms_window_end (w : Z) : ms ((w + 1) * window f) = w * W * 1000 + W * 1000.
Proof.
  rewrite window_W. unfold ms, second, millisecond.
  replace ((w + 1) * (W * 1000000000)) with ((w * W * 1000 + W * 1000) * 1000000) by lia.
  by apply Z.div_mul.
Qed.

(** In the window [w] the counter [K] is absent, or counts at least the [n]
    calls admitted so far and does not expire before the window is over. *)
Definition slot_ok (T : time) (d : gmap string entry) (K : string) (w : Z) (n : nat) : Prop :=
  T / window f <= w →
  (live T K d = None ∧ n = 0%nat) ∨
  (∃ c dl, live T K d = Some (Entry (RString (pretty c)) dl) ∧
     Z.of_nat n <= c <= max_int64 ∧ w <= T / window f ∧
     from_option (λ x, ms ((w + 1) * window f) <= x) True dl).

Lemma slot_later (T U : time) (d : gmap string entry) (K : string) (w : Z) (n : nat) :
  T <= U → slot_ok T d K w n → slot_ok U d K w n.
Proof.
  intros HTU Hok HU. pose proof window_pos as Hw.
  assert (T / window f <= U / window f) as Hdiv by by apply Z.div_le_mono.
  destruct Hok as [[Hl ->]|(c & dl & Hl & Hc & HwT & Hdl)]; [lia| |].
  - left. by rewrite (live_later T U), Hl.
  - right. exists c, dl. split_and!; [|lia..|done]. rewrite (live_later T U), Hl by done.
    assert (expired U (Entry (RString (pretty c)) dl) = false) as ->; [|done].
    unfold expired. simpl. destruct dl as [x|]; [|done]. simpl in Hdl. apply Z.ltb_ge.
    etrans; [|exact Hdl]. apply ms_mono.
    pose proof (Z.mul_succ_div_gt U (window f) Hw). nia.
Qed.

Lemma slot_eq (T : time) (d1 d2 : gmap string entry) (K : string) (w : Z) (n : nat) :
  live T K d1 = live T K d2 → slot_ok T d1 K w n → slot_ok T d2 K w n.
Proof. unfold slot_ok. by intros ->. Qed.

Lemma slot_incr (t : time) (d d' : gmap string entry) (rep : reply) (K : string) (w : Z) (n : nat) :
  redis_sem (INCR K) t d = Some (d', rep) → w <= t / window f → slot_ok t d K w n →
  slot_ok t d' K w n ∧
  ∀ m, rep = RInt m → t / window f <= w → slot_ok t d' K w (S n) ∧ Z.of_nat (S n) <= m.
Proof.
  intros Hs Hwt Hok. simpl in Hs. unfold slot_ok.
  destruct (decide (t / window f <= w)) as [Htw|Htw]; [|split; [lia|intros; lia]].
  destruct (Hok Htw) as [[Hl ->]|(c & dl & Hl & Hc & _ & Hdl)]; rewrite Hl in Hs.
  - simplify_eq. rewrite live_insert, decide_True by done.
    split; [intros _|intros m [= <-] _; split; [intros _|lia]];
      right; exists 1, None; (split_and!; [done|int_solve|int_solve|lia|done]).
  - rewrite parse_int_pretty in Hs. case_decide as Hd; simplify_eq.
    + rewrite live_insert, decide_True by done.
      assert (expired t (Entry (RString (pretty (c + 1))) dl) = false) as ->.
      { apply live_not_expired in Hl. done. }
      split; [intros _|intros m [= <-] _; split; [intros _|lia]];
        right; exists (c + 1), dl; split_and!; (done || lia).
    + split; [|done]. intros _. right. by exists c, dl.
Qed.

Lemma slot_expire (t : time) (d d' : gmap string entry) (rep : reply) (K : string) (w : Z) (n : nat) :
  redis_sem (EXPIRE K (window f)) t d = Some (d', rep) → slot_ok t d K w n → slot_ok t d' K w n.
Proof.
  intros Hs Hok Htw. simpl in Hs. rewrite window_deadline in Hs.
  destruct (Hok Htw) as [[Hl ->]|(c & dl & Hl & Hc & Hwt & Hdl)]; rewrite Hl in Hs; simplify_eq.
  - left. done.
  - right. exists c, (Some (ms t + W * 1000)). rewrite live_insert, decide_True by done. simpl.
    unfold expired. simpl. destruct (Z.ltb_spec (ms t + W * 1000) (ms t)); [lia|].
    split_and!; [done|lia..|]. rewrite ms_window_end.
    assert (w * W * 1000 <= ms t); [|lia]. unfold ms. apply Z.div_le_lower_bound; [done|].
    pose proof window_pos. pose proof (Z.mul_div_le t (window f)).
    rewrite window_W in *. unfold second, millisecond in *. nia.
Qed.

(** The reply to [INCR] is an integer or an error. *)
Lemma incr_reply (K : string) (t : time) (d d' : gmap string entry) (rep : reply) :
  redis_sem (INCR K) t d = Some (d', rep) → is_error rep = false → ∃ m, rep = RInt m.
Proof. simpl. intros Hs He. repeat (case_match; simplify_eq/=); eauto. Qed.

(** One event of an interleaving. *)
Lemma fw_count_own (key : string) (w now t : Z) (r r' : R) (rep : reply) (n : nat) :
  let K := fixed_key key w in
  now / window f = w → now <= t → slot_ok t (rd_db r) K w n →
  rd_exec t (INCR K) r = (r', rep) →
  slot_ok t (rd_db r') K w n ∧
  (decision f match rep with RInt n => n | _ => 0 end (err_of rep) = true → t / window f = w →
   slot_ok t (rd_db r') K w (S n) ∧ Z.of_nat (S n) <= limit f).
Proof.
  intros K Hnw Hle Hok Hx. pose proof window_pos as Hpos.
  assert (w <= t / window f) as Hwt by (rewrite <- Hnw; by apply Z.div_le_mono).
  destruct (redis_sem (INCR K) t (rd_db r)) as [[d' rep']|] eqn:Hs; [|done].
  destruct (slot_incr t _ _ _ _ _ _ Hs Hwt Hok) as [Hn HSn]. split.
  - destruct (rd_either t _ r r' rep d' rep' Hx Hs) as [Hd|Hd];
      (eapply slot_eq; [symmetry; apply (Hd K)|done]).
  - intros Hdec Htw. destruct (is_error rep) eqn:He; [by destruct rep|].
    destruct (rd_answer t _ r r' rep d' rep' Hx He Hs) as [-> Hd].
    destruct (incr_reply _ _ _ _ _ Hs He) as [m ->]. simpl in Hdec. bool_to_prop.
    destruct (HSn m eq_refl) as [HS Hm]; [lia|]. split; [|lia].
    eapply slot_eq; [symmetry; apply (Hd K)|done].
Qed.

Lemma fw_step_ok (key : string) (w : Z) (T : time) (ev : fw_event) (r r' : R) (b : bool) (n : nat) :
  let K := fixed_key key w in
  0 <= w → T <= ev_time ev →
  match ev with FCount _ now t => 0 <= now <= t ∧ t <= max_int64 | FExpire _ _ => True end →
  slot_ok T (rd_db r) K w n → fw_step f ev r = (r', b) →
  if decide (counted f key w (ev, b))
  then slot_ok (ev_time ev) (rd_db r') K w (S n) ∧ Z.of_nat (S n) <= limit f
  else slot_ok (ev_time ev) (rd_db r') K w n.
Proof.
  intros K Hw HT Hev Hok Hstep. apply (slot_later _ _ _ _ _ _ HT) in Hok.
  pose proof window_pos as Hpos. destruct ev as [key' now t|k t]; simpl in *.
  - destruct (rd_exec t (INCR (fixed_key key' (now / window f))) r) as [r1 rep] eqn:Hx.
    assert (0 <= now <= max_int64) as Hnow by lia.
    rewrite (allow_count_eq _ _ _ _ _ _ Hnow Hx) in Hstep. simplify_eq.
    assert (0 <= now / window f) by (apply Z.div_pos; lia).
    destruct (decide (key' = key ∧ now / window f = w)) as [[-> Hnw]|Hne].
    + rewrite Hnw in *. destruct (fw_count_own key w now t r r' rep n) as [Hn HSn]; [done|lia|done..|].
      case_decide as Hc; [|done]. destruct (decision _ _ _); [|done]. by apply HSn, Hc.
    + rewrite decide_False by (intros Hc; simpl in Hc; destruct (decision _ _ _); naive_solver).
      eapply slot_eq; [symmetry|done]. eapply rd_frame; [done|done|].
      intros HK. apply Hne, fixed_key_inj; [done..|]. by apply (inj Some).
  - unfold Expire in Hstep. destruct (rd_exec t (EXPIRE k (window f)) r) as [r1 rep] eqn:Hx.
    simplify_eq/=. destruct (redis_sem (EXPIRE k (window f)) t (rd_db r)) as [[d' rep']|] eqn:Hs.
    2: { simpl in Hs. by rewrite window_deadline in Hs. }
    destruct (decide (k = K)) as [->|Hne].
    + destruct (rd_either t _ r r' rep d' rep' Hx Hs) as [Hd|Hd];
        (eapply slot_eq; [symmetry; apply (Hd K)|]); [done|by eapply slot_expire].
    + eapply slot_eq; [symmetry|done]. eapply rd_frame; [done|by rewrite Hs|]. naive_solver.
Qed.

Lemma fw_run_bound (key : string) (w : Z) (evs : list fw_event) (T : time) (r r' : R) (bs : list bool) (n : nat) :
  0 <= w → ordered T evs → slot_ok T (rd_db r) (fixed_key key w) w n →
  Z.of_nat n <= Z.max 0 (limit f) → fw_run f evs r = (r', bs) →
  Z.of_nat (n + admitted f key w evs bs) <= Z.max 0 (limit f).
Proof.
  intros Hw. revert T r bs n. induction evs as [|ev evs IH]; intros T r bs n Ho Hok Hn Hrun; simpl in *.
  - simplify_eq. unfold admitted. simpl. by rewrite Nat.add_0_r.
  - destruct Ho as (HT & Hev & Ho).
    destruct (fw_step f ev r) as [r1 b] eqn:Hs. destruct (fw_run f evs r1) as [r2 bs'] eqn:Hr.
    simplify_eq. pose proof (fw_step_ok key w T ev r r1 b n Hw HT Hev Hok Hs) as Hstep.
    unfold admitted. simpl. rewrite filter_cons. case_decide as Hc.
    + destruct Hstep as [Hok' Hlim]. simpl. rewrite Nat.add_succ_r, <- Nat.add_succ_l.
      eapply IH; [done..|lia|done].
    + eapply IH; [done..|].
      done.
Qed.
End safety.

(** ** One client without faults *)

Section sequential.
Context {R : Type} `{RedisReliable R} (f : FixedWindowLimiter) (W : Z).
Hypothesis W_range : 0 < W <= 9223372036.
Hypothesis window_W : window f = W * second.

(** Calls one after the other, each with its three clock readings. *)
Fixpoint fw_calls (key : string) (ts : list (time * time * time)) (r : R) : R * list (go (bool * option redis_error)) :=
  match ts with
  | [] => (r, [])
  | (now, t1, t2) :: ts =>
      let '(r, b) := Allow f key now t1 t2 r in
      let '(r, bs) := fw_calls key ts r in (r, b :: bs)
  end.

(** The readings are in order and in the window [w]. *)
Fixpoint in_window (w : Z) (T : time) (ts : list (time * time * time)) : Prop :=
  match ts with
  | [] => True
  | (now, t1, t2) :: ts =>
      T <= now ∧ now <= t1 ∧ t1 <= t2 ∧ w * window f <= now ∧ t2 < (w + 1) * window f ∧
      in_window w t2 ts
  end.

(** The counter of the window stands at [c]. *)
Definition slot_at (T : time) (d : gmap string entry) (K : string) (w : Z) (c : nat) : Prop :=
  match c with
  | O => live T K d = None
  | S _ => ∃ dl, live T K d = Some (Entry (RString (pretty (Z.of_nat c))) dl) ∧
             from_option (λ x, ms ((w + 1) * window f) <= x) True dl
  end.

Lemma slot_at_later (T U : time) (d : gmap string entry) (K : string) (w : Z) (c : nat) :
  T <= U → U < (w + 1) * window f → slot_at T d K w c → slot_at U d K w c.
Proof.
  intros HTU HU. destruct c as [|c]; simpl; rewrite (live_later T U) by done.
  - by intros ->.
  - intros (dl & -> & Hdl). exists dl. split; [|done].
    assert (expired U (Entry (RString (pretty (Z.of_nat (S c)))) dl) = false) as ->; [|done].
    unfold expired. simpl. destruct dl as [x|]; [|done]. simpl in Hdl. apply Z.ltb_ge.
    etrans; [|exact Hdl]. apply ms_mono. lia.
Qed.

Lemma slot_at_eq (T : time) (d1 d2 : gmap string entry) (K : string) (w : Z) (c : nat) :
  d1 ≡{T} d2 → slot_at T d2 K w c → slot_at T d1 K w c.
Proof. intros Hd. unfold slot_at. by rewrite (Hd K). Qed.

Lemma slot_at_incr (t : time) (d : gmap string entry) (K : string) (w : Z) (c : nat) :
  Z.of_nat c < max_int64 → slot_at t d K w c →
  ∃ d', redis_sem (INCR K) t d = Some (d', RInt (Z.of_nat (S c))) ∧ slot_at t d' K w (S c).
Proof.
  intros Hc Hat. destruct c as [|c]; simpl in *.
  - rewrite Hat. eexists. split; [done|]. exists None. by rewrite live_insert, decide_True.
  - destruct Hat as (dl & Hl & Hdl). rewrite Hl, parse_int_pretty.
    rewrite decide_True by (split; [done|int_solve]).
    replace (Z.of_nat (S c) + 1) with (Z.of_nat (S (S c))) by lia.
    eexists. split; [done|]. exists dl. rewrite live_insert, decide_True by done.
    pose proof (live_not_expired _ _ _ _ Hl) as Hx. unfold expired in *. simpl in *. by rewrite Hx.
Qed.

Lemma slot_at_expire (t : time) (d : gmap string entry) (K : string) (w : Z) (c : nat) :
  w * window f <= t → slot_at t d K w (S c) →
  ∃ d', redis_sem (EXPIRE K (window f)) t d = Some (d', RInt 1) ∧ slot_at t d' K w (S c).
Proof.
  intros Hwt (dl & Hl & Hdl). simpl. rewrite (window_deadline f W W_range window_W), Hl.
  eexists. split; [done|]. exists (Some (ms t + W * 1000)). rewrite live_insert, decide_True by done.
  unfold expired. simpl. destruct (Z.ltb_spec (ms t + W * 1000) (ms t)); [lia|]. split; [done|].
  rewrite (ms_window_end f W window_W).
  assert (w * W * 1000 <= ms t); [|lia]. unfold ms. apply Z.div_le_lower_bound; [done|].
  rewrite window_W in Hwt. unfold second, millisecond in *. lia.
Qed.

Lemma in_window_div (w t : Z) : w * window f <= t → t < (w + 1) * window f → t / window f = w.
Proof. intros Hn1 Hn2. symmetry. apply Z.div_unique with (t - w * window f); lia. Qed.

(** One call. *)
Lemma Allow_counts (key : string) (w : Z) (now t1 t2 : time) (r : R) (c : nat) :
  0 <= w → Z.of_nat c < max_int64 → now <= t1 → t1 <= t2 → t2 <= max_int64 →
  w * window f <= now → t2 < (w + 1) * window f →
  slot_at t1 (rd_db r) (fixed_key key w) w c →
  ∃ r', Allow f key now t1 t2 r = (r', Ret (Z.of_nat (S c) <=? limit f, None)) ∧
    slot_at t2 (rd_db r') (fixed_key key w) w (S c).
Proof.
  intros Hw Hc Hn1 Hn2 Hmax Hlo Hhi Hat. pose proof (window_pos f W W_range window_W).
  destruct (slot_at_incr _ _ _ _ _ Hc Hat) as (d1 & Hs1 & Hat1).
  destruct (rd_ok t1 _ r _ _ Hs1) as (r1 & Hx1 & Hd1); [done|].
  apply (slot_at_eq _ _ _ _ _ _ Hd1), (slot_at_later _ t2) in Hat1; [|done..].
  assert (now / window f = w) as Hnow by (apply in_window_div; lia).
  assert (0 <= now <= max_int64) as Hpos by nia.
  rewrite <- Hnow in Hx1. unfold Allow.
  rewrite (comp_bind_step _ _ _ _ _ (allow_count_eq f W W_range window_W _ _ _ _ _ _ Hpos Hx1)).
  rewrite Hnow. cbn [err_of].
  destruct (Z.eqb_spec (Z.of_nat (S c)) 1) as [Hone|Hone].
  - destruct (slot_at_expire t2 (rd_db r1) (fixed_key key w) w c) as (d2 & Hs2 & Hat2); [lia|done|].
    destruct (rd_ok t2 _ r1 _ _ Hs2) as (r2 & Hx2 & Hd2); [done|].
    exists r2. unfold Expire. comp_unfold. rewrite Hx2.
    split; [done|]. by apply (slot_at_eq t2 _ d2 _ w (S c)).
  - exists r1. by comp_unfold.
Qed.

Lemma fw_calls_count (key : string) (w T : Z) (ts : list (time * time * time)) (r : R) (c : nat) :
  0 <= w → (w + 1) * window f <= max_int64 → Z.of_nat (c + length ts) <= max_int64 →
  in_window w T ts → slot_at T (rd_db r) (fixed_key key w) w c →
  (fw_calls key ts r).2 = (λ i : nat, Ret (Z.of_nat (S i) <=? limit f, None)) <$> seq c (length ts).
Proof.
  intros Hw Hmax. revert T r c. induction ts as [|[[now t1] t2] ts IH]; intros T r c Hc Hin Hat; [done|].
  simpl in Hin, Hc. destruct Hin as (HT & Hn1 & Hn2 & Hlo & Hhi & Hin).
  apply (slot_at_later _ t1) in Hat; [|lia..].
  destruct (Allow_counts key w now t1 t2 r c) as (r' & HA & Hat'); [done|lia..|done|].
  simpl. rewrite HA. specialize (IH t2 r' (S c)).
  destruct (fw_calls key ts r') as [r'' bs]. simpl in *. f_equal. apply IH; [lia|done..].
Qed.
End sequential.

(** ** What [Remaining] sees *)

Fixpoint in_order (T : time) (ts : list (time * time * time)) : Prop :=
  match ts with
  | [] => True
  | (now, t1, t2) :: ts => T <= now ∧ now <= t1 ∧ t1 <= t2 ∧ t2 <= max_int64 ∧ in_order t2 ts
  end.

Definition last_time (T : time) (ts : list (time * time * time)) : time :=
  default T ((λ p, p.2) <$> last ts).

Lemma last_time_cons (T : time) (p : time * time * time) (ts : list (time * time * time)) :
  last_time T (p :: ts) = last_time p.2 ts.
Proof. unfold last_time. rewrite last_cons. by destruct (last ts). Qed.

Section remaining.
Context {R : Type} `{RedisReliable R} (f : FixedWindowLimiter) (W : Z).
Hypothesis W_range : 0 < W <= 9223372036.
Hypothesis window_W : window f = W * second.

(** A call leaves every key but its own counter alone. *)
Lemma Allow_frame (key : string) (now t1 t2 : time) (r r' : R) (o : go (bool * option redis_error)) (K : string) :
  0 <= now → now <= t1 → t1 <= t2 → t2 <= max_int64 → K ≠ fixed_key key (now / window f) →
  Allow f key now t1 t2 r = (r', o) → live t2 K (rd_db r') = live t2 K (rd_db r).
Proof.
  intros H0' Hn1 Hn2 Hmax HK HA. unfold Allow in HA.
  destruct (rd_exec t1 (INCR (fixed_key key (now / window f))) r) as [r1 rep] eqn:Hx1.
  assert (0 <= now <= max_int64) as Hnow by lia.
  rewrite (comp_bind_step _ _ _ _ _ (allow_count_eq f W W_range window_W _ _ _ _ _ _ Hnow Hx1)) in HA.
  assert (live t2 K (rd_db r1) = live t2 K (rd_db r)) as Hl2.
  { rewrite !(live_later t1 t2) by done. by rewrite (rd_frame _ _ _ _ _ K Hx1) by (done || naive_solver). }
  destruct (err_of rep); [by comp_unfold; simplify_eq|].
  destruct (_ =? 1); [|by comp_unfold; simplify_eq].
  unfold Expire in HA. comp_unfold.
  destruct (rd_exec t2 (EXPIRE (fixed_key key (now / window f)) (window f)) r1) as [r2 rep2] eqn:Hx2.
  simplify_eq. rewrite (rd_frame _ _ _ _ _ K Hx2); [done| |naive_solver].
  simpl. by rewrite (window_deadline f W W_range window_W).
Qed.

Lemma fw_calls_frame (key : string) (K : string) (ts : list (time * time * time)) (T : time) (r : R) :
  0 <= T → in_order T ts → (∀ w, 0 <= w → K ≠ fixed_key key w) → live T K (rd_db r) = None →
  live (last_time T ts) K (rd_db (fw_calls f key ts r).1) = None.
Proof.
  intros HT Ho HK. revert T r HT Ho. induction ts as [|[[now t1] t2] ts IH]; intros T r HT Ho Hl; [done|].
  simpl in Ho. destruct Ho as (Hn0 & Hn1 & Hn2 & Hmax & Ho). pose proof (window_pos f W W_range window_W).
  simpl. destruct (Allow f key now t1 t2 r) as [r' o] eqn:HA.
  apply Allow_frame with (K := K) in HA; [|lia..|apply HK, Z.div_pos; lia].
  rewrite (live_later T t2 K (rd_db r)), Hl in HA by lia.
  apply (IH t2) in HA; [|lia|done]. destruct (fw_calls f key ts r') as [r'' bs]. simpl in *.
  by rewrite last_time_cons.
Qed.
End remaining.

(** ** Properties *)

Section properties.
Context {R : Type} `{RedisLaws R}.

(** C1: The limiter never admits more than its limit in a window, whatever the
    interleaving of calls by any number of gateways and clients, and whatever
    commands or answers the network loses: of the calls for a key that read
    their clock and are counted in the window [w], at most [limit] are
    admitted, if the window's counter was not there before. *)
Theorem fixed_window_safe (f : FixedWindowLimiter) (W : Z) (key : string) (w : Z) (T : time)
    (evs : list fw_event) (r r' : R) (bs : list bool)
    (HW : 0 < W <= 9223372036) (Hwindow : window f = W * second) (Hw : 0 <= w)
    (Hord : ordered T evs) (Hfresh : live T (fixed_key key w) (rd_db r) = None)
    (Hrun : fw_run f evs r = (r', bs)) :
  Z.of_nat (admitted f key w evs bs) <= Z.max 0 (limit f).
Proof.
  change (Z.of_nat (0 + admitted f key w evs bs) <= Z.max 0 (limit f)).
  eapply (fw_run_bound f W HW Hwindow); [done..| |lia|done].
  intros _. by left.
Qed.

(** Without faults the limiter is exact: of the calls of one client in one
    window, in order, on a counter that is not there yet, the first [limit] are
    admitted and the others are not, each without an error. *)
Theorem fixed_window_exact `{!RedisReliable R} (f : FixedWindowLimiter) (W : Z) (key : string) (w : Z)
    (T : time) (ts : list (time * time * time)) (r : R)
    (HW : 0 < W <= 9223372036) (Hwindow : window f = W * second) (Hw : 0 <= w)
    (Hmax : (w + 1) * window f <= max_int64) (Hlen : Z.of_nat (length ts) <= max_int64)
    (Hin : in_window f w T ts) (Hfresh : live T (fixed_key key w) (rd_db r) = None) :
  (fw_calls f key ts r).2 =
    (λ i : nat, Ret (Z.of_nat i <? limit f, None)) <$> seq 0 (length ts).
Proof.
  rewrite (fw_calls_count f W HW Hwindow key w T ts r 0) by done.
  apply list_fmap_ext. intros _ i _. do 2 f_equal. apply eq_true_iff_eq. rewrite Z.leb_le, Z.ltb_lt. lia.
Qed.

(** [Remaining] does not see the calls that [Allow] admitted: it reads
    another key, so after any calls it still reports the whole limit. *)
Theorem remaining_ignores_allow `{!RedisReliable R} (f : FixedWindowLimiter) (W : Z) (key : string)
    (T : time) (ts : list (time * time * time)) (now t : time) (r : R)
    (HW : 0 < W <= 9223372036) (Hwindow : window f = W * second)
    (HT : 0 <= T) (Hord : in_order T ts)
    (Hnow : 0 <= now <= t) (Ht : last_time T ts <= t) (Hmax : t <= max_int64)
    (Hfresh : live T (remaining_key key (now / window f)) (rd_db r) = None) :
  (Remaining f key now t (fw_calls f key ts r).1).2 = Ret (limit f, None).
Proof.
  pose proof (window_pos f W HW Hwindow). set (K := remaining_key key (now / window f)) in *.
  assert (0 <= now / window f) by (apply Z.div_pos; lia).
  assert (∀ w, 0 <= w → K ≠ fixed_key key w) as HK by (intros w ??; by apply (fixed_not_remaining key w (now / window f))).
  pose proof (fw_calls_frame f W HW Hwindow key K ts T r HT Hord HK Hfresh) as Hl.
  set (r1 := (fw_calls f key ts r).1) in *.
  assert (redis_sem (GET K) t (rd_db r1) = Some (rd_db r1, RNil)) as Hs.
  { simpl. by rewrite (live_later (last_time T ts) t), Hl. }
  destruct (rd_ok t _ r1 _ _ Hs) as (r2 & Hx & _); [done|].
  unfold Remaining. erewrite comp_bind_step by (apply (currentWindow_eq f W HW Hwindow); lia).
  fold K. unfold Get. comp_unfold. by rewrite Hx.
Qed.

(** [Reset] gives the start of the next window: the first multiple of the
    window after the present. *)
Theorem reset_is_next_window (f : FixedWindowLimiter) (W : Z) (key : string) (now : time) (r : R)
    (HW : 0 < W <= 9223372036) (Hwindow : window f = W * second)
    (Hnow : 0 <= now <= max_int64) :
  ∃ t, Reset f key now r = (r, Ret (t, None)) ∧ now < t <= now + window f ∧ (window f | t).
Proof.
  pose proof (window_pos f W HW Hwindow) as Hpos. exists ((now / window f + 1) * window f).
  pose proof (Z.mul_div_le now _ Hpos). pose proof (Z.mul_succ_div_gt now _ Hpos).
  assert (0 <= now / window f) by (apply Z.div_pos; lia).
  split_and!; [|lia|lia|apply Z.divide_factor_r].
  unfold Reset. erewrite comp_bind_step by (apply (currentWindow_eq f W HW Hwindow); lia).
  rewrite (windowSeconds_W f W HW Hwindow), Hwindow in *. comp_unfold.
  unfold second in *. rewrite (wrap64_id (_ + 1)), wrap64_id by int_solve. do 3 f_equal. lia.
Qed.
End properties.

(** ** Witnesses *)

Definition two_a_minute : FixedWindowLimiter := NewFixedWindow 2 minute.

(** Two gateways interleave their calls in minute 1; the third command is lost. *)
Definition interleaving : list fw_event :=
  [FCount "a" minute minute; FCount "a" minute minute; FExpire (fixed_key "a" 1) (61 * second);
   FCount "a" minute (61 * second); FExpire (fixed_key "a" 1) (62 * second);
   FCount "a" (62 * second) (62 * second); FCount "b" (62 * second) (62 * second)].

Definition lossy : FaultyRedis := {| fr_db := ∅; fr_faults := [None; None; Some true; Some false] |}.

Definition one_minute : list (time * time * time) :=
  [(minute, minute, minute); (minute, 61 * second, 62 * second); (63 * second, 63 * second, 64 * second)].

Lemma fixed_window_safe_witness :
  (fw_run two_a_minute interleaving lossy).2 = [true; true; false; false; false; false; true] ∧
  Z.of_nat (admitted two_a_minute "a" 1 interleaving (fw_run two_a_minute interleaving lossy).2) <= 2.
Proof.
  split; [vm_compute; reflexivity|].
  apply (fixed_window_safe two_a_minute 60 "a" 1 minute interleaving lossy
           (fw_run two_a_minute interleaving lossy).1);
    [lia|reflexivity|lia| |reflexivity|apply surjective_pairing].
  simpl. unfold minute, second, max_int64. lia.
Defined.

Lemma fixed_window_exact_witness :
  (fw_calls (R := RefRedis) two_a_minute "a" one_minute ∅).2 =
    [Ret (true, None); Ret (true, None); Ret (false, None)].
Proof.
  apply (fixed_window_exact (R := RefRedis) two_a_minute 60 "a" 1 minute one_minute ∅);
    [lia|reflexivity|lia|vm_compute; discriminate|vm_compute; discriminate| |reflexivity].
  simpl. unfold minute, second. lia.
Defined.

Lemma remaining_ignores_allow_witness :
  (Remaining two_a_minute "a" (65 * second) (65 * second)
     (fw_calls (R := RefRedis) two_a_minute "a" one_minute ∅).1).2 = Ret (2, None).
Proof.
  apply (remaining_ignores_allow (R := RefRedis) two_a_minute 60 "a" minute one_minute
           (65 * second) (65 * second) ∅); [lia|reflexivity|vm_compute; discriminate| | | | |reflexivity];
    repeat split; vm_compute; discriminate.
Defined.

Lemma reset_is_next_window_witness :
  ∃ t, Reset (R := RefRedis) two_a_minute "a" (65 * second) ∅ = (∅, Ret (t, None)) ∧
    65 * second < t <= 65 * second + minute ∧ (minute | t).
Proof.
  apply (reset_is_next_window (R := RefRedis) two_a_minute 60 "a" (65 * second) ∅);
    [lia|reflexivity|unfold max_int64, second; lia].
Defined.
