(* ===== verification/SlidingWindow.v ===== *)
(** * The sliding window limiter

    Models [src/internal/ratelimit/sliding_window.go].  The admitted calls of
    a client are the members of a sorted set, under the instant they read
    from the clock; the instant, as a float64, is also the score.  [Allow]
    trims and counts the set, and adds to it in a second step, so [allow_count]
    and [allow_add] are the two parts between which other gateways may run. *)

From S2P Require Import Prelude Strconv Float64 Redis.

Record SlidingWindowLimiter := { limit : Z; window : duration }.

Definition NewSlidingWindowLimiter (lim : Z) (win : duration) : SlidingWindowLimiter :=
  {| limit := lim; window := win |}.

Definition sliding_key (key : string) : string := "ratelimit:sliding:" +:+ key.

(** The clock readings of one [Allow]: its own, and the server's at each of
    its commands. *)
Record clock := { c_now : time; c_rem : time; c_card : time; c_add : time; c_exp : time }.

Section limiter.
Context {R : Type} `{Redis R}.

Definition windowStart (s : SlidingWindowLimiter) (now : time) : time := now + wrap64 (- window s).

(** [Allow] up to the comparison with the limit. *)
Definition allow_count (s : SlidingWindowLimiter) (key : string) (c : clock)
    : Comp R (Z * option redis_error) :=
  let redisKey := sliding_key key in
  '(replies, err) ← Pipeline_Exec
    [(c_rem c, ZREMRANGEBYSCORE redisKey "0" (pretty (unix_nano (windowStart s (c_now c)))));
     (c_card c, ZCARD redisKey)];
  let count := match replies !! 1%nat with Some (RInt n) => n | _ => 0 end in
  mret (count, err).

(** [Allow] once the call is admitted. *)
Definition allow_add (s : SlidingWindowLimiter) (key : string) (c : clock) : Comp R unit :=
  let redisKey := sliding_key key in
  ZAdd (c_add c) redisKey (f64_of_Z (unix_nano (c_now c))) (pretty (unix_nano (c_now c)));;
  Expire (c_exp c) redisKey (window s);;
  mret tt.

Definition Allow (s : SlidingWindowLimiter) (key : string) (c : clock)
    : Comp R (bool * option redis_error) :=
  '(count, err) ← allow_count s key c;
  match err with
  | Some e => mret (false, Some e)
  | None =>
      if count <? limit s then allow_add s key c;; mret (true, None)
      else mret (false, None)
  end.

Definition Remaining (s : SlidingWindowLimiter) (key : string) (now t : time)
    : Comp R (Z * option redis_error) :=
  let redisKey := sliding_key key in
  '(count, err) ← ZCount t redisKey (pretty (unix_nano (windowStart s now))) (pretty (unix_nano now));
  match err with
  | Some e => mret (0, Some e)
  | None =>
      let remaining := wrap64 (limit s - count) in
      mret (if remaining <? 0 then 0 else remaining, None)
  end.

Definition Limit (s : SlidingWindowLimiter) : Z := limit s.
Definition Window (s : SlidingWindowLimiter) : duration := window s.

(** [Reset]; [now] is read only where the set is empty or not readable. *)
Definition Reset (s : SlidingWindowLimiter) (key : string) (t now : time)
    : Comp R (time * option redis_error) :=
  let redisKey := sliding_key key in
  '(oldest, err) ← ZRange t redisKey 0 0;
  match err, oldest with
  | None, o :: _ => mret (Sscanf_d o + window s, None)
  | _, _ => mret (now, None)
  end.
End limiter.

(** ** Calls one after the other *)

Section calls.
Context {R : Type} `{Redis R}.

Fixpoint sw_calls (s : SlidingWindowLimiter) (key : string) (cs : list clock) (r : R)
    : R * list (go (bool * option redis_error)) :=
  match cs with
  | [] => (r, [])
  | c :: cs =>
      let '(r, b) := Allow s key c r in
      let '(r, bs) := sw_calls s key cs r in (r, b :: bs)
  end.
End calls.

(** The instants of [log] after [lo]. *)
Definition recent (lo : time) (log : list time) : nat := length (filter (λ a, lo < a) log).

(** A run of calls obeys the limit: a call is admitted only if fewer than
    [limit] calls were admitted in the window that ends when the server counts
    them, up to the 2048 ns that the scores are rounded by; it is refused only
    if [limit] calls were admitted in the window that ends when it read its
    clock.  [log] holds the instants of the calls admitted before. *)
Fixpoint conforms (s : SlidingWindowLimiter) (log : list time) (cs : list clock)
    (bs : list (go (bool * option redis_error))) : Prop :=
  match cs, bs with
  | [], [] => True
  | c :: cs, Ret (b, None) :: bs =>
      (if b : bool then Z.of_nat (recent (c_card c - window s + 2048) log) < limit s
       else limit s <= Z.of_nat (recent (c_now c - window s) log)) ∧
      conforms s (if b then c_now c :: log else log) cs bs
  | _, _ => False
  end.

(** The calls do not overlap: the readings of their clocks are in order. *)
Fixpoint in_order (s : SlidingWindowLimiter) (T : time) (cs : list clock) : Prop :=
  match cs with
  | [] => True
  | c :: cs =>
      T < c_now c ∧ window s <= c_now c ∧ c_now c <= c_rem c ∧ c_rem c <= c_card c ∧
      c_card c <= c_add c ∧ c_add c <= c_exp c ∧ c_exp c <= max_int64 ∧ in_order s (c_exp c) cs
  end.

(** The time to live that an earlier call gave to the set never runs out between
    the two commands that add an entry and renew it. *)
Fixpoint unbroken (s : SlidingWindowLimiter) (earlier : list clock) (cs : list clock) : Prop :=
  match cs with
  | [] => True
  | c :: cs =>
      (∀ e, e ∈ earlier → ms (c_exp e + window s) < ms (c_add c) ∨ ms (c_exp c) <= ms (c_exp e + window s)) ∧
      unbroken s (c :: earlier) cs
  end.

Section sequential.
Context {R : Type} `{RedisReliable R} (s : SlidingWindowLimiter) (W : Z).
Hypothesis W_range : 0 < W <= 9223372036.
Hypothesis window_W : window s = W * second.

Lemma sw_window_pos : 0 < window s.
Proof. rewrite window_W. unfold second. lia. Qed.

Lemma sw_deadline (t : time) : deadline t (window s) = Some (ms (t + window s)).
Proof. rewrite window_W, ms_add_seconds. apply deadline_seconds. lia. Qed.

(** The entries of the sorted set at time [T], after entries up to [lo] were
    trimmed: admitted calls after [lo], and all of them that are in the window
    that ends at [T]. *)
Definition holds_log (T lo : time) (log : list time) (z : gmap string Z) : Prop :=
  (∀ m sc, z !! m = Some sc → ∃ a, a ∈ log ∧ m = pretty a ∧ sc = f64_of_Z a ∧ f64_of_Z lo < sc) ∧
  (∀ a, a ∈ log → f64_of_Z lo < f64_of_Z a → T <= a + window s → z !! pretty a = Some (f64_of_Z a)).

(** The set is absent, or has a time to live that covers its entries, counted
    from an earlier call. *)
Definition log_ok (earlier : list clock) (T lo : time) (log : list time) (K : string) (d : gmap string entry) : Prop :=
  ∃ z : gmap string Z,
    ((live T K d = None ∧ z = ∅) ∨
     (∃ dl, live T K d = Some (Entry (RZSet z) dl) ∧
        from_option (λ x, (∀ a, a ∈ log → ms (a + window s) <= x) ∧
                          ∃ e, e ∈ earlier ∧ x = ms (c_exp e + window s)) True dl)) ∧
    holds_log T lo log z.

Lemma log_ok_later (earlier : list clock) (T U lo : time) (log : list time) (K : string) (d : gmap string entry) :
  T <= U → log_ok earlier T lo log K d → log_ok earlier U lo log K d.
Proof.
  unfold log_ok, holds_log. intros HTU (z & Hz & Hin & Hall). destruct Hz as [[Hl ->]|(dl & Hl & Hdl)].
  - exists ∅. split_and!; [|done|intros; apply Hall; (done || lia)].
    left. by rewrite (live_later T U), Hl.
  - destruct (expired U (Entry (RZSet z) dl)) eqn:Hx.
    + exists ∅. split_and!; [|done|].
      { left. rewrite (live_later T U), Hl by done. by rewrite Hx. }
      intros a Ha _ HU. exfalso. unfold expired in Hx. simpl in Hx.
      destruct dl as [x|]; [|done]. destruct Hdl as [Hdl _]. specialize (Hdl a Ha).
      apply ms_mono in HU. bool_to_prop. lia.
    + exists z. split_and!; [|done|intros; apply Hall; (done || lia)].
      right. exists dl. by rewrite (live_later T U), Hl, Hx.
Qed.

Lemma log_ok_eq (earlier : list clock) (T lo : time) (log : list time) (K : string) (d1 d2 : gmap string entry) :
  d1 ≡{T} d2 → log_ok earlier T lo log K d2 → log_ok earlier T lo log K d1.
Proof. intros Hd. unfold log_ok. by rewrite (Hd K). Qed.

Lemma log_ok_more (earlier earlier' : list clock) (T lo : time) (log : list time) (K : string) (d : gmap string entry) :
  earlier ⊆ earlier' → log_ok earlier T lo log K d → log_ok earlier' T lo log K d.
Proof.
  intros Hsub (z & Hz & Hlog). exists z. split; [|done].
  destruct Hz as [Hl|(dl & Hl & Hdl)]; [by left|right]. exists dl. split; [done|].
  destruct dl; [|done]. destruct Hdl as (? & e & He & ->). split; [done|]. exists e. split; [by apply Hsub|done].
Qed.

Lemma trim_ok (earlier : list clock) (t lo ws : time) (log : list time) (K : string) (d : gmap string entry) :
  lo <= ws → (∀ a, a ∈ log → 0 <= a) → log_ok earlier t lo log K d →
  ∃ d' n, redis_sem (ZREMRANGEBYSCORE K "0" (pretty ws)) t d = Some (d', RInt n) ∧
    log_ok earlier t ws log K d'.
Proof.
  unfold log_ok, holds_log. intros Hlo Hpos (z & Hz & Hin & Hall). cbn [redis_sem].
  rewrite score_bound_pretty, (score_bound_pretty 0 : score_bound "0" = _).
  pose proof (f64_of_Z_mono lo ws Hlo).
  destruct Hz as [[Hl ->]|(dl & Hl & Hdl)]; rewrite Hl.
  { do 2 eexists. split; [done|]. exists ∅. split_and!; [by left|done|].
    intros a Ha Hsc HT. apply Hall; [done|lia|done]. }
  set (z' := filter _ z). do 2 eexists. split; [done|]. exists z'. split_and!.
  - rewrite live_put_zset, decide_True by done. case_decide as Hz; [by left|].
    pose proof (live_not_expired _ _ _ _ Hl) as Hx. right. exists dl. unfold expired in *. simpl in *. by rewrite Hx.
  - intros m sc [Hm Hsc]%map_lookup_filter_Some. destruct (Hin m sc Hm) as (a & Ha & -> & -> & _).
    exists a. split_and!; [done..|]. unfold in_scores in Hsc. simpl in Hsc.
    pose proof (f64_of_Z_nonneg a (Hpos a Ha)) as Hn. rewrite (f64_of_Z_exact 0) in Hsc by lia. lia.
  - intros a Ha Hsc HT. apply map_lookup_filter_Some. split; [apply Hall; [done|lia|done]|].
    unfold in_scores. simpl. lia.
Qed.

Lemma size_at_least (z : gmap string Z) (l : list Z) :
  NoDup l → (∀ a, a ∈ l → is_Some (z !! pretty a)) → (length l <= size z)%nat.
Proof.
  intros Hnd Hl. rewrite <- (length_fmap (pretty : Z → string) l), <- size_dom.
  rewrite <- (size_list_to_set (C := gset string)) by (by apply (NoDup_fmap_2 pretty)).
  apply subseteq_size. intros m. rewrite elem_of_list_to_set, list_elem_of_fmap, elem_of_dom.
  intros (a & -> & Ha). by apply Hl.
Qed.

Lemma size_list_to_set_le (l : list string) : (size (list_to_set (C := gset string) l) <= length l)%nat.
Proof.
  induction l as [|x l IH]; [done|].
  rewrite list_to_set_cons. cbn [length]. rewrite size_union_alt, size_singleton.
  assert (size (list_to_set l ∖ {[x]} : gset string) <= size (list_to_set l : gset string))%nat; [|lia].
  apply subseteq_size. set_solver.
Qed.

Lemma size_at_most (z : gmap string Z) (l : list Z) :
  (∀ m, is_Some (z !! m) → ∃ a, a ∈ l ∧ m = pretty a) → (size z <= length l)%nat.
Proof.
  intros Hl. rewrite <- (length_fmap (pretty : Z → string) l), <- size_dom.
  etrans; [|apply size_list_to_set_le].
  apply subseteq_size. intros m. rewrite elem_of_list_to_set, list_elem_of_fmap, elem_of_dom.
  intros (a & Ha & ->)%Hl. by exists a.
Qed.

Lemma card_ok (earlier : list clock) (t lo : time) (log : list time) (K : string) (d : gmap string entry) :
  0 <= lo → lo <= t - window s → NoDup log → (∀ a, a ∈ log → a <= max_int64) →
  log_ok earlier t lo log K d →
  ∃ n, redis_sem (ZCARD K) t d = Some (d, RInt (Z.of_nat n)) ∧
    (n <= recent lo log)%nat ∧ (recent (t - window s + 2048) log <= n)%nat.
Proof.
  intros Hlo Hlt Hnd Hmax (z & Hz & Hin & Hall). exists (size z). split_and!.
  - simpl. by destruct Hz as [[-> ->]|(dl & -> & _)].
  - apply size_at_most. intros m [sc Hm]. destruct (Hin m sc Hm) as (a & Ha & -> & -> & Hsc).
    exists a. split; [|done]. apply list_elem_of_filter. split; [by apply f64_of_Z_lt_inv|done].
  - apply size_at_least; [by apply NoDup_filter|]. intros a [Hlt' Ha]%list_elem_of_filter.
    eexists. apply Hall; [done|apply f64_of_Z_gap; [done|]|lia]. specialize (Hmax a Ha). lia.
Qed.

Lemma holds_log_insert (T lo a : time) (log : list time) (z : gmap string Z) :
  f64_of_Z lo < f64_of_Z a → holds_log T lo log z →
  holds_log T lo (a :: log) (<[pretty a := f64_of_Z a]> z).
Proof.
  intros Hlo [Hin Hall]. split.
  - intros m sc [[<- <-]|[Hne Hm]]%lookup_insert_Some; [exists a; set_solver|].
    destruct (Hin m sc Hm) as (b & Hb & ?). exists b. set_solver.
  - intros b Hb Hsc HT. destruct (decide (b = a)) as [->|Hne]; [by rewrite lookup_insert_eq|].
    rewrite lookup_insert_ne by (intros ?%(inj pretty); congruence). apply Hall; [set_solver|done..].
Qed.

Lemma zadd_ok (earlier : list clock) (t lo a : time) (log : list time) (K : string) (d : gmap string entry) :
  f64_of_Z lo < f64_of_Z a → log_ok earlier t lo log K d →
  ∃ d' n z dl, redis_sem (ZADD K (f64_of_Z a) (pretty a)) t d = Some (d', RInt n) ∧
    live t K d' = Some (Entry (RZSet z) dl) ∧
    from_option (λ x, ∃ e, e ∈ earlier ∧ x = ms (c_exp e + window s)) True dl ∧
    holds_log t lo (a :: log) z.
Proof.
  intros Hlo (z & Hz & Hlog). exists (<[K := Entry (RZSet (<[pretty a := f64_of_Z a]> z))
    match live t K d with Some e => e_deadline e | None => None end]> d).
  simpl. destruct Hz as [[Hl ->]|(dl & Hl & Hdl)]; rewrite Hl.
  - do 3 eexists. split_and!; [done|by rewrite live_insert, decide_True|done|by apply holds_log_insert].
  - pose proof (live_not_expired _ _ _ _ Hl) as Hx. do 3 eexists. split_and!; [done| | |by apply holds_log_insert].
    + rewrite live_insert, decide_True by done. unfold expired in *. simpl in *. by rewrite Hx.
    + destruct dl; [apply Hdl|done].
Qed.

Lemma add_ok (earlier : list clock) (c : clock) (lo : time) (log : list time) (key : string) (r : R) :
  0 <= lo → lo + 2048 <= c_now c → c_now c <= c_exp c → c_add c <= c_exp c → c_exp c <= max_int64 →
  (∀ a, a ∈ log → a <= c_exp c) →
  (∀ e, e ∈ earlier → ms (c_exp e + window s) < ms (c_add c) ∨ ms (c_exp c) <= ms (c_exp e + window s)) →
  log_ok earlier (c_add c) lo log (sliding_key key) (rd_db r) →
  ∃ r', allow_add s key c r = (r', Ret tt) ∧
    log_ok (c :: earlier) (c_exp c) lo (c_now c :: log) (sliding_key key) (rd_db r').
Proof.
  intros Hlo Hnow Hne Hae Hmax Hlog Hquiet Hok. set (K := sliding_key key) in *.
  assert (unix_nano (c_now c) = c_now c) as Hun by (apply wrap64_id; int_solve).
  destruct (zadd_ok _ _ lo (c_now c) _ _ _ ltac:(apply f64_of_Z_gap; lia) Hok)
    as (d1 & n & z & dl & Hs1 & Hl1 & Hdl & Hz).
  destruct (rd_ok (c_add c) _ r _ _ Hs1) as (r1 & Hx1 & Hd1); [done|]. rewrite <- (Hd1 K) in Hl1.
  assert (live (c_exp c) K (rd_db r1) = Some (Entry (RZSet z) dl)) as Hl2.
  { rewrite (live_later (c_add c)), Hl1 by done. apply live_not_expired in Hl1. unfold expired in *.
    simpl in *. destruct dl as [x|]; [|done]. destruct Hdl as (e & He & ->). bool_to_prop.
    specialize (Hquiet e He). by rewrite (proj2 (Z.ltb_ge _ _)) by lia. }
  assert (redis_sem (EXPIRE K (window s)) (c_exp c) (rd_db r1) =
    Some (<[K := Entry (RZSet z) (Some (ms (c_exp c + window s)))]> (rd_db r1), RInt 1)) as Hs2.
  { simpl. by rewrite sw_deadline, Hl2. }
  destruct (rd_ok (c_exp c) _ r1 _ _ Hs2) as (r2 & Hx2 & Hd2); [done|].
  exists r2. unfold allow_add, ZAdd, Expire. rewrite Hun. comp_unfold. fold K. rewrite Hx1, Hx2.
  split; [done|]. apply (log_ok_eq _ _ _ _ _ _ _ Hd2). exists z. split.
  - right. eexists. rewrite live_insert, decide_True by done. pose proof sw_window_pos.
    assert (ms (c_exp c) <= ms (c_exp c + window s)) by (apply ms_mono; lia).
    unfold expired. simpl. rewrite (proj2 (Z.ltb_ge _ _)) by done. split; [done|]. simpl. split; [|set_solver].
    intros a Ha. apply ms_mono. assert (a <= c_exp c); [set_solver|lia].
  - destruct Hz as [Hin Hall]. split; [done|]. intros a Ha Hsc HT. apply Hall; [done..|lia].
Qed.

Lemma windowStart_eq (now : time) :
  window s <= now → now <= max_int64 → unix_nano (windowStart s now) = now - window s.
Proof.
  intros Hlo Hhi. pose proof sw_window_pos. unfold windowStart, unix_nano.
  rewrite (wrap64_id (- window s)) by int_solve. apply wrap64_id. int_solve.
Qed.

Lemma count_ok (earlier : list clock) (T lo : time) (log : list time) (key : string) (c : clock) (r : R) :
  T <= c_rem c → lo <= c_now c - window s → window s <= c_now c → c_now c <= c_card c → c_rem c <= c_card c →
  c_card c <= max_int64 → NoDup log → (∀ a, a ∈ log → 0 <= a <= max_int64) →
  log_ok earlier T lo log (sliding_key key) (rd_db r) →
  ∃ r' n, allow_count s key c r = (r', Ret (Z.of_nat n, None)) ∧
    log_ok earlier (c_card c) (c_now c - window s) log (sliding_key key) (rd_db r') ∧
    (n <= recent (c_now c - window s) log)%nat ∧ (recent (c_card c - window s + 2048) log <= n)%nat.
Proof.
  intros HT Hlo Hwin Hnc Hrc Hmax Hnd Hlog Hok. apply (log_ok_later _ _ _ _ _ _ _ HT) in Hok.
  destruct (trim_ok _ _ _ (c_now c - window s) _ _ _ Hlo ltac:(naive_solver) Hok) as (d1 & n1 & Hs1 & Hok1).
  destruct (rd_ok (c_rem c) _ r _ _ Hs1) as (r1 & Hx1 & Hd1); [done|].
  apply (log_ok_eq _ _ _ _ _ _ _ Hd1), (log_ok_later _ _ _ _ _ _ _ Hrc) in Hok1.
  destruct (card_ok earlier (c_card c) (c_now c - window s) log _ _ ltac:(lia) ltac:(lia) Hnd ltac:(naive_solver) Hok1) as (n & Hs2 & Hle & Hge).
  destruct (rd_ok (c_card c) _ r1 _ _ Hs2) as (r2 & Hx2 & Hd2); [done|].
  exists r2, n. split_and!; [|by apply (log_ok_eq _ _ _ _ _ _ _ Hd2)|done..].
  unfold allow_count. rewrite windowStart_eq by lia. cbn [Pipeline_Exec]. comp_unfold. by rewrite Hx1, Hx2.
Qed.

Lemma sw_calls_conform (key : string) (cs : list clock) (earlier : list clock) (T lo : time) (log : list time) (r : R) :
  0 <= T <= max_int64 → lo <= T - window s → NoDup log → (∀ a, a ∈ log → 0 <= a <= T) →
  log_ok earlier T lo log (sliding_key key) (rd_db r) → in_order s T cs → unbroken s earlier cs →
  conforms s log cs (sw_calls s key cs r).2.
Proof.
  revert earlier T lo log r.
  induction cs as [|c cs IH]; intros earlier T lo log r HT Hlo Hnd Hlog Hok Hord Hunb; [done|].
  destruct Hord as (Hn0 & Hwin & Hn1 & Hn2 & Hn3 & Hn4 & Hmax & Hord), Hunb as [Hquiet Hunb].
  pose proof sw_window_pos as Hw.
  assert (second <= window s) as Hsec by (rewrite window_W; unfold second; lia). unfold second in Hsec.
  destruct (count_ok earlier T lo log key c r) as (r1 & n & HA & Hok1 & Hle & Hge);
    [lia..|done|intros a Ha; specialize (Hlog a Ha); lia|done|].
  assert (Hlog' : ∀ a, a ∈ log → 0 <= a <= c_exp c) by (intros a Ha; specialize (Hlog a Ha); lia).
  cbn [sw_calls]. unfold Allow. rewrite (comp_bind_step _ _ _ _ _ HA).
  destruct (Z.ltb_spec (Z.of_nat n) (limit s)) as [Hlt|Hlt].
  - apply (log_ok_later _ _ _ _ _ _ _ Hn3) in Hok1.
    destruct (add_ok earlier c (c_now c - window s) log key r1) as (r2 & HB & Hok2);
      [lia..|naive_solver|done|done|].
    rewrite (comp_bind_step _ _ _ _ _ HB). unfold mret, comp_ret.
    specialize (IH (c :: earlier) (c_exp c) (c_now c - window s) (c_now c :: log) r2).
    destruct (sw_calls s key cs r2) as [r3 bs]. cbn [snd conforms] in *. split; [lia|].
    apply IH; [lia..| |set_solver by lia|done|done|done].
    constructor; [|done]. intros Ha. specialize (Hlog _ Ha). lia.
  - unfold mret, comp_ret.
    specialize (IH (c :: earlier) (c_exp c) (c_now c - window s) log r1).
    destruct (sw_calls s key cs r1) as [r3 bs]. cbn [snd conforms] in *. split; [lia|].
    apply IH; [lia..|done|done| |done|done].
    apply (log_ok_later _ (c_card c)); [lia|]. eapply log_ok_more; [|done]. set_solver.
Qed.
End sequential.

(** ** Overlapping calls *)

Section overlapping.
Context {R : Type} `{RedisReliable R}.

(** The first parts of several calls, before the second part of any of them. *)
Fixpoint sw_counts (s : SlidingWindowLimiter) (key : string) (cs : list clock) (r : R)
    : R * list (go (Z * option redis_error)) :=
  match cs with
  | [] => (r, [])
  | c :: cs =>
      let '(r, n) := allow_count s key c r in
      let '(r, ns) := sw_counts s key cs r in (r, n :: ns)
  end.

(** The decision [Allow] takes on what its first part returns. *)
Definition admits (s : SlidingWindowLimiter) (o : go (Z * option redis_error)) : bool :=
  match o with
  | Ret (count, None) => count <? limit s
  | _ => false
  end.

Fixpoint counts_in_order (T : time) (cs : list clock) : Prop :=
  match cs with
  | [] => True
  | c :: cs => T <= c_rem c ∧ c_rem c <= c_card c ∧ counts_in_order (c_card c) cs
  end.

Lemma allow_count_absent (s : SlidingWindowLimiter) (key : string) (c : clock) (r : R) :
  c_rem c <= c_card c → live (c_rem c) (sliding_key key) (rd_db r) = None →
  ∃ r', allow_count s key c r = (r', Ret (0, None)) ∧
    live (c_card c) (sliding_key key) (rd_db r') = None.
Proof.
  intros Hle Hl. set (K := sliding_key key) in *.
  set (ws := unix_nano (windowStart s (c_now c))).
  assert (redis_sem (ZREMRANGEBYSCORE K "0" (pretty ws)) (c_rem c) (rd_db r) = Some (rd_db r, RInt 0)) as Hs1.
  { cbn [redis_sem]. by rewrite score_bound_pretty, (score_bound_pretty 0 : score_bound "0" = _), Hl. }
  destruct (rd_ok (c_rem c) _ r _ _ Hs1) as (r1 & Hx1 & Hd1); [done|].
  assert (live (c_card c) K (rd_db r1) = None) as Hl1.
  { rewrite (live_later (c_rem c)) by done. by rewrite (Hd1 K), Hl. }
  assert (redis_sem (ZCARD K) (c_card c) (rd_db r1) = Some (rd_db r1, RInt 0)) as Hs2 by (simpl; by rewrite Hl1).
  destruct (rd_ok (c_card c) _ r1 _ _ Hs2) as (r2 & Hx2 & Hd2); [done|].
  exists r2. split; [|by rewrite (Hd2 K)].
  unfold allow_count. fold K ws. cbn [Pipeline_Exec]. comp_unfold. by rewrite Hx1, Hx2.
Qed.
End overlapping.

(** ** Properties *)

Section properties.
Context {R : Type} `{RedisReliable R}.

(** C10: On a Redis server that answers, calls that do not overlap, and none of
    which adds its entry while the time to live of the set runs out ([unbroken]),
    obey the limit over every window of whole seconds that slides with the clock:
    each call is decided on exactly the calls admitted in the last window, up to
    the rounding of the scores, and none fails.  [sliding_window_forgets] shows
    what happens otherwise. *)
Theorem sliding_window_conforms (s : SlidingWindowLimiter) (W : Z) (key : string) (T : time)
    (cs : list clock) (r : R)
    (HW : 0 < W <= 9223372036) (Hwindow : window s = W * second) (HT : 0 <= T <= max_int64)
    (Hord : in_order s T cs) (Hunbroken : unbroken s [] cs)
    (Hfresh : live T (sliding_key key) (rd_db r) = None) :
  conforms s [] cs (sw_calls s key cs r).2.
Proof.
  eapply (sw_calls_conform s W HW Hwindow key cs [] T (T - window s)); [done|lia|constructor|set_solver| |done|done].
  exists ∅. split; [by left|]. split; [done|set_solver].
Qed.

(** Calls that overlap do not: however small the limit, all calls that
    count before the first of them adds its entry are admitted. *)
Theorem sliding_window_race (s : SlidingWindowLimiter) (key : string) (T : time) (cs : list clock) (r : R)
    (Hlimit : 0 < limit s) (Hord : counts_in_order T cs)
    (Hfresh : live T (sliding_key key) (rd_db r) = None) :
  admits s <$> (sw_counts s key cs r).2 = replicate (length cs) true.
Proof.
  revert T r Hord Hfresh. induction cs as [|c cs IH]; intros T r Hord Hl; [done|].
  destruct Hord as (Hn1 & Hn2 & Hord).
  destruct (allow_count_absent s key c r) as (r1 & HA & Hl1); [done|by rewrite (live_later T), Hl|].
  simpl. rewrite HA. specialize (IH (c_card c) r1 Hord Hl1). destruct (sw_counts s key cs r1) as [r2 ns].
  simpl in *. f_equal; [by apply Z.ltb_lt|exact IH].
Qed.

(** [Reset] gives the instant at which the oldest entry leaves the window,
    and the present if there is no entry. *)
Theorem sliding_reset_oldest (s : SlidingWindowLimiter) (key : string) (t now : time) (z : gmap string Z)
    (dl : option Z) (r : R)
    (Hset : (live t (sliding_key key) (rd_db r) = None ∧ z = ∅) ∨
            live t (sliding_key key) (rd_db r) = Some (Entry (RZSet z) dl))
    (Hz : ∀ m sc, z !! m = Some sc → ∃ a, in_int64 a ∧ m = pretty a ∧ sc = f64_of_Z a) :
  ∃ u, (Reset s key t now r).2 = Ret (u, None) ∧
    if decide (z = ∅) then u = now
    else ∃ a, u = a + window s ∧ z !! pretty a = Some (f64_of_Z a) ∧
         ∀ m sc, z !! m = Some sc → f64_of_Z a <= sc.
Proof.
  assert (redis_sem (ZRANGE (sliding_key key) 0 0) t (rd_db r) =
    Some (rd_db r, RList (take 1 (zset_list z)))) as Hs by (simpl; by destruct Hset as [[-> ->]| ->]).
  destruct (rd_ok t _ r _ _ Hs) as (r1 & Hx & _); [done|].
  unfold Reset, ZRange. comp_unfold. rewrite Hx. simpl.
  destruct (zset_list z) as [|m l] eqn:Hl; simpl; eexists; (split; [done|]).
  - by rewrite decide_True by by apply zset_list_nil.
  - destruct (zset_list_head z m l Hl) as (sc & Hm & Hleast).
    rewrite decide_False by (intros ->; done).
    destruct (Hz m sc Hm) as (a & Ha & -> & ->). exists a. by rewrite Sscanf_d_pretty.
Qed.
End properties.

(** ** Witnesses *)

Definition at_once (t : time) : clock :=
  {| c_now := t; c_rem := t; c_card := t; c_add := t; c_exp := t |}.

Definition two_a_second : SlidingWindowLimiter := NewSlidingWindowLimiter 2 second.

Definition four_calls : list clock := at_once <$> [2 * second; 2 * second + 5; 2 * second + 9; 4 * second].

(** The third call adds its entry just before the set expires. *)
Definition late_expire : list clock :=
  [at_once (1 * second); at_once (1500 * millisecond);
   {| c_now := 2499 * millisecond; c_rem := 2499 * millisecond; c_card := 2499 * millisecond;
      c_add := 2499 * millisecond; c_exp := 2502 * millisecond |};
   at_once (2503 * millisecond); at_once (2504 * millisecond)].

(** An entry can be lost: when the set's old time to live runs out between
    the two commands that add an entry and renew it, the entry goes with the
    set, and here three calls are admitted within 5 ms under a limit of two in
    a second. *)
Example sliding_window_forgets :
  (sw_calls (R := RefRedis) two_a_second "a" late_expire ∅).2 =
    [Ret (true, None); Ret (true, None); Ret (true, None); Ret (true, None); Ret (true, None)].
Proof. vm_compute. reflexivity. Qed.

Lemma sliding_window_conforms_witness :
  (sw_calls (R := RefRedis) two_a_second "a" four_calls ∅).2 =
    [Ret (true, None); Ret (true, None); Ret (false, None); Ret (true, None)] ∧
  conforms two_a_second [] four_calls (sw_calls (R := RefRedis) two_a_second "a" four_calls ∅).2.
Proof.
  split; [vm_compute; reflexivity|].
  apply (sliding_window_conforms (R := RefRedis) two_a_second 1 "a" 0);
    [lia|reflexivity|vm_compute; split; discriminate| | |reflexivity].
  { simpl. unfold max_int64, second. lia. }
  simpl. split_and!; try done; intros e He;
    repeat (apply elem_of_cons in He as [->|He];
      [first [left; vm_compute; reflexivity|right; vm_compute; discriminate]|]); by apply elem_of_nil in He.
Defined.

Lemma sliding_window_race_witness :
  admits two_a_second <$> (sw_counts (R := RefRedis) two_a_second "a" four_calls ∅).2 =
    [true; true; true; true].
Proof.
  apply (sliding_window_race (R := RefRedis) two_a_second "a" 0 four_calls ∅);
    [reflexivity| |reflexivity]. simpl. unfold second. lia.
Defined.

Definition one_entry : RefRedis :=
  {[sliding_key "a" := Entry (RZSet {[pretty (7 * second) := f64_of_Z (7 * second)]}) None]}.

Lemma sliding_reset_oldest_witness :
  ∃ u, (Reset two_a_second "a" (8 * second) (8 * second) one_entry).2 = Ret (u, None) ∧
    ∃ a, u = a + second ∧ ({[pretty (7 * second) := f64_of_Z (7 * second)]} : gmap string Z) !! pretty a = Some (f64_of_Z a) ∧
      ∀ m sc, ({[pretty (7 * second) := f64_of_Z (7 * second)]} : gmap string Z) !! m = Some sc → f64_of_Z a <= sc.
Proof.
  destruct (sliding_reset_oldest two_a_second "a" (8 * second) (8 * second)
    {[pretty (7 * second) := f64_of_Z (7 * second)]} None one_entry) as (u & Hu & Hz).
  - right. reflexivity.
  - intros m sc [<- <-]%lookup_singleton_Some. exists (7 * second). split; [|done].
    unfold in_int64, min_int64, max_int64, second. lia.
  - exists u. split; [exact Hu|]. exact Hz.
Defined.
