(* ===== verification/TokenBucket.v ===== *)
(** * The token bucket limiter

    Models [src/internal/ratelimit/token_bucket.go].  The bucket of a client is
    one JSON text in Redis.  [Allow] reads it, computes the new bucket and
    writes it back; [allow_read] and [allow_write] are the parts between which
    other gateways may run.  Tokens are float64 ([Float64]); the text is the
    one that [encoding/json] writes, the time in it in the zone of the machine. *)

From S2P Require Import Prelude Strconv Rfc3339 Float64 Json Decimal Decode Redis.

Record TokenBucket := { capacity : Z; refillRate : Z; refillEvery : duration }.

Record bucketState := { Tokens : Z; LastRefill : time }.

Definition NewTokenBucket (cap rate : Z) : TokenBucket :=
  {| capacity := cap; refillRate := rate; refillEvery := second |}.

Definition bucket_key (key : string) : string := "ratelimit:bucket:" +:+ key.

(** [json.Marshal(state)]; its error is ignored, and the text is empty then. *)
Definition marshal `{LocalZone} (state : bucketState) : string :=
  match marshal_time (local_offset (LastRefill state)) (LastRefill state) with
  | Some s =>
      if Z.abs (Tokens state) <? 2 ^ 1024 * f64_scale then
        text_of (VObj [(word "tokens", VNum (format_float (Tokens state)));
                       (word "last_refill", VStr (bytes_of s))])
      else ""
  | None => ""
  end.

(** The fields of a [bucketState], as a text gives them. *)
Definition bucket_decoder : decoder bucketState := struct [
  ("tokens", at_field Tokens (λ x state, {| Tokens := x; LastRefill := LastRefill state |}) d_float);
  ("last_refill", at_field LastRefill (λ t state, {| Tokens := Tokens state; LastRefill := t |}) d_time)].

(** [json.Unmarshal([]byte(data), &state)] on a zero state, its error ignored. *)
Definition unmarshal (data : string) : bucketState :=
  (Unmarshal bucket_decoder data {| Tokens := 0; LastRefill := zero_time |}).1.

(** The clock readings of one [Allow]: the server's at [GET], its own two, and
    the server's at [SET]. *)
Record clock := { c_get : time; c_init : time; c_now : time; c_set : time }.

Section limiter.
Context {R : Type} `{Redis R} `{LocalZone}.

(** The refilled tokens of a bucket. *)
Definition refill (t : TokenBucket) (state : bucketState) (now : time) : Z :=
  let elapsed := time_sub now (LastRefill state) in
  let tokensToAdd := f64_mul (Seconds elapsed) (f64_of_Z (refillRate t)) in
  f64_min (f64_add (Tokens state) tokensToAdd) (f64_of_Z (capacity t)).

(** The decision on a bucket, and the bucket to save. *)
Definition consume (t : TokenBucket) (state : bucketState) (now : time) : bool * bucketState :=
  let tokens := refill t state now in
  if f64_of_Z 1 <=? tokens
  then (true, {| Tokens := f64_sub tokens (f64_of_Z 1); LastRefill := now |})
  else (false, {| Tokens := tokens; LastRefill := now |}).

(** [Allow] up to the decision. *)
Definition allow_read (t : TokenBucket) (key : string) (c : clock)
    : Comp R (bool * bucketState + redis_error) :=
  '(data, err) ← Get (c_get c) (bucket_key key);
  match err with
  | Some Nil =>
      mret (inl (consume t {| Tokens := f64_of_Z (capacity t); LastRefill := c_init c |} (c_now c)))
  | Some e => mret (inr e)
  | None => mret (inl (consume t (unmarshal data) (c_now c)))
  end.

(** [Allow] from the decision on. *)
Definition allow_write (key : string) (state : bucketState) (c : clock) : Comp R unit :=
  Set_ (c_set c) (bucket_key key) (marshal state) hour;; mret tt.

Definition Allow (t : TokenBucket) (key : string) (c : clock) : Comp R (bool * option redis_error) :=
  o ← allow_read t key c;
  match o with
  | inr e => mret (false, Some e)
  | inl (b, state) => allow_write key state c;; mret (b, None)
  end.

Definition Remaining (t : TokenBucket) (key : string) (tget now : time)
    : Comp R (Z * option redis_error) :=
  '(data, err) ← Get tget (bucket_key key);
  match err with
  | Some Nil => mret (capacity t, None)
  | Some e => mret (0, Some e)
  | None => mret (f64_to_Z (refill t (unmarshal data) now), None)
  end.

Definition Limit (t : TokenBucket) : Z := capacity t.

(** The time to refill an empty bucket, in whole seconds. *)
Definition Window (t : TokenBucket) : Comp R duration :=
  n ← int_div (capacity t) (refillRate t);
  mret (wrap64 (n * second)).

(** [Reset]; the refill rate is not zero ([NewLimiter] sees to that). *)
Definition Reset (t : TokenBucket) (key : string) (tget now : time)
    : Comp R (time * option redis_error) :=
  '(data, err) ← Get tget (bucket_key key);
  match err with
  | Some Nil => mret (now, None)
  | Some e => mret (zero_time, Some e)
  | None =>
      let tokensNeeded := f64_sub (f64_of_Z (capacity t)) (Tokens (unmarshal data)) in
      let secondsToFull := f64_div tokensNeeded (f64_of_Z (refillRate t)) in
      mret (now + wrap64 (f64_to_Z secondsToFull * second), None)
  end.
End limiter.

(** ** The text of a bucket *)

(** A bucket is read back as it was written. *)
Lemma bucket_roundtrip `{LocalZone} (st : bucketState) :
  f64 (Tokens st) → Z.abs (Tokens st) < 2 ^ 1024 * f64_scale → 0 <= LastRefill st <= max_int64 →
  unmarshal (marshal st) = st.
Proof.
  intros Hf Hx HL. destruct (parse_format_float (Tokens st) Hf Hx) as [Hnum Hval].
  destruct (marshal_time_ok (LastRefill st)) as (s & t & Hs & Hp & Ht).
  { unfold printable, zero_time, second, max_int64 in *. lia. }
  rewrite Ht in Hp by lia. unfold marshal. rewrite Hs, (proj2 (Z.ltb_lt _ _) Hx). unfold unmarshal. rewrite Unmarshal_text; [|..].
  - unfold bucket_decoder. cbn [struct]. decode_member. unfold d_float. rewrite Hval.
    decode_member. rewrite (d_time_text _ _ _ Hp). by destruct st.
  - wf_struct; [by constructor|by eapply wf_time].
  - done.
Qed.

(** ** Refilling *)

Section bucket.
Context (t : TokenBucket).
Hypothesis cap_range : 1 <= capacity t <= 2 ^ 53.
Hypothesis rate_range : 1 <= refillRate t <= 2 ^ 53.

Definition full : Z := capacity t * f64_scale.

(** A bucket as [Allow] writes it: a float between nothing and the capacity. *)
Definition bucket_ok (st : bucketState) : Prop := f64 (Tokens st) ∧ 0 <= Tokens st <= full.

Lemma capacity_full : f64_of_Z (capacity t) = full.
Proof. apply f64_of_Z_exact. lia. Qed.

Lemma full_ok (L : time) : bucket_ok {| Tokens := f64_of_Z (capacity t); LastRefill := L |}.
Proof.
  split; [apply f64_of_Z_f64|]. simpl. rewrite capacity_full. unfold full.
  pose proof f64_scale_pos. nia.
Qed.

Lemma bucket_finite (st : bucketState) : bucket_ok st → Z.abs (Tokens st) < 2 ^ 1024 * f64_scale.
Proof.
  intros [_ Htk]. unfold full in Htk. pose proof f64_scale_pos as Hs.
  rewrite Z.abs_eq by lia. apply (Z.le_lt_trans _ (2 ^ 53 * f64_scale)).
  - apply (Z.le_trans _ _ _ (proj2 Htk)), Z.mul_le_mono_nonneg_r; lia.
  - apply Z.mul_lt_mono_pos_r; [lia|]. by apply Z.pow_lt_mono_r.
Qed.

Lemma f64_min_f64 (a b : Z) : f64 a → f64 b → f64 (f64_min a b).
Proof. intros Ha Hb. unfold f64_min. destruct (Z.min_spec a b) as [[_ ->]|[_ ->]]; done. Qed.

Definition added (elapsed : duration) : Z := f64_mul (Seconds elapsed) (f64_of_Z (refillRate t)).

Lemma added_nonneg (e : duration) : 0 <= e → 0 <= added e.
Proof. intros He. apply f64_mul_nonneg; [by apply Seconds_nonneg|apply f64_of_Z_nonneg; lia]. Qed.

Lemma refill_added (st : bucketState) (now : time) :
  refill t st now = f64_min (f64_add (Tokens st) (added (time_sub now (LastRefill st)))) full.
Proof. unfold refill, added. by rewrite capacity_full. Qed.

Lemma refill_ok (st : bucketState) (now : time) :
  bucket_ok st → LastRefill st <= now → f64 (refill t st now) ∧ 0 <= refill t st now <= full.
Proof.
  intros [Hf Hr] Hle. split.
  - apply f64_min_f64; [by apply f64_of_round|apply f64_of_Z_f64].
  - rewrite refill_added. unfold f64_min.
    pose proof (added_nonneg (time_sub now (LastRefill st)) ltac:(unfold time_sub, min_int64, max_int64; lia)) as Ha.
    pose proof (f64_add_nonneg (Tokens st) _ ltac:(lia) Ha). lia.
Qed.

Lemma consume_ok (st : bucketState) (now : time) :
  bucket_ok st → LastRefill st <= now →
  let '(b, st') := consume t st now in
  bucket_ok st' ∧ LastRefill st' = now ∧
  (b = true ↔ f64_scale <= refill t st now) ∧
  Tokens st' + (if b then f64_scale else 0) = refill t st now.
Proof.
  intros Hst Hle. destruct (refill_ok st now Hst Hle) as [Hf Hr]. unfold consume.
  pose proof (f64_sub_1 (refill t st now) Hf) as Hsub.
  assert (f64_of_Z 1 = f64_scale) as E1 by (rewrite f64_of_Z_exact; lia). rewrite E1 in *.
  pose proof f64_scale_pos. assert (full <= 2 ^ 53 * f64_scale) by (unfold full; nia).
  destruct (Z.leb_spec f64_scale (refill t st now)) as [Hge|Hlt]; simpl.
  - specialize (Hsub ltac:(lia)). split_and!; [|done|by split|lia].
    split; simpl; [by apply f64_of_round|lia].
  - split_and!; [by split|done| |lia]. split; [done|lia].
Qed.

(** What a refill adds, against the exact rate: a part in [2^50] for the
    seconds, and a part in [2^51] of the capacity for the sum. *)
Lemma refill_upper (st : bucketState) (now : time) :
  bucket_ok st → 0 <= LastRefill st <= now → now <= max_int64 →
  2 ^ 51 * second * (refill t st now - Tokens st)
    <= (2 ^ 51 + 2) * ((now - LastRefill st) * refillRate t * f64_scale) + second * full.
Proof.
  intros [_ Htk] HL Hnow. pose proof f64_scale_pos. pose proof f64_scale_big.
  rewrite refill_added, time_sub_exact by int_solve. unfold f64_min. set (e := now - LastRefill st).
  pose proof (added_nonneg e ltac:(lia)) as Ha0.
  pose proof (Seconds_rate_upper e (refillRate t) ltac:(lia) ltac:(lia)
    : 2 ^ 50 * (added e * second) <= _) as Ha.
  set (a := added e) in *. set (Q := e * refillRate t * f64_scale) in *.
  assert (f64_scale <= full) by (unfold full; nia). unfold second in *.
  destruct (decide (Tokens st + a <= 2 * full)) as [Hle|Hgt]; [|lia].
  pose proof (f64_round_upper (Tokens st + a) 1 ltac:(lia) ltac:(lia)) as Hu.
  unfold f64_add. set (x := f64_round _ _) in *. lia.
Qed.

(** After a second the bucket has a token. *)
Lemma refill_second (st : bucketState) (now : time) :
  bucket_ok st → LastRefill st + second <= now → f64_scale <= refill t st now.
Proof.
  intros [Hf Htk] HL. pose proof f64_scale_pos.
  rewrite refill_added. unfold f64_min. set (e := time_sub now (LastRefill st)).
  assert (second <= e <= max_int64) as He by (unfold e, time_sub, second, min_int64, max_int64 in *; lia).
  pose proof (Seconds_ge_1 e He) as Hs.
  assert (f64 f64_scale) as H1 by (rewrite <- (Z.mul_1_l f64_scale); apply f64_int; lia).
  assert (f64_scale <= added e) as Ha.
  { unfold added. rewrite f64_of_Z_exact by lia. apply f64_round_ge; [done..|].
    rewrite Z.mul_assoc. apply Z.mul_le_mono_nonneg_r; [lia|]. clear -Hs rate_range H. nia. }
  assert (f64_scale <= f64_add (Tokens st) (added e)) by (apply f64_round_ge; [lia|done|lia]).
  assert (f64_scale <= full) by (unfold full; nia). lia.
Qed.

(** A token is not lost by waiting. *)
Lemma refill_keeps (st : bucketState) (now : time) :
  bucket_ok st → LastRefill st <= now → f64_scale <= Tokens st → f64_scale <= refill t st now.
Proof.
  intros [Hf Htk] HL Hge. rewrite refill_added. unfold f64_min.
  pose proof (added_nonneg (time_sub now (LastRefill st)) ltac:(unfold time_sub, min_int64, max_int64; lia)) as Ha.
  assert (f64_scale <= f64_add (Tokens st) (added (time_sub now (LastRefill st)))); [|lia].
  apply f64_round_ge; [lia| |lia]. rewrite <- (Z.mul_1_l f64_scale). apply f64_int. lia.
Qed.

(** At one instant nothing is added. *)
Lemma refill_now (st : bucketState) : bucket_ok st → refill t st (LastRefill st) = Tokens st.
Proof.
  intros [Hf Htk]. rewrite refill_added, time_sub_exact by int_solve. unfold f64_min, added.
  rewrite Z.sub_diag, Seconds_0, f64_mul_0_l, f64_add_0_r by done. lia.
Qed.
End bucket.

(** ** Calls one after the other *)

Fixpoint in_order (T : time) (cs : list clock) : Prop :=
  match cs with
  | [] => True
  | c :: cs =>
      T <= c_get c ∧ c_get c <= c_init c ∧ c_init c <= c_now c ∧ c_now c <= c_set c ∧
      c_set c <= max_int64 ∧ in_order (c_set c) cs
  end.

Definition last_now (T : time) (cs : list clock) : time := default T (c_now <$> last cs).

Definition admitted (bs : list (go (bool * option redis_error))) : nat :=
  length (filter (λ b, b = Ret (true, None)) bs).

(** Calls a second apart, the first at least one after [L]. *)
Fixpoint spaced (L : time) (cs : list clock) : Prop :=
  match cs with
  | [] => True
  | c :: cs => L + second <= c_now c ∧ spaced (c_now c) cs
  end.

Definition spaced_from (cs : list clock) : Prop :=
  match cs with
  | [] => True
  | c :: cs => spaced (c_now c) cs
  end.

(** The decisions of calls once the bucket is empty. *)
Lemma refused_from (cap : Z) (j n : nat) :
  cap <= Z.of_nat j →
  (λ i : nat, Ret (Z.of_nat i <? cap, @None redis_error)) <$> seq j n =
  (λ i : nat, Ret (Z.of_nat i <? cap, None)) <$> seq (S j) n.
Proof.
  intros Hj. rewrite <- fmap_S_seq, <- list_fmap_compose. apply list_fmap_ext.
  intros i k [-> _]%lookup_seq. simpl. rewrite !(proj2 (Z.ltb_ge _ _)) by lia. done.
Qed.

Section calls.
Context {R : Type} `{RedisReliable R} `{LocalZone} (t : TokenBucket).
Hypothesis cap_range : 1 <= capacity t <= 2 ^ 53.
Hypothesis rate_range : 1 <= refillRate t <= 2 ^ 53.

Fixpoint tb_calls (key : string) (cs : list clock) (r : R) : R * list (go (bool * option redis_error)) :=
  match cs with
  | [] => (r, [])
  | c :: cs =>
      let '(r, b) := Allow t key c r in
      let '(r, bs) := tb_calls key cs r in (r, b :: bs)
  end.

(** The bucket in Redis at time [T] is [st], or has expired, or is as good as
    full because it was never used. *)
Definition bucket_at (T : time) (d : gmap string entry) (K : string) (st : bucketState) : Prop :=
  bucket_ok t st ∧ 0 <= LastRefill st <= T ∧
  ((∃ dl, live T K d = Some (Entry (RString (marshal st)) (Some dl)) ∧ ms (LastRefill st + hour) <= dl) ∨
   (live T K d = None ∧ (LastRefill st + hour < T ∨ Tokens st = full t))).

Lemma bucket_at_later (T U : time) (d : gmap string entry) (K : string) (st : bucketState) :
  T <= U → bucket_at T d K st → bucket_at U d K st.
Proof.
  intros HTU (Hok & HL & Hd). split_and!; [done|lia..|].
  destruct Hd as [(dl & Hl & Hdl)|[Hl Hwhy]].
  - destruct (expired U (Entry (RString (marshal st)) (Some dl))) eqn:Hx.
    + right. rewrite (live_later T U), Hl, Hx by done. split; [done|]. left.
      unfold expired in Hx. simpl in Hx. bool_to_prop.
      destruct (decide (LastRefill st + hour < U)) as [|Hge]; [done|].
      pose proof (ms_mono U (LastRefill st + hour)). lia.
    + left. exists dl. by rewrite (live_later T U), Hl, Hx.
  - right. rewrite (live_later T U), Hl by done. split; [done|]. destruct Hwhy; [left; lia|by right].
Qed.

Lemma hour_deadline (u : time) : deadline u hour = Some (ms (u + hour)).
Proof. change hour with (3600 * second). rewrite ms_add_seconds. by apply deadline_seconds. Qed.

Lemma allow_write_ok (key : string) (st : bucketState) (c : clock) (r : R) :
  bucket_ok t st → 0 <= LastRefill st <= c_set c →
  ∃ r', allow_write key st c r = (r', Ret tt) ∧ bucket_at (c_set c) (rd_db r') (bucket_key key) st.
Proof.
  intros Hok HL. set (K := bucket_key key). set (u := c_set c) in *.
  assert (redis_sem (SET K (marshal st) hour) u (rd_db r) =
    Some (<[K := Entry (RString (marshal st)) (Some (ms (u + hour)))]> (rd_db r), ROk)) as Hs.
  { cbn [redis_sem]. change (hour =? 0) with false. cbv iota. by rewrite hour_deadline. }
  destruct (rd_ok u _ r _ _ Hs) as (r' & Hx & Hd); [done|].
  exists r'. unfold allow_write, Set_. fold K u. comp_unfold. rewrite Hx. split; [done|].
  split_and!; [done|lia..|]. left. exists (ms (u + hour)). rewrite (Hd K), live_insert, decide_True by done.
  pose proof (ms_mono u (u + hour) ltac:(unfold hour; lia)). unfold expired. simpl.
  rewrite (proj2 (Z.ltb_ge _ _)) by done. split; [done|]. apply ms_mono. lia.
Qed.

(** The bucket a call starts from: the stored one, or a new one. *)
Definition starts_from (st st0 : bucketState) (c : clock) : Prop :=
  st0 = st ∨
  (st0 = {| Tokens := f64_of_Z (capacity t); LastRefill := c_init c |} ∧
   (LastRefill st + hour < c_get c ∨ Tokens st = full t)).

Lemma allow_read_ok (key : string) (T : time) (st : bucketState) (c : clock) (r : R) :
  T <= c_get c → c_get c <= max_int64 → bucket_at T (rd_db r) (bucket_key key) st →
  ∃ r' st0, allow_read t key c r = (r', Ret (inl (consume t st0 (c_now c)))) ∧
    bucket_ok t st0 ∧ starts_from st st0 c.
Proof.
  intros HT Hmax Hat. apply (bucket_at_later _ _ _ _ _ HT) in Hat as (Hok & HL & Hd).
  set (K := bucket_key key) in *. unfold allow_read, Get. fold K.
  destruct Hd as [(dl & Hl & _)|[Hl Hwhy]].
  - destruct (rd_ok (c_get c) (GET K) r (rd_db r) (RStr (marshal st))) as (r' & Hx & _);
      [simpl; by rewrite Hl|done|].
    exists r', st. comp_unfold. rewrite Hx. split_and!; [|done|by left].
    rewrite bucket_roundtrip; [done|apply Hok|by apply (bucket_finite t cap_range)|lia].
  - destruct (rd_ok (c_get c) (GET K) r (rd_db r) RNil) as (r' & Hx & _); [simpl; by rewrite Hl|done|].
    eexists r', _. comp_unfold. rewrite Hx. split_and!; [done|by apply full_ok|by right].
Qed.

Lemma Allow_ok (key : string) (T : time) (st : bucketState) (c : clock) (r : R) :
  T <= c_get c → c_get c <= c_init c → c_init c <= c_now c → c_now c <= c_set c → c_set c <= max_int64 →
  bucket_at T (rd_db r) (bucket_key key) st →
  ∃ r' st0, bucket_ok t st0 ∧ starts_from st st0 c ∧ 0 <= LastRefill st0 <= c_now c ∧
    Allow t key c r = (r', Ret ((consume t st0 (c_now c)).1, None)) ∧
    bucket_at (c_set c) (rd_db r') (bucket_key key) (consume t st0 (c_now c)).2.
Proof.
  intros Hn0 Hn1 Hn2 Hn3 Hmax Hat. pose proof Hat as (_ & HL & _).
  destruct (allow_read_ok key T st c r) as (r1 & st0 & HA & Hok0 & Hst0); [lia..|done|].
  assert (0 <= LastRefill st0 <= c_now c) as HL0 by (destruct Hst0 as [->|[-> _]]; simpl; lia).
  pose proof (consume_ok t cap_range rate_range st0 (c_now c) Hok0 ltac:(lia)) as Hc.
  unfold Allow. rewrite (comp_bind_step _ _ _ _ _ HA).
  destruct (consume t st0 (c_now c)) as [b st1] eqn:Hcon. destruct Hc as (Hok1 & HL1 & _).
  destruct (allow_write_ok key st1 c r1 Hok1 ltac:(lia)) as (r2 & HB & Hat2).
  exists r2, st0. rewrite (comp_bind_step _ _ _ _ _ HB), Hcon.
  split_and!; [exact Hok0|exact Hst0|lia|lia|reflexivity|exact Hat2].
Qed.

(** A call on a bucket with a token, or one that rested for a second, is admitted. *)
Lemma Allow_admits (key : string) (T : time) (st : bucketState) (c : clock) (r : R) :
  in_order T [c] → bucket_at T (rd_db r) (bucket_key key) st →
  f64_scale <= Tokens st ∨ LastRefill st + second <= c_now c →
  (Allow t key c r).2 = Ret (true, None).
Proof.
  intros (Hn0 & Hn1 & Hn2 & Hn3 & Hmax & _) Hat Hwhy.
  destruct (Allow_ok key T st c r) as (r1 & st0 & Hok0 & Hst0 & HL0 & HA & _); [done..|].
  pose proof (consume_ok t cap_range rate_range st0 (c_now c) Hok0 ltac:(lia)) as Hc.
  rewrite HA. destruct (consume t st0 (c_now c)) as [b st1]. destruct Hc as (_ & _ & Hb & _).
  simpl. rewrite (proj2 Hb); [done|]. destruct Hst0 as [->|[-> _]].
  - destruct Hwhy as [Hge|Hrest]; [apply refill_keeps|apply refill_second]; (assumption || lia).
  - apply refill_keeps; [assumption..|simpl; lia|]. simpl. rewrite capacity_full by done. unfold full.
    pose proof f64_scale_pos. nia.
Qed.

(** The bucket after a run of calls. *)
Lemma tb_calls_at (key : string) (cs : list clock) (T : time) (st : bucketState) (r : R) :
  in_order T cs → bucket_at T (rd_db r) (bucket_key key) st →
  ∃ st', bucket_at (default T (c_set <$> last cs)) (rd_db (tb_calls key cs r).1) (bucket_key key) st' ∧
    LastRefill st' = last_now (LastRefill st) cs.
Proof.
  revert T st r. induction cs as [|c cs IH]; intros T st r Hord Hat; [by exists st|].
  destruct Hord as (Hn0 & Hn1 & Hn2 & Hn3 & Hmax & Hord).
  destruct (Allow_ok key T st c r) as (r1 & st0 & Hok0 & Hst0 & HL0 & HA & Hat1); [done..|].
  pose proof (consume_ok t cap_range rate_range st0 (c_now c) Hok0 ltac:(lia)) as Hc.
  destruct (consume t st0 (c_now c)) as [b st1]. destruct Hc as (_ & HL1 & _).
  destruct (IH (c_set c) st1 r1 Hord Hat1) as (st' & Hat' & HL').
  cbn [tb_calls]. rewrite HA. destruct (tb_calls key cs r1) as [r2 bs]. exists st'.
  unfold last_now in *. rewrite last_cons, HL1 in *. by destruct (last cs).
Qed.

(** Calls a second apart are all admitted. *)
Lemma tb_calls_spaced (key : string) (cs : list clock) (T : time) (st : bucketState) (r : R) :
  in_order T cs → spaced (LastRefill st) cs ∨ (f64_scale <= Tokens st ∧ spaced_from cs) →
  bucket_at T (rd_db r) (bucket_key key) st →
  (tb_calls key cs r).2 = replicate (length cs) (Ret (true, None)).
Proof.
  revert T st r. induction cs as [|c cs IH]; intros T st r Hord Hsp Hat; [done|].
  assert (Hone : in_order T [c]) by (destruct Hord as (?&?&?&?&?&?); by split_and!).
  assert (Ha : (Allow t key c r).2 = Ret (true, None)).
  { eapply Allow_admits; [done..|]. destruct Hsp as [[Hsp _]|[Htk _]]; [by right|by left]. }
  destruct Hord as (Hn0 & Hn1 & Hn2 & Hn3 & Hmax & Hord).
  destruct (Allow_ok key T st c r) as (r1 & st0 & Hok0 & Hst0 & HL0 & HA & Hat1); [assumption..|].
  pose proof (consume_ok t cap_range rate_range st0 (c_now c) Hok0 ltac:(lia)) as Hc.
  rewrite HA in Ha. cbn [tb_calls length replicate]. rewrite HA. cbn [snd] in Ha. rewrite Ha.
  destruct (consume t st0 (c_now c)) as [b st1]. destruct Hc as (_ & HL1 & _).
  assert (Hsp1 : spaced (LastRefill st1) cs) by (rewrite HL1; by destruct Hsp as [[_ ?]|[_ ?]]).
  specialize (IH (c_set c) st1 r1 Hord (or_introl Hsp1) Hat1).
  destruct (tb_calls key cs r1) as [r2 bs]. cbn [snd] in *. by rewrite IH.
Qed.

(** Calls at one instant take whole tokens. *)
Lemma tb_burst (key : string) (T : time) (n j : nat) (r : R) :
  0 <= T <= max_int64 → Z.of_nat j <= capacity t →
  bucket_at T (rd_db r) (bucket_key key)
    {| Tokens := (capacity t - Z.of_nat j) * f64_scale; LastRefill := T |} →
  let c := {| c_get := T; c_init := T; c_now := T; c_set := T |} in
  (tb_calls key (replicate n c) r).2 =
    (λ i, Ret (Z.of_nat i <? capacity t, None)) <$> seq j n.
Proof.
  intros HT. revert j r. induction n as [|n IH]; intros j r Hj Hat c; [done|].
  set (st := {| Tokens := _; LastRefill := T |}) in Hat. pose proof f64_scale_pos as Hs.
  destruct (Allow_ok key T st c r) as (r1 & st0 & Hok0 & Hst0 & HL0 & HA & Hat1); [simpl; (done || lia)..|].
  assert (refill t st0 T = Tokens st) as Hr.
  { destruct Hst0 as [->|[-> [Hexp|Hfull]]].
    - apply (refill_now t cap_range st Hok0).
    - unfold hour in Hexp. simpl in Hexp. lia.
    - rewrite <- (refill_now t cap_range st) by apply Hat. rewrite !refill_added by done.
      by rewrite Hfull, capacity_full. }
  pose proof (consume_ok t cap_range rate_range st0 T Hok0 ltac:(apply HL0)) as Hc.
  cbn [replicate tb_calls seq]. rewrite HA. change (c_now c) with T in *.
  destruct (consume t st0 T) as [b st1] eqn:Hcon. destruct Hc as (_ & HL1 & Hb & Hsum).
  rewrite Hr in Hb, Hsum. unfold st in Hb, Hsum. cbn [Tokens] in Hb, Hsum. cbn [fst snd] in *.
  assert (b = (Z.of_nat j <? capacity t)) as ->.
  { apply eq_true_iff_eq. rewrite Hb, Z.ltb_lt. nia. }
  set (j' := if Z.of_nat j <? capacity t then S j else j).
  assert (st1 = {| Tokens := (capacity t - Z.of_nat j') * f64_scale; LastRefill := T |}) as ->.
  { destruct st1 as [tk L]. cbn [Tokens LastRefill] in *. subst L. f_equal. unfold j'.
    destruct (Z.ltb_spec (Z.of_nat j) (capacity t)); lia. }
  rewrite fmap_cons. specialize (IH j' r1 ltac:(unfold j'; case_bool; lia) Hat1). cbv zeta in IH. fold c in IH.
  destruct (tb_calls key (replicate n c) r1) as [r2 bs]. cbn [snd] in *. f_equal. rewrite IH.
  unfold j'. destruct (Z.ltb_spec (Z.of_nat j) (capacity t)); [done|].
  by apply refused_from.
Qed.

Hypothesis ttl_covers : capacity t <= 3600 * refillRate t.

(** What the bucket of a call gains on the bucket stored before it. *)
Lemma gain_upper (st st0 : bucketState) (c : clock) :
  bucket_ok t st → bucket_ok t st0 → starts_from st st0 c → 0 <= LastRefill st → LastRefill st <= c_get c →
  c_get c <= c_init c → c_init c <= c_now c → c_now c <= max_int64 →
  2 ^ 51 * second * (refill t st0 (c_now c) - Tokens st)
    <= (2 ^ 51 + 2) * ((c_now c - LastRefill st) * refillRate t * f64_scale) + second * full t.
Proof.
  intros Hst Hst0 [->|[-> Hwhy]] HL0 HL Hn1 Hn2 Hmax; [apply refill_upper; (done || lia)|].
  destruct (refill_ok t cap_range rate_range _ (c_now c) Hst0 ltac:(simpl; lia)) as [_ [_ Hr]].
  set (x := refill _ _ _) in *. pose proof f64_scale_pos. destruct Hst as [_ Htk].
  assert (0 <= (c_now c - LastRefill st) * refillRate t * f64_scale)
    by (apply Z.mul_nonneg_nonneg; [apply Z.mul_nonneg_nonneg|]; lia).
  destruct Hwhy as [Hexp|Hfull]; [|unfold second; lia].
  assert (second * full t <= (c_now c - LastRefill st) * refillRate t * f64_scale); [|unfold second in *; lia].
  unfold full. rewrite Z.mul_assoc. apply Z.mul_le_mono_nonneg_r; [lia|].
  unfold second, hour in *. nia.
Qed.

(** The calls admitted and the tokens left cost what the bucket held and gained. *)
Lemma tb_calls_bound (key : string) (cs : list clock) (T : time) (st : bucketState) (r : R) :
  in_order T cs → bucket_at T (rd_db r) (bucket_key key) st →
  2 ^ 51 * second * (Z.of_nat (admitted (tb_calls key cs r).2) * f64_scale)
    <= 2 ^ 51 * second * Tokens st
       + (2 ^ 51 + 2) * ((last_now (LastRefill st) cs - LastRefill st) * refillRate t * f64_scale)
       + Z.of_nat (length cs) * (second * full t).
Proof.
  revert T st r. induction cs as [|c cs IH]; intros T st r Hord Hat.
  { change (admitted _) with 0%nat. change (last_now (LastRefill st) []) with (LastRefill st).
    rewrite Z.sub_diag. destruct Hat as ([_ Htk] & _). unfold second. cbn [length]. lia. }
  destruct Hord as (Hn0 & Hn1 & Hn2 & Hn3 & Hmax & Hord). pose proof Hat as (Hst & HL & _).
  destruct (Allow_ok key T st c r) as (r1 & st0 & Hok0 & Hst0 & HL0 & HA & Hat1); [done..|].
  pose proof (gain_upper st st0 c Hst Hok0 Hst0 ltac:(lia) ltac:(lia) Hn1 Hn2 ltac:(lia)) as Hgain.
  pose proof (consume_ok t cap_range rate_range st0 (c_now c) Hok0 ltac:(lia)) as Hc.
  cbn [tb_calls]. rewrite HA. specialize (IH (c_set c) _ r1 Hord Hat1).
  destruct (tb_calls key cs r1) as [r2 bs]. destruct (consume t st0 (c_now c)) as [b st1].
  destruct Hc as (_ & HL1 & _ & Hsum). simpl in IH. cbn [snd fst].
  assert (admitted (Ret (b, None) :: bs) = (if b then 1 else 0) + admitted bs)%nat as ->.
  { unfold admitted. rewrite filter_cons. by destruct b; case_decide. }
  assert (last_now (LastRefill st) (c :: cs) = last_now (LastRefill st1) cs) as ->.
  { unfold last_now. rewrite last_cons, HL1. by destruct (last cs). }
  set (k := admitted bs) in *. set (Le := last_now (LastRefill st1) cs) in *. rewrite HL1 in IH.
  replace ((Le - LastRefill st) * refillRate t * f64_scale) with
    ((Le - c_now c) * refillRate t * f64_scale + (c_now c - LastRefill st) * refillRate t * f64_scale) by ring.
  set (A := (Le - c_now c) * refillRate t * f64_scale) in *.
  set (B := (c_now c - LastRefill st) * refillRate t * f64_scale) in *.
  cbn [length]. rewrite Nat2Z.inj_succ, Nat2Z.inj_add. set (x := refill t st0 (c_now c)) in *.
  replace (Z.succ (Z.of_nat (length cs)) * (second * full t)) with
    (Z.of_nat (length cs) * (second * full t) + second * full t) by ring.
  set (D := Z.of_nat (length cs) * (second * full t)) in *.
  replace ((Z.of_nat (if b then 1 else 0)%nat + Z.of_nat k) * f64_scale) with
    ((if b then f64_scale else 0) + Z.of_nat k * f64_scale) by (destruct b; lia).
  set (E := if b then f64_scale else 0) in *. set (F := Z.of_nat k * f64_scale) in *.
  unfold second in *. lia.
Qed.
End calls.

(** ** Overlapping calls *)

Section overlapping.
Context {R : Type} `{RedisReliable R} `{LocalZone}.

(** The first parts of several calls, before the second part of any of them. *)
Fixpoint tb_reads (t : TokenBucket) (key : string) (cs : list clock) (r : R)
    : R * list (go (bool * bucketState + redis_error)) :=
  match cs with
  | [] => (r, [])
  | c :: cs =>
      let '(r, o) := allow_read t key c r in
      let '(r, os) := tb_reads t key cs r in (r, o :: os)
  end.

Definition admits (o : go (bool * bucketState + redis_error)) : bool :=
  match o with
  | Ret (inl (b, _)) => b
  | _ => false
  end.

Fixpoint reads_in_order (T : time) (cs : list clock) : Prop :=
  match cs with
  | [] => True
  | c :: cs => T <= c_get c ∧ c_get c <= c_init c ∧ c_init c <= c_now c ∧ c_get c <= max_int64 ∧ reads_in_order (c_get c) cs
  end.
End overlapping.

(** ** Properties *)

Section properties.
Context {R : Type} `{RedisReliable R} `{LocalZone}.

Lemma fresh_bucket (t : TokenBucket) (T : time) (K : string) (d : gmap string entry) :
  1 <= capacity t <= 2 ^ 53 → 0 <= T → live T K d = None →
  bucket_at t T d K {| Tokens := f64_of_Z (capacity t); LastRefill := T |}.
Proof.
  intros Hcap HT Hl. split_and!; [by apply full_ok|done|simpl; lia|].
  right. split; [done|right]. by apply capacity_full.
Qed.

(** C9: The bucket keeps to its rate: of calls that do not overlap, on a bucket
    not used before, at most the capacity and what was refilled up to the last
    call are admitted, but for the rounding of the float64 arithmetic, which
    adds less than a part in [2^50] to the rate and a part in [2^51] of the
    capacity with each call.  A bucket that an hour refills is never cut short
    by its time to live. *)
Theorem token_bucket_rate (t : TokenBucket) (key : string) (T : time) (cs : list clock) (r : R)
    (Hcap : 1 <= capacity t <= 2 ^ 53) (Hrate : 1 <= refillRate t <= 2 ^ 53)
    (Hhour : capacity t <= 3600 * refillRate t) (HT : 0 <= T) (Hord : in_order T cs)
    (Hfresh : live T (bucket_key key) (rd_db r) = None) :
  2 ^ 51 * second * Z.of_nat (admitted (tb_calls t key cs r).2)
    <= 2 ^ 51 * second * capacity t
       + (2 ^ 51 + 2) * (last_now T cs - T) * refillRate t
       + Z.of_nat (length cs) * second * capacity t.
Proof.
  pose proof (tb_calls_bound t Hcap Hrate Hhour key cs T _ r Hord (fresh_bucket t T _ _ Hcap HT Hfresh)) as Hb.
  simpl in Hb. rewrite capacity_full in Hb by done. unfold full in Hb. pose proof f64_scale_pos.
  apply (Zmult_le_reg_r _ _ f64_scale); [lia|]. lia.
Qed.

(** A burst on a full bucket takes exactly its capacity: of calls at one
    instant the first [capacity] are admitted, the others are not. *)
Theorem token_bucket_burst (t : TokenBucket) (key : string) (T : time) (n : nat) (r : R)
    (Hcap : 1 <= capacity t <= 2 ^ 53) (Hrate : 1 <= refillRate t <= 2 ^ 53)
    (HT : 0 <= T <= max_int64) (Hfresh : live T (bucket_key key) (rd_db r) = None) :
  (tb_calls t key (replicate n {| c_get := T; c_init := T; c_now := T; c_set := T |}) r).2 =
    (λ i, Ret (Z.of_nat i <? capacity t, None)) <$> seq 0 n.
Proof.
  apply tb_burst; [done..|lia|].
  pose proof (fresh_bucket t T (bucket_key key) (rd_db r) Hcap ltac:(lia) Hfresh) as Hat.
  rewrite capacity_full in Hat by done. by rewrite Z.sub_0_r.
Qed.

(** No client is starved: whatever calls were made before, a call one second
    after the last of them is admitted. *)
Theorem token_bucket_recovers (t : TokenBucket) (key : string) (T : time) (cs : list clock) (c : clock) (r : R)
    (Hcap : 1 <= capacity t <= 2 ^ 53) (Hrate : 1 <= refillRate t <= 2 ^ 53)
    (HT : 0 <= T) (Hord : in_order T cs) (Hc : in_order (default T (c_set <$> last cs)) [c])
    (Hrest : last_now T cs + second <= c_now c)
    (Hfresh : live T (bucket_key key) (rd_db r) = None) :
  (Allow t key c (tb_calls t key cs r).1).2 = Ret (true, None).
Proof.
  destruct (tb_calls_at t Hcap Hrate key cs T _ r Hord (fresh_bucket t T _ _ Hcap HT Hfresh))
    as (st & Hat & HL). cbn [LastRefill] in HL.
  apply (Allow_admits t Hcap Hrate key _ st c _ Hc Hat). right. by rewrite HL.
Qed.

(** Calls that overlap can overdraw the bucket: however small the capacity,
    all calls that read the bucket before the first of them writes it back are
    admitted. *)
Theorem token_bucket_race (t : TokenBucket) (key : string) (T : time) (cs : list clock) (r : R)
    (Hcap : 1 <= capacity t <= 2 ^ 53) (Hrate : 1 <= refillRate t <= 2 ^ 53)
    (Hord : reads_in_order T cs) (Hfresh : live T (bucket_key key) (rd_db r) = None) :
  admits <$> (tb_reads t key cs r).2 = replicate (length cs) true.
Proof.
  revert T r Hord Hfresh. induction cs as [|c cs IH]; intros T r Hord Hl; [done|].
  destruct Hord as (Hn0 & Hn1 & Hn2 & Hmax & Hord). set (K := bucket_key key) in *.
  assert (live (c_get c) K (rd_db r) = None) as Hl1 by (by rewrite (live_later T), Hl).
  destruct (rd_ok (c_get c) (GET K) r (rd_db r) RNil) as (r1 & Hx & Hd); [simpl; by rewrite Hl1|done|].
  specialize (IH (c_get c) r1 Hord ltac:(by rewrite (Hd K))).
  set (st := {| Tokens := f64_of_Z (capacity t); LastRefill := c_init c |}).
  assert (allow_read t key c r = (r1, Ret (inl (consume t st (c_now c))))) as HA.
  { unfold allow_read, Get. fold K. comp_unfold. by rewrite Hx. }
  cbn [tb_reads]. rewrite HA. destruct (tb_reads t key cs r1) as [r2 os].
  apply (f_equal2 cons); [|exact IH].
  assert (bucket_ok t st) as Hok by by apply full_ok.
  pose proof (consume_ok t Hcap Hrate st (c_now c) Hok ltac:(simpl; lia)) as Hc.
  cbn [admits]. destruct (consume t st (c_now c)) as [b st1]. destruct Hc as (_ & _ & Hb & _).
  apply Hb, refill_keeps; [assumption..|simpl; lia|]. simpl. rewrite capacity_full by done.
  unfold full. pose proof f64_scale_pos. nia.
Qed.
End properties.

(** ** Witnesses *)

#[local] Existing Instance utc.

Definition two_tokens : TokenBucket := NewTokenBucket 2 1.

Definition call_at (u : time) : clock := {| c_get := u; c_init := u; c_now := u; c_set := u |}.

(** Two calls use up the bucket, a third is early, a fourth has waited. *)
Definition four_calls : list clock := call_at <$> [second; second; 1500 * millisecond; 2 * second].

Lemma token_bucket_rate_witness :
  admitted (tb_calls (R := RefRedis) two_tokens "a" four_calls ∅).2 = 3%nat ∧
  2 ^ 51 * second * Z.of_nat (admitted (tb_calls (R := RefRedis) two_tokens "a" four_calls ∅).2)
    <= 2 ^ 51 * second * 2 + (2 ^ 51 + 2) * (last_now second four_calls - second) * 1 + 4 * second * 2.
Proof.
  split; [vm_compute; reflexivity|].
  apply (token_bucket_rate (R := RefRedis) two_tokens "a" second four_calls ∅);
    [simpl; lia|simpl; lia|simpl; lia|vm_compute; discriminate| |reflexivity].
  simpl. unfold max_int64, millisecond, second. lia.
Defined.

Lemma token_bucket_burst_witness :
  (tb_calls (R := RefRedis) two_tokens "a" (replicate 3 (call_at second)) ∅).2 =
    [Ret (true, None); Ret (true, None); Ret (false, None)].
Proof.
  apply (token_bucket_burst (R := RefRedis) two_tokens "a" second 3 ∅);
    [simpl; lia|simpl; lia|vm_compute; split; discriminate|reflexivity].
Defined.

Lemma token_bucket_recovers_witness :
  (Allow two_tokens "a" (call_at (4 * second)) (tb_calls (R := RefRedis) two_tokens "a" four_calls ∅).1).2
    = Ret (true, None).
Proof.
  apply (token_bucket_recovers (R := RefRedis) two_tokens "a" second four_calls (call_at (4 * second)) ∅);
    [simpl; lia|simpl; lia|vm_compute; discriminate| | |vm_compute; discriminate|reflexivity];
    simpl; unfold max_int64, millisecond, second; lia.
Defined.

Lemma token_bucket_race_witness :
  admits <$> (tb_reads (R := RefRedis) two_tokens "a" four_calls ∅).2 = [true; true; true; true].
Proof.
  apply (token_bucket_race (R := RefRedis) two_tokens "a" second four_calls ∅);
    [simpl; lia|simpl; lia| |reflexivity].
  simpl. unfold max_int64, millisecond, second. lia.
Defined.
