(* ===== verification/Limiter.v ===== *)
(** * The limiter interface and its factory

    Models [src/internal/ratelimit/interface.go] and [factory.go]: the three
    limiters behind one interface, and the one a tier's algorithm names.  A
    method's clock readings, its own and the server's, come from one function
    [clk], in the order in which the method reads them. *)

From S2P Require Import Prelude Strconv Float64 Redis.
From S2P Require FixedWindow SlidingWindow TokenBucket.

(** The values of the interface type [Limiter]. *)
Inductive Limiter :=
  | LFixed (f : FixedWindow.FixedWindowLimiter)
  | LSliding (s : SlidingWindow.SlidingWindowLimiter)
  | LBucket (t : TokenBucket.TokenBucket).

Section limiter.
Context {R : Type} `{Redis R} `{Rfc3339.LocalZone}.

Definition sliding_clock (clk : nat → time) : SlidingWindow.clock :=
  {| SlidingWindow.c_now := clk 0%nat; SlidingWindow.c_rem := clk 1%nat; SlidingWindow.c_card := clk 2%nat;
     SlidingWindow.c_add := clk 3%nat; SlidingWindow.c_exp := clk 4%nat |}.

Definition bucket_clock (clk : nat → time) : TokenBucket.clock :=
  {| TokenBucket.c_get := clk 0%nat; TokenBucket.c_init := clk 1%nat;
     TokenBucket.c_now := clk 2%nat; TokenBucket.c_set := clk 3%nat |}.

Definition Allow (l : Limiter) (key : string) (clk : nat → time) : Comp R (bool * option redis_error) :=
  match l with
  | LFixed f => FixedWindow.Allow f key (clk 0%nat) (clk 1%nat) (clk 2%nat)
  | LSliding s => SlidingWindow.Allow s key (sliding_clock clk)
  | LBucket t => TokenBucket.Allow t key (bucket_clock clk)
  end.

Definition Remaining (l : Limiter) (key : string) (clk : nat → time) : Comp R (Z * option redis_error) :=
  match l with
  | LFixed f => FixedWindow.Remaining f key (clk 0%nat) (clk 1%nat)
  | LSliding s => SlidingWindow.Remaining s key (clk 0%nat) (clk 1%nat)
  | LBucket t => TokenBucket.Remaining t key (clk 0%nat) (clk 1%nat)
  end.

Definition Limit (l : Limiter) : Z :=
  match l with
  | LFixed f => FixedWindow.Limit f
  | LSliding s => SlidingWindow.Limit s
  | LBucket t => TokenBucket.Limit t
  end.

Definition Window (l : Limiter) : Comp R duration :=
  match l with
  | LFixed f => mret (FixedWindow.Window f)
  | LSliding s => mret (SlidingWindow.Window s)
  | LBucket t => TokenBucket.Window t
  end.

Definition Reset (l : Limiter) (key : string) (clk : nat → time) : Comp R (time * option redis_error) :=
  match l with
  | LFixed f => FixedWindow.Reset f key (clk 0%nat)
  | LSliding s => SlidingWindow.Reset s key (clk 0%nat) (clk 1%nat)
  | LBucket t => TokenBucket.Reset t key (clk 0%nat) (clk 1%nat)
  end.

(** [NewLimiter]; the division panics on a window below a second. *)
Definition NewLimiter (algorithm : string) (limit : Z) (window : duration) : Comp R Limiter :=
  if decide (algorithm = "sliding_window") then
    mret (LSliding (SlidingWindow.NewSlidingWindowLimiter limit window))
  else if decide (algorithm = "token_bucket") then
    refillRate ← int_div limit (f64_to_Z (Seconds window));
    mret (LBucket (TokenBucket.NewTokenBucket limit (if refillRate =? 0 then 1 else refillRate)))
  else mret (LFixed (FixedWindow.NewFixedWindow limit window)).
End limiter.

(** ** The token bucket of the factory *)

Definition bucket_rate (limit W : Z) : Z := Z.max 1 (limit / W).

Lemma NewLimiter_bucket {R} (limit W : Z) (r : R) :
  0 < W <= 9223372036 → 1 <= limit <= max_int64 →
  NewLimiter "token_bucket" limit (W * second) r =
    (r, Ret (LBucket (TokenBucket.NewTokenBucket limit (bucket_rate limit W)))).
Proof.
  intros HW Hl. unfold NewLimiter. rewrite decide_False, decide_True by done.
  rewrite Seconds_whole, f64_to_Z_int by lia. unfold int_div. destruct (Z.eqb_spec W 0); [lia|].
  rewrite Z.quot_div_nonneg by lia.
  assert (0 <= limit / W <= limit) by (split; [apply Z.div_pos; lia|apply Z.div_le_upper_bound; nia]).
  rewrite wrap64_id by int_solve. comp_unfold. unfold bucket_rate.
  do 4 f_equal. destruct (Z.eqb_spec (limit / W) 0); lia.
Qed.

(** A window of up to half an hour is refilled within the hour that Redis keeps
    a bucket. *)
Lemma bucket_rate_ok (limit W : Z) :
  0 < W <= 1800 → 1 <= limit <= 2 ^ 53 →
  1 <= bucket_rate limit W <= 2 ^ 53 ∧ limit <= 3600 * bucket_rate limit W.
Proof.
  intros HW Hl. unfold bucket_rate.
  pose proof (Z.mul_succ_div_gt limit W ltac:(lia)).
  assert (limit / W <= limit) by (apply Z.div_le_upper_bound; nia).
  split; [lia|]. nia.
Qed.

(** ** Properties *)

Section properties.
Context {R : Type} `{RedisReliable R} `{Rfc3339.LocalZone}.

(** Calls of a limiter one after the other, the [i]-th with the readings [clks i]. *)
Fixpoint calls (l : Limiter) (key : string) (clks : list (nat → time)) (r : R)
    : R * list (go (bool * option redis_error)) :=
  match clks with
  | [] => (r, [])
  | clk :: clks =>
      let '(r, b) := Allow l key clk r in
      let '(r, bs) := calls l key clks r in (r, b :: bs)
  end.

Lemma calls_bucket (t : TokenBucket.TokenBucket) (key : string) (clks : list (nat → time)) (r : R) :
  calls (LBucket t) key clks r = TokenBucket.tb_calls t key (bucket_clock <$> clks) r.
Proof.
  revert r. induction clks as [|clk clks IH]; intros r; [done|]. simpl.
  destruct (TokenBucket.Allow t key (bucket_clock clk) r) as [r1 b]. by rewrite IH.
Qed.

(** Calls that take no time, one a second from [T] on. *)
Definition every_second (T : time) (n : nat) : list (nat → time) :=
  (λ (i : nat) (_ : nat), T + Z.of_nat i * second) <$> seq 0 n.

Lemma every_second_spaced (T : time) (j n : nat) :
  let cs := bucket_clock <$> ((λ (i : nat) (_ : nat), T + Z.of_nat i * second) <$> seq j n) in
  T + Z.of_nat (j + n) * second <= max_int64 →
  TokenBucket.in_order (T + Z.of_nat j * second) cs ∧ TokenBucket.spaced_from cs.
Proof.
  revert j. induction n as [|n IH]; intros j cs Hmax; [done|].
  destruct (IH (S j)) as [Ho Hs]; [by rewrite Nat.add_succ_comm|]. unfold second in *.
  split; [simpl; split_and!; try lia|].
  - clear -Ho. destruct n; [done|]. simpl in *. split; [lia|]. by apply Ho.
  - clear -Hs. simpl. destruct n; [done|]. simpl in *. unfold second in *. split; [lia|]. done.
Qed.

(** The factory is total for the one-minute window of the middleware: each
    algorithm gets its limiter, any other name the fixed window, with the limit
    it was asked for; nothing panics. *)
Theorem new_limiter_minute (algorithm : string) (limit : Z) (r : R)
    (Hlimit : 1 <= limit <= max_int64) :
  ∃ l, NewLimiter algorithm limit minute r = (r, Ret l) ∧ Limit l = limit ∧
    match l with
    | LSliding s => algorithm = "sliding_window" ∧ SlidingWindow.window s = minute
    | LBucket t => algorithm = "token_bucket" ∧
        TokenBucket.refillRate t = if decide (limit < 60) then 1 else limit / 60
    | LFixed f => algorithm ≠ "sliding_window" ∧ algorithm ≠ "token_bucket" ∧ FixedWindow.window f = minute
    end.
Proof.
  destruct (decide (algorithm = "sliding_window")) as [->|Hs]; [eexists; by split_and!|].
  destruct (decide (algorithm = "token_bucket")) as [->|Ht].
  - change minute with (60 * second). rewrite NewLimiter_bucket by lia. eexists. split_and!; [done..|].
    split; [done|]. simpl. unfold bucket_rate. case_decide as Hd.
    + by rewrite Z.div_small by lia.
    + assert (1 <= limit / 60) by (apply Z.div_le_lower_bound; lia). lia.
  - unfold NewLimiter. rewrite !decide_False by done. eexists. by split_and!.
Qed.

(** A token bucket made by the factory admits a call every second, however
    low the limit: a limit below 60 a minute does not hold. *)
Theorem bucket_admits_one_a_second (limit : Z) (key : string) (T : time) (n : nat) (r : R)
    (Hlimit : 1 <= limit <= 2 ^ 53) (HT : 0 <= T) (Hmax : T + Z.of_nat n * second <= max_int64)
    (Hfresh : live T (TokenBucket.bucket_key key) (rd_db r) = None) :
  ∃ l, NewLimiter "token_bucket" limit minute r = (r, Ret l) ∧ Limit l = limit ∧
    (calls l key (every_second T n) r).2 = replicate n (Ret (true, None)).
Proof.
  change minute with (60 * second). rewrite NewLimiter_bucket by int_solve.
  eexists. split_and!; [done..|]. rewrite calls_bucket.
  destruct (bucket_rate_ok limit 60) as [Hrate _]; [lia..|].
  destruct (every_second_spaced T 0 n Hmax) as [Ho Hs]. rewrite Z.mul_0_l, Z.add_0_r in Ho.
  set (t := TokenBucket.NewTokenBucket limit (bucket_rate limit 60)).
  rewrite (TokenBucket.tb_calls_spaced t Hlimit Hrate key _ T
    {| TokenBucket.Tokens := f64_of_Z limit; TokenBucket.LastRefill := T |}).
  - unfold every_second. by rewrite !length_fmap, length_seq.
  - exact Ho.
  - right. split; [|exact Hs]. simpl. rewrite f64_of_Z_exact by lia. pose proof f64_scale_pos. nia.
  - by apply (TokenBucket.fresh_bucket t T).
Qed.
End properties.

(** ** Witnesses *)

#[local] Existing Instance Rfc3339.utc.

Lemma new_limiter_minute_witness :
  ∃ l, NewLimiter "token_bucket" 1000 minute (∅ : RefRedis) = (∅, Ret l) ∧ Limit l = 1000 ∧
    match l with LBucket t => TokenBucket.refillRate t = 16 | _ => False end.
Proof.
  destruct (new_limiter_minute (R := RefRedis) "token_bucket" 1000 ∅) as (l & Hl & Hlim & Hk).
  - unfold max_int64. lia.
  - exists l. split; [exact Hl|]. split; [exact Hlim|].
    destruct l as [f|s|t]; [by destruct Hk as (_ & [] & _)|by destruct Hk|exact (proj2 Hk)].
Defined.

(** A tier of one call a minute admits 61 calls in a minute. *)
Lemma bucket_admits_one_a_second_witness :
  ∃ l, NewLimiter "token_bucket" 1 minute (∅ : RefRedis) = (∅, Ret l) ∧ Limit l = 1 ∧
    (calls (R := RefRedis) l "a" (every_second minute 61) ∅).2 = replicate 61 (Ret (true, None)).
Proof.
  apply (bucket_admits_one_a_second (R := RefRedis) 1 "a" minute 61 ∅);
    [lia|vm_compute; discriminate|vm_compute; discriminate|reflexivity].
Defined.
