(* ===== verification/Config.v ===== *)
(** * The configuration

    Models [src/internal/config/config.go]: the configuration's types and their
    names in JSON, the overrides from the environment, the validation, and
    [Load]; and the file [src/config.json].  The content of the file comes in as
    an argument of [Load]; the environment is a function from names to values,
    empty for a variable that is not set. *)

From S2P Require Import Prelude Strconv Json Decode.

Record ServerConfig := { srv_Port : string; srv_Environment : string }.

Record RedisConfig := { redis_Host : string; redis_Port : Z; redis_Password : string; redis_DB : Z }.

Record DatabaseConfig := {
  db_Host : string; db_Port : Z; db_User : string; db_Password : string; db_DBName : string; db_SSLMode : string
}.

Record JWTConfig := { jwt_Secret : string; jwt_ExpiryHours : Z }.

Record AnalyticsConfig := {
  an_Enabled : bool; an_RetentionDays : Z; an_BatchSize : Z; an_FlushIntervalSec : Z
}.

Record CircuitBreakerConfig := { cb_MaxFailures : Z; cb_TimeoutSeconds : Z; cb_HalfOpenSuccess : Z }.

Record HealthCheckConfig := {
  hc_Endpoint : string; hc_IntervalSeconds : Z; hc_TimeoutSeconds : Z; hc_MaxFailures : Z
}.

Record ServiceConfig := {
  svc_Path : string;
  svc_Targets : list string;
  svc_LoadBalancer : string;
  svc_CircuitBreaker : option CircuitBreakerConfig;
  svc_HealthCheck : option HealthCheckConfig
}.

Record RateLimiterTier := {
  tier_Name : string; tier_RequestsPerMinute : Z; tier_RequestsPerHour : Z; tier_Algorithm : string
}.

Record Config := {
  Server : ServerConfig;
  Redis : RedisConfig;
  Database : DatabaseConfig;
  JWT : JWTConfig;
  Analytics : AnalyticsConfig;
  Services : list ServiceConfig;
  RateLimitTiers : list RateLimiterTier
}.

(** ** Decoding

    The names of the fields in JSON. *)

Definition server_decoder : decoder ServerConfig := struct [
  ("port", at_field srv_Port (λ x c, {| srv_Port := x; srv_Environment := srv_Environment c |}) d_string);
  ("environment", at_field srv_Environment (λ x c, {| srv_Port := srv_Port c; srv_Environment := x |}) d_string)].

Definition redis_decoder : decoder RedisConfig := struct [
  ("host", at_field redis_Host (λ x c, {| redis_Host := x; redis_Port := redis_Port c;
     redis_Password := redis_Password c; redis_DB := redis_DB c |}) d_string);
  ("port", at_field redis_Port (λ x c, {| redis_Host := redis_Host c; redis_Port := x;
     redis_Password := redis_Password c; redis_DB := redis_DB c |}) d_int);
  ("password", at_field redis_Password (λ x c, {| redis_Host := redis_Host c; redis_Port := redis_Port c;
     redis_Password := x; redis_DB := redis_DB c |}) d_string);
  ("db", at_field redis_DB (λ x c, {| redis_Host := redis_Host c; redis_Port := redis_Port c;
     redis_Password := redis_Password c; redis_DB := x |}) d_int)].

Definition database_decoder : decoder DatabaseConfig := struct [
  ("host", at_field db_Host (λ x c, {| db_Host := x; db_Port := db_Port c; db_User := db_User c;
     db_Password := db_Password c; db_DBName := db_DBName c; db_SSLMode := db_SSLMode c |}) d_string);
  ("port", at_field db_Port (λ x c, {| db_Host := db_Host c; db_Port := x; db_User := db_User c;
     db_Password := db_Password c; db_DBName := db_DBName c; db_SSLMode := db_SSLMode c |}) d_int);
  ("user", at_field db_User (λ x c, {| db_Host := db_Host c; db_Port := db_Port c; db_User := x;
     db_Password := db_Password c; db_DBName := db_DBName c; db_SSLMode := db_SSLMode c |}) d_string);
  ("password", at_field db_Password (λ x c, {| db_Host := db_Host c; db_Port := db_Port c; db_User := db_User c;
     db_Password := x; db_DBName := db_DBName c; db_SSLMode := db_SSLMode c |}) d_string);
  ("dbname", at_field db_DBName (λ x c, {| db_Host := db_Host c; db_Port := db_Port c; db_User := db_User c;
     db_Password := db_Password c; db_DBName := x; db_SSLMode := db_SSLMode c |}) d_string);
  ("sslmode", at_field db_SSLMode (λ x c, {| db_Host := db_Host c; db_Port := db_Port c; db_User := db_User c;
     db_Password := db_Password c; db_DBName := db_DBName c; db_SSLMode := x |}) d_string)].

Definition jwt_decoder : decoder JWTConfig := struct [
  ("secret", at_field jwt_Secret (λ x c, {| jwt_Secret := x; jwt_ExpiryHours := jwt_ExpiryHours c |}) d_string);
  ("expiry_hours", at_field jwt_ExpiryHours (λ x c, {| jwt_Secret := jwt_Secret c; jwt_ExpiryHours := x |}) d_int)].

Definition analytics_decoder : decoder AnalyticsConfig := struct [
  ("enabled", at_field an_Enabled (λ x c, {| an_Enabled := x; an_RetentionDays := an_RetentionDays c;
     an_BatchSize := an_BatchSize c; an_FlushIntervalSec := an_FlushIntervalSec c |}) d_bool);
  ("retention_days", at_field an_RetentionDays (λ x c, {| an_Enabled := an_Enabled c; an_RetentionDays := x;
     an_BatchSize := an_BatchSize c; an_FlushIntervalSec := an_FlushIntervalSec c |}) d_int);
  ("batch_size", at_field an_BatchSize (λ x c, {| an_Enabled := an_Enabled c; an_RetentionDays := an_RetentionDays c;
     an_BatchSize := x; an_FlushIntervalSec := an_FlushIntervalSec c |}) d_int);
  ("flush_interval_sec", at_field an_FlushIntervalSec (λ x c, {| an_Enabled := an_Enabled c;
     an_RetentionDays := an_RetentionDays c; an_BatchSize := an_BatchSize c; an_FlushIntervalSec := x |}) d_int)].

Definition breaker_decoder : decoder CircuitBreakerConfig := struct [
  ("max_failures", at_field cb_MaxFailures (λ x c, {| cb_MaxFailures := x; cb_TimeoutSeconds := cb_TimeoutSeconds c;
     cb_HalfOpenSuccess := cb_HalfOpenSuccess c |}) d_int);
  ("timeout_seconds", at_field cb_TimeoutSeconds (λ x c, {| cb_MaxFailures := cb_MaxFailures c; cb_TimeoutSeconds := x;
     cb_HalfOpenSuccess := cb_HalfOpenSuccess c |}) d_int);
  ("half_open_success", at_field cb_HalfOpenSuccess (λ x c, {| cb_MaxFailures := cb_MaxFailures c;
     cb_TimeoutSeconds := cb_TimeoutSeconds c; cb_HalfOpenSuccess := x |}) d_int)].

(** The name of the timeout is [timeout]. *)
Definition health_decoder : decoder HealthCheckConfig := struct [
  ("endpoint", at_field hc_Endpoint (λ x c, {| hc_Endpoint := x; hc_IntervalSeconds := hc_IntervalSeconds c;
     hc_TimeoutSeconds := hc_TimeoutSeconds c; hc_MaxFailures := hc_MaxFailures c |}) d_string);
  ("interval_seconds", at_field hc_IntervalSeconds (λ x c, {| hc_Endpoint := hc_Endpoint c; hc_IntervalSeconds := x;
     hc_TimeoutSeconds := hc_TimeoutSeconds c; hc_MaxFailures := hc_MaxFailures c |}) d_int);
  ("timeout", at_field hc_TimeoutSeconds (λ x c, {| hc_Endpoint := hc_Endpoint c;
     hc_IntervalSeconds := hc_IntervalSeconds c; hc_TimeoutSeconds := x; hc_MaxFailures := hc_MaxFailures c |}) d_int);
  ("max_failures", at_field hc_MaxFailures (λ x c, {| hc_Endpoint := hc_Endpoint c;
     hc_IntervalSeconds := hc_IntervalSeconds c; hc_TimeoutSeconds := hc_TimeoutSeconds c; hc_MaxFailures := x |}) d_int)].

Definition zero_breaker : CircuitBreakerConfig := {| cb_MaxFailures := 0; cb_TimeoutSeconds := 0; cb_HalfOpenSuccess := 0 |}.

Definition zero_health : HealthCheckConfig :=
  {| hc_Endpoint := ""; hc_IntervalSeconds := 0; hc_TimeoutSeconds := 0; hc_MaxFailures := 0 |}.

Definition service_decoder : decoder ServiceConfig := struct [
  ("path", at_field svc_Path (λ x c, {| svc_Path := x; svc_Targets := svc_Targets c;
     svc_LoadBalancer := svc_LoadBalancer c; svc_CircuitBreaker := svc_CircuitBreaker c;
     svc_HealthCheck := svc_HealthCheck c |}) d_string);
  ("targets", at_field svc_Targets (λ x c, {| svc_Path := svc_Path c; svc_Targets := x;
     svc_LoadBalancer := svc_LoadBalancer c; svc_CircuitBreaker := svc_CircuitBreaker c;
     svc_HealthCheck := svc_HealthCheck c |}) (slice "" d_string));
  ("load_balancer", at_field svc_LoadBalancer (λ x c, {| svc_Path := svc_Path c; svc_Targets := svc_Targets c;
     svc_LoadBalancer := x; svc_CircuitBreaker := svc_CircuitBreaker c;
     svc_HealthCheck := svc_HealthCheck c |}) d_string);
  ("circuit_breaker", at_field svc_CircuitBreaker (λ x c, {| svc_Path := svc_Path c; svc_Targets := svc_Targets c;
     svc_LoadBalancer := svc_LoadBalancer c; svc_CircuitBreaker := x;
     svc_HealthCheck := svc_HealthCheck c |}) (pointer zero_breaker breaker_decoder));
  ("health_check", at_field svc_HealthCheck (λ x c, {| svc_Path := svc_Path c; svc_Targets := svc_Targets c;
     svc_LoadBalancer := svc_LoadBalancer c; svc_CircuitBreaker := svc_CircuitBreaker c;
     svc_HealthCheck := x |}) (pointer zero_health health_decoder))].

Definition tier_decoder : decoder RateLimiterTier := struct [
  ("name", at_field tier_Name (λ x c, {| tier_Name := x; tier_RequestsPerMinute := tier_RequestsPerMinute c;
     tier_RequestsPerHour := tier_RequestsPerHour c; tier_Algorithm := tier_Algorithm c |}) d_string);
  ("requests_per_minute", at_field tier_RequestsPerMinute (λ x c, {| tier_Name := tier_Name c;
     tier_RequestsPerMinute := x; tier_RequestsPerHour := tier_RequestsPerHour c;
     tier_Algorithm := tier_Algorithm c |}) d_int);
  ("requests_per_hour", at_field tier_RequestsPerHour (λ x c, {| tier_Name := tier_Name c;
     tier_RequestsPerMinute := tier_RequestsPerMinute c; tier_RequestsPerHour := x;
     tier_Algorithm := tier_Algorithm c |}) d_int);
  ("algorithm", at_field tier_Algorithm (λ x c, {| tier_Name := tier_Name c;
     tier_RequestsPerMinute := tier_RequestsPerMinute c; tier_RequestsPerHour := tier_RequestsPerHour c;
     tier_Algorithm := x |}) d_string)].

Definition zero_service : ServiceConfig := {|
  svc_Path := ""; svc_Targets := []; svc_LoadBalancer := ""; svc_CircuitBreaker := None; svc_HealthCheck := None |}.

Definition zero_tier : RateLimiterTier :=
  {| tier_Name := ""; tier_RequestsPerMinute := 0; tier_RequestsPerHour := 0; tier_Algorithm := "" |}.

Definition config_decoder : decoder Config := struct [
  ("server", at_field Server (λ x c, {| Server := x; Redis := Redis c; Database := Database c; JWT := JWT c;
     Analytics := Analytics c; Services := Services c; RateLimitTiers := RateLimitTiers c |}) server_decoder);
  ("redis", at_field Redis (λ x c, {| Server := Server c; Redis := x; Database := Database c; JWT := JWT c;
     Analytics := Analytics c; Services := Services c; RateLimitTiers := RateLimitTiers c |}) redis_decoder);
  ("database", at_field Database (λ x c, {| Server := Server c; Redis := Redis c; Database := x; JWT := JWT c;
     Analytics := Analytics c; Services := Services c; RateLimitTiers := RateLimitTiers c |}) database_decoder);
  ("jwt", at_field JWT (λ x c, {| Server := Server c; Redis := Redis c; Database := Database c; JWT := x;
     Analytics := Analytics c; Services := Services c; RateLimitTiers := RateLimitTiers c |}) jwt_decoder);
  ("analytics", at_field Analytics (λ x c, {| Server := Server c; Redis := Redis c; Database := Database c; JWT := JWT c;
     Analytics := x; Services := Services c; RateLimitTiers := RateLimitTiers c |}) analytics_decoder);
  ("services", at_field Services (λ x c, {| Server := Server c; Redis := Redis c; Database := Database c; JWT := JWT c;
     Analytics := Analytics c; Services := x; RateLimitTiers := RateLimitTiers c |}) (slice zero_service service_decoder));
  ("rate_limit_tiers", at_field RateLimitTiers (λ x c, {| Server := Server c; Redis := Redis c; Database := Database c; JWT := JWT c;
     Analytics := Analytics c; Services := Services c; RateLimitTiers := x |}) (slice zero_tier tier_decoder))].

Definition zero_config : Config := {|
  Server := {| srv_Port := ""; srv_Environment := "" |};
  Redis := {| redis_Host := ""; redis_Port := 0; redis_Password := ""; redis_DB := 0 |};
  Database := {| db_Host := ""; db_Port := 0; db_User := ""; db_Password := ""; db_DBName := ""; db_SSLMode := "" |};
  JWT := {| jwt_Secret := ""; jwt_ExpiryHours := 0 |};
  Analytics := {| an_Enabled := false; an_RetentionDays := 0; an_BatchSize := 0; an_FlushIntervalSec := 0 |};
  Services := []; RateLimitTiers := [] |}.

(** ** The environment *)

(** [if v := os.Getenv(name); v != "" { field = v }]. *)
Definition override (env : string → string) (name field : string) : string :=
  if decide (env name = "") then field else env name.

Definition applyEnvOverrides (env : string → string) (cfg : Config) : Config := {|
  Server := {| srv_Port := override env "PORT" (srv_Port (Server cfg));
               srv_Environment := override env "ENVIRONMENT" (srv_Environment (Server cfg)) |};
  Redis := {| redis_Host := override env "REDIS_HOST" (redis_Host (Redis cfg));
              redis_Port := redis_Port (Redis cfg);
              redis_Password := override env "REDIS_PASSWORD" (redis_Password (Redis cfg));
              redis_DB := redis_DB (Redis cfg) |};
  Database := {| db_Host := override env "DB_HOST" (db_Host (Database cfg));
                 db_Port := db_Port (Database cfg);
                 db_User := override env "DB_USER" (db_User (Database cfg));
                 db_Password := override env "DB_PASSWORD" (db_Password (Database cfg));
                 db_DBName := override env "DB_NAME" (db_DBName (Database cfg));
                 db_SSLMode := db_SSLMode (Database cfg) |};
  JWT := {| jwt_Secret := override env "JWT_SECRET" (jwt_Secret (JWT cfg));
            jwt_ExpiryHours := jwt_ExpiryHours (JWT cfg) |};
  Analytics := Analytics cfg;
  Services := Services cfg;
  RateLimitTiers := RateLimitTiers cfg
|}.

Definition set_ExpiryHours (h : Z) (cfg : Config) : Config := {|
  Server := Server cfg; Redis := Redis cfg; Database := Database cfg;
  JWT := {| jwt_Secret := jwt_Secret (JWT cfg); jwt_ExpiryHours := h |};
  Analytics := Analytics cfg; Services := Services cfg; RateLimitTiers := RateLimitTiers cfg
|}.

(** The loop of [validate] over the services, from index [i] on. *)
Fixpoint validate_services (i : Z) (svcs : list ServiceConfig) : option string :=
  match svcs with
  | [] => None
  | svc :: svcs =>
      if decide (svc_Path svc = "") then Some ("service " +:+ pretty i +:+ ": path is required")
      else if decide (svc_Targets svc = []) then
        Some ("service " +:+ pretty i +:+ ": at least one target is required")
      else validate_services (i + 1) svcs
  end.

(** [validate]: the error, or the configuration with its default filled in. *)
Definition validate (cfg : Config) : Config + string :=
  if decide (srv_Port (Server cfg) = "") then inr "server port is required"
  else if decide (redis_Host (Redis cfg) = "") then inr "redis host is required"
  else if decide (db_Host (Database cfg) = "") then inr "database host is required"
  else if decide (db_DBName (Database cfg) = "") then inr "database name is required"
  else if decide (Services cfg = []) then inr "at least one service must be configured"
  else match validate_services 0 (Services cfg) with
       | Some e => inr e
       | None =>
           if decide (jwt_Secret (JWT cfg) = "") then inr "JWT secret is required"
           else if jwt_ExpiryHours (JWT cfg) <=? 0 then inl (set_ExpiryHours 24 cfg)
           else inl cfg
       end.

(** [Load]: [read] is the content of the file or the error of reading it;
    [parse_error] is the text of the error of [json.Unmarshal] for a content. *)
Definition Load (read : string + string) (parse_error : string → string) (env : string → string)
    : Config + string :=
  match read with
  | inr e => inr ("failed to read config file: " +:+ e)
  | inl file =>
      match Unmarshal config_decoder file zero_config with
      | (_, false) => inr ("failed to parse config file: " +:+ parse_error file)
      | (config, true) =>
          match validate (applyEnvOverrides env config) with
          | inr e => inr ("invalid configuration: " +:+ e)
          | inl config => inl config
          end
      end
  end.

Definition GetRedisAddr (c : RedisConfig) : string := redis_Host c +:+ ":" +:+ pretty (redis_Port c).

(** ** Properties *)

Definition service_ok (svc : ServiceConfig) : Prop := svc_Path svc ≠ "" ∧ svc_Targets svc ≠ [].

(** What the rest of the gateway relies on. *)
Record valid (cfg : Config) : Prop := {
  valid_port : srv_Port (Server cfg) ≠ "";
  valid_redis : redis_Host (Redis cfg) ≠ "";
  valid_db : db_Host (Database cfg) ≠ "" ∧ db_DBName (Database cfg) ≠ "";
  valid_services : Services cfg ≠ [] ∧ Forall service_ok (Services cfg);
  valid_secret : jwt_Secret (JWT cfg) ≠ ""
}.

Lemma validate_services_ok (i : Z) (svcs : list ServiceConfig) :
  validate_services i svcs = None ↔ Forall service_ok svcs.
Proof.
  revert i. induction svcs as [|svc svcs IH]; intros i; simpl; [done|].
  rewrite Forall_cons, <- (IH (i + 1)). unfold service_ok. repeat case_decide; naive_solver.
Qed.

Lemma validate_spec (cfg : Config) :
  match validate cfg with
  | inl cfg' => valid cfg ∧ cfg' = if jwt_ExpiryHours (JWT cfg) <=? 0 then set_ExpiryHours 24 cfg else cfg
  | inr _ => ¬ valid cfg
  end.
Proof.
  unfold validate. repeat (case_decide; [by intros []; naive_solver|]).
  destruct (validate_services 0 (Services cfg)) as [e|] eqn:Hs.
  - intros [_ _ _ [_ Hok] _]. by rewrite (proj2 (validate_services_ok 0 _) Hok) in Hs.
  - case_decide; [by intros []|]. apply validate_services_ok in Hs.
    destruct (jwt_ExpiryHours (JWT cfg) <=? 0); done.
Qed.

(** C40: [Load] succeeds exactly on a file that can be read and decoded and whose
    content, under the environment's overrides, has every required field; the
    configuration it returns is that content, with every service routable and
    a positive token lifetime. *)
Theorem load_correct (read : string + string) (parse_error env : string → string) :
  match Load read parse_error env with
  | inl cfg =>
      valid cfg ∧ 0 < jwt_ExpiryHours (JWT cfg) ∧
      ∃ file raw, read = inl file ∧ Unmarshal config_decoder file zero_config = (raw, true) ∧
        (cfg = applyEnvOverrides env raw ∨
         jwt_ExpiryHours (JWT raw) <= 0 ∧ cfg = set_ExpiryHours 24 (applyEnvOverrides env raw))
  | inr _ =>
      ∀ file raw, read = inl file → Unmarshal config_decoder file zero_config = (raw, true) →
        ¬ valid (applyEnvOverrides env raw)
  end.
Proof.
  unfold Load. destruct read as [file|e]; [|done].
  destruct (Unmarshal config_decoder file zero_config) as [raw []] eqn:Hu; [|intros ?? [= <-]; congruence].
  pose proof (validate_spec (applyEnvOverrides env raw)) as Hv.
  destruct (validate (applyEnvOverrides env raw)) as [cfg|e]; [|intros ?? [= <-]; congruence].
  destruct Hv as [[] ->]. case_bool.
  - split; [by split|]. split; [done|]. exists file, raw. split_and!; [done..|]. by right.
  - split; [by split|]. split; [done|]. exists file, raw. split_and!; [done..|]. by left.
Qed.

(** ** The file of the repository *)

(** [src/config.json]. *)
Definition config_json : string := quoted "{
    'server': {
        'port': '8080',
        'environment': 'development'
    },
    'redis': {
        'host': 'localhost',
        'port': 6379,
        'password': '',
        'db': 0
    },
    'database': {
        'host': 'localhost',
        'port': 5433,
        'user': 'gateway',
        'password': 'password',
        'dbname': 'gateway',
        'sslmode': 'disable'
    },
    'jwt': {
        'secret': 'my-secret-key',
        'expiry_hours': 24
    },
    'analytics': {
        'enabled': true,
        'retention_days': 90,
        'batch_size': 100,
        'flush_interval_sec': 5
    },
    'services': [
        {
            'path': '/api/users',
            'targets': [
                'http://localhost:3001',
                'http://localhost:3002',
                'http://localhost:3003'
            ],
            'load_balancer': 'round-robin',
            'circuit_breaker': {
                'max_failures': 5,
                'timeout_seconds': 30,
                'half_open_success': 1
            },
            'health_check': {
                'endpoint': '/health',
                'interval_seconds': 10,
                'timeout_seconds': 5,
                'max_failures': 3
            }
        },
        {
            'path': '/api/orders',
            'targets': [
                'http://localhost:3004',
                'http://localhost:3005'
            ],
            'load_balancer': 'least_connections',
            'circuit_breaker': {
                'max_failures': 3,
                'timeout_seconds': 60,
                'half_open_success': 2
            },
            'health_check': {
                'endpoint': '/health',
                'interval_seconds': 15,
                'timeout_seconds': 5,
                'max_failures': 2
            }
        }
    ],
    'rate_limit_tiers': [
        {
            'name': 'basic',
            'requests_per_minute': 60,
            'requests_per_hour': 1000,
            'algorithm': 'fixed_window'
        },
        {
            'name': 'pro',
            'requests_per_minute': 1000,
            'requests_per_hour': 50000,
            'algorithm': 'token_bucket'
        },
        {
            'name': 'enterprise',
            'requests_per_minute': 10000,
            'requests_per_hour': 500000,
            'algorithm': 'sliding_window'
        }
    ]
}".

Definition repository_config : Config := {|
  Server := {| srv_Port := "8080"; srv_Environment := "development" |};
  Redis := {| redis_Host := "localhost"; redis_Port := 6379; redis_Password := ""; redis_DB := 0 |};
  Database := {| db_Host := "localhost"; db_Port := 5433; db_User := "gateway"; db_Password := "password";
                 db_DBName := "gateway"; db_SSLMode := "disable" |};
  JWT := {| jwt_Secret := "my-secret-key"; jwt_ExpiryHours := 24 |};
  Analytics := {| an_Enabled := true; an_RetentionDays := 90; an_BatchSize := 100; an_FlushIntervalSec := 5 |};
  Services := [
    {| svc_Path := "/api/users";
       svc_Targets := ["http://localhost:3001"; "http://localhost:3002"; "http://localhost:3003"];
       svc_LoadBalancer := "round-robin";
       svc_CircuitBreaker := Some {| cb_MaxFailures := 5; cb_TimeoutSeconds := 30; cb_HalfOpenSuccess := 1 |};
       svc_HealthCheck := Some {| hc_Endpoint := "/health"; hc_IntervalSeconds := 10; hc_TimeoutSeconds := 0;
                                  hc_MaxFailures := 3 |} |};
    {| svc_Path := "/api/orders";
       svc_Targets := ["http://localhost:3004"; "http://localhost:3005"];
       svc_LoadBalancer := "least_connections";
       svc_CircuitBreaker := Some {| cb_MaxFailures := 3; cb_TimeoutSeconds := 60; cb_HalfOpenSuccess := 2 |};
       svc_HealthCheck := Some {| hc_Endpoint := "/health"; hc_IntervalSeconds := 15; hc_TimeoutSeconds := 0;
                                  hc_MaxFailures := 2 |} |}];
  RateLimitTiers := [
    {| tier_Name := "basic"; tier_RequestsPerMinute := 60; tier_RequestsPerHour := 1000;
       tier_Algorithm := "fixed_window" |};
    {| tier_Name := "pro"; tier_RequestsPerMinute := 1000; tier_RequestsPerHour := 50000;
       tier_Algorithm := "token_bucket" |};
    {| tier_Name := "enterprise"; tier_RequestsPerMinute := 10000; tier_RequestsPerHour := 500000;
       tier_Algorithm := "sliding_window" |}] |}.

(** The file of the repository is decoded as it is meant, with one exception: its
    health checks name their timeout [timeout_seconds], which is not a field, and
    the timeouts stay zero. *)
Lemma repository_decoded : Unmarshal config_decoder config_json zero_config = (repository_config, true).
Proof. vm_compute. reflexivity. Qed.

(** The gateway can be started with the file of the repository, whatever the
    environment: nothing that it requires is missing. *)
Lemma repository_loads (parse_error env : string → string) :
  Load (inl config_json) parse_error env = inl (applyEnvOverrides env repository_config).
Proof.
  unfold Load. rewrite repository_decoded. pose proof (validate_spec (applyEnvOverrides env repository_config)) as Hv.
  destruct (validate _) as [cfg|e].
  - destruct Hv as [_ ->]. done.
  - exfalso. apply Hv. split; simpl; unfold override; repeat case_decide; try done. split; [done|].
    by repeat constructor.
Qed.
