(* ===== verification/Gin.v ===== *)
(** * Requests and responses

    The gateway's handlers work on a [*gin.Context].  Gin is not part of the
    repository: the context is a parameter, the class [Gin], with the methods
    that the handlers call; [GinLaws] is their documented behaviour.  The data
    that handlers pass through a context ([c.Set], [c.Get]) and put into a
    response are the types [any] and [json]; [APIKey] is
    [src/internal/models/api_key.go].

    A handler is a computation on the context and on the state of the component
    it works with; [next] is what [c.Next()] runs, the rest of the chain. *)

From S2P Require Import Prelude.

(** A [uuid.UUID] is its text; [uuid_Nil] is the zero one. *)
Definition uuid_Nil : string := "00000000-0000-0000-0000-000000000000".

Record APIKey := {
  ID : string;
  KeyHash : string;
  key_Name : string;
  CreatedBy : string;
  Tier : string;
  IsActive : bool;
  CreatedAt : time;
  LastUsedAt : option time
}.

Inductive any :=
  | AKey (k : option APIKey)     (* *models.APIKey *)
  | AUuid (id : string)          (* uuid.UUID *)
  | AStr (s : string)            (* string *)
  | ANum (n : Z)                 (* float64, a whole number of JSON *)
  | AInt (n : Z)                 (* int64 *)
  | AFloat (x : Z)               (* float64, as in the file [Float64] *)
  | ATime (t : time)             (* time.Time *)
  | ANil                         (* nil *)
  | AOther.                      (* any other dynamic type *)

#[export] Instance APIKey_eq_dec : EqDecision APIKey.
Proof. solve_decision. Defined.

#[export] Instance any_eq_dec : EqDecision any.
Proof. solve_decision. Defined.

(** The values that a response carries.  The order of the fields of an object
    is not significant. *)

#[warnings="-register-all"] Inductive json :=
  | JNull
  | JStr (s : string)
  | JInt (n : Z)
  | JFloat (x : Z)               (* a float64, as in the file [Float64] *)
  | JBool (b : bool)
  | JTime (t : time)
  | JArr (items : list json)
  | JObj (fields : list (string * json)).

(** A field of an object. *)
Definition field (k : string) (j : json) : option json :=
  match j with
  | JObj fields => snd <$> List.find (λ p, String.eqb p.1 k) fields
  | _ => None
  end.

(** [gin.H{"error": msg}]. *)
Definition error_body (msg : string) : json := JObj [("error", JStr msg)].

Class Gin (C : Type) := {
  GetHeader : string → C → string;          (* a header of the request *)
  ClientIP : C → string;
  req_Method : C → string;
  URL_Path : C → string;                    (* [c.Request.URL.Path] *)
  Param : string → C → string;              (* a parameter of the matched route *)
  Query : string → C → string;              (* a parameter of the query string *)
  Status : C → Z;                           (* [c.Writer.Status()] *)
  Get : string → C → option any;            (* [c.Get] *)
  Set_ : string → any → C → C;              (* [c.Set] *)
  Header : string → string → C → C;         (* set a header of the response *)
  JSON : Z → json → C → C;
  Abort : C → C;
  AbortWithStatus : Z → C → C;
  SetRequestHeader : string → string → C → C;
  SetRequestURL : string → string → C → C;  (* scheme and host of [c.Request.URL] *)
  SetRequestHost : string → C → C;          (* [c.Request.Host] *)
  WriteHeader : Z → C → C;                  (* [c.Writer.WriteHeader] *)
  Write : string → C → C                    (* [c.Writer.Write] *)
}.

(** [c.ShouldBindJSON(&req)] for a struct type [Req]: the decoded and validated
    body, or the text of the error. *)
Class Bind (C Req : Type) := ShouldBindJSON : C → Req + string.

(** What can be seen of a response: whether it is written, the headers set so
    far, and whether the rest of the chain is to be skipped. *)
Class GinLaws (C : Type) `{Gin C} := {
  Written : C → bool;
  ResponseHeader : string → C → string;
  IsAborted : C → bool;

  Get_Set k k' v c : Get k (Set_ k' v c) = if decide (k = k') then Some v else Get k c;
  Get_Header k h v c : Get k (Header h v c) = Get k c;
  GetHeader_Set h k v c : GetHeader h (Set_ k v c) = GetHeader h c;
  GetHeader_Header h h' v c : GetHeader h (Header h' v c) = GetHeader h c;
  GetHeader_JSON h code j c : GetHeader h (JSON code j c) = GetHeader h c;
  GetHeader_Abort h c : GetHeader h (Abort c) = GetHeader h c;
  GetHeader_AbortWithStatus h code c : GetHeader h (AbortWithStatus code c) = GetHeader h c;
  Method_Set k v c : req_Method (Set_ k v c) = req_Method c;
  Method_Header h v c : req_Method (Header h v c) = req_Method c;
  Param_Set x k v c : Param x (Set_ k v c) = Param x c;
  Query_Set x k v c : Query x (Set_ k v c) = Query x c;
  ClientIP_Set k v c : ClientIP (Set_ k v c) = ClientIP c;
  ClientIP_Header h v c : ClientIP (Header h v c) = ClientIP c;

  ResponseHeader_Header h h' v c :
    v ≠ "" → ResponseHeader h (Header h' v c) = if decide (h = h') then v else ResponseHeader h c;
  ResponseHeader_JSON h code j c : h ≠ "Content-Type" → ResponseHeader h (JSON code j c) = ResponseHeader h c;
  ResponseHeader_Set h k v c : ResponseHeader h (Set_ k v c) = ResponseHeader h c;
  ResponseHeader_AbortWithStatus h code c : ResponseHeader h (AbortWithStatus code c) = ResponseHeader h c;
  ResponseHeader_Abort h c : ResponseHeader h (Abort c) = ResponseHeader h c;

  Written_Header h v c : Written (Header h v c) = Written c;
  Written_Abort c : Written (Abort c) = Written c;
  Get_Abort k c : Get k (Abort c) = Get k c;
  Get_JSON k code j c : Get k (JSON code j c) = Get k c;
  Get_AbortWithStatus k code c : Get k (AbortWithStatus code c) = Get k c;
  Written_Set k v c : Written (Set_ k v c) = Written c;
  Status_JSON code j c : Written c = false → Status (JSON code j c) = code;
  Status_JSON_written code j c : Written c = true → Status (JSON code j c) = Status c;
  Status_Abort c : Status (Abort c) = Status c;
  IsAborted_Abort c : IsAborted (Abort c) = true;
  Status_AbortWithStatus code c : Written c = false → Status (AbortWithStatus code c) = code;
  IsAborted_AbortWithStatus code c : IsAborted (AbortWithStatus code c) = true
}.

(** What writing through [c.Writer] does, and that changing the request for the
    backend does not touch the response or the path. *)
Class GinWriterLaws (C : Type) `{GinLaws C} := {
  Status_WriteHeader code c : Written c = false → 0 < code → Status (WriteHeader code c) = code;
  Status_Write s c : Status (Write s c) = Status c;
  Written_SetRequestHeader h v c : Written (SetRequestHeader h v c) = Written c;
  Written_SetRequestURL scheme host c : Written (SetRequestURL scheme host c) = Written c;
  Written_SetRequestHost host c : Written (SetRequestHost host c) = Written c;
  Path_Header h v c : URL_Path (Header h v c) = URL_Path c;
  Path_SetRequestHeader h v c : URL_Path (SetRequestHeader h v c) = URL_Path c;
  Path_SetRequestURL scheme host c : URL_Path (SetRequestURL scheme host c) = URL_Path c;
  Path_SetRequestHost host c : URL_Path (SetRequestHost host c) = URL_Path c
}.

(** A property that handlers do not change while they answer: one of the
    request, or a trivial one. *)
Record request_property {C} `{Gin C} (Q : C → Prop) : Prop := {
  rp_Set k v c : Q c → Q (Set_ k v c);
  rp_Header h v c : Q c → Q (Header h v c);
  rp_JSON code j c : Q c → Q (JSON code j c);
  rp_Abort c : Q c → Q (Abort c);
  rp_AbortWithStatus code c : Q c → Q (AbortWithStatus code c)
}.

Lemma request_header {C} `{GinLaws C} (h : string) (P : string → Prop) : request_property (λ c, P (GetHeader h c)).
Proof.
  split; intros; by rewrite ?GetHeader_Set, ?GetHeader_Header, ?GetHeader_JSON, ?GetHeader_Abort,
    ?GetHeader_AbortWithStatus.
Qed.

(** ** Computations on the context and on a component *)

Section lift.
Context {C W : Type}.

(** An operation on the context alone. *)
Definition on_ctx (f : C → C) : Comp (C * W) unit := λ '(c, w), ((f c, w), Ret tt).

Definition get_ctx : Comp (C * W) C := λ s, (s, Ret s.1).

(** A call of the component. *)
Definition on_comp {A} (m : Comp W A) : Comp (C * W) A := λ '(c, w),
  let '(w, a) := m w in ((c, w), a).

(** A handler that works on a part of the state. *)
Definition zoom {S A} (get : W → S) (put : S → W → W) (m : Comp (C * S) A) : Comp (C * W) A := λ '(c, w),
  let '((c, s), a) := m (c, get w) in ((c, put s w), a).

Lemma zoom_step {S A} (get : W → S) (put : S → W → W) (m : Comp (C * S) A) (c c' : C) (w : W) (s : S) (o : go A) :
  m (c, get w) = ((c', s), o) → zoom get put m (c, w) = ((c', put s w), o).
Proof. intros Hm. unfold zoom. by rewrite Hm. Qed.

Lemma on_comp_step {A} (m : Comp W A) (c : C) (w w' : W) (o : go A) :
  m w = (w', o) → on_comp m (c, w) = ((c, w'), o).
Proof. intros Hm. unfold on_comp. by rewrite Hm. Qed.
End lift.

(** ** A context for witnesses *)

Record ctx := {
  x_req : gmap string string;
  x_ip : string;
  x_method : string;
  x_path : string;
  x_params : gmap string string;
  x_query : gmap string string;
  x_json : json;                 (* the body of the request *)
  x_keys : gmap string any;
  x_headers : gmap string string;
  x_status : Z;
  x_written : bool;
  x_body : list json;
  x_aborted : bool
}.

Definition new_ctx (ip : string) (req : gmap string string) : ctx := {|
  x_req := req; x_ip := ip; x_method := "GET"; x_path := "/"; x_params := ∅; x_query := ∅; x_json := JNull; x_keys := ∅; x_headers := ∅;
  x_status := 200; x_written := false; x_body := []; x_aborted := false |}.

Definition x_write_header (code : Z) (c : ctx) : ctx := {|
  x_req := x_req c; x_ip := x_ip c; x_method := x_method c; x_path := x_path c;
  x_params := x_params c; x_query := x_query c; x_json := x_json c; x_keys := x_keys c; x_headers := x_headers c;
  x_status := if x_written c then x_status c else code; x_written := x_written c;
  x_body := x_body c; x_aborted := x_aborted c |}.

Definition x_write_now (c : ctx) : ctx := {|
  x_req := x_req c; x_ip := x_ip c; x_method := x_method c; x_path := x_path c;
  x_params := x_params c; x_query := x_query c; x_json := x_json c; x_keys := x_keys c; x_headers := x_headers c;
  x_status := x_status c; x_written := true; x_body := x_body c; x_aborted := x_aborted c |}.

Definition x_put_body (j : json) (c : ctx) : ctx := {|
  x_req := x_req c; x_ip := x_ip c; x_method := x_method c; x_path := x_path c;
  x_params := x_params c; x_query := x_query c; x_json := x_json c; x_keys := x_keys c; x_headers := x_headers c;
  x_status := x_status c; x_written := true; x_body := x_body c ++ [j]; x_aborted := x_aborted c |}.

Definition x_abort (c : ctx) : ctx := {|
  x_req := x_req c; x_ip := x_ip c; x_method := x_method c; x_path := x_path c;
  x_params := x_params c; x_query := x_query c; x_json := x_json c; x_keys := x_keys c; x_headers := x_headers c;
  x_status := x_status c; x_written := x_written c; x_body := x_body c; x_aborted := true |}.

#[export] Instance ctx_gin : Gin ctx := {|
  Status := x_status;
  URL_Path := x_path;
  Param k c := default "" (x_params c !! k);
  Query k c := default "" (x_query c !! k);
  GetHeader h c := default "" (x_req c !! h);
  ClientIP := x_ip;
  req_Method := x_method;
  Get k c := x_keys c !! k;
  Set_ k v c := {|
    x_req := x_req c; x_ip := x_ip c; x_method := x_method c; x_path := x_path c;
    x_params := x_params c; x_query := x_query c; x_json := x_json c; x_keys := <[k := v]> (x_keys c);
    x_headers := x_headers c; x_status := x_status c; x_written := x_written c; x_body := x_body c;
    x_aborted := x_aborted c |};
  Header h v c := {|
    x_req := x_req c; x_ip := x_ip c; x_method := x_method c; x_path := x_path c;
    x_params := x_params c; x_query := x_query c; x_json := x_json c; x_keys := x_keys c;
    x_headers := if decide (v = "") then delete h (x_headers c) else <[h := v]> (x_headers c);
    x_status := x_status c; x_written := x_written c; x_body := x_body c; x_aborted := x_aborted c |};
  JSON code j c := x_put_body j (x_write_header code c);
  Abort := x_abort;
  AbortWithStatus code c := x_abort (x_write_now (x_write_header code c));
  SetRequestHeader h v c := {|
    x_req := <[h := v]> (x_req c); x_ip := x_ip c; x_method := x_method c; x_path := x_path c;
    x_params := x_params c; x_query := x_query c; x_json := x_json c; x_keys := x_keys c;
    x_headers := x_headers c; x_status := x_status c; x_written := x_written c; x_body := x_body c;
    x_aborted := x_aborted c |};
  SetRequestURL scheme host c := {|
    x_req := <[":scheme" := scheme]> (<[":authority" := host]> (x_req c)); x_ip := x_ip c; x_method := x_method c; x_path := x_path c;
    x_params := x_params c; x_query := x_query c; x_json := x_json c;
    x_keys := x_keys c; x_headers := x_headers c; x_status := x_status c; x_written := x_written c;
    x_body := x_body c; x_aborted := x_aborted c |};
  SetRequestHost host c := {|
    x_req := <[":host" := host]> (x_req c); x_ip := x_ip c; x_method := x_method c; x_path := x_path c;
    x_params := x_params c; x_query := x_query c; x_json := x_json c; x_keys := x_keys c;
    x_headers := x_headers c; x_status := x_status c; x_written := x_written c; x_body := x_body c;
    x_aborted := x_aborted c |};
  WriteHeader := x_write_header;
  Write s := x_put_body (JStr s)
|}.

#[local] Obligation Tactic := intros; simpl in *; repeat (case_decide || simplify_map_eq); try done.

#[export] Program Instance ctx_gin_laws : GinLaws ctx := {|
  Written := x_written;
  ResponseHeader h c := default "" (x_headers c !! h);
  IsAborted := x_aborted
|}.
Next Obligation. by rewrite H. Qed.
Next Obligation. by rewrite H. Qed.
Next Obligation. by rewrite H. Qed.

#[export] Program Instance ctx_writer_laws : GinWriterLaws ctx := {| Status_Write _ _ := eq_refl |}.
Next Obligation. by rewrite H. Qed.
