(* ===== verification/RateLimit.v ===== *)
(** * The rate limiting middleware

    Models [src/internal/middleware/ratelimit.go]: [RateLimitWithTier] picks a
    client's key and limit, asks the limiter, sets the headers of the response,
    and lets the request on to the rest of the chain or refuses it. *)

From S2P Require Import Prelude Strconv Float64 Redis Config Gin.
From S2P Require FixedWindow SlidingWindow TokenBucket Limiter.

Fixpoint findTierConfig (tiers : list RateLimiterTier) (tierName : string) : option RateLimiterTier :=
  match tiers with
  | [] => None
  | tier :: tiers => if decide (tier_Name tier = tierName) then Some tier else findTierConfig tiers tierName
  end.

(** What the limiter is asked for. *)
Record request := { r_tier : string; r_key : string; r_limit : Z; r_algorithm : string }.

(** The clock readings of one request, at each call that makes some. *)
Record clocks := { k_allow : nat → time; k_remaining : nat → time; k_reset : nat → time; k_until : time }.

Section middleware.
Context {C R : Type} `{Gin C} `{Redis.Redis R} `{Rfc3339.LocalZone}.

(** The first half of the handler: the tier, key, limit and algorithm of a
    request.  The type assertion panics on a value of another type, the field
    access on a nil pointer. *)
Definition request_of (cfg : Config) : Comp (C * R) request :=
  c ← get_ctx;
  match Gin.Get "api_key" c with
  | Some (AKey (Some apiKey)) =>
      mret match findTierConfig (RateLimitTiers cfg) (Tier apiKey) with
           | Some tier => {| r_tier := Tier apiKey; r_key := ID apiKey;
                             r_limit := tier_RequestsPerMinute tier; r_algorithm := tier_Algorithm tier |}
           | None => {| r_tier := Tier apiKey; r_key := ID apiKey; r_limit := 60; r_algorithm := "fixed_window" |}
           end
  | Some (AKey None) => panic "runtime error: invalid memory address or nil pointer dereference"
  | None | Some ANil =>
      mret match RateLimitTiers cfg with
           | tier :: _ => {| r_tier := "basic"; r_key := ClientIP c;
                             r_limit := tier_RequestsPerMinute tier; r_algorithm := tier_Algorithm tier |}
           | [] => {| r_tier := "basic"; r_key := ClientIP c; r_limit := 60; r_algorithm := "fixed_window" |}
           end
  | Some _ => panic "interface conversion"
  end.

(** The headers of every response that the limiter decided. *)
Definition set_headers (limit remaining : Z) (resetTime : time) (tier : string) (c : C) : C :=
  Header "X-RateLimit-Tier" tier
    (Header "X-RateLimit-Reset" (pretty (unix resetTime))
      (Header "X-RateLimit-Remaining" (pretty remaining)
        (Header "X-RateLimit-Limit" (pretty limit) c))).

(** The response to a request over the limit. *)
Definition refuse (req : request) (resetTime now : time) (c : C) : C :=
  let retryAfter := f64_to_Z (Seconds (time_sub resetTime now)) in
  let retryAfter := if retryAfter <? 0 then 0 else retryAfter in
  Abort (JSON 429 (JObj [("error", JStr "Rate limit exceeded"); ("tier", JStr (r_tier req));
                         ("limit", JInt (r_limit req)); ("retry_after", JInt (unix resetTime))])
          (Header "Retry-After" (pretty retryAfter) c)).

Definition RateLimitWithTier (cfg : Config) (k : clocks) (next : Comp (C * R) unit) : Comp (C * R) unit :=
  req ← request_of cfg;
  limiter ← on_comp (Limiter.NewLimiter (r_algorithm req) (r_limit req) minute);
  '(allowed, err) ← on_comp (Limiter.Allow limiter (r_key req) (k_allow k));
  match err with
  | Some _ => on_ctx (λ c, Abort (JSON 500 (error_body "Rate limit check failed") c))
  | None =>
      '(remaining, _) ← on_comp (Limiter.Remaining limiter (r_key req) (k_remaining k));
      '(resetTime, _) ← on_comp (Limiter.Reset limiter (r_key req) (k_reset k));
      on_ctx (set_headers (Limiter.Limit limiter) remaining resetTime (r_tier req));;
      if negb allowed then on_ctx (refuse req resetTime (k_until k))
      else next
  end.
End middleware.

(** ** What the limiter leaves alone *)

Section stable.
Context {C R : Type} `{Gin C} `{Redis.Redis R} `{Rfc3339.LocalZone} (P : R → Prop).

Lemma stable_NewLimiter (algorithm : string) (limit : Z) (window : duration) :
  preserves P (Limiter.NewLimiter algorithm limit window).
Proof. unfold Limiter.NewLimiter. solve_preserves. Qed.

Lemma stable_limiter (l : Limiter.Limiter) (key : string) (clk : nat → time) :
  stable P → preserves P (Limiter.Allow l key clk) ∧ preserves P (Limiter.Remaining l key clk) ∧
    preserves P (Limiter.Reset l key clk).
Proof.
  intros HP. destruct l; simpl; split_and!;
    unfold FixedWindow.Allow, FixedWindow.allow_count, FixedWindow.Remaining, FixedWindow.Reset,
      FixedWindow.currentWindow, SlidingWindow.Allow, SlidingWindow.allow_count, SlidingWindow.allow_add,
      SlidingWindow.Remaining, SlidingWindow.Reset, TokenBucket.Allow, TokenBucket.allow_read,
      TokenBucket.allow_write, TokenBucket.Remaining, TokenBucket.Reset; solve_preserves.
Qed.

(** The middleware changes the state of its server by commands only, and passes a
    request on with its properties. *)
Lemma leads_RateLimit (Q : C → Prop) (T : C * R → Prop) (cfg : Config) (k : clocks) (next : Comp (C * R) unit) :
  stable P → request_property Q → (∀ s, Q s.1 ∧ P s.2 → T s) →
  leads (λ s, Q s.1 ∧ P s.2) T next → leads (λ s, Q s.1 ∧ P s.2) T (RateLimitWithTier cfg k next).
Proof.
  intros HP HQ HT Hnext. set (I := λ s : C * R, Q s.1 ∧ P s.2) in *.
  assert (∀ A (m : Comp R A), preserves P m → preserves I (on_comp m)) as Hcomp.
  { intros A m Hm [c r] [Hc Hr]. specialize (Hm r Hr). unfold on_comp. by destruct (m r). }
  assert (∀ f, (∀ c, Q c → Q (f c)) → preserves I (on_ctx f)) as Hctx.
  { intros f Hf [c r] [Hc Hr]. by split; [apply Hf|]. }
  assert (preserves I get_ctx) as Hget by by intros [c r].
  unfold RateLimitWithTier, request_of. apply leads_bind; [done|solve_preserves|]. intros req.
  apply leads_bind; [done|apply Hcomp, stable_NewLimiter|]. intros l.
  destruct (stable_limiter l (r_key req) (k_allow k) HP) as (Ha & _ & _).
  destruct (stable_limiter l (r_key req) (k_remaining k) HP) as (_ & Hr & _).
  destruct (stable_limiter l (r_key req) (k_reset k) HP) as (_ & _ & Hs).
  apply leads_bind; [done|by apply Hcomp|]. intros [allowed [e|]].
  { apply leads_weaken; [done|]. apply Hctx. intros c Hc. by apply (rp_Abort _ HQ), (rp_JSON _ HQ). }
  apply leads_bind; [done|by apply Hcomp|]. intros [remaining e1].
  apply leads_bind; [done|by apply Hcomp|]. intros [resetTime e2].
  apply leads_bind; [done| |intros []; destruct (negb allowed); [|done]].
  - apply Hctx. intros c Hc. unfold set_headers. by repeat apply (rp_Header _ HQ).
  - apply leads_weaken; [done|]. apply Hctx. intros c Hc. unfold refuse. cbv zeta.
    by apply (rp_Abort _ HQ), (rp_JSON _ HQ), (rp_Header _ HQ).
Qed.

Lemma stable_RateLimit (cfg : Config) (k : clocks) (next : Comp (C * R) unit) :
  stable P → preserves (λ s, P s.2) next → preserves (λ s, P s.2) (RateLimitWithTier cfg k next).
Proof.
  intros HP Hnext s Hs. refine (leads_RateLimit (λ _, True) (λ s, P s.2) cfg k next HP _ _ _ s (conj I Hs)).
  - done.
  - by intros s' [].
  - intros s' [_ Hs']. by apply Hnext.
Qed.
End stable.

(** ** A tier with a fixed window *)

Section fixed_window.
Context {C R : Type} `{Gin C} `{RedisReliable R} `{Rfc3339.LocalZone}.
Context (cfg : Config) (req : request).

(** The request of a client with a fixed window. *)
Definition asks (c : C) : Prop := ∀ r : R, request_of cfg (c, r) = ((c, r), Ret req).

Hypothesis fixed : r_algorithm req ≠ "sliding_window" ∧ r_algorithm req ≠ "token_bucket".

Abbreviation f := (FixedWindow.NewFixedWindow (r_limit req) minute).

(** The readings of requests, in order and in the minute [w]. *)
Fixpoint in_minute (w T : Z) (ks : list clocks) : Prop :=
  match ks with
  | [] => True
  | k :: ks =>
      T <= k_allow k 0%nat ∧ k_allow k 0%nat <= k_allow k 1%nat ∧ k_allow k 1%nat <= k_allow k 2%nat ∧
      k_allow k 2%nat <= k_remaining k 0%nat ∧ k_remaining k 0%nat <= k_remaining k 1%nat ∧
      k_remaining k 1%nat <= k_reset k 0%nat ∧
      w * minute <= k_allow k 0%nat ∧ k_reset k 0%nat < (w + 1) * minute ∧
      in_minute w (k_reset k 0%nat) ks
  end.

(** The client's counter stands at [n], and the key that [Remaining] reads is
    not there. *)
Definition at_count (T : time) (w : Z) (n : nat) (r : R) : Prop :=
  FixedWindow.slot_at f T (rd_db r) (FixedWindow.fixed_key (r_key req) w) w n ∧
  live T (FixedWindow.remaining_key (r_key req) w) (rd_db r) = None.

Lemma minute_W : FixedWindow.window f = 60 * second.
Proof. reflexivity. Qed.

Lemma at_count_later (T U : time) (w : Z) (n : nat) (r : R) :
  T <= U → U < (w + 1) * minute → at_count T w n r → at_count U w n r.
Proof.
  intros HTU HU [Hs Hl]. split; [by apply (FixedWindow.slot_at_later f T U)|].
  by rewrite (live_later T U), Hl.
Qed.

(** [Remaining] on a key that is not there. *)
Lemma remaining_absent (w now t : time) (n : nat) (r : R) :
  0 <= now → now <= t → w * minute <= now → t < (w + 1) * minute → t <= max_int64 → at_count t w n r →
  ∃ r', FixedWindow.Remaining f (r_key req) now t r = (r', Ret (r_limit req, None)) ∧ at_count t w n r' ∧
    rd_db r' ≡{t} rd_db r.
Proof.
  intros Hn0 Hn1 Hlo Hhi Hmax [Hs Hl]. set (K := FixedWindow.remaining_key (r_key req) w) in *.
  assert (redis_sem (GET K) t (rd_db r) = Some (rd_db r, RNil)) as Hsem by (simpl; by rewrite Hl).
  destruct (rd_ok t _ r _ _ Hsem) as (r' & Hx & Hd); [done|]. exists r'. split.
  - unfold FixedWindow.Remaining.
    erewrite comp_bind_step by (apply (FixedWindow.currentWindow_eq f 60 ltac:(lia) minute_W); lia).
    rewrite (FixedWindow.in_window_div f w now) by (change (FixedWindow.window f) with minute; lia).
    fold K. unfold Redis.Get. comp_unfold. by rewrite Hx.
  - split; [|done]. split; [by apply (FixedWindow.slot_at_eq f t _ _ _ _ _ Hd)|]. fold K. by rewrite (Hd K).
Qed.

Lemma reset_minute (key : string) (w now : time) (r : R) :
  0 <= now → w * minute <= now → now < (w + 1) * minute → (w + 1) * minute <= max_int64 →
  FixedWindow.Reset f key now r = (r, Ret ((w + 1) * minute, None)).
Proof.
  intros Hn0 Hlo Hhi Hmax. unfold FixedWindow.Reset.
  erewrite comp_bind_step by (apply (FixedWindow.currentWindow_eq f 60 ltac:(lia) minute_W); lia).
  rewrite (FixedWindow.in_window_div f w now) by (change (FixedWindow.window f) with minute; lia).
  rewrite (FixedWindow.windowSeconds_W f 60 ltac:(lia) minute_W). unfold minute in *.
  rewrite (wrap64_id (w + 1)), wrap64_id by int_solve. comp_unfold. unfold second. do 3 f_equal. lia.
Qed.

Definition decided (w : Z) (c : C) : C :=
  set_headers (r_limit req) (r_limit req) ((w + 1) * minute) (r_tier req) c.

(** One request, on every branch that it can take. *)
Lemma RateLimit_step (k : clocks) (next : Comp (C * R) unit) (w T : Z) (n : nat) (c : C) (r : R) :
  asks c → 0 <= w → (w + 1) * minute <= max_int64 → Z.of_nat n < max_int64 →
  in_minute w T [k] → at_count T w n r →
  ∃ r', at_count (k_reset k 0%nat) w (S n) r' ∧
    (∀ K, K ≠ FixedWindow.fixed_key (r_key req) w →
       live (k_reset k 0%nat) K (rd_db r') = live (k_reset k 0%nat) K (rd_db r)) ∧
    RateLimitWithTier cfg k next (c, r) =
      if Z.of_nat (S n) <=? r_limit req then next (decided w c, r')
      else ((refuse req ((w + 1) * minute) (k_until k) (decided w c), r'), Ret tt).
Proof.
  intros Hask Hw Hmax Hn (Hn0 & Hn1 & Hn2 & Hn3 & Hn4 & Hn5 & Hlo & Hhi & _) Hat.
  assert (0 <= w * minute) as Hw0 by (unfold minute; lia).
  apply (at_count_later _ (k_allow k 1%nat)) in Hat as [Hs Hl]; [|lia..].
  destruct (FixedWindow.Allow_counts f 60 ltac:(lia) minute_W (r_key req) w (k_allow k 0%nat)
    (k_allow k 1%nat) (k_allow k 2%nat) r n) as (r1 & HA & Hs1);
    [change (FixedWindow.window f) with minute; (done || lia)..|].
  assert (∀ K, K ≠ FixedWindow.fixed_key (r_key req) w →
    live (k_allow k 2%nat) K (rd_db r1) = live (k_allow k 2%nat) K (rd_db r)) as Hframe.
  { intros K HK. eapply (FixedWindow.Allow_frame f 60 ltac:(lia) minute_W); [| | | | |exact HA]; [lia..|].
    by rewrite (FixedWindow.in_window_div f w) by (change (FixedWindow.window f) with minute; lia). }
  assert (live (k_allow k 2%nat) (FixedWindow.remaining_key (r_key req) w) (rd_db r1) = None) as Hl1.
  { rewrite Hframe; [by rewrite (live_later (k_allow k 1%nat)), Hl by done|].
    intros Heq. symmetry in Heq. by apply FixedWindow.fixed_not_remaining in Heq. }
  assert (at_count (k_remaining k 1%nat) w (S n) r1) as Hat1.
  { apply (at_count_later (k_allow k 2%nat)); [lia..|by split]. }
  destruct (remaining_absent w (k_remaining k 0%nat) (k_remaining k 1%nat) (S n) r1)
    as (r2 & HR & Hat2 & Hd2); [lia..|done|].
  exists r2. split; [apply (at_count_later (k_remaining k 1%nat)); [lia..|done]|]. split.
  { intros K HK. rewrite (live_later (k_remaining k 1%nat)), (Hd2 K) by lia.
    rewrite <- live_later, !(live_later (k_allow k 2%nat) (k_reset k 0%nat)) by lia. by rewrite Hframe. }
  unfold RateLimitWithTier. rewrite (comp_bind_step _ _ _ _ _ (Hask r)).
  assert (Limiter.NewLimiter (r_algorithm req) (r_limit req) minute r = (r, Ret (Limiter.LFixed f))) as HN.
  { unfold Limiter.NewLimiter. rewrite !decide_False by apply fixed. done. }
  erewrite comp_bind_step by (apply on_comp_step, HN).
  erewrite comp_bind_step by (apply on_comp_step, HA). cbv beta iota.
  erewrite comp_bind_step by (apply on_comp_step, HR). cbv beta iota.
  erewrite comp_bind_step by (apply on_comp_step, (reset_minute _ w); lia). cbv beta iota.
  change (FixedWindow.limit f) with (r_limit req).
  by destruct (Z.of_nat (S n) <=? r_limit req).
Qed.

(** Requests one after the other; what is let through goes to [backend]. *)
Fixpoint serve (backend : C → C) (qs : list (C * clocks)) (r : R) : R * list (C * go unit) :=
  match qs with
  | [] => (r, [])
  | (c, k) :: qs =>
      let '((c, r), o) := RateLimitWithTier cfg k (on_ctx backend) (c, r) in
      let '(r, cs) := serve backend qs r in (r, (c, o) :: cs)
  end.

(** The response to the request that is counted as number [n]. *)
Definition response (backend : C → C) (w : Z) (n : nat) (q : C * clocks) : C * go unit :=
  (if Z.of_nat n <=? r_limit req then backend (decided w q.1)
   else refuse req ((w + 1) * minute) (k_until q.2) (decided w q.1), Ret tt).

Lemma serve_responses (backend : C → C) (w T : Z) (qs : list (C * clocks)) (n : nat) (r : R) :
  0 <= w → (w + 1) * minute <= max_int64 → Z.of_nat (n + length qs) <= max_int64 →
  Forall (λ q, asks q.1) qs → in_minute w T (snd <$> qs) → at_count T w n r →
  (serve backend qs r).2 = imap (λ i q, response backend w (S n + i) q) qs.
Proof.
  intros Hw Hmax. revert T n r. induction qs as [|[c k] qs IH]; intros T n r Hn Hall Hin Hat; [done|].
  apply Forall_cons in Hall as [Hask Hall]. cbn [length] in Hn.
  assert (Hk : in_minute w T [k]) by (cbn in Hin; cbn; tauto).
  destruct (RateLimit_step k (on_ctx backend) w T n c r) as (r' & Hat' & _ & Hstep); [(done || lia)..|].
  assert (Hin' : in_minute w (k_reset k 0%nat) (snd <$> qs)) by (cbn in Hin; tauto).
  specialize (IH (k_reset k 0%nat) (S n) r' ltac:(lia) Hall Hin' Hat').
  cbn [serve imap]. rewrite Hstep.
  rewrite Nat.add_0_r. unfold response at 1. cbn [fst snd].
  rewrite (imap_ext _ (λ i q, response backend w (S (S n) + i) q) qs)
    by (intros i q _; unfold compose; f_equal; lia).
  destruct (Z.of_nat (S n) <=? r_limit req); unfold on_ctx;
    destruct (serve backend qs r') as [r'' cs]; cbn [snd] in *; by rewrite IH.
Qed.
End fixed_window.

(** ** Properties *)

Section properties.
Context {C R : Type} `{GinLaws C} `{RedisReliable R} `{Rfc3339.LocalZone}.

Lemma refuse_response (req : request) (limit remaining : Z) (reset now : time) (c : C) :
  Written c = false →
  let c' := refuse req reset now (set_headers limit remaining reset (r_tier req) c) in
  Status c' = 429 ∧ IsAborted c' = true.
Proof.
  intros Hw c'. unfold c', refuse, set_headers. rewrite Status_Abort, IsAborted_Abort. split; [|done].
  apply Status_JSON. by rewrite !Written_Header.
Qed.

Lemma refuse_header (req : request) (limit remaining : Z) (reset now : time) (c : C) :
  r_tier req ≠ "" →
  ResponseHeader "X-RateLimit-Remaining"
    (refuse req reset now (set_headers limit remaining reset (r_tier req) c)) = pretty remaining.
Proof.
  intros Ht. assert (∀ z : Z, pretty z ≠ "") as Hp.
  { intros z Hz. pose proof (parse_int_pretty z) as E. by rewrite Hz in E. }
  unfold refuse, set_headers. rewrite ResponseHeader_Abort, ResponseHeader_JSON by done.
  rewrite !ResponseHeader_Header by done. by repeat case_decide.
Qed.

(** C6: The middleware holds a fixed-window tier to its limit end to end: of one
    client's requests in a minute, exactly the first [limit] reach the rest of
    the chain; every other one is answered with status 429, its chain aborted. *)
Theorem rate_limit_end_to_end (cfg : Config) (req : request) (backend : C → C) (w T : Z)
    (qs : list (C * clocks)) (r : R) (i : nat) (c : C) (k : clocks)
    (Hfixed : r_algorithm req ≠ "sliding_window" ∧ r_algorithm req ≠ "token_bucket")
    (Hw : 0 <= w) (Hmax : (w + 1) * minute <= max_int64) (Hlen : Z.of_nat (length qs) <= max_int64)
    (Hask : Forall (λ q, asks (R := R) cfg req q.1 ∧ Written q.1 = false) qs)
    (Hin : in_minute w T (snd <$> qs)) (Hfresh : at_count req T w 0 r) (Hi : qs !! i = Some (c, k)) :
  ∃ c', (serve cfg backend qs r).2 !! i = Some (c', Ret tt) ∧
    if Z.of_nat i <? r_limit req then c' = backend (decided req w c)
    else Status c' = 429 ∧ IsAborted c' = true.
Proof.
  pose proof (Forall_lookup_1 _ _ _ _ Hask Hi) as [_ Hwr].
  rewrite (serve_responses cfg req Hfixed backend w T qs 0 r); [|lia|done..| |done|done].
  2: { eapply Forall_impl; [done|]. by intros q []. }
  rewrite list_lookup_imap, Hi. eexists. split; [done|]. simpl.
  destruct (Z.ltb_spec (Z.of_nat i) (r_limit req)) as [Hlt|Hge].
  - by rewrite (proj2 (Z.leb_le _ _)) by lia.
  - rewrite (proj2 (Z.leb_gt _ _)) by lia. by apply refuse_response.
Qed.

(** The header that tells a client how many requests it has left is wrong for
    a fixed-window tier: a request refused because the limit is used up still
    carries the whole limit as its [X-RateLimit-Remaining]. *)
Theorem remaining_header_wrong (cfg : Config) (req : request) (backend : C → C) (w T : Z)
    (qs : list (C * clocks)) (r : R) (i : nat) (c : C) (k : clocks)
    (Hfixed : r_algorithm req ≠ "sliding_window" ∧ r_algorithm req ≠ "token_bucket")
    (Hw : 0 <= w) (Hmax : (w + 1) * minute <= max_int64) (Hlen : Z.of_nat (length qs) <= max_int64)
    (Hask : Forall (λ q, asks (R := R) cfg req q.1) qs) (Htier : r_tier req ≠ "")
    (Hin : in_minute w T (snd <$> qs)) (Hfresh : at_count req T w 0 r) (Hi : qs !! i = Some (c, k))
    (Hover : r_limit req <= Z.of_nat i) :
  ∃ c', (serve cfg backend qs r).2 !! i = Some (c', Ret tt) ∧
    ResponseHeader "X-RateLimit-Remaining" c' = pretty (r_limit req).
Proof.
  rewrite (serve_responses cfg req Hfixed backend w T qs 0 r); [|lia|done..].
  rewrite list_lookup_imap, Hi. eexists. split; [done|]. simpl.
  rewrite (proj2 (Z.leb_gt _ _)) by lia. by apply refuse_header.
Qed.
End properties.

(** ** Witnesses *)

#[local] Existing Instance Rfc3339.utc.

Definition example_config : Config := {|
  Server := {| srv_Port := "8080"; srv_Environment := "development" |};
  Config.Redis := {| redis_Host := "localhost"; redis_Port := 6379; redis_Password := ""; redis_DB := 0 |};
  Database := {| db_Host := "localhost"; db_Port := 5433; db_User := "gateway"; db_Password := "password";
                 db_DBName := "gateway"; db_SSLMode := "disable" |};
  JWT := {| jwt_Secret := "my-secret-key"; jwt_ExpiryHours := 24 |};
  Analytics := {| an_Enabled := true; an_RetentionDays := 90; an_BatchSize := 100; an_FlushIntervalSec := 5 |};
  Services := [];
  RateLimitTiers := [{| tier_Name := "basic"; tier_RequestsPerMinute := 2; tier_RequestsPerHour := 1000;
                        tier_Algorithm := "fixed_window" |}]
|}.

Definition anonymous : request :=
  {| r_tier := "basic"; r_key := "10.0.0.7"; r_limit := 2; r_algorithm := "fixed_window" |}.

Definition at_time (t : time) : clocks :=
  {| k_allow _ := t; k_remaining _ := t; k_reset _ := t; k_until := t |}.

Definition three_requests : list (ctx * clocks) :=
  (λ t, (new_ctx "10.0.0.7" ∅, at_time t)) <$> [61 * second; 62 * second; 63 * second].

Definition say_hello : ctx → ctx := JSON 200 (JStr "hello").

Lemma rate_limit_end_to_end_witness :
  ∃ c', (serve (R := RefRedis) example_config say_hello three_requests ∅).2 !! 2%nat = Some (c', Ret tt) ∧
    Status c' = 429 ∧ IsAborted c' = true.
Proof.
  apply (rate_limit_end_to_end (R := RefRedis) example_config anonymous say_hello 1 minute three_requests ∅ 2
    (new_ctx "10.0.0.7" ∅) (at_time (63 * second))).
  - split; discriminate.
  - lia.
  - vm_compute. discriminate.
  - vm_compute. discriminate.
  - repeat (constructor; [split; [intros r|]; reflexivity|]). constructor.
  - simpl. unfold minute, second. lia.
  - split; reflexivity.
  - reflexivity.
Defined.

Lemma remaining_header_wrong_witness :
  ∃ c', (serve (R := RefRedis) example_config say_hello three_requests ∅).2 !! 2%nat = Some (c', Ret tt) ∧
    ResponseHeader "X-RateLimit-Remaining" c' = "2".
Proof.
  apply (remaining_header_wrong (R := RefRedis) example_config anonymous say_hello 1 minute three_requests ∅ 2
    (new_ctx "10.0.0.7" ∅) (at_time (63 * second))).
  - split; discriminate.
  - lia.
  - vm_compute. discriminate.
  - vm_compute. discriminate.
  - repeat (constructor; [intros r; reflexivity|]). constructor.
  - discriminate.
  - simpl. unfold minute, second. lia.
  - split; reflexivity.
  - reflexivity.
  - vm_compute. discriminate.
Defined.
