(* ===== verification/Proxy.v ===== *)
(** * The reverse proxy of a service

    Models [src/internal/proxy/proxy.go]: [NewWithConfig] and [Handle], which
    takes a healthy target from the health checker, lets the strategy choose,
    counts the connection, and forwards the request under the circuit breaker.
    [Handle] runs a handler alone; [advance] is one step of a handler among
    others, from one locked section or backend call to the next.

    The backend and [httputil.ReverseProxy] in front of it are the class
    [Backend]: forwarding a request makes a list of calls on the response
    writer and then returns or panics (the reverse proxy panics when the
    backend breaks off its answer). *)

From S2P Require Import Prelude Quote Gin.
From S2P Require Url CircuitBreaker LoadBalancer HealthCheck.

(** The calls of [ServeHTTP] on its response writer. *)
Inductive wcall := WHeader (statusCode : Z) | WBody (data : string).

Class Backend (C B : Type) := ServeHTTP : string → C → B → B * list wcall * go unit.

(** [proxies] holds the targets that have a reverse proxy. *)
Record Proxy (G : Type) := {
  targets : list string;
  proxies : gset string;
  circuitBreaker : CircuitBreaker.CircuitBreaker;
  loadBalancer : LoadBalancer.Strategy G;
  healthChecker : HealthCheck.Checker
}.
Arguments targets {G} _.
Arguments proxies {G} _.
Arguments circuitBreaker {G} _.
Arguments loadBalancer {G} _.
Arguments healthChecker {G} _.

Record Config := {
  Targets : list string;
  LoadBalancerStrategy : string;
  CircuitBreakerCfg : CircuitBreaker.Config;
  HealthCheckCfg : HealthCheck.Config
}.

Definition set_breaker {G} (cb : CircuitBreaker.CircuitBreaker) (p : Proxy G) : Proxy G := {|
  targets := targets p; proxies := proxies p; circuitBreaker := cb;
  loadBalancer := loadBalancer p; healthChecker := healthChecker p |}.

Definition set_balancer {G} (lb : LoadBalancer.Strategy G) (p : Proxy G) : Proxy G := {|
  targets := targets p; proxies := proxies p; circuitBreaker := circuitBreaker p;
  loadBalancer := lb; healthChecker := healthChecker p |}.

(** ** Creation *)

Section create.
Context {G : Type} `{LoadBalancer.Rand G} `{Unicode} `{Url.IpLiteral}.

(** The loop that creates the reverse proxies: the first bad URL is the error. *)
Fixpoint make_proxies (ts : list string) (m : gset string) : gset string + string :=
  match ts with
  | [] => inl m
  | targetURL :: ts =>
      match Url.Parse targetURL with
      | inr err => inr err
      | inl _ => make_proxies ts ({[targetURL]} ∪ m)
      end
  end.

(** [cfg.HealthCheck] with its targets filled in when they are nil; a slice
    that is empty but not nil does not occur. *)
Definition health_config (cfg : Config) : HealthCheck.Config :=
  let hc := HealthCheckCfg cfg in
  {| HealthCheck.Targets := if decide (HealthCheck.Targets hc = []) then Targets cfg else HealthCheck.Targets hc;
     HealthCheck.Endpoint := HealthCheck.Endpoint hc; HealthCheck.Interval := HealthCheck.Interval hc; HealthCheck.Timeout := HealthCheck.Timeout hc;
     HealthCheck.MaxFailures := HealthCheck.MaxFailures hc |}.

(** [NewWithConfig]; [now] is the clock, [js] the probes of the first round. *)
Definition NewWithConfig (cfg : Config) (now : nat → time) (js : list HealthCheck.job) : go (Proxy G + string) :=
  if decide (Targets cfg = []) then Ret (inr "at least one target is required")
  else
    let cb := CircuitBreaker.New (CircuitBreakerCfg cfg) (now 0%nat) in
    match LoadBalancer.NewStrategy (LoadBalancerStrategy cfg) (now 1%nat) with
    | inr err => Ret (inr err)
    | inl lb =>
        match make_proxies (Targets cfg) ∅ with
        | inr err => Ret (inr err)
        | inl ps =>
            match HealthCheck.Start js (HealthCheck.NewChecker (health_config cfg) (λ i, now (2 + i)%nat)) with
            | (_, Panic msg) => Panic msg
            | (hc, Ret _) =>
                Ret (inl {| targets := Targets cfg; proxies := ps; circuitBreaker := cb;
                            loadBalancer := lb; healthChecker := hc |})
            end
        end
    end.

(** [New]: one target and the default breaker. *)
Definition New (targetURL : string) : (nat → time) → list HealthCheck.job → go (Proxy G + string) :=
  NewWithConfig {|
    Targets := [targetURL];
    LoadBalancerStrategy := "round-robin";
    CircuitBreakerCfg := {| CircuitBreaker.MaxFailures := 5; CircuitBreaker.Timeout := 30 * second; CircuitBreaker.HalfOpenSuccess := 1 |};
    HealthCheckCfg := {| HealthCheck.Targets := []; HealthCheck.Endpoint := ""; HealthCheck.Interval := 0; HealthCheck.Timeout := 0; HealthCheck.MaxFailures := 0 |}
  |}.
End create.

(** ** Handling a request *)

Section handle.
Context {G C B : Type} `{LoadBalancer.Rand G} `{Gin C} `{Backend C B} `{Unicode} `{Url.IpLiteral}.

(** The state of a request: its context, the proxy, the backend. *)
Abbreviation St := (C * (Proxy G * B))%type.

(** [responseRecorder]: the calls go on to the context's writer; the status is
    that of the last [WriteHeader], 200 without one. *)
Definition write (c : C) (w : wcall) : C :=
  match w with
  | WHeader statusCode => WriteHeader statusCode c
  | WBody data => Write data c
  end.

Definition statusCode (ws : list wcall) : Z :=
  foldl (λ s w, match w with WHeader code => code | WBody _ => s end) 200 ws.

(** The changes to the request and the response before it is forwarded. *)
Definition prepare (selectedTarget : string) (target : Url.URL) (c : C) : C :=
  let c := SetRequestURL (Url.Scheme target) (Url.Host target) c in
  let c := SetRequestHeader "X-Forwarded-Host" (GetHeader "Host" c) c in
  let c := SetRequestHost (Url.Host target) c in
  let clientIP := ClientIP c in
  let c := if decide (clientIP = "") then c else SetRequestHeader "X-Forwarded-For" clientIP c in
  Header "X-Backend-Server" selectedTarget c.

(** The function that [Handle] passes to the circuit breaker.  The target was
    parsed when the proxy was created; a nil URL is dereferenced. *)
Definition forward (selectedTarget : string) : Comp (C * B) (option string) := λ '(c, b),
  match Url.Parse selectedTarget with
  | inr _ => ((c, b), Panic "runtime error: invalid memory address or nil pointer dereference")
  | inl target =>
      let c := prepare selectedTarget target c in
      let '(b, ws, o) := ServeHTTP selectedTarget c b in
      ((foldl write c ws, b),
       match o with
       | Ret _ => Ret (if statusCode ws >=? 500 then Some "backend error" else None)
       | Panic msg => Panic msg
       end)
  end.

Definition get_proxy : Comp St (Proxy G) := λ s, (s, Ret s.2.1).

(** A call of the load balancer, and of the circuit breaker. *)
Definition on_balancer {A} (m : Comp (LoadBalancer.Strategy G) A) : Comp St A := λ '(c, (p, b)),
  let '(lb, a) := m (loadBalancer p) in ((c, (set_balancer lb p, b)), a).

Definition on_breaker (fn : Comp (C * B) (option string)) (t1 t2 t3 t4 : time)
    : Comp St (option (CircuitBreaker.call_error string)) := λ '(c, (p, b)),
  let '(cb, (c, b), o) := CircuitBreaker.Call fn t1 t2 t3 t4 (circuitBreaker p) (c, b) in
  ((c, (set_breaker cb p, b)), o).

(** [lc.Increment(target)] and [lc.Decrement(target)] where the strategy is
    least connections. *)
Definition lc_apply (f : LoadBalancer.LeastConnections → LoadBalancer.LeastConnections) (lb : LoadBalancer.Strategy G) : LoadBalancer.Strategy G :=
  match lb with
  | LoadBalancer.SLeastConnections l => LoadBalancer.SLeastConnections (f l)
  | _ => lb
  end.

Definition change_balancer (f : LoadBalancer.Strategy G → LoadBalancer.Strategy G) (s : St) : St :=
  let '(c, (p, b)) := s in (c, (set_balancer (f (loadBalancer p)) p, b)).

(** The increment, and the deferred decrement. *)
Definition tracked {A} (target : string) (body : Comp St A) : Comp St A := λ s,
  with_defer body (change_balancer (lc_apply (LoadBalancer.Decrement target)))
    (change_balancer (lc_apply (LoadBalancer.Increment target)) s).

Definition unavailable (msg : string) : Comp St unit := on_ctx (JSON 503 (error_body msg)).

(** [Handle]; the breaker reads the clock up to four times. *)
Definition Handle (t1 t2 t3 t4 : time) : Comp St unit :=
  p ← get_proxy;
  let healthyTargets := HealthCheck.GetHealthyTargets (healthChecker p) in
  if decide (healthyTargets = []) then unavailable "No healthy backend servers available"
  else
    selectedTarget ← on_balancer (LoadBalancer.Next healthyTargets);
    if decide (selectedTarget = "") then unavailable "Failed to select backend server"
    else if decide (selectedTarget ∈ proxies p) then
      tracked selectedTarget (
        err ← on_breaker (forward selectedTarget) t1 t2 t3 t4;
        match err with
        | Some CircuitBreaker.ErrCircuitOpen => unavailable "Service temporarily unavailable"
        | _ => mret tt
        end)
    else unavailable "Internal server error".

(** The other methods. *)
Definition CircuitBreakerState (p : Proxy G) : CircuitBreaker.State := CircuitBreaker.GetState (circuitBreaker p).
Definition CircuitBreakerMetrics (p : Proxy G) : CircuitBreaker.Metrics := CircuitBreaker.GetMetrics (circuitBreaker p).
Definition ResetCircuitBreaker (now : time) (p : Proxy G) : Proxy G :=
  set_breaker (CircuitBreaker.Reset now (circuitBreaker p)) p.
Definition GetHealthStatus (p : Proxy G) : gmap string HealthCheck.Status := HealthCheck.GetAllStatus (healthChecker p).
Definition GetHealthyTargets (p : Proxy G) : list string := HealthCheck.GetHealthyTargets (healthChecker p).
Definition GetAllTargets (p : Proxy G) : list string := HealthCheck.GetAllTargets (healthChecker p).
Definition OverallHealth (p : Proxy G) : HealthCheck.HealthStatus := HealthCheck.OverallHealth (healthChecker p).

Definition Stop (p : Proxy G) : Proxy G * go unit :=
  let '(hc, o) := HealthCheck.Stop (healthChecker p) in
  ({| targets := targets p; proxies := proxies p; circuitBreaker := circuitBreaker p;
      loadBalancer := loadBalancer p; healthChecker := hc |}, o).

(** ** Handlers that run at the same time

    A request and the clock readings of its breaker calls. *)
Record request := { q_ctx : C; q_t1 : time; q_t2 : time; q_t3 : time; q_t4 : time }.

(** Where a handler is in [Handle], between two calls that take a lock or reach
    the backend: before [GetHealthyTargets], [Next], [Increment], the first
    section of [Call], the backend, the second section of [Call], the deferred
    [Decrement] (returning, or unwinding from a panic); and after it. *)
Inductive thread :=
  | Arrived (q : request)
  | Picked (q : request) (healthyTargets : list string)
  | Chosen (q : request) (selectedTarget : string)
  | Tracked (q : request) (selectedTarget : string)
  | Forwarding (q : request) (selectedTarget : string)
  | Served (q : request) (selectedTarget : string) (c : C) (err : option string)
  | Closing (selectedTarget : string) (c : C)
  | Unwinding (selectedTarget : string) (msg : string)
  | Answered (c : C)
  | Crashed (msg : string).

(** The next step of a handler. *)
Definition advance (th : thread) : Proxy G * B → thread * (Proxy G * B) := λ '(p, b),
  match th with
  | Arrived q =>
      let healthyTargets := HealthCheck.GetHealthyTargets (healthChecker p) in
      if decide (healthyTargets = []) then
        (Answered (JSON 503 (error_body "No healthy backend servers available") (q_ctx q)), (p, b))
      else (Picked q healthyTargets, (p, b))
  | Picked q healthyTargets =>
      let '(lb, o) := LoadBalancer.Next healthyTargets (loadBalancer p) in
      (match o with
       | Panic msg => Crashed msg
       | Ret selectedTarget =>
           if decide (selectedTarget = "") then
             Answered (JSON 503 (error_body "Failed to select backend server") (q_ctx q))
           else if decide (selectedTarget ∈ proxies p) then Chosen q selectedTarget
           else Answered (JSON 503 (error_body "Internal server error") (q_ctx q))
       end, (set_balancer lb p, b))
  | Chosen q sel => (Tracked q sel, (set_balancer (lc_apply (LoadBalancer.Increment sel) (loadBalancer p)) p, b))
  | Tracked q sel =>
      let '(cb, admitted) := CircuitBreaker.begin_call (q_t1 q) (q_t2 q) (circuitBreaker p) in
      (if (admitted : bool) then Forwarding q sel
       else Closing sel (JSON 503 (error_body "Service temporarily unavailable") (q_ctx q)), (set_breaker cb p, b))
  | Forwarding q sel =>
      let '((c, b), o) := forward sel (q_ctx q, b) in
      (match o with Ret err => Served q sel c err | Panic msg => Unwinding sel msg end, (p, b))
  | Served q sel c err =>
      (Closing sel c, (set_breaker (CircuitBreaker.end_call err (q_t3 q) (q_t4 q) (circuitBreaker p)) p, b))
  | Closing sel c => (Answered c, (set_balancer (lc_apply (LoadBalancer.Decrement sel) (loadBalancer p)) p, b))
  | Unwinding sel msg => (Crashed msg, (set_balancer (lc_apply (LoadBalancer.Decrement sel) (loadBalancer p)) p, b))
  | Answered _ | Crashed _ => (th, (p, b))
  end.

(** [k] steps of a handler that nothing interrupts. *)
Fixpoint run_steps (k : nat) (th : thread) (s : Proxy G * B) : thread * (Proxy G * B) :=
  match k with
  | O => (th, s)
  | S k => let '(th, s) := advance th s in run_steps k th s
  end.
End handle.

(** ** What a request does *)

#[local] Existing Instance LoadBalancer.Strategy_Balancer.
#[local] Arguments forward : simpl never.

Section spec.
Context {G C B : Type} `{LoadBalancer.RandLaws G} `{Gin C} `{Backend C B} `{Unicode} `{Url.IpLiteral}.

(** Every healthy target is named and has a reverse proxy, and the strategy can
    serve [n] more requests. *)
Record ready (n : nat) (p : Proxy G) : Prop := {
  ready_proxies : ∀ t, t ∈ GetHealthyTargets p → t ≠ "" ∧ t ∈ proxies p;
  ready_parse : ∀ t, t ∈ proxies p → ∃ u, Url.Parse t = inl u;
  ready_balancer : LoadBalancer.strategy_ok n (loadBalancer p)
}.

(** The proxy after a request to [sel]: the strategy [lb] after its choice, the
    connection opened and closed again, and the breaker [cb]. *)
Definition after (sel : string) (lb : LoadBalancer.Strategy G) (cb : CircuitBreaker.CircuitBreaker) (p : Proxy G) : Proxy G :=
  set_balancer (lc_apply (LoadBalancer.Decrement sel) (lc_apply (LoadBalancer.Increment sel) lb)) (set_breaker cb p).

(** A request with a healthy target, on every branch. *)
Lemma Handle_eq (n : nat) (t1 t2 t3 t4 : time) (c : C) (p : Proxy G) (b : B) :
  ready (S n) p → GetHealthyTargets p ≠ [] →
  ∃ lb sel, LoadBalancer.Next (GetHealthyTargets p) (loadBalancer p) = (lb, Ret sel) ∧
    sel ∈ GetHealthyTargets p ∧ LoadBalancer.strategy_ok n lb ∧
    Handle t1 t2 t3 t4 (c, (p, b)) =
      let '(cb, admitted) := CircuitBreaker.begin_call t1 t2 (circuitBreaker p) in
      if admitted then
        match forward sel (c, b) with
        | ((c', b'), Ret err) => ((c', (after sel lb (CircuitBreaker.end_call err t3 t4 cb) p, b')), Ret tt)
        | ((c', b'), Panic msg) => ((c', (after sel lb cb p, b')), Panic msg)
        end
      else ((JSON 503 (error_body "Service temporarily unavailable") c, (after sel lb cb p, b)), Ret tt).
Proof.
  intros [Hin _ Hok] Hne.
  destruct (LoadBalancer.balancer_next n (GetHealthyTargets p) (loadBalancer p) Hne Hok) as (lb & sel & HN & Hsel & Hlb).
  destruct (Hin sel Hsel) as [Hnamed Hprox]. exists lb, sel. split_and!; [done..|].
  unfold Handle, get_proxy, on_balancer, tracked, with_defer, on_breaker, CircuitBreaker.Call. comp_unfold.
  unfold GetHealthyTargets in *. rewrite decide_False by done. rewrite HN.
  rewrite decide_False, decide_True by done. simpl.
  destruct (CircuitBreaker.begin_call t1 t2 (circuitBreaker p)) as [cb [|]]; simpl; [|done].
  destruct (forward sel (c, b)) as [[c' b'] [err|msg]]; simpl; [|done]. by destruct err.
Qed.

Lemma run_steps_done (k : nat) (th : thread) (s : Proxy G * B) :
  (∃ c, th = Answered c) ∨ (∃ msg, th = Crashed msg) → run_steps k th s = (th, s).
Proof. destruct s as [p b]. intros [[c ->]|[msg ->]]; by induction k. Qed.

(** The steps of a handler are those of [Handle]: a handler that nothing
    interrupts has done after seven steps what [Handle] does. *)
Lemma run_steps_Handle (q : request) (s : Proxy G * B) :
  run_steps 7 (Arrived q) s =
    let '((c, s), o) := Handle (q_t1 q) (q_t2 q) (q_t3 q) (q_t4 q) (q_ctx q, s) in
    (match o with Ret _ => Answered c | Panic msg => Crashed msg end, s).
Proof.
  destruct s as [p b].
  unfold Handle, get_proxy, on_balancer, tracked, with_defer, on_breaker, unavailable, on_ctx, change_balancer.
  comp_unfold. cbn [run_steps advance].
  destruct (decide (HealthCheck.GetHealthyTargets (healthChecker p) = [])); [done|].
  cbn [advance]. destruct (LoadBalancer.Next _ (loadBalancer p)) as [lb [sel|msg]]; [|done].
  destruct (decide (sel = "")); [done|]. destruct (decide (sel ∈ proxies p)); [|done].
  unfold CircuitBreaker.Call. cbn [advance circuitBreaker set_balancer].
  destruct (CircuitBreaker.begin_call _ _ (circuitBreaker p)) as [cb [|]]; [|done].
  cbn [advance]. destruct (forward sel (q_ctx q, b)) as [[c b'] [err|msg]]; [|done]. by destruct err.
Qed.

(** What forwarding does to the backend. *)
Lemma forward_backend (sel : string) (u : Url.URL) (c c' : C) (b b' : B) (o : go (option string)) :
  Url.Parse sel = inl u → forward sel (c, b) = ((c', b'), o) →
  ∃ ws o', ServeHTTP sel (prepare sel u c) b = (b', ws, o') ∧
    match o' with
    | Ret _ => o = Ret (if statusCode ws >=? 500 then Some "backend error" else None)
    | Panic msg => o = Panic msg
    end.
Proof.
  unfold forward. intros -> Hf. destruct (ServeHTTP sel (prepare sel u c) b) as [[b1 ws] o'].
  simplify_eq. exists ws, o'. split; [done|]. by destruct o'.
Qed.

Lemma lc_roundtrip (sel t : string) (l : LoadBalancer.LeastConnections) :
  0 <= LoadBalancer.conn l sel < max_int64 → LoadBalancer.conn (LoadBalancer.Decrement sel (LoadBalancer.Increment sel l)) t = LoadBalancer.conn l t.
Proof.
  intros Hc. assert (LoadBalancer.conn (LoadBalancer.Increment sel l) sel = LoadBalancer.conn l sel + 1) as Hi.
  { rewrite LoadBalancer.conn_Increment, decide_True by done. apply wrap64_id. int_solve. }
  rewrite LoadBalancer.conn_Decrement, Hi. case_decide as Hd.
  - destruct Hd as [<- _]. rewrite wrap64_id by int_solve. lia.
  - rewrite LoadBalancer.conn_Increment, decide_False; [done|]. intros ->. apply Hd. split; [done|lia].
Qed.
End spec.

(** ** Creation establishes what requests need *)

Section creation.
Context {G : Type} `{LoadBalancer.Rand G} `{Unicode} `{Url.IpLiteral}.

Lemma make_proxies_spec (ts : list string) (m : gset string) :
  match make_proxies ts m with
  | inl ps => (∀ t, t ∈ ps ↔ t ∈ m ∨ t ∈ ts) ∧ ∀ t, t ∈ ts → ∃ u, Url.Parse t = inl u
  | inr err => ∃ t, t ∈ ts ∧ Url.Parse t = inr err
  end.
Proof.
  revert m. induction ts as [|t ts IH]; intros m; simpl; [set_solver|].
  destruct (Url.Parse t) as [u|err] eqn:Hp; [|set_solver].
  specialize (IH ({[t]} ∪ m)). destruct (make_proxies ts ({[t]} ∪ m)) as [ps|err]; [|set_solver].
  destruct IH as [Hin Hall]. split; [set_solver|]. intros t' [->|Ht']%elem_of_cons; eauto.
Qed.

Lemma NewStrategy_ok (name : string) (now : time) (lb : LoadBalancer.Strategy G) (n : nat) :
  LoadBalancer.NewStrategy name now = inl lb → Z.of_nat n <= max_int64 → LoadBalancer.strategy_ok n lb.
Proof.
  unfold LoadBalancer.NewStrategy. intros Hlb Hn. repeat (case_decide; simplify_eq/=; try done).
  right. simpl. unfold max_int64 in *. lia.
Qed.

(** The first round of a new checker. *)
Lemma Start_new (cfg : HealthCheck.Config) (now : nat → time) (js : list HealthCheck.job) :
  in_int64 (HealthCheck.MaxFailures cfg) → Z.of_nat (length (HealthCheck.Targets cfg)) <= max_int64 →
  HealthCheck.round_of js (HealthCheck.NewChecker cfg now) →
  ∃ hc, HealthCheck.Start js (HealthCheck.NewChecker cfg now) = (hc, Ret true) ∧
    HealthCheck.targets hc = HealthCheck.Targets cfg ∧
    (∀ t, t ∈ HealthCheck.GetHealthyTargets hc → t ∈ HealthCheck.Targets cfg) ∧
    HealthCheck.running hc = true ∧ HealthCheck.stopClosed hc = false.
Proof.
  intros HM Hlen Hr. set (c := HealthCheck.NewChecker cfg now).
  destruct (HealthCheck.checkAll_inv js (HealthCheck.set_running false true c) 0) as (hc & HC & Hinv & Ht & Hstop & Hrun).
  { destruct (HealthCheck.NewChecker_inv cfg now HM). by split. } { done. } { simpl. lia. }
  exists hc. split_and!; [|done| |done|done].
  - unfold HealthCheck.Start, HealthCheck.start_section. comp_unfold. by rewrite HC.
  - intros t. unfold HealthCheck.GetHealthyTargets. intros Hin. simpl in Ht. rewrite <- Ht.
    eapply elem_of_sublist; [done|]. apply Hinv.
Qed.
End creation.

(** ** Properties *)

Section properties.
Context {G C B : Type} `{LoadBalancer.RandLaws G} `{GinLaws C} `{Backend C B} `{Unicode} `{Url.IpLiteral}.

Lemma strategy_apply (n : nat) (f : LoadBalancer.LeastConnections → LoadBalancer.LeastConnections)
    (lb : LoadBalancer.Strategy G) : LoadBalancer.strategy_ok n lb → LoadBalancer.strategy_ok n (lc_apply f lb).
Proof. by destruct lb. Qed.

Lemma ready_after (n : nat) (sel : string) (lb : LoadBalancer.Strategy G) (cb : CircuitBreaker.CircuitBreaker)
    (p : Proxy G) (m : nat) :
  ready m p → LoadBalancer.strategy_ok n lb → ready n (after sel lb cb p).
Proof. intros [Hin Hp _] Hlb. split; [done|done|]. simpl. by do 2 apply strategy_apply. Qed.

Lemma ready_less (n : nat) (p : Proxy G) : ready (S n) p → ready n p.
Proof. intros [? ? Hok]. split; [done..|]. by apply LoadBalancer.strategy_less. Qed.

(** C4: A request reaches at most one backend, and only a configured target that
    the health checker holds healthy, that the strategy chose, and that the
    circuit breaker lets through; the proxy stays ready for the next request. *)
Theorem handle_forwards_healthy (n : nat) (t1 t2 t3 t4 : time) (c c' : C) (p p' : Proxy G) (b b' : B) (o : go unit)
    (Hready : ready (S n) p) (Hrun : Handle t1 t2 t3 t4 (c, (p, b)) = ((c', (p', b')), o)) :
  ready n p' ∧
  (b' = b ∨
   ∃ sel u ws o', sel ∈ GetHealthyTargets p ∧ sel ∈ proxies p ∧ Url.Parse sel = inl u ∧
     (LoadBalancer.Next (GetHealthyTargets p) (loadBalancer p)).2 = Ret sel ∧
     (CircuitBreaker.begin_call t1 t2 (circuitBreaker p)).2 = true ∧
     ServeHTTP sel (prepare sel u c) b = (b', ws, o')).
Proof.
  destruct (decide (GetHealthyTargets p = [])) as [Hnil|Hne].
  { unfold Handle, get_proxy in Hrun. comp_unfold. unfold GetHealthyTargets in Hnil. simpl in *.
    rewrite decide_True in Hrun by done. apply ready_less in Hready. simplify_eq/=. split; [done|by left]. }
  destruct (Handle_eq n t1 t2 t3 t4 c p b Hready Hne) as (lb & sel & HN & Hsel & Hlb & HH).
  rewrite HH in Hrun. destruct (ready_proxies _ _ Hready sel Hsel) as [_ Hprox].
  destruct (ready_parse _ _ Hready sel Hprox) as [u Hu].
  destruct (CircuitBreaker.begin_call t1 t2 (circuitBreaker p)) as [cb [|]] eqn:Hbegin.
  - destruct (forward sel (c, b)) as [[c1 b1] fo] eqn:Hf.
    destruct (forward_backend sel u c c1 b b1 fo Hu Hf) as (ws & o' & HS & _).
    assert (b' = b1 ∧ ready n p') as [-> Hr] by (destruct fo; simplify_eq; split; by eauto using ready_after).
    split; [done|]. right. exists sel, u, ws, o'. rewrite HN. done.
  - simplify_eq. split; [by eapply ready_after|by left].
Qed.

(** Without a healthy target, or while the circuit breaker is open, a request
    is answered with status 503; no backend is called and the breaker keeps its
    state. *)
Theorem handle_unavailable (n : nat) (t1 t2 t3 t4 : time) (c : C) (p : Proxy G) (b : B)
    (Hready : ready (S n) p) (Hw : Written c = false)
    (Hwhy : GetHealthyTargets p = [] ∨
            (CircuitBreaker.begin_call t1 t2 (circuitBreaker p)).2 = false) :
  ∃ c' p', Handle t1 t2 t3 t4 (c, (p, b)) = ((c', (p', b)), Ret tt) ∧
    Status c' = 503 ∧ circuitBreaker p' = circuitBreaker p.
Proof.
  destruct (decide (GetHealthyTargets p = [])) as [Hnil|Hne].
  - do 2 eexists. split; [|split; [by apply Status_JSON|reflexivity]].
    unfold Handle, get_proxy. comp_unfold. unfold GetHealthyTargets in Hnil. simpl in *.
    rewrite decide_True by done. reflexivity.
  - destruct Hwhy as [?|Hrefuse]; [done|].
    destruct (Handle_eq n t1 t2 t3 t4 c p b Hready Hne) as (lb & sel & _ & _ & _ & ->).
    unfold CircuitBreaker.begin_call in *. repeat (case_decide || case_bool); simplify_eq/=.
    do 2 eexists. split; [done|]. split; [by apply Status_JSON|done].
Qed.

(** Connections are counted exactly around a request: under least connections
    the counter of every target is the same after [Handle] as before, also when
    forwarding panics. *)
Theorem handle_connections (n : nat) (t1 t2 t3 t4 : time) (c c' : C) (p p' : Proxy G) (b b' : B) (o : go unit)
    (l : LoadBalancer.LeastConnections) (t : string)
    (Hready : ready (S n) p) (Hlc : loadBalancer p = LoadBalancer.SLeastConnections l)
    (Hconn : ∀ u, 0 <= LoadBalancer.conn l u < max_int64)
    (Hrun : Handle t1 t2 t3 t4 (c, (p, b)) = ((c', (p', b')), o)) :
  ∃ l', loadBalancer p' = LoadBalancer.SLeastConnections l' ∧ LoadBalancer.conn l' t = LoadBalancer.conn l t.
Proof.
  destruct (decide (GetHealthyTargets p = [])) as [Hnil|Hne].
  { unfold Handle, get_proxy in Hrun. comp_unfold. unfold GetHealthyTargets in Hnil. simpl in *.
    rewrite decide_True in Hrun by done. simplify_eq/=. eauto. }
  destruct (Handle_eq n t1 t2 t3 t4 c p b Hready Hne) as (lb & sel & HN & _ & _ & HH).
  rewrite Hlc in HN. simpl in HN. simplify_eq. rewrite HH in Hrun. eexists. split; [|by apply lc_roundtrip].
  destruct (CircuitBreaker.begin_call _ _ _) as [cb [|]]; [|by simplify_eq].
  by destruct (forward _ (c, b)) as [[c1 b1] []]; simplify_eq.
Qed.

(** C31: The circuit breaker learns the outcome of a forwarded request: a status
    of 500 or above is a failure, any other a success; but a request that
    panics, because the backend broke off its answer, is not recorded at all. *)
Theorem handle_breaker (n : nat) (t1 t2 t3 t4 : time) (c c' : C) (p p' : Proxy G) (b b' : B) (o : go unit)
    (cb : CircuitBreaker.CircuitBreaker)
    (Hready : ready (S n) p) (Hne : GetHealthyTargets p ≠ [])
    (Hadmit : CircuitBreaker.begin_call t1 t2 (circuitBreaker p) = (cb, true))
    (Hrun : Handle t1 t2 t3 t4 (c, (p, b)) = ((c', (p', b')), o)) :
  ∃ sel u ws o', Url.Parse sel = inl u ∧ ServeHTTP sel (prepare sel u c) b = (b', ws, o') ∧
    circuitBreaker p' =
      match o' with
      | Ret _ => if statusCode ws >=? 500 then CircuitBreaker.onFailure t3 t4 cb
                 else CircuitBreaker.onSuccess t3 cb
      | Panic _ => cb
      end ∧
    (o = Ret tt ↔ ∃ a, o' = Ret a).
Proof.
  destruct (Handle_eq n t1 t2 t3 t4 c p b Hready Hne) as (lb & sel & HN & Hsel & Hlb & HH).
  rewrite HH, Hadmit in Hrun. destruct (ready_proxies _ _ Hready sel Hsel) as [_ Hprox].
  destruct (ready_parse _ _ Hready sel Hprox) as [u Hu].
  destruct (forward sel (c, b)) as [[c1 b1] fo] eqn:Hf.
  destruct (forward_backend sel u c c1 b b1 fo Hu Hf) as (ws & o' & HS & Ho').
  exists sel, u, ws, o'. destruct o' as [a|msg]; subst fo; simplify_eq/=.
  - split_and!; [done..| |naive_solver]. by destruct (statusCode ws >=? 500).
  - split_and!; [done..|]. split; [done|]. by intros [].
Qed.

(** A new proxy is ready: when the targets' URLs parse and the strategy is
    known, creation succeeds without panicking, with a closed breaker and every
    healthy target forwardable for [2^63 - 1] requests; otherwise the error
    tells which is wrong. *)
Theorem new_proxy_ready (cfg : Config) (now : nat → time) (js : list HealthCheck.job) (n : nat)
    (Hhealth : HealthCheck.Targets (HealthCheckCfg cfg) = [] ∨
               HealthCheck.Targets (HealthCheckCfg cfg) = Targets cfg)
    (Hnamed : "" ∉ Targets cfg) (Hlen : Z.of_nat (length (Targets cfg)) <= max_int64)
    (Hmax : in_int64 (HealthCheck.MaxFailures (HealthCheckCfg cfg))) (Hn : Z.of_nat n <= max_int64)
    (Hround : HealthCheck.j_target <$> js ≡ₚ Targets cfg) :
  match NewWithConfig (G := G) cfg now js with
  | Ret (inl p) => ready n p ∧ CircuitBreakerState p = CircuitBreaker.StateClosed ∧
      Targets cfg ≠ [] ∧ GetAllTargets p = Targets cfg ∧
      HealthCheck.running (healthChecker p) = true ∧ HealthCheck.stopClosed (healthChecker p) = false
  | Ret (inr err) => Targets cfg = [] ∨
      LoadBalancer.NewStrategy (G := G) (LoadBalancerStrategy cfg) (now 1%nat) = inr err ∨
      ∃ t, t ∈ Targets cfg ∧ Url.Parse t = inr err
  | Panic _ => False
  end.
Proof.
  unfold NewWithConfig. case_decide as He; [by left|].
  destruct (LoadBalancer.NewStrategy _ _) as [lb|err] eqn:Hlb; [|by right; left].
  pose proof (make_proxies_spec (Targets cfg) ∅) as Hps.
  destruct (make_proxies (Targets cfg) ∅) as [ps|err]; [|by right; right].
  assert (HealthCheck.Targets (health_config cfg) = Targets cfg) as Ht.
  { simpl. destruct Hhealth as [->| ->]; [done|]. by rewrite decide_False. }
  destruct (Start_new (health_config cfg) (λ i, now (2 + i)%nat) js) as (hc & HS & Htg & Hin & Hrun & Hstop).
  { done. } { by rewrite Ht. } { unfold HealthCheck.round_of. simpl. by rewrite <- Ht in Hround. }
  rewrite HS. rewrite Ht in *. destruct Hps as [Hps Hparse]. split_and!; [|done..].
  split; simpl.
  - intros t Hh. apply Hin in Hh. split; [by intros ->|]. apply Hps. by right.
  - intros t [|Hh]%Hps; [set_solver|]. by apply Hparse.
  - by eapply NewStrategy_ok.
Qed.
End properties.

(** ** Witnesses *)

#[local] Existing Instance LoadBalancer.counting_rand.
#[local] Existing Instance LoadBalancer.counting_rand_laws.

(** A backend that counts its requests; one of the targets fails, another breaks
    off its answer. *)
#[local] Instance example_backend : Backend ctx nat := λ target c n,
  if decide (target = "http://a") then (S n, [WHeader 200; WBody "ok"], Ret tt)
  else if decide (target = "http://b") then (S n, [WHeader 502], Ret tt)
  else (S n, [WHeader 200], Panic "net/http: abort Handler").

#[local] Existing Instances latin1 Url.no_literals.

Definition example_config : Config := {|
  Targets := ["http://a"; "http://b"];
  LoadBalancerStrategy := "least_connections";
  CircuitBreakerCfg := {| CircuitBreaker.MaxFailures := 3; CircuitBreaker.Timeout := 60 * second;
                          CircuitBreaker.HalfOpenSuccess := 2 |};
  HealthCheckCfg := {| HealthCheck.Targets := []; HealthCheck.Endpoint := ""; HealthCheck.Interval := 0;
                       HealthCheck.Timeout := 0; HealthCheck.MaxFailures := 1 |}
|}.

(** Probes that only one target answers. *)
Definition example_probes (up : string) : list HealthCheck.job :=
  (λ t, {| HealthCheck.j_target := t;
           HealthCheck.j_client url := if decide (url = up +:+ "/health") then HealthCheck.Response 200
                                       else HealthCheck.NoResponse;
           HealthCheck.j_t1 := 0; HealthCheck.j_t2 := 0 |}) <$> ["http://a"; "http://b"].

Definition example_proxy (up : string) : Proxy Z :=
  match NewWithConfig example_config (λ _, 0) (example_probes up) with
  | Ret (inl p) => p
  | _ => {| targets := []; proxies := ∅; circuitBreaker := CircuitBreaker.New (CircuitBreakerCfg example_config) 0;
            loadBalancer := LoadBalancer.SLeastConnections LoadBalancer.NewLeastConnections;
            healthChecker := HealthCheck.NewChecker (HealthCheckCfg example_config) (λ _, 0) |}
  end.

Lemma new_proxy_ready_witness :
  ready 5 (example_proxy "http://b") ∧
  CircuitBreakerState (example_proxy "http://b") = CircuitBreaker.StateClosed ∧
  Targets example_config ≠ [] ∧ GetAllTargets (example_proxy "http://b") = ["http://a"; "http://b"] ∧
  HealthCheck.running (healthChecker (example_proxy "http://b")) = true ∧
  HealthCheck.stopClosed (healthChecker (example_proxy "http://b")) = false.
Proof.
  apply (new_proxy_ready (G := Z) example_config (λ _, 0) (example_probes "http://b") 5).
  - left. reflexivity.
  - set_solver.
  - vm_compute. discriminate.
  - vm_compute. split; discriminate.
  - vm_compute. discriminate.
  - reflexivity.
Defined.

Lemma example_ready (up : string) (n : nat) :
  up = "http://a" ∨ up = "http://b" ∨ up = "" → ready n (example_proxy up).
Proof.
  intros Hup. split.
  - destruct Hup as [->|[->| ->]]; vm_compute; intros t Ht;
      repeat (apply elem_of_cons in Ht as [->|Ht]; [split; [discriminate|reflexivity]|]);
      by apply elem_of_nil in Ht.
  - assert (proxies (example_proxy up) = {["http://a"; "http://b"]}) as ->.
    { destruct Hup as [->|[->| ->]]; vm_compute; reflexivity. }
    intros t [->%elem_of_singleton| ->%elem_of_singleton]%elem_of_union; eexists; reflexivity.
  - destruct Hup as [->|[->| ->]]; vm_compute; exact I.
Qed.

Lemma handle_forwards_healthy_witness :
  ready 0 (Handle 0 0 0 0 (new_ctx "10.0.0.7" ∅, (example_proxy "http://a", 7%nat))).1.2.1 ∧
  (8%nat = 7%nat ∨
   ∃ sel u ws o', sel ∈ GetHealthyTargets (example_proxy "http://a") ∧ sel ∈ proxies (example_proxy "http://a") ∧
     Url.Parse sel = inl u ∧
     (LoadBalancer.Next (GetHealthyTargets (example_proxy "http://a")) (loadBalancer (example_proxy "http://a"))).2 = Ret sel ∧
     (CircuitBreaker.begin_call 0 0 (circuitBreaker (example_proxy "http://a"))).2 = true ∧
     ServeHTTP sel (prepare sel u (new_ctx "10.0.0.7" ∅)) 7%nat = (8%nat, ws, o')).
Proof.
  apply (handle_forwards_healthy 0 0 0 0 0 (new_ctx "10.0.0.7" ∅)
    (Handle 0 0 0 0 (new_ctx "10.0.0.7" ∅, (example_proxy "http://a", 7%nat))).1.1
    (example_proxy "http://a")
    (Handle 0 0 0 0 (new_ctx "10.0.0.7" ∅, (example_proxy "http://a", 7%nat))).1.2.1 7%nat 8%nat (Ret tt)).
  - apply example_ready. by left.
  - vm_compute. reflexivity.
Defined.

Lemma handle_unavailable_witness :
  ∃ c' p', Handle 0 0 0 0 (new_ctx "10.0.0.7" ∅, (example_proxy "", 7%nat)) = ((c', (p', 7%nat)), Ret tt) ∧
    Status c' = 503 ∧ circuitBreaker p' = circuitBreaker (example_proxy "").
Proof.
  apply (handle_unavailable 0 0 0 0 0 (new_ctx "10.0.0.7" ∅) (example_proxy "") 7%nat).
  - apply example_ready. by right; right.
  - reflexivity.
  - left. vm_compute. reflexivity.
Defined.

Lemma handle_connections_witness :
  ∃ l', loadBalancer (Handle 0 0 0 0 (new_ctx "10.0.0.7" ∅, (example_proxy "http://a", 7%nat))).1.2.1
      = LoadBalancer.SLeastConnections l' ∧ LoadBalancer.conn l' "http://a" = 0.
Proof.
  apply (handle_connections 0 0 0 0 0 (new_ctx "10.0.0.7" ∅)
    (Handle 0 0 0 0 (new_ctx "10.0.0.7" ∅, (example_proxy "http://a", 7%nat))).1.1
    (example_proxy "http://a")
    (Handle 0 0 0 0 (new_ctx "10.0.0.7" ∅, (example_proxy "http://a", 7%nat))).1.2.1 7%nat 8%nat (Ret tt)
    LoadBalancer.NewLeastConnections "http://a").
  - apply example_ready. by left.
  - vm_compute. reflexivity.
  - intros u. vm_compute. by split.
  - vm_compute. reflexivity.
Defined.

Lemma handle_breaker_witness :
  ∃ sel u ws o', Url.Parse sel = inl u ∧
    ServeHTTP sel (prepare sel u (new_ctx "10.0.0.7" ∅)) 7%nat = (8%nat, ws, o') ∧
    circuitBreaker (Handle 0 0 0 0 (new_ctx "10.0.0.7" ∅, (example_proxy "http://b", 7%nat))).1.2.1 =
      match o' with
      | Ret _ => if statusCode ws >=? 500
                 then CircuitBreaker.onFailure 0 0 (circuitBreaker (example_proxy "http://b"))
                 else CircuitBreaker.onSuccess 0 (circuitBreaker (example_proxy "http://b"))
      | Panic _ => circuitBreaker (example_proxy "http://b")
      end ∧
    (Ret tt = Ret tt ↔ ∃ a, o' = Ret a).
Proof.
  apply (handle_breaker 0 0 0 0 0 (new_ctx "10.0.0.7" ∅)
    (Handle 0 0 0 0 (new_ctx "10.0.0.7" ∅, (example_proxy "http://b", 7%nat))).1.1
    (example_proxy "http://b")
    (Handle 0 0 0 0 (new_ctx "10.0.0.7" ∅, (example_proxy "http://b", 7%nat))).1.2.1 7%nat 8%nat (Ret tt)
    (circuitBreaker (example_proxy "http://b"))).
  - apply example_ready. by right; left.
  - vm_compute. discriminate.
  - vm_compute. reflexivity.
  - vm_compute. reflexivity.
Defined.
