(* ===== verification/DummyBackend.v ===== *)
(** * The dummy backend

    Models [src/test/dummy-backend.go], the server that the repository's tests
    put behind the gateway, and runs it behind the proxy: a fleet of dummy
    backends is an instance of the classes that stand for backends elsewhere
    ([Proxy.Backend], the client of the health checker).  The theorems are the
    scenarios of [src/test/test-circuit-breaker.ps1] and
    [src/test/test-health-check.ps1], for any number of requests that are handled
    at the same time: the handlers of the proxy, the probes of the health checker
    and its updates interleave, one critical section or backend call at a time. *)

From Stdlib Require Import Ascii.
From S2P Require Import Prelude Strconv Json Quote Gin.
From S2P Require Import CircuitBreaker.
From S2P Require Url LoadBalancer HealthCheck Proxy.

Record dummy := { failMode : bool; requestCount : Z; port : string }.

Definition new_dummy (port : string) : dummy := {| failMode := false; requestCount := 0; port := port |}.

(** The status and the body of an answer; the content type is always JSON. *)
Definition answer : Type := Z * string.

Definition set_mode (fail : bool) (d : dummy) : dummy :=
  {| failMode := fail; requestCount := requestCount d; port := port d |}.

(** The function that handles every request. *)
Definition handler (path : string) (d : dummy) : dummy * answer :=
  let count := wrap64 (requestCount d + 1) in
  let d := {| failMode := failMode d; requestCount := count; port := port d |} in
  if decide (path = "/health") then
    if failMode d then (d, (503, quoted "{'status': 'unhealthy', 'port': '" +:+ port d +:+ quoted "'}"))
    else (d, (200, quoted "{'status': 'healthy', 'port': '" +:+ port d +:+ quoted "'}"))
  else if decide (path = "/control/fail") then
    (set_mode true d, (200,
      quoted "{'mode': 'fail', 'message': 'Backend will now return 500 errors', 'port': '" +:+ port d +:+ quoted "'}"))
  else if decide (path = "/control/recover") then
    (set_mode false d, (200,
      quoted "{'mode': 'ok', 'message': 'Backend will now return 200 OK', 'port': '" +:+ port d +:+ quoted "'}"))
  else if decide (path = "/control/status") then
    let mode := if failMode d then "fail" else "ok" in
    (d, (200, quoted "{'mode': '" +:+ mode +:+ quoted "', 'request_count': " +:+ pretty count +:+
              quoted ", 'port': '" +:+ port d +:+ quoted "'}"))
  else if failMode d then
    (d, (500, quoted "{'error': 'Simulated backend failure', 'request': " +:+ pretty count +:+
              quoted ", 'port': '" +:+ port d +:+ quoted "'}"))
  else
    (d, (200, quoted "{'message': 'Hello from dummy backend', 'port': '" +:+ port d +:+ quoted "', 'path': '" +:+ path +:+
              quoted "', 'request': " +:+ pretty count +:+ quoted "}")).

(** ** A fleet behind the gateway *)

(** The backends that run, by the URL under which the gateway knows them. *)
Abbreviation fleet := (gmap string dummy).




(** What a probe of the health checker gets from [target ++ endpoint]. *)
Definition probe_fleet (target endpoint : string) (f : fleet) (url : string) : HealthCheck.probe :=
  match f !! target with
  | Some d => if decide (url = target +:+ endpoint) then HealthCheck.Response (handler endpoint d).2.1
              else HealthCheck.NoResponse
  | None => HealthCheck.NoResponse
  end.

(** A request to a backend itself, as the tests send to the control endpoints. *)
Definition control (target path : string) (f : fleet) : fleet := alter (λ d, (handler path d).1) target f.

(** ** Requests through the proxy *)


(** The backend after a request that is not special. *)
Definition counted (d : dummy) : dummy :=
  {| failMode := failMode d; requestCount := wrap64 (requestCount d + 1); port := port d |}.


Section requests.
Context {G C : Type} `{GinWriterLaws C} `{Unicode} `{Url.IpLiteral}.




End requests.

(** ** Health checks of a fleet *)

Section health.
Import HealthCheck.

Definition probe_job (t1 t2 : time) (endpoint : string) (f : fleet) (target : string) : job :=
  {| j_target := target; j_client := probe_fleet target endpoint f; j_t1 := t1; j_t2 := t2 |}.

(** A round of the checker; every backend sees one request of it. *)
Definition probe_round (t1 t2 : time) : Comp (Checker * fleet) unit := λ '(c, f),
  let '(c', o) := checkAll (probe_job t1 t2 (endpoint c) f <$> targets c) c in
  ((c', foldr (λ t, control t (endpoint c)) f (targets c)), o).

Fixpoint probe_rounds (ts : list (time * time)) : Comp (Checker * fleet) unit :=
  match ts with
  | [] => mret tt
  | (t1, t2) :: ts => probe_round t1 t2;; probe_rounds ts
  end.

Lemma handler_health (d : dummy) :
  (handler "/health" d).1 = counted d ∧ (handler "/health" d).2.1 = if failMode d then 503 else 200.
Proof. by destruct d as [[] count pt]. Qed.

Lemma control_all (path t : string) (ts : list string) (f : fleet) :
  NoDup ts → t ∈ ts → foldr (λ t, control t path) f ts !! t = (λ d, (handler path d).1) <$> f !! t.
Proof.
  assert (∀ l, t ∉ l → foldr (λ t, control t path) f l !! t = f !! t) as Hout.
  { induction l as [|u l IH]; [done|]. intros [? ?]%not_elem_of_cons. simpl. unfold control.
    rewrite lookup_alter_ne by done. by apply IH. }
  induction 1 as [|u l Hu Hl IH]; [by intros ?%elem_of_nil|]. intros [->|Ht]%elem_of_cons; simpl; unfold control.
  - by rewrite lookup_alter_eq, Hout.
  - rewrite lookup_alter_ne by (by intros ->). by apply IH.
Qed.

Lemma jobs_for_one (g : string → job) (t : string) (ts : list string) :
  (∀ u, j_target (g u) = u) → NoDup ts → t ∈ ts → jobs_for t (g <$> ts) = [g t].
Proof.
  intros Hg. unfold jobs_for.
  assert (∀ l, t ∉ l → filter (λ j, j_target j = t) (g <$> l) = []) as Hout.
  { induction l as [|u l IH]; [done|]. intros [? ?]%not_elem_of_cons. rewrite fmap_cons, filter_cons.
    rewrite decide_False by (by rewrite Hg). by apply IH. }
  induction 1 as [|u l Hu Hl IH]; [by intros ?%elem_of_nil|]. rewrite fmap_cons, filter_cons.
  intros [->|Ht]%elem_of_cons.
  - by rewrite decide_True, Hout by (done || by rewrite Hg).
  - rewrite decide_False by (rewrite Hg; by intros ->). by apply IH.
Qed.

(** A checker that watches a dummy backend at its health endpoint. *)
Record watching (t : string) (d : dummy) (n : Z) (c : Checker) (f : fleet) : Prop := {
  w_max : 0 < maxFailures c;
  w_dom : ∀ u, u ∈ targets c → is_Some (healthStatus c !! u);
  w_nodup : NoDup (targets c);
  w_endpoint : endpoint c = "/health";
  w_target : t ∈ targets c;
  w_backend : f !! t = Some d;
  w_status : ∃ s, healthStatus c !! t = Some s ∧ FailureCount s = n ∧ IsHealthy s = (n <? maxFailures c)
}.

Lemma probe_round_step (t1 t2 : time) (t : string) (d : dummy) (n : Z) (c : Checker) (f : fleet) :
  watching t d n c f → 0 <= n < max_int64 →
  let n' := if failMode d then n + 1 else 0 in
  ∃ c' f', probe_round t1 t2 (c, f) = ((c', f'), Ret tt) ∧ watching t (counted d) n' c' f' ∧
    maxFailures c' = maxFailures c ∧ (t ∈ GetHealthyTargets c' ↔ n' < maxFailures c).
Proof.
  intros [Hmax Hdom Hnd Hep Ht Hd (s & Hs & Hn & Hh)] Hb n'. unfold probe_round.
  pose proof (checkAll_eq (probe_job t1 t2 (endpoint c) f <$> targets c) c Hdom) as HC.
  rewrite HC by (unfold round_of; by rewrite <- list_fmap_compose, list_fmap_id).
  set (m := jobs_status _ _ _).
  assert (∃ s', m !! t = Some s' ∧ FailureCount s' = n' ∧ IsHealthy s' = (n' <? maxFailures c)) as (s' & Hm & Hn' & Hh').
  { unfold m. rewrite jobs_status_for, Hs, jobs_for_one by done. eexists. split; [reflexivity|].
    simpl. unfold job_status, job_ok, probe_job, probe_fleet, check_status. simpl.
    rewrite Hd, decide_True, Hep, (proj2 (handler_health d)) by done. unfold n'. destruct (failMode d); simpl.
    - rewrite Hn, Hh, wrap64_id by int_solve. split; [done|]. apply threshold_step.
    - split; [done|]. symmetry. by apply Z.ltb_lt. }
  do 2 eexists. split; [reflexivity|]. split_and!; [split; simpl; try done| |].
  - intros u Hu. by apply jobs_status_is_Some, Hdom.
  - rewrite control_all, Hd, Hep by done. simpl. by rewrite (proj1 (handler_health d)).
  - by exists s'.
  - done.
  - unfold GetHealthyTargets. simpl. rewrite list_elem_of_filter, Hm. simpl. rewrite Hh'. rewrite <- Z.ltb_lt.
    split; [by intros [[=] _]|by intros ->].
Qed.

(** C34: The health checker follows the mode of a backend.  After any positive
    number of rounds, a target is among the healthy ones exactly when its
    backend is not in fail mode, or its failures, the ones before included, are
    still fewer than the threshold; no round panics. *)
Theorem health_follows_mode (t : string) (d : dummy) (n : Z) (c : Checker) (f : fleet) (ts : list (time * time))
    (Hw : watching t d n c f) (Hn : 0 <= n) (Hts : ts ≠ [])
    (Hb : n + Z.of_nat (length ts) <= max_int64) :
  ∃ c' f', probe_rounds ts (c, f) = ((c', f'), Ret tt) ∧
    (t ∈ GetHealthyTargets c' ↔ failMode d = false ∨ n + Z.of_nat (length ts) < maxFailures c).
Proof.
  revert d n c f Hw Hn Hb. induction ts as [|[t1 t2] ts IH]; [done|]. intros d n c f Hw Hn Hb. clear Hts.
  cbn [length] in Hb. pose proof (w_max _ _ _ _ _ Hw) as Hmax.
  destruct (probe_round_step t1 t2 t d n c f Hw) as (c1 & f1 & H1 & Hw1 & Hm1 & Hin1); [lia|].
  cbn [probe_rounds length]. rewrite (comp_bind_step _ _ _ _ _ H1).
  destruct (decide (ts = [])) as [->|Hts].
  - exists c1, f1. split; [done|]. rewrite Hin1. simpl. destruct (failMode d); intuition (done || lia).
  - destruct (IH Hts (counted d) _ c1 f1 Hw1) as (c2 & f2 & -> & Hin); [destruct (failMode d); lia..|].
    exists c2, f2. split; [done|]. rewrite Hin, Hm1. simpl. destruct (failMode d); intuition (done || lia).
Qed.
End health.

(** ** Traffic

    A service under traffic: its proxy, the backends, the handlers of its
    requests, each at a point of [Proxy.Handle], and the calls of [ServeHTTP]
    so far, by target. *)

Section traffic.
Context {G C : Type} `{LoadBalancer.RandLaws G} `{GinWriterLaws C} `{Unicode} `{Url.IpLiteral}.








(** Handlers by where they are. *)
Definition count (f : Proxy.thread → bool) (l : list (Proxy.thread (C := C))) : Z :=
  foldr (λ th n, Z.b2z (f th) + n) 0 l.



















Section contained.
Context (ps : gset string) (Hparse : ∀ t, t ∈ ps → ∃ u, Url.Parse t = inl u).
Context (T : time) (cb0 : CircuitBreaker) (m : Z).

#[local] Abbreviation left := (maxFailures cb0 - failureCount cb0).











End contained.


(** ** Recovery *)

#[local] Existing Instance LoadBalancer.Strategy_Balancer.






Section recovering.
Context (ps : gset string) (Hparse : ∀ t, t ∈ ps → ∃ u, Url.Parse t = inl u).
Context (ts : list string) (Hts : ts ≠ []) (Hnamed : ∀ t, t ∈ ts → t ≠ "" ∧ t ∈ ps).
Context (h : Z) (L : time) (D : duration).













End recovering.












End traffic.

(** ** Witnesses *)

#[local] Existing Instances latin1 Url.no_literals LoadBalancer.counting_rand LoadBalancer.counting_rand_laws.














Definition watcher : HealthCheck.Checker :=
  HealthCheck.NewChecker {| HealthCheck.Targets := ["http://a"]; HealthCheck.Endpoint := "/health";
    HealthCheck.Interval := 0; HealthCheck.Timeout := 0; HealthCheck.MaxFailures := 3 |} (λ _, 0).

Lemma watcher_watching (fail : bool) :
  watching "http://a" (set_mode fail (new_dummy "3001")) 0 watcher {["http://a" := set_mode fail (new_dummy "3001")]}.
Proof.
  split; try reflexivity.
  - intros u ->%list_elem_of_singleton. by eexists.
  - apply NoDup_singleton.
  - by left.
  - eexists. by split.
Qed.

(** The third failed round takes the target out. *)
Lemma health_follows_mode_witness :
  ∃ c' f', probe_rounds [(1, 1); (2, 2); (3, 3)] (watcher, {["http://a" := set_mode true (new_dummy "3001")]}) =
      ((c', f'), Ret tt) ∧
    ("http://a" ∈ HealthCheck.GetHealthyTargets c' ↔ true = false ∨ 0 + 3 < 3).
Proof.
  apply (health_follows_mode "http://a" (set_mode true (new_dummy "3001")) 0 watcher
    {["http://a" := set_mode true (new_dummy "3001")]} [(1, 1); (2, 2); (3, 3)]).
  - apply watcher_watching.
  - lia.
  - discriminate.
  - vm_compute. discriminate.
Defined.
