(* ===== verification/ApiKey.v ===== *)
(** * API keys

    Models [src/internal/service/apikey.go] and
    [src/internal/repository/apikey.go].

    The table of keys is in PostgreSQL behind GORM, which is not part of the
    repository: it is the class [KeyStore], one operation per query, and
    [KeyStoreLaws] says what the queries return and do.  The service caches
    validated keys in Redis, as the JSON text that [encoding/json] writes.  The
    random bytes of a key, the identifiers and the clock are arguments; the text
    of a key and its hash are computed ([Crypto]). *)

From S2P Require Import Prelude Strconv Rfc3339 Database Json Decode Crypto Redis Gin.

(** ** The table *)

(** The columns that [Update] may change. *)
Record updates := { up_tier : option string; up_is_active : option bool }.

Definition apply_updates (u : updates) (k : APIKey) : APIKey := {|
  ID := ID k; KeyHash := KeyHash k; key_Name := key_Name k; CreatedBy := CreatedBy k;
  Tier := default (Tier k) (up_tier u); IsActive := default (IsActive k) (up_is_active u);
  CreatedAt := CreatedAt k; LastUsedAt := LastUsedAt k |}.

(** GORM fills in the time of creation. *)
Definition set_CreatedAt (t : time) (k : APIKey) : APIKey := {|
  ID := ID k; KeyHash := KeyHash k; key_Name := key_Name k; CreatedBy := CreatedBy k;
  Tier := Tier k; IsActive := IsActive k; CreatedAt := t; LastUsedAt := LastUsedAt k |}.

Definition set_LastUsedAt (t : time) (k : APIKey) : APIKey := {|
  ID := ID k; KeyHash := KeyHash k; key_Name := key_Name k; CreatedBy := CreatedBy k;
  Tier := Tier k; IsActive := IsActive k; CreatedAt := CreatedAt k; LastUsedAt := Some t |}.

(** ** What survives storage *)

Definition valid_key (k : APIKey) : Prop :=
  valid_uuid (ID k) = true ∧ valid_text (key_Name k) = true ∧ valid_text (CreatedBy k) = true ∧
  valid_text (Tier k) = true ∧ valid_time (CreatedAt k) ∧ from_option valid_time True (LastUsedAt k).

Definition valid_updates (u : updates) : Prop :=
  (is_Some (up_tier u) ∨ is_Some (up_is_active u)) ∧ from_option (λ s, valid_text s = true) True (up_tier u).

(** ** The queries *)

Class KeyStore (D : Type) := {
  insert_key : APIKey → D → D * option db_error;
  first_by_hash : string → D → D * (APIKey + db_error);   (* [key_hash = ? AND is_active = true] *)
  first_by_id : string → D → D * (APIKey + db_error);
  find_keys : D → D * (list APIKey + db_error);           (* newest first *)
  update_key : string → updates → D → D * option db_error;
  touch_key : string → time → D → D * option db_error;    (* [last_used_at] *)
  delete_key : string → D → D * option db_error;
  count_tier : string → D → D * (Z + db_error)
}.

(** A database without failures: [rows] are its keys by identifier, no two with
    one hash (it has a unique index); the queries see them and the statements
    change them.  Times are stored at the precision of the database. *)
Class KeyStoreLaws (D : Type) `{KeyStore D} := {
  rows : D → gmap string APIKey;
  rows_ID d id k : rows d !! id = Some k → ID k = id;
  rows_valid d id k : rows d !! id = Some k → valid_key k;
  rows_hash d id1 id2 k1 k2 :
    rows d !! id1 = Some k1 → rows d !! id2 = Some k2 → KeyHash k1 = KeyHash k2 → id1 = id2;
  insert_key_new d k :
    rows d !! ID k = None → (∀ id k', rows d !! id = Some k' → KeyHash k' ≠ KeyHash k) →
    valid_key k → Tier k ≠ "" → IsActive k = true →
    ∃ d' t, insert_key k d = (d', None) ∧ rows d' = <[ID k := set_CreatedAt t k]> (rows d);
  first_by_hash_found d id k :
    rows d !! id = Some k → IsActive k = true →
    ∃ d', first_by_hash (KeyHash k) d = (d', inl k) ∧ rows d' = rows d;
  first_by_hash_none d h :
    (∀ id k, rows d !! id = Some k → KeyHash k = h → IsActive k = false) →
    ∃ d', first_by_hash h d = (d', inr ErrRecordNotFound) ∧ rows d' = rows d;
  first_by_id_found d id :
    valid_uuid id = true →
    ∃ d', first_by_id id d =
      (d', match rows d !! id with Some k => inl k | None => inr ErrRecordNotFound end) ∧ rows d' = rows d;
  update_key_rows d id u :
    valid_uuid id = true → valid_updates u →
    ∃ d', update_key id u d = (d', None) ∧ rows d' = alter (apply_updates u) id (rows d);
  touch_key_rows d id t :
    valid_uuid id = true → valid_time t →
    ∃ d' t', touch_key id t d = (d', None) ∧ rows d' = alter (set_LastUsedAt t') id (rows d);
  touch_key_frame d id t :
    rows (touch_key id t d).1 = rows d ∨ ∃ t', rows (touch_key id t d).1 = alter (set_LastUsedAt t') id (rows d);
  delete_key_rows d id :
    valid_uuid id = true → ∃ d', delete_key id d = (d', None) ∧ rows d' = delete id (rows d)
}.

(** ** The text of a key *)

(** [json.Marshal]: the hash is not part of the text ([json:"-"]), the time of the
    last use only if there is one ([omitempty]).  Times are in the local zone. *)
Definition marshal_key `{LocalZone} (k : APIKey) : string :=
  let last_used := match LastUsedAt k with
                   | None => Some []
                   | Some t => s ← marshal_time (local_offset t) t; Some [(word "last_used_at", VStr (bytes_of s))]
                   end in
  match marshal_time (local_offset (CreatedAt k)) (CreatedAt k), last_used with
  | Some created, Some last_used =>
      text_of (VObj ((word "id", VStr (quote (ID k))) :: (word "name", VStr (quote (key_Name k))) ::
        (word "created_by", VStr (quote (CreatedBy k))) :: (word "tier", VStr (quote (Tier k))) ::
        (word "is_active", VBool (IsActive k)) :: (word "created_at", VStr (bytes_of created)) :: last_used))
  | _, _ => ""
  end.

Definition zero_key : APIKey := {|
  ID := uuid_Nil; KeyHash := ""; key_Name := ""; CreatedBy := ""; Tier := ""; IsActive := false;
  CreatedAt := zero_time; LastUsedAt := None |}.

Definition key_decoder `{UuidParse} : decoder APIKey := struct [
  ("id", at_field ID (λ x k, {| ID := x; KeyHash := KeyHash k; key_Name := key_Name k; CreatedBy := CreatedBy k;
     Tier := Tier k; IsActive := IsActive k; CreatedAt := CreatedAt k; LastUsedAt := LastUsedAt k |}) (d_text uuid_Parse));
  ("name", at_field key_Name (λ x k, {| ID := ID k; KeyHash := KeyHash k; key_Name := x; CreatedBy := CreatedBy k;
     Tier := Tier k; IsActive := IsActive k; CreatedAt := CreatedAt k; LastUsedAt := LastUsedAt k |}) d_string);
  ("created_by", at_field CreatedBy (λ x k, {| ID := ID k; KeyHash := KeyHash k; key_Name := key_Name k; CreatedBy := x;
     Tier := Tier k; IsActive := IsActive k; CreatedAt := CreatedAt k; LastUsedAt := LastUsedAt k |}) d_string);
  ("tier", at_field Tier (λ x k, {| ID := ID k; KeyHash := KeyHash k; key_Name := key_Name k; CreatedBy := CreatedBy k;
     Tier := x; IsActive := IsActive k; CreatedAt := CreatedAt k; LastUsedAt := LastUsedAt k |}) d_string);
  ("is_active", at_field IsActive (λ x k, {| ID := ID k; KeyHash := KeyHash k; key_Name := key_Name k;
     CreatedBy := CreatedBy k; Tier := Tier k; IsActive := x; CreatedAt := CreatedAt k; LastUsedAt := LastUsedAt k |}) d_bool);
  ("created_at", at_field CreatedAt set_CreatedAt d_time);
  ("last_used_at", at_field LastUsedAt (λ x k, {| ID := ID k; KeyHash := KeyHash k; key_Name := key_Name k;
     CreatedBy := CreatedBy k; Tier := Tier k; IsActive := IsActive k; CreatedAt := CreatedAt k; LastUsedAt := x |})
     (pointer zero_time d_time))].

(** [json.Unmarshal] into a zero key, if its error is nil. *)
Definition unmarshal_key `{UuidParse} (s : string) : option APIKey :=
  match Unmarshal key_decoder s zero_key with
  | (k, true) => Some k
  | (_, false) => None
  end.

(** What the gateway uses of a key survives the cache, and so does the rest but
    for the hash; times from before 1970 may lose the seconds of their offset. *)
Definition same_key (k k' : APIKey) : Prop :=
  ID k' = ID k ∧ KeyHash k' = "" ∧ key_Name k' = key_Name k ∧ CreatedBy k' = CreatedBy k ∧ Tier k' = Tier k ∧
  IsActive k' = IsActive k ∧ (0 <= CreatedAt k → CreatedAt k' = CreatedAt k) ∧
  (from_option (λ t, 0 <= t) True (LastUsedAt k) → LastUsedAt k' = LastUsedAt k).

(** The fields before the last are decoded one by one. *)
Lemma key_fields `{UuidParse} (k : APIKey) (created : string) (t : time) (kvs : list (text * value)) :
  valid_key k → parse_RFC3339 created = Some t →
  key_decoder (VObj ((word "id", VStr (quote (ID k))) :: (word "name", VStr (quote (key_Name k))) ::
        (word "created_by", VStr (quote (CreatedBy k))) :: (word "tier", VStr (quote (Tier k))) ::
        (word "is_active", VBool (IsActive k)) :: (word "created_at", VStr (bytes_of created)) :: kvs)) zero_key =
  key_decoder (VObj kvs) {| ID := ID k; KeyHash := ""; key_Name := key_Name k; CreatedBy := CreatedBy k;
    Tier := Tier k; IsActive := IsActive k; CreatedAt := t; LastUsedAt := None |}.
Proof.
  intros (Hid & Hname & Hby & Htier & _ & _) Hp. unfold key_decoder. cbn [struct].
  decode_member. rewrite (d_text_quote _ _ (ID k)) by (by apply valid_uuid_text || by apply uuid_Parse_valid).
  do 3 (decode_member; rewrite d_string_quote by done). decode_member. cbn [d_bool].
  decode_member. by rewrite (d_time_text _ _ _ Hp).
Qed.

Lemma key_roundtrip `{LocalZone} `{UuidParse} (k : APIKey) :
  valid_key k → marshal_key k ≠ "" ∧ ∃ k', unmarshal_key (marshal_key k) = Some k' ∧ same_key k k'.
Proof.
  intros Hk. pose proof Hk as (Hid & Hname & Hby & Htier & Hcreated & Hlast).
  destruct (marshal_time_ok (CreatedAt k) Hcreated) as (s & t & Hs & Hp & Ht).
  assert (∀ kvs, Forall (λ p, string_body p.1 ∧ wf p.2) kvs → (foldr max 0 (map (λ p, depth p.2) kvs) = 0)%nat →
    unmarshal_key (text_of (VObj ((word "id", VStr (quote (ID k))) :: (word "name", VStr (quote (key_Name k))) ::
        (word "created_by", VStr (quote (CreatedBy k))) :: (word "tier", VStr (quote (Tier k))) ::
        (word "is_active", VBool (IsActive k)) :: (word "created_at", VStr (bytes_of s)) :: kvs))) =
    match key_decoder (VObj kvs) {| ID := ID k; KeyHash := ""; key_Name := key_Name k; CreatedBy := CreatedBy k;
      Tier := Tier k; IsActive := IsActive k; CreatedAt := t; LastUsedAt := None |} with
    | (k, Decoded) => Some k | _ => None end) as Hun.
  { intros kvs Hkvs Hd. unfold unmarshal_key. rewrite Unmarshal_text, (key_fields k s t).
    - by destruct (key_decoder _ _) as [? []].
    - done.
    - done.
    - wf_struct; eauto using wf_quote, valid_uuid_text, wf_bool, wf_time.
    - cbn [depth map foldr snd]. rewrite Hd. done. }
  unfold marshal_key. rewrite Hs. destruct (LastUsedAt k) as [u|] eqn:Eu; simpl in Hlast.
  - destruct (marshal_time_ok u Hlast) as (s' & t' & Hs' & Hp' & Ht'). rewrite Hs'. cbn [mbind option_bind].
    split; [done|]. rewrite Hun; [|constructor; [split; [by apply plain_body|by eapply wf_time]|done]|done].
    unfold key_decoder. cbn [struct]. decode_member. unfold pointer. rewrite (d_time_text _ _ _ Hp').
    eexists. split; [done|]. split_and!; simpl; [done..|auto|]. rewrite Eu. intros Hu. f_equal. by apply Ht'.
  - split; [done|]. rewrite Hun by done. eexists. split; [done|]. by split_and!.
Qed.

Section service.
Context {R D : Type} `{Redis R} `{KeyStore D} `{LocalZone} `{UuidParse}.

Definition on_redis {A} (m : Comp R A) : Comp (R * D) A := λ '(r, d),
  let '(r, a) := m r in ((r, d), a).

Definition on_db {A} (m : D → D * A) : Comp (R * D) A := λ '(r, d),
  let '(d, a) := m d in ((r, d), Ret a).

(** ** The repository *)

(** A pointer and an error: a row that is not found is neither. *)
Definition found (o : APIKey + db_error) : option APIKey * option db_error :=
  match o with
  | inl k => (Some k, None)
  | inr ErrRecordNotFound => (None, None)
  | inr e => (Some {| ID := uuid_Nil; KeyHash := ""; key_Name := ""; CreatedBy := ""; Tier := ""; IsActive := false;
                      CreatedAt := zero_time; LastUsedAt := None |}, Some e)
  end.

(** [models.APIKey.BeforeCreate] gives a new key its identifier [id]. *)
Definition BeforeCreate (id : string) (k : APIKey) : APIKey :=
  if decide (ID k = uuid_Nil) then {|
    ID := id; KeyHash := KeyHash k; key_Name := key_Name k; CreatedBy := CreatedBy k; Tier := Tier k;
    IsActive := IsActive k; CreatedAt := CreatedAt k; LastUsedAt := LastUsedAt k |}
  else k.

Definition repo_Create (id : string) (k : APIKey) : Comp (R * D) (option db_error) :=
  on_db (insert_key (BeforeCreate id k)).

Definition FindByHash (hash : string) : Comp (R * D) (option APIKey * option db_error) :=
  o ← on_db (first_by_hash hash); mret (found o).

Definition FindByID (id : string) : Comp (R * D) (option APIKey * option db_error) :=
  o ← on_db (first_by_id id); mret (found o).

Definition repo_List : Comp (R * D) (list APIKey * option db_error) :=
  o ← on_db find_keys;
  mret match o with inl ks => (ks, None) | inr e => ([], Some e) end.

Definition repo_Update (id : string) (u : updates) : Comp (R * D) (option db_error) := on_db (update_key id u).
Definition repo_UpdateLastUsed (id : string) (now : time) : Comp (R * D) (option db_error) := on_db (touch_key id now).
Definition repo_Delete (id : string) : Comp (R * D) (option db_error) := on_db (delete_key id).

Definition CountByTier (tier : string) : Comp (R * D) (Z * option db_error) :=
  o ← on_db (count_tier tier);
  mret match o with inl n => (n, None) | inr e => (0, Some e) end.

(** ** The service *)

Definition cache_key (keyHash : string) : string := "apikey:cache:" +:+ keyHash.

(** The text of a key. *)
Definition key_text (keyBytes : list N) : string := "gw_" +:+ base64_EncodeToString keyBytes.

(** Bytes that differ make keys that differ, and a key has no white space. *)
Lemma key_text_inj (bs bs' : list N) :
  is_bytes bs → is_bytes bs' → length bs = length bs' → key_text bs = key_text bs' → bs = bs'.
Proof. intros Hb Hb' Hl Heq%(inj (String.append "gw_")). by apply base64_inj. Qed.

Lemma key_text_trim (bs : list N) : is_bytes bs → TrimSpace (key_text bs) = key_text bs.
Proof.
  intros Hb. apply TrimSpace_printable. unfold key_text. rewrite bytes_of_app, base64_bytes by done.
  apply Forall_app. split; [by repeat constructor|by apply base64_go_printable].
Qed.

(** [Create]: [random] has the 32 random bytes, or the error of the random source;
    [id] is the identifier that the key gets. *)
Definition Create (random : list N + string) (id : string) (name createdBy tier : string)
    : Comp (R * D) (string * option string) :=
  match random with
  | inr e => mret ("", Some ("failed to generate random key: " +:+ e))
  | inl keyBytes =>
      let key := key_text keyBytes in
      let apiKey := {| ID := uuid_Nil; KeyHash := sha256_hex key; key_Name := name; CreatedBy := createdBy;
                       Tier := tier; IsActive := true; CreatedAt := zero_time; LastUsedAt := None |} in
      err ← repo_Create id apiKey;
      match err with
      | Some e => mret ("", Some ("failed to create API key: " +:+ db_text e))
      | None => mret (key, None)
      end
  end.

(** [Validate]; [t1] and [t2] are the server's clock at the two commands. *)
Definition Validate (key : string) (t1 t2 : time) : Comp (R * D) (option APIKey * option db_error) :=
  let keyHash := sha256_hex key in
  '(cached, err) ← on_redis (Redis.Get t1 (cache_key keyHash));
  match (if decide (err = None ∧ cached ≠ "") then unmarshal_key cached else None) with
  | Some apiKey => mret (Some apiKey, None)
  | None =>
      '(apiKey, err) ← FindByHash keyHash;
      match err, apiKey with
      | Some e, _ => mret (None, Some e)
      | None, None => mret (None, None)
      | None, Some k =>
          on_redis (Redis.Set_ t2 (cache_key keyHash) (marshal_key k) (5 * minute));;
          mret (Some k, None)
      end
  end.

Definition Get (id : string) : Comp (R * D) (option APIKey * option db_error) := FindByID id.
Definition List_ : Comp (R * D) (list APIKey * option db_error) := repo_List.

Definition invalidateCache (id : string) (t : time) : Comp (R * D) unit :=
  '(apiKey, err) ← FindByID id;
  match err, apiKey with
  | None, Some k => on_redis (Redis.Set_ t (cache_key (KeyHash k)) "" 0);; mret tt
  | _, _ => mret tt
  end.

Definition Update (id : string) (u : updates) (t1 t2 : time) : Comp (R * D) (option db_error) :=
  (if decide (is_Some (up_tier u)) then invalidateCache id t1 else mret tt);;
  (if decide (is_Some (up_is_active u)) then invalidateCache id t2 else mret tt);;
  repo_Update id u.

Definition Delete (id : string) (t : time) : Comp (R * D) (option db_error) :=
  invalidateCache id t;; repo_Delete id.

Definition UpdateLastUsed (id : string) (now : time) : Comp (R * D) unit :=
  repo_UpdateLastUsed id now;; mret tt.
End service.

(** ** Coherence of the cache *)

Section coherence.
Context {R D : Type} `{RedisReliable R} `{KeyStoreLaws D} `{LocalZone} `{UuidParse}.

(** An active key with the hash [h]. *)
Definition active_row (d : D) (h : string) (k : APIKey) : Prop :=
  ∃ id, rows d !! id = Some k ∧ KeyHash k = h ∧ IsActive k = true.

Lemma active_row_unique (d : D) (h : string) (k k' : APIKey) : active_row d h k → active_row d h k' → k = k'.
Proof.
  intros (i & Hi & Hh & _) (j & Hj & Hh' & _). pose proof (rows_hash d i j k k' Hi Hj ltac:(congruence)). congruence.
Qed.

(** A cached text is that of an active key, as far as the gateway uses it. *)
Definition entry_ok (d : D) (h : string) (e : option entry) : Prop :=
  match e with
  | None => True
  | Some (Entry (RString s) _) =>
      s = "" ∨ ∃ k0 k, active_row d h k ∧ s = marshal_key k0 ∧ valid_key k0 ∧ ID k0 = ID k ∧ Tier k0 = Tier k
  | Some _ => False
  end.

Definition cache_ok (T : time) (s : R * D) : Prop :=
  ∀ h, entry_ok s.2 h (live T (cache_key h) (rd_db s.1)).

#[export] Instance cache_key_inj : Inj (=) (=) cache_key.
Proof. intros h1 h2. apply (inj (String.append "apikey:cache:")). Qed.

Lemma cache_ok_later (T U : time) (s : R * D) : T <= U → cache_ok T s → cache_ok U s.
Proof.
  intros HTU Hok h. specialize (Hok h). rewrite (live_later T U) by done.
  destruct (live T (cache_key h) (rd_db s.1)) as [e|]; [|done]. by destruct (expired U e).
Qed.

(** The database may change as long as the cached keys stay active. *)
Lemma cache_ok_db (T : time) (r : R) (d d' : D) :
  (∀ h k, active_row d h k → live T (cache_key h) (rd_db r) = None ∨
     (∃ dl, live T (cache_key h) (rd_db r) = Some (Entry (RString "") dl)) ∨
     ∃ k', active_row d' h k' ∧ ID k' = ID k ∧ Tier k' = Tier k) →
  cache_ok T (r, d) → cache_ok T (r, d').
Proof.
  intros Hd Hok h. specialize (Hok h). simpl in *.
  destruct (live T (cache_key h) (rd_db r)) as [[[s|z] dl]|] eqn:Hl; [|done|done].
  destruct Hok as [->|(k0 & k & Hk & -> & Hval & HID & HT)]; [by left|].
  destruct (Hd h k Hk) as [Hn|[[dl' Hn]|(k' & Hk' & HID' & HT')]]; [congruence| |].
  - left. congruence.
  - right. exists k0, k'. split_and!; [done|done|done|congruence|congruence].
Qed.

(** Writing a cache entry. *)
Lemma cache_set (T : time) (h v : string) (ttl : duration) (r : R) (d : D) :
  ttl = 0 ∨ ttl = 5 * minute → cache_ok T (r, d) →
  v = "" ∨ (∃ k, active_row d h k ∧ v = marshal_key k) →
  ∃ r', Redis.Set_ T (cache_key h) v ttl r = (r', Ret None) ∧ cache_ok T (r', d) ∧
    (∃ dl, live T (cache_key h) (rd_db r') = Some (Entry (RString v) dl) ∧
       from_option (λ x, ms T + 300000 <= x) True dl) ∧
    ∀ K, K ≠ cache_key h → live T K (rd_db r') = live T K (rd_db r).
Proof.
  intros Httl Hok Hv.
  assert (∃ dl, redis_sem (SET (cache_key h) v ttl) T (rd_db r) =
      Some (<[cache_key h := Entry (RString v) dl]> (rd_db r), ROk) ∧
      expired T (Entry (RString v) dl) = false ∧ from_option (λ x, ms T + 300000 <= x) True dl)
      as (dl & Hs & Hx & Hdl).
  { cbn [redis_sem]. destruct Httl as [->| ->].
    - by exists None.
    - exists (Some (ms T + 300000)). change (5 * minute =? 0) with false. cbv iota.
      change (5 * minute) with (300 * second). rewrite deadline_seconds by lia. split; [done|].
      split; [|simpl; lia]. unfold expired. simpl. apply Z.ltb_ge. lia. }
  destruct (rd_ok T _ r _ _ Hs) as (r' & Hr & Hd); [done|].
  assert (∀ K, live T K (rd_db r') =
    if decide (cache_key h = K) then Some (Entry (RString v) dl) else live T K (rd_db r)) as Hlive.
  { intros K. rewrite (Hd K), live_insert, Hx. done. }
  exists r'. split_and!.
  - unfold Redis.Set_. by rewrite Hr.
  - intros h'. simpl. rewrite Hlive. case_decide as E; [apply (inj cache_key) in E as <-|apply (Hok h')].
    destruct Hv as [->|(k & Hk & ->)]; [by left|right]. exists k, k. split_and!; [done|done| |done|done].
    destruct Hk as (id & Hk & _). by apply (rows_valid d id).
  - exists dl. split; [by rewrite Hlive, decide_True|done].
  - intros K Hne. by rewrite Hlive, decide_False by done.
Qed.

Lemma active_row_rows (d d' : D) (h : string) (k : APIKey) :
  rows d' = rows d → active_row d' h k ↔ active_row d h k.
Proof. unfold active_row. by intros ->. Qed.

Lemma cache_ok_rows (T : time) (r : R) (d d' : D) : rows d' = rows d → cache_ok T (r, d) → cache_ok T (r, d').
Proof.
  intros Hr. apply cache_ok_db. intros h k Hk. right. right. exists k.
  split; [by rewrite (active_row_rows d d')|done].
Qed.

Lemma active_row_dec (d : D) (h : string) : (∃ k, active_row d h k) ∨ (∀ k, ¬ active_row d h k).
Proof.
  destruct (decide (map_Forall (λ _ k, ¬ (KeyHash k = h ∧ IsActive k = true)) (rows d))) as [Hall|Hex].
  - right. intros k (id & Hk & Hh & Ha). by apply (Hall id k Hk).
  - apply map_not_Forall in Hex as (id & k & Hk & Hn); [|apply _]. left. exists k, id.
    split; [done|]. destruct (decide (KeyHash k = h)), (decide (IsActive k = true)); tauto.
Qed.

(** The query by hash. *)
Lemma FindByHash_ok (h : string) (r : R) (d : D) :
  ∃ d' o, FindByHash h (r, d) = ((r, d'), Ret (o, None)) ∧ rows d' = rows d ∧
    match o with Some k => active_row d h k | None => ∀ k, ¬ active_row d h k end.
Proof.
  unfold FindByHash, on_db. comp_unfold. destruct (active_row_dec d h) as [(k & id & Hk & <- & Ha)|Hn].
  - destruct (first_by_hash_found d id k Hk Ha) as (d' & -> & Hd). exists d', (Some k).
    split_and!; [done..|]. by exists id.
  - destruct (first_by_hash_none d h) as (d' & -> & Hd).
    { intros id k Hk Hh. destruct (IsActive k) eqn:Ha; [|done]. exfalso. apply (Hn k). by exists id. }
    by exists d', None.
Qed.

Lemma FindByID_ok (id : string) (r : R) (d : D) :
  valid_uuid id = true →
  ∃ d', FindByID id (r, d) = ((r, d'), Ret (rows d !! id, None)) ∧ rows d' = rows d.
Proof.
  intros Hid. unfold FindByID, on_db. comp_unfold. destruct (first_by_id_found d id Hid) as (d' & -> & Hd).
  exists d'. by destruct (rows d !! id).
Qed.

(** Reading a cache entry. *)
Lemma cache_get (t : time) (h : string) (r : R) (d : D) :
  cache_ok t (r, d) →
  ∃ r' s err, Redis.Get t (cache_key h) r = (r', Ret (s, err)) ∧ cache_ok t (r', d) ∧
    rd_db r' ≡{t} rd_db r ∧ (err ≠ None ∨ s = "" ∨
     ∃ k0 k, active_row d h k ∧ s = marshal_key k0 ∧ valid_key k0 ∧ ID k0 = ID k ∧ Tier k0 = Tier k).
Proof.
  intros Hok. unfold Redis.Get. destruct (rd_exec t (GET (cache_key h)) r) as [r' rep] eqn:Hx.
  pose proof (rd_readonly t _ r r' rep Hx (mk_is_Some _ _ eq_refl) eq_refl) as Hd.
  exists r', (match rep with RStr s => s | _ => "" end), (err_of rep). split; [done|]. split.
  { intros h'. simpl. rewrite (Hd (cache_key h')). apply (Hok h'). }
  split; [done|]. destruct (is_error rep) eqn:He; [by destruct rep; left|].
  destruct (rd_answer t _ r r' rep _ _ Hx He eq_refl) as [-> _]. specialize (Hok h). simpl in Hok.
  destruct (live t (cache_key h) (rd_db r)) as [[[s|z] dl]|]; [|done|by left]. right. exact Hok.
Qed.

Lemma Validate_ok (key : string) (T t1 t2 : time) (r : R) (d : D) :
  T <= t1 → t1 <= t2 → cache_ok T (r, d) →
  ∃ s' o, Validate key t1 t2 (r, d) = (s', Ret (o, None)) ∧ cache_ok t2 s' ∧ rows s'.2 = rows d ∧
    (∀ K, (∀ h, K ≠ cache_key h) → live t2 K (rd_db s'.1) = live t2 K (rd_db r)) ∧
    match o with
    | Some k' => ∃ k, active_row d (sha256_hex key) k ∧ ID k' = ID k ∧ Tier k' = Tier k
    | None => ∀ k, ¬ active_row d (sha256_hex key) k
    end.
Proof.
  intros Hn1 Hn2 Hok. apply (cache_ok_later _ t1 _ Hn1) in Hok. set (h := sha256_hex key).
  destruct (cache_get t1 h r d Hok) as (r1 & s & err & HG & Hok1 & Hd1 & Hcase).
  unfold Validate. fold h. erewrite comp_bind_step by (unfold on_redis; by rewrite HG). cbv beta iota.
  apply (cache_ok_later _ t2 _ Hn2) in Hok1.
  case_decide as Hhit.
  - destruct Hhit as [-> Hs]. destruct Hcase as [?|[?|(k0 & k & Hk & -> & Hval & HID & HT)]]; [done..|].
    destruct (key_roundtrip k0 Hval) as (_ & k1 & -> & Hk1).
    eexists (r1, d), _. split_and!; [done..| |exists k; destruct Hk1 as (? & _ & _ & _ & ? & _); by split_and!; [|congruence..]].
    intros K _. by apply (db_eq_later _ _ _ _ Hn2) in Hd1.
  - destruct (FindByHash_ok h r1 d) as (d' & o & HF & Hd & Ho).
    rewrite (comp_bind_step _ _ _ _ _ HF). cbv beta iota.
    apply (cache_ok_rows _ _ _ _ Hd) in Hok1. apply (db_eq_later _ _ _ _ Hn2) in Hd1.
    destruct o as [k|]; [|by exists (r1, d'), None].
    destruct (cache_set t2 h (marshal_key k) (5 * minute) r1 d') as (r2 & HS & Hok2 & _ & Hfr);
      [by right|done| |].
    { right. exists k. by rewrite (active_row_rows d). }
    eexists (r2, d'), (Some k). erewrite comp_bind_step by (unfold on_redis; by rewrite HS).
    split_and!; [done..| |by exists k]. intros K HK. simpl. rewrite Hfr by done. apply Hd1.
Qed.

(** A miss, and a hit. *)
Lemma Validate_miss (key : string) (t1 t2 : time) (k : APIKey) (r : R) (d : D) :
  t1 <= t2 → cache_ok t1 (r, d) → active_row d (sha256_hex key) k →
  (live t1 (cache_key (sha256_hex key)) (rd_db r) = None ∨
   ∃ dl, live t1 (cache_key (sha256_hex key)) (rd_db r) = Some (Entry (RString "") dl)) →
  ∃ r' d' dl, Validate key t1 t2 (r, d) = ((r', d'), Ret (Some k, None)) ∧ rows d' = rows d ∧
    live t2 (cache_key (sha256_hex key)) (rd_db r') = Some (Entry (RString (marshal_key k)) dl) ∧
    from_option (λ x, ms t2 + 300000 <= x) True dl.
Proof.
  set (h := sha256_hex key). intros Ht Hok Hact Hl. unfold Validate, Redis.Get. fold h.
  destruct (rd_exec t1 (GET (cache_key h)) r) as [r1 rep] eqn:Hx.
  pose proof (rd_readonly t1 _ r r1 rep Hx (mk_is_Some _ _ eq_refl) eq_refl) as Hd.
  assert (cache_ok t2 (r1, d)) as Hok1.
  { apply (cache_ok_later t1); [done|]. intros h'. simpl. rewrite (Hd (cache_key h')). apply (Hok h'). }
  pose proof (rd_reliable t1 (GET (cache_key h)) r _ _ eq_refl) as Hrep. rewrite Hx in Hrep. simpl in Hrep.
  assert (¬ (err_of rep = None ∧ match rep with RStr s => s | _ => "" end ≠ "")) as Hmiss.
  { subst rep. destruct Hl as [->|[dl ->]]; simpl; naive_solver. }
  erewrite comp_bind_step by (unfold on_redis; by rewrite Hx). cbv beta iota. rewrite decide_False by done.
  destruct (FindByHash_ok h r1 d) as (d' & o & HF & Hrows & Ho).
  rewrite (comp_bind_step _ _ _ _ _ HF). cbv beta iota. destruct o as [k'|]; [|by destruct (Ho k)].
  assert (k' = k) as -> by (by eapply active_row_unique).
  apply (cache_ok_rows _ _ _ _ Hrows) in Hok1.
  destruct (cache_set t2 h (marshal_key k) (5 * minute) r1 d') as (r2 & HS & _ & (dl & Hl2 & Hdl) & _);
    [by right|done|right; exists k; by rewrite (active_row_rows d)|].
  exists r2, d', dl. erewrite comp_bind_step by (unfold on_redis; by rewrite HS). done.
Qed.

Lemma Validate_hit (key : string) (t1 t2 : time) (k : APIKey) (dl : option Z) (r : R) (d : D) :
  valid_key k → live t1 (cache_key (sha256_hex key)) (rd_db r) = Some (Entry (RString (marshal_key k)) dl) →
  ∃ r' k', Validate key t1 t2 (r, d) = ((r', d), Ret (Some k', None)) ∧ ID k' = ID k.
Proof.
  set (h := sha256_hex key). intros Hval Hl. unfold Validate, Redis.Get. fold h.
  destruct (rd_exec t1 (GET (cache_key h)) r) as [r1 rep] eqn:Hx.
  pose proof (rd_reliable t1 (GET (cache_key h)) r _ _ eq_refl) as Hrep. rewrite Hx, Hl in Hrep. simpl in Hrep.
  subst rep. erewrite comp_bind_step by (unfold on_redis; by rewrite Hx). cbv beta iota.
  destruct (key_roundtrip k Hval) as (Hne & k1 & Hun & HID & _).
  rewrite decide_True by done. rewrite Hun. by eexists r1, _.
Qed.

(** The cache entry of the key [id] is cleared. *)
Definition cleared (T : time) (id : string) (s : R * D) : Prop :=
  ∀ k, rows s.2 !! id = Some k →
    live T (cache_key (KeyHash k)) (rd_db s.1) = None ∨
    ∃ dl, live T (cache_key (KeyHash k)) (rd_db s.1) = Some (Entry (RString "") dl).

Lemma cleared_later (T U : time) (id : string) (s : R * D) : T <= U → cleared T id s → cleared U id s.
Proof.
  intros HTU Hc k Hk. rewrite (live_later T U) by done. destruct (Hc k Hk) as [->|[dl ->]]; [by left|].
  destruct (expired U _); [by left|right; by exists dl].
Qed.

Lemma invalidateCache_ok (id : string) (T t : time) (r : R) (d : D) :
  valid_uuid id = true → T <= t → cache_ok T (r, d) →
  ∃ s', invalidateCache id t (r, d) = (s', Ret tt) ∧ cache_ok t s' ∧ rows s'.2 = rows d ∧ cleared t id s'.
Proof.
  intros Hid HT Hok. apply (cache_ok_later _ t _ HT) in Hok.
  destruct (FindByID_ok id r d Hid) as (d' & HF & Hd). unfold invalidateCache.
  rewrite (comp_bind_step _ _ _ _ _ HF). cbv beta iota. apply (cache_ok_rows _ _ _ _ Hd) in Hok.
  destruct (rows d !! id) as [k|] eqn:Hk.
  - destruct (cache_set t (KeyHash k) "" 0 r d') as (r' & HS & Hok' & (dl & Hl & _) & _); [by left|done|by left|].
    exists (r', d'). erewrite comp_bind_step by (unfold on_redis; by rewrite HS).
    split_and!; [done..|]. intros k' Hk'. simpl in Hk'. rewrite Hd, Hk in Hk'. simplify_eq. right. by exists dl.
  - exists (r, d'). split_and!; [done..|]. intros k' Hk'. simpl in Hk'. by rewrite Hd, Hk in Hk'.
Qed.

(** Changing or removing the row [id] once its entry is cleared. *)
Lemma cache_ok_row (T : time) (id : string) (r : R) (d d' : D) :
  (∀ id', id' ≠ id → rows d' !! id' = rows d !! id') → cleared T id (r, d) →
  cache_ok T (r, d) → cache_ok T (r, d').
Proof.
  intros Hrows Hc. apply cache_ok_db. intros h k (id' & Hk & Hh & Ha).
  destruct (decide (id' = id)) as [->|Hne].
  - rewrite <- Hh. destruct (Hc k Hk) as [Hl|Hl]; [by left|by right; left].
  - right. right. exists k. split; [|done]. exists id'. by rewrite Hrows.
Qed.

Lemma Delete_ok (id : string) (T t : time) (r : R) (d : D) :
  valid_uuid id = true → T <= t → cache_ok T (r, d) →
  ∃ s', Delete id t (r, d) = (s', Ret None) ∧ cache_ok t s' ∧ rows s'.2 = delete id (rows d).
Proof.
  intros Hid HT Hok. destruct (invalidateCache_ok id T t r d Hid HT Hok) as ([r1 d1] & HI & Hok1 & Hd1 & Hc).
  destruct (delete_key_rows d1 id Hid) as (d2 & HD & Hd2). simpl in Hd1.
  exists (r1, d2). unfold Delete, repo_Delete, on_db. rewrite (comp_bind_step _ _ _ _ _ HI).
  rewrite HD. split_and!; [done| |simpl; by rewrite Hd2, Hd1].
  eapply cache_ok_row; [|done|done]. intros id' Hne. by rewrite Hd2, lookup_delete_ne.
Qed.

Lemma Update_ok (id : string) (u : updates) (T t1 t2 : time) (r : R) (d : D) :
  valid_uuid id = true → valid_updates u → T <= t1 → t1 <= t2 → cache_ok T (r, d) →
  ∃ s', Update id u t1 t2 (r, d) = (s', Ret None) ∧ cache_ok t2 s' ∧
    rows s'.2 = alter (apply_updates u) id (rows d).
Proof.
  intros Hid Hu HT Ht Hok.
  assert (∃ s1, (if decide (is_Some (up_tier u)) then invalidateCache id t1 else mret tt) (r, d) = (s1, Ret tt) ∧
    cache_ok t1 s1 ∧ rows s1.2 = rows d ∧ (is_Some (up_tier u) → cleared t1 id s1)) as ([r1 d1] & Hs1 & Hok1 & Hd1 & Hc1).
  { case_decide; [|exists (r, d); split_and!; [done|by eapply cache_ok_later|done|done]].
    destruct (invalidateCache_ok id T t1 r d Hid HT Hok) as (s1 & ? & ? & ? & ?). exists s1. by split_and!. }
  assert (∃ s2, (if decide (is_Some (up_is_active u)) then invalidateCache id t2 else mret tt) (r1, d1) = (s2, Ret tt) ∧
    cache_ok t2 s2 ∧ rows s2.2 = rows d1 ∧
    (is_Some (up_tier u) ∨ is_Some (up_is_active u) → cleared t2 id s2)) as ([r2 d2] & Hs2 & Hok2 & Hd2 & Hc2).
  { clear Hs1. destruct (decide (is_Some (up_is_active u))) as [Ha|Ha].
    - destruct (invalidateCache_ok id t1 t2 r1 d1 Hid Ht Hok1) as (s2 & ? & ? & ? & ?). exists s2. by split_and!.
    - exists (r1, d1). split_and!; [done|by eapply cache_ok_later|done|].
      intros [?|]; [|done]. by apply (cleared_later t1), Hc1. }
  destruct (update_key_rows d2 id u Hid Hu) as (d3 & HU & Hd3). simpl in *.
  exists (r2, d3). unfold Update, repo_Update, on_db.
  rewrite (comp_bind_step _ _ _ _ _ Hs1), (comp_bind_step _ _ _ _ _ Hs2), HU.
  split_and!; [done| |simpl; by rewrite Hd3, Hd2, Hd1].
  eapply cache_ok_row; [|by apply Hc2, Hu|done]. intros id' Hne. by rewrite Hd3, lookup_alter_ne.
Qed.

(** ** Runs of the service *)

Inductive op :=
  | OpCreate (keyBytes : list N) (id name createdBy tier : string)
  | OpValidate (key : string)
  | OpUpdate (id : string) (u : updates)
  | OpDelete (id : string)
  | OpTouch (id : string).

(** An operation and its clock readings. *)
Record timed := { o_op : op; o_t1 : time; o_t2 : time }.

Definition run_op (o : timed) (s : R * D) : R * D :=
  match o_op o with
  | OpCreate keyBytes id name createdBy tier => (Create (inl keyBytes) id name createdBy tier s).1
  | OpValidate key => (Validate key (o_t1 o) (o_t2 o) s).1
  | OpUpdate id u => (Update id u (o_t1 o) (o_t2 o) s).1
  | OpDelete id => (Delete id (o_t1 o) s).1
  | OpTouch id => (UpdateLastUsed id (o_t1 o) s).1
  end.

Fixpoint run_ops (os : list timed) (s : R * D) : R * D :=
  match os with
  | [] => s
  | o :: os => run_ops os (run_op o s)
  end.

(** The key [k] as [Create] hands it to the table. *)
Definition new_key (keyBytes : list N) (id name createdBy tier : string) : APIKey := BeforeCreate id {|
  ID := uuid_Nil; KeyHash := sha256_hex (key_text keyBytes); key_Name := name; CreatedBy := createdBy;
  Tier := tier; IsActive := true; CreatedAt := zero_time; LastUsedAt := None |}.

(** The arguments are ones the database can store; a new key has an identifier
    and a hash of its own, and a tier. *)
Definition create_ok (keyBytes : list N) (id name createdBy tier : string) (d : D) : Prop :=
  valid_key (new_key keyBytes id name createdBy tier) ∧ rows d !! id = None ∧ tier ≠ "" ∧
  ∀ id' k, rows d !! id' = Some k → KeyHash k ≠ sha256_hex (key_text keyBytes).

Definition op_ok (o : timed) (d : D) : Prop :=
  match o_op o with
  | OpCreate keyBytes id name createdBy tier => create_ok keyBytes id name createdBy tier d
  | OpValidate _ => True
  | OpUpdate id u => valid_uuid id = true ∧ valid_updates u
  | OpDelete id => valid_uuid id = true
  | OpTouch id => valid_uuid id = true ∧ valid_time (o_t1 o)
  end.

Fixpoint ops_ok (T : time) (os : list timed) (s : R * D) : Prop :=
  match os with
  | [] => True
  | o :: os => T <= o_t1 o ∧ o_t1 o <= o_t2 o ∧ op_ok o s.2 ∧ ops_ok (o_t2 o) os (run_op o s)
  end.

Definition last_time (T : time) (os : list timed) : time := default T (o_t2 <$> last os).

Lemma Create_ok (keyBytes : list N) (id name createdBy tier : string) (T : time) (r : R) (d : D) :
  create_ok keyBytes id name createdBy tier d → cache_ok T (r, d) →
  ∃ d' k, Create (inl keyBytes) id name createdBy tier (r, d) =
      ((r, d'), Ret (key_text keyBytes, None)) ∧ cache_ok T (r, d') ∧ rows d' = <[id := k]> (rows d) ∧
    active_row d' (sha256_hex (key_text keyBytes)) k ∧ ID k = id ∧ Tier k = tier ∧ key_Name k = name.
Proof.
  intros (Hval & Hid & Htier & Hhash) Hok. unfold Create, repo_Create, on_db. comp_unfold.
  fold (new_key keyBytes id name createdBy tier). set (k := new_key _ _ _ _ _) in *.
  assert (ID k = id) as HID by (unfold k, new_key, BeforeCreate; by rewrite decide_True).
  assert (KeyHash k = sha256_hex (key_text keyBytes) ∧ Tier k = tier ∧ IsActive k = true ∧ key_Name k = name)
    as (Hk1 & Hk2 & Hk3 & Hk4) by (unfold k, new_key, BeforeCreate; by rewrite decide_True).
  destruct (insert_key_new d k) as (d' & t & HI & Hd);
    [by rewrite HID|by rewrite Hk1|done|by rewrite Hk2|done|].
  rewrite HI, HID in *. exists d', (set_CreatedAt t k). split_and!; [done| |done| |done..].
  - revert Hok. apply cache_ok_db. intros h k' (id' & Hk' & ? & ?). right. right. exists k'.
    split; [|done]. exists id'. rewrite Hd, lookup_insert_ne; [done|]. intros ->. by rewrite Hid in Hk'.
  - exists id. by rewrite Hd, lookup_insert_eq.
Qed.

Lemma run_op_ok (o : timed) (T : time) (s : R * D) :
  T <= o_t1 o → o_t1 o <= o_t2 o → op_ok o s.2 → cache_ok T s → cache_ok (o_t2 o) (run_op o s).
Proof.
  destruct s as [r d]. intros HT Ht Hop Hok. unfold run_op, op_ok in *. destruct (o_op o) as [enc id nm by_ tr|key|id u|id|id].
  - apply (cache_ok_later T); [lia|].
    by destruct (Create_ok enc id nm by_ tr T r d Hop Hok) as (d' & k & -> & ? & _).
  - by destruct (Validate_ok key T _ _ r d HT Ht Hok) as (s' & o' & -> & ? & _).
  - destruct Hop as [Hid Hu]. by destruct (Update_ok id u T _ _ r d Hid Hu HT Ht Hok) as (s' & -> & ? & _).
  - apply (cache_ok_later (o_t1 o)); [done|]. by destruct (Delete_ok id T _ r d Hop HT Hok) as (s' & -> & ? & _).
  - apply (cache_ok_later T); [lia|]. unfold UpdateLastUsed, repo_UpdateLastUsed, on_db. comp_unfold.
    destruct Hop as [Hid Htime]. destruct (touch_key_rows d id (o_t1 o) Hid Htime) as (d' & t' & -> & Hd). revert Hok. apply cache_ok_db.
    intros h k (id' & Hk & Hh & Ha). right. right. destruct (decide (id = id')) as [->|Hne].
    + exists (set_LastUsedAt t' k). split; [|done]. exists id'. by rewrite Hd, lookup_alter_eq, Hk.
    + exists k. split; [|done]. exists id'. by rewrite Hd, lookup_alter_ne.
Qed.

Lemma run_ops_ok (os : list timed) (T : time) (s : R * D) :
  ops_ok T os s → cache_ok T s → cache_ok (last_time T os) (run_ops os s).
Proof.
  revert T s. induction os as [|o os IH]; intros T s Hops Hok; [done|].
  destruct Hops as (Hn1 & Hn2 & Hop & Hops). specialize (IH (o_t2 o) (run_op o s) Hops).
  unfold last_time in *. rewrite last_cons. apply (run_op_ok o T) in Hok; [|done..].
  specialize (IH Hok). simpl. by destruct (last os).
Qed.

Lemma run_ops_empty (os : list timed) (T : time) (s : R * D) :
  (∀ h, live T (cache_key h) (rd_db s.1) = None) → ops_ok T os s → cache_ok (last_time T os) (run_ops os s).
Proof. intros Hempty Hops. apply run_ops_ok; [done|]. intros h. by rewrite Hempty. Qed.
End coherence.

(** ** Properties *)

Section properties.
Context {R D : Type} `{RedisReliable R} `{KeyStoreLaws D} `{LocalZone} `{UuidParse}.

(** C7: Validation is correct through the cache: after any sequence of creations,
    validations, updates and deletions, one after the other, a key is accepted
    exactly when the database has an active key with its hash, and then with
    the identifier and the tier it has now.  A key that was revoked or deleted
    is refused at once. *)
Theorem validate_current (key : string) (T t1 t2 : time) (os : list timed) (s : R * D)
    (Hempty : ∀ h, live T (cache_key h) (rd_db s.1) = None)
    (Hops : ops_ok T os s) (Hn1 : last_time T os <= t1) (Hn2 : t1 <= t2) :
  let s1 := run_ops os s in
  ∃ s2 o, Validate key t1 t2 s1 = (s2, Ret (o, None)) ∧
    match o with
    | Some k' => ∃ k, active_row s1.2 (sha256_hex key) k ∧ ID k' = ID k ∧ Tier k' = Tier k
    | None => ∀ k, ¬ active_row s1.2 (sha256_hex key) k
    end.
Proof.
  intros s1. assert (cache_ok (last_time T os) s1) as Hok by (by apply run_ops_empty).
  destruct s1 as [r1 d1]. destruct (Validate_ok key _ t1 t2 r1 d1 Hn1 Hn2 Hok)
    as (s2 & o & HV & _ & _ & _ & Ho). by exists s2, o.
Qed.

(** A created key works: [Create] returns a key that [Validate] accepts, with
    the identifier and tier it was created with. *)
Theorem created_key_validates (keyBytes : list N) (id name createdBy tier : string) (T t1 t2 : time) (s : R * D)
    (Hok : cache_ok T s) (Hop : create_ok keyBytes id name createdBy tier s.2)
    (Hn1 : T <= t1) (Hn2 : t1 <= t2) :
  ∃ s1 key s2 k, Create (inl keyBytes) id name createdBy tier s = (s1, Ret (key, None)) ∧
    Validate key t1 t2 s1 = (s2, Ret (Some k, None)) ∧ ID k = id ∧ Tier k = tier.
Proof.
  destruct s as [r d].
  destruct (Create_ok keyBytes id name createdBy tier T r d Hop Hok)
    as (d' & k & HC & Hok' & Hrows & Hact & HID & HT & _).
  destruct (Validate_ok (key_text keyBytes) T t1 t2 r d' Hn1 Hn2 Hok') as (s2 & o & HV & _ & _ & _ & Ho).
  destruct o as [k'|]; [|by destruct (Ho k)]. destruct Ho as (k2 & Hact2 & HID2 & HT2).
  assert (k2 = k) as -> by (by eapply active_row_unique).
  exists (r, d'), (key_text keyBytes), s2, k'. split_and!; [done|done|congruence|congruence].
Qed.

(** Revocation can be undone by a race: a validation between the two halves of
    [Delete] caches the key again, and the deleted key is accepted until the
    entry expires, five minutes later. *)
Theorem revocation_race (key id : string) (T t1 t2 t3 t4 t5 : time) (k : APIKey) (s : R * D)
    (Hok : cache_ok T s) (Hrow : rows s.2 !! id = Some k) (Hactive : IsActive k = true)
    (Hhash : KeyHash k = sha256_hex key)
    (Hn1 : T <= t1) (Hn2 : t1 <= t2) (Hn3 : t2 <= t3) (Hn4 : t3 <= t4) (Hn5 : t4 <= t5)
    (Hsoon : t4 <= t3 + 5 * minute) :
  ∃ s1 s2 s3 s4 k1 k2,
    invalidateCache id t1 s = (s1, Ret tt) ∧
    Validate key t2 t3 s1 = (s2, Ret (Some k1, None)) ∧
    repo_Delete id s2 = (s3, Ret None) ∧
    Validate key t4 t5 s3 = (s4, Ret (Some k2, None)) ∧
    ID k2 = id ∧ rows s3.2 !! id = None ∧ ∀ k', ¬ active_row s3.2 (sha256_hex key) k'.
Proof.
  destruct s as [r d]. simpl in Hrow. pose proof (rows_valid d id k Hrow) as Hval.
  assert (valid_uuid id = true) as Hid by (rewrite <- (rows_ID d id k Hrow); apply Hval).
  destruct (invalidateCache_ok id T t1 r d Hid Hn1 Hok) as ([r1 d1] & HI & Hok1 & Hd1 & Hc). simpl in Hd1.
  apply (cleared_later t1 t2) in Hc; [|done]. apply (cache_ok_later t1 t2) in Hok1; [|done].
  rewrite <- Hd1 in Hrow. specialize (Hc k Hrow). rewrite Hhash in Hc.
  assert (active_row d1 (sha256_hex key) k) as Hact by (by exists id).
  destruct (Validate_miss key t2 t3 k r1 d1 Hn3 Hok1 Hact Hc) as (r2 & d2 & dl & HV & Hd2 & Hl & Hdl).
  destruct (delete_key_rows d2 id Hid) as (d3 & HD & Hd3).
  assert (live t4 (cache_key (sha256_hex key)) (rd_db r2) = Some (Entry (RString (marshal_key k)) dl)) as Hl4.
  { rewrite (live_later t3 t4), Hl by done. destruct dl as [x|]; [|done]. simpl in Hdl. unfold expired. simpl.
    apply ms_mono in Hsoon. change (5 * minute) with (300 * second) in Hsoon. rewrite ms_add_seconds in Hsoon.
    rewrite (proj2 (Z.ltb_ge _ _)) by lia. done. }
  destruct (Validate_hit key t4 t5 k dl r2 d3 Hval Hl4) as (r4 & k2 & HV2 & HID).
  exists (r1, d1), (r2, d2), (r2, d3), (r4, d3), k, k2. unfold repo_Delete, on_db. rewrite HD.
  split_and!; [done..| | |].
  - rewrite HID. by apply (rows_ID d1).
  - simpl. by rewrite Hd3, lookup_delete_eq.
  - intros k' (id' & Hk' & Hh' & _). simpl in Hk'. rewrite Hd3, Hd2 in Hk'.
    apply lookup_delete_Some in Hk' as [Hne Hk']. apply Hne.
    apply (rows_hash d1 id id' k k' Hrow Hk'). congruence.
Qed.
End properties.

(** ** Witnesses *)

(** A table in memory. *)
Definition wf_rows (m : gmap string APIKey) : Prop :=
  map_Forall (λ id k, ID k = id ∧ valid_key k) m ∧
  map_Forall (λ id1 k1, map_Forall (λ id2 k2, KeyHash k1 = KeyHash k2 → id1 = id2) m) m.

#[local] Instance valid_key_dec (k : APIKey) : Decision (valid_key k).
Proof. unfold valid_key. destruct (LastUsedAt k); simpl; apply _. Defined.

#[local] Instance wf_rows_dec (m : gmap string APIKey) : Decision (wf_rows m).
Proof. unfold wf_rows. apply _. Defined.

Definition table : Type := gmap string APIKey.

Definition table_rows (d : table) : gmap string APIKey := if decide (wf_rows d) then d else ∅.

Lemma table_rows_wf (d : table) : wf_rows (table_rows d).
Proof. unfold table_rows. case_decide; [done|]. split; apply map_Forall_empty. Qed.

Lemma table_rows_id (m : table) : wf_rows m → table_rows m = m.
Proof. intros Hm. unfold table_rows. by rewrite decide_True. Qed.

Definition pick (o : option (string * APIKey)) : APIKey + db_error :=
  match o with Some (_, k) => inl k | None => inr ErrRecordNotFound end.

#[local] Instance table_store : KeyStore table := {|
  insert_key k d := (<[ID k := k]> (table_rows d), None);
  first_by_hash h d :=
    (d, pick (head (map_to_list (filter (λ p, KeyHash p.2 = h ∧ IsActive p.2 = true) (table_rows d)))));
  first_by_id id d := (d, match table_rows d !! id with Some k => inl k | None => inr ErrRecordNotFound end);
  find_keys d := (d, inl (map_to_list (table_rows d)).*2);
  update_key id u d := (alter (apply_updates u) id (table_rows d), None);
  touch_key id t d :=
    if decide (valid_time t) then (alter (set_LastUsedAt t) id (table_rows d), None)
    else (d, Some (ErrDB "timestamp out of range"));
  delete_key id d := (delete id (table_rows d), None);
  count_tier tier d :=
    (d, inl (Z.of_nat (size (filter (λ p, Tier p.2 = tier ∧ IsActive p.2 = true) (table_rows d)))))
|}.

Lemma wf_alter (f : APIKey → APIKey) (id : string) (m : gmap string APIKey) :
  (∀ k, ID (f k) = ID k ∧ KeyHash (f k) = KeyHash k) → (∀ k, valid_key k → valid_key (f k)) →
  wf_rows m → wf_rows (alter f id m).
Proof.
  intros Hf Hval [HID Hh].
  assert (∀ i k, alter f id m !! i = Some k → ∃ k0, m !! i = Some k0 ∧ ID k = ID k0 ∧
    KeyHash k = KeyHash k0 ∧ (valid_key k0 → valid_key k)) as Hk.
  { intros i k [[-> (k0 & Hk0 & ->)]|[Hne Hk]]%lookup_alter_Some; [|by exists k].
    exists k0. destruct (Hf k0) as [-> ->]. eauto. }
  split.
  - intros i k (k0 & Hk0 & -> & _ & Hv)%Hk. destruct (HID i k0 Hk0). auto.
  - intros i k (k0 & Hk0 & _ & E & _)%Hk j k' (k0' & Hk0' & _ & E' & _)%Hk Heq.
    apply (Hh i k0 Hk0 j k0' Hk0'). congruence.
Qed.

Lemma wf_insert (k : APIKey) (m : gmap string APIKey) :
  (∀ id k', m !! id = Some k' → KeyHash k' ≠ KeyHash k) → valid_key k → wf_rows m → wf_rows (<[ID k := k]> m).
Proof.
  intros Hnew Hval [HID Hh]. split.
  - intros i k' [[<- <-]|[_ Hk']]%lookup_insert_Some; [done|by apply HID].
  - intros i k1 [[<- <-]|[_ E1]]%lookup_insert_Some j k2 [[<- <-]|[_ E2]]%lookup_insert_Some Heq; [done| | |].
    + by destruct (Hnew j k2 E2).
    + by destruct (Hnew i k1 E1).
    + by apply (Hh i k1 E1 j k2 E2).
Qed.

Lemma wf_delete (id : string) (m : gmap string APIKey) : wf_rows m → wf_rows (delete id m).
Proof.
  intros [HID Hh]. split.
  - intros i k [_ Hk]%lookup_delete_Some. by apply HID.
  - intros i k1 [_ E1]%lookup_delete_Some j k2 [_ E2]%lookup_delete_Some. by apply (Hh i k1 E1 j k2 E2).
Qed.

Lemma table_first (d : table) (h : string) :
  match pick (head (map_to_list (filter (λ p, KeyHash p.2 = h ∧ IsActive p.2 = true) (table_rows d)))) with
  | inl k => ∃ id, table_rows d !! id = Some k ∧ KeyHash k = h ∧ IsActive k = true
  | inr e => e = ErrRecordNotFound ∧
      ∀ id k, table_rows d !! id = Some k → KeyHash k = h → IsActive k = false
  end.
Proof.
  set (m := filter _ _). destruct (map_to_list m) as [|[id k] l] eqn:Hl; simpl.
  - split; [done|]. apply map_to_list_empty_iff in Hl. intros id k Hk Hh. destruct (IsActive k) eqn:Ha; [|done].
    assert (m !! id = Some k) as E by (by apply map_lookup_filter_Some). by rewrite Hl in E.
  - assert (m !! id = Some k) as E by (apply elem_of_map_to_list; rewrite Hl; set_solver).
    apply map_lookup_filter_Some in E as [Hk []]. by exists id.
Qed.

#[local] Obligation Tactic := idtac.

#[local] Program Instance table_laws : KeyStoreLaws table := {| rows := table_rows |}.
Next Obligation. intros d id k Hk. by apply (table_rows_wf d). Qed.
Next Obligation. intros d id k Hk. by apply (proj1 (table_rows_wf d) id k Hk). Qed.
Next Obligation. intros d i j k1 k2 E1 E2 Hh. by apply (proj2 (table_rows_wf d) i k1 E1 j k2 E2). Qed.
Next Obligation.
  intros d k _ Hnew Hval _ _. eexists _, (CreatedAt k). split; [done|]. rewrite table_rows_id.
  - by destruct k.
  - apply wf_insert; [done|done|apply table_rows_wf].
Qed.
Next Obligation.
  intros d id k Hk Ha. exists d. split; [|done]. unfold first_by_hash. simpl.
  pose proof (table_first d (KeyHash k)) as Hf. destruct (pick _) as [k'|e].
  - destruct Hf as (id' & Hk' & Hh & _). do 2 f_equal.
    pose proof (proj2 (table_rows_wf d) id k Hk id' k' Hk' (eq_sym Hh)). simplify_eq. congruence.
  - destruct Hf as [_ Hf]. by rewrite (Hf id k Hk eq_refl) in Ha.
Qed.
Next Obligation.
  intros d h Hnone. exists d. split; [|done]. unfold first_by_hash. simpl.
  pose proof (table_first d h) as Hf. destruct (pick _) as [k|e].
  - destruct Hf as (id & Hk & Hh & Ha). by rewrite (Hnone id k Hk Hh) in Ha.
  - by destruct Hf as [-> _].
Qed.
Next Obligation. intros d id _. by exists d. Qed.
Next Obligation.
  intros d id u _ [_ Hu]. eexists. split; [done|]. apply table_rows_id, wf_alter; [done| |apply table_rows_wf].
  intros k (? & ? & ? & ? & ? & ?). split_and!; [done..| |done|done]. simpl. by destruct (up_tier u).
Qed.
Next Obligation.
  intros d id t _ Ht. eexists _, t. split; [by simpl; rewrite decide_True|].
  apply table_rows_id, wf_alter; [done| |apply table_rows_wf]. intros k (? & ? & ? & ? & ? & ?). by split_and!.
Qed.
Next Obligation.
  intros d id t. simpl. case_decide as Ht; [right; exists t|by left].
  apply table_rows_id, wf_alter; [done| |apply table_rows_wf]. intros k (? & ? & ? & ? & ? & ?). by split_and!.
Qed.
Next Obligation. intros d id _. eexists. split; [done|]. apply table_rows_id, wf_delete, table_rows_wf. Qed.

#[local] Existing Instances utc strict_uuid.

Definition id1 : string := "11111111-1111-1111-1111-111111111111".

(** A key of 32 bytes, its text and its hash. *)
Definition bytes1 : list N := N.of_nat <$> seq 0 32.
Definition text1 : string := "gw_AAECAwQFBgcICQoLDA0ODxAREhMUFRYXGBkaGxwdHh8=".
Definition hash1 : string := "e5c41a3768c46531985fe54629af59698a1f87f2546a200a4e5fa8b27a3b2491".

Lemma key1_text : key_text bytes1 = text1 ∧ sha256_hex text1 = hash1.
Proof. vm_compute. done. Qed.

(** A key is created, used, moved to another tier, used again and revoked. *)
Definition key_life : list timed :=
  let at_ o t := {| o_op := o; o_t1 := t; o_t2 := t |} in
  [at_ (OpCreate bytes1 id1 "app" "me" "basic") second; at_ (OpValidate text1) (2 * second);
   at_ (OpUpdate id1 {| up_tier := Some "premium"; up_is_active := None |}) (3 * second);
   at_ (OpValidate text1) (4 * second); at_ (OpTouch id1) (4 * second);
   at_ (OpUpdate id1 {| up_tier := None; up_is_active := Some false |}) (5 * second)].

Lemma create_ok_id1 : create_ok bytes1 id1 "app" "me" "basic" (∅ : table).
Proof.
  split; [by apply (bool_decide_unpack _); vm_compute|]. split_and!; [done|done|]. intros id k Hk.
  by vm_compute in Hk.
Qed.

Lemma key_life_ok : ops_ok (R := RefRedis) (D := table) second key_life (∅, ∅).
Proof.
  unfold key_life. cbn [ops_ok op_ok o_op o_t1 o_t2].
  assert (valid_uuid id1 = true) as Hid by done.
  split_and!; first [exact create_ok_id1 | exact Hid | exact I | vm_compute; discriminate
    | split; [first [by left; eexists | by right; eexists]|done] | split; vm_compute; [discriminate|done]].
Qed.

Lemma validate_current_witness :
  let s1 := run_ops (R := RefRedis) (D := table) key_life (∅, ∅) in
  (Validate text1 (6 * second) (6 * second) s1).2 = Ret (None, None) ∧
  ∃ s2 o, Validate text1 (6 * second) (6 * second) s1 = (s2, Ret (o, None)) ∧
    match o with
    | Some k' => ∃ k, active_row s1.2 (sha256_hex text1) k ∧ ID k' = ID k ∧ Tier k' = Tier k
    | None => ∀ k, ¬ active_row s1.2 (sha256_hex text1) k
    end.
Proof.
  split; [vm_compute; reflexivity|].
  apply (validate_current (R := RefRedis) (D := table) text1 second (6 * second) (6 * second)
    key_life (∅, ∅)); [reflexivity|exact key_life_ok|vm_compute; discriminate|vm_compute; discriminate].
Defined.

Lemma created_key_validates_witness :
  ∃ s1 key s2 k, Create (R := RefRedis) (D := table) (inl bytes1) id1 "app" "me" "basic" (∅, ∅)
      = (s1, Ret (key, None)) ∧
    Validate key second second s1 = (s2, Ret (Some k, None)) ∧ ID k = id1 ∧ Tier k = "basic".
Proof.
  apply (created_key_validates (R := RefRedis) (D := table) bytes1 id1 "app" "me" "basic"
    second second second (∅, ∅)); [intros h; exact I|exact create_ok_id1|lia|lia].
Defined.

Definition key1 : APIKey := {|
  ID := id1; KeyHash := hash1; key_Name := "app"; CreatedBy := "me"; Tier := "basic"; IsActive := true;
  CreatedAt := zero_time; LastUsedAt := None |}.

Lemma revocation_race_witness :
  ∃ s1 s2 s3 s4 k1 k2,
    invalidateCache (R := RefRedis) (D := table) id1 second (∅, {[ id1 := key1 ]}) = (s1, Ret tt) ∧
    Validate text1 second second s1 = (s2, Ret (Some k1, None)) ∧
    repo_Delete id1 s2 = (s3, Ret None) ∧
    Validate text1 minute minute s3 = (s4, Ret (Some k2, None)) ∧
    ID k2 = id1 ∧ rows s3.2 !! id1 = None ∧ ∀ k', ¬ active_row s3.2 (sha256_hex text1) k'.
Proof.
  apply (revocation_race (R := RefRedis) (D := table) text1 id1 second second second second minute minute
    key1 (∅, {[ id1 := key1 ]})); [intros h; exact I|vm_compute; reflexivity|reflexivity|reflexivity|..];
    vm_compute; discriminate.
Defined.
