(* ===== verification/RequestLog.v ===== *)
(** * The request log

    Models the asynchronous half of [src/internal/middleware/requestlogger.go]:
    the buffered channel, the worker that collects entries into batches, and
    the insertion of a batch.  The entry is [src/internal/models/requestlog.go].
    The handler that makes an entry is in the file [Middleware].

    The table is in PostgreSQL behind GORM, the class [LogStore]. *)

From S2P Require Import Prelude.

(** [ID] is zero until the database assigns it. *)
Record RequestLog := {
  log_ID : Z;
  Timestamp : time;
  APIKeyID : option string;
  log_Method : string;
  log_Path : string;
  StatusCode : Z;
  ResponseTimeMs : Z;
  IPAddress : string;
  UserAgent : string;
  BackendServer : string
}.

#[export] Instance RequestLog_eq_dec : EqDecision RequestLog.
Proof. solve_decision. Defined.

(** [db.DB.Create(&logs)], one transaction. *)
Class LogStore (L : Type) := insert_logs : list RequestLog → L → L * option string.

(** The entries of the table in the order of their insertion, without the
    identifiers they got.  An insertion that reports an error may have happened
    all the same: the error can be the loss of the answer. *)
Class LogStoreLaws (L : Type) `{LogStore L} := {
  stored : L → list RequestLog;
  insert_logs_ok logs l l' : insert_logs logs l = (l', None) → stored l' = stored l ++ logs;
  insert_logs_error logs l l' e :
    insert_logs logs l = (l', Some e) → stored l' = stored l ∨ stored l' = stored l ++ logs
}.

Class LogStoreReliable (L : Type) `{LogStore L} :=
  insert_logs_reliable logs l : (insert_logs logs l).2 = None.

(** ** Operations *)

Section operations.
Context {L : Type} `{LogStore L}.

(** The channel, oldest entry first, its capacity, and the worker's batch. *)
Record logger := {
  logChannel : list RequestLog;
  bufferSize : Z;
  batch : list RequestLog;
  log_db : L
}.

(** [InitRequestLogger]: [make] panics on a negative capacity. *)
Definition InitRequestLogger (db : L) (size : Z) : go logger :=
  if size <? 0 then Panic "makechan: size out of range"
  else Ret {| logChannel := []; bufferSize := size; batch := []; log_db := db |}.

Definition insertBatch (db : L) (logs : list RequestLog) : L :=
  if decide (length logs = 0%nat) then db else (insert_logs logs db).1.

(** The body of the worker's first case, for the received entry [log]. *)
Definition receive_log (log : RequestLog) (w : logger) : logger :=
  let b := batch w ++ [log] in
  if (100 <=? length b)%nat then
    {| logChannel := logChannel w; bufferSize := bufferSize w; batch := []; log_db := insertBatch (log_db w) b |}
  else {| logChannel := logChannel w; bufferSize := bufferSize w; batch := b; log_db := log_db w |}.

(** [case log := <-logChannel], which is not ready on an empty channel. *)
Definition worker_receive (w : logger) : option logger :=
  match logChannel w with
  | [] => None
  | log :: ch =>
      Some (receive_log log {| logChannel := ch; bufferSize := bufferSize w; batch := batch w; log_db := log_db w |})
  end.

(** [case <-ticker.C]. *)
Definition worker_tick (w : logger) : logger :=
  if (0 <? length (batch w))%nat then
    {| logChannel := logChannel w; bufferSize := bufferSize w; batch := [];
       log_db := insertBatch (log_db w) (batch w) |}
  else w.

(** One turn of the worker's loop: [select] takes a case that is ready. *)
Inductive worker : logger → logger → Prop :=
  | worker_log w w' : worker_receive w = Some w' → worker w w'
  | worker_ticker w : worker w (worker_tick w).

(** The handler's [select]: the entry is queued or, when that would block,
    dropped.  On a channel without buffer it is handed to the worker if that is
    [waiting] for one.  The second result tells whether the entry was taken. *)
Definition send_log (waiting : bool) (log : RequestLog) (w : logger) : logger * bool :=
  if Z.of_nat (length (logChannel w)) <? bufferSize w then
    ({| logChannel := logChannel w ++ [log]; bufferSize := bufferSize w; batch := batch w; log_db := log_db w |}, true)
  else if (bufferSize w =? 0) && waiting then (receive_log log w, true)
  else (w, false).

(** ** Runs

    The handlers and the worker interleave.  [reach w0 w taken]: the logger can
    get from [w0] to [w] with the entries [taken] accepted from handlers. *)
Inductive reach (w0 : logger) : logger → list RequestLog → Prop :=
  | reach_refl : reach w0 w0 []
  | reach_send w taken waiting log w' :
      reach w0 w taken → send_log waiting log w = (w', true) → reach w0 w' (taken ++ [log])
  | reach_drop w taken waiting log w' :
      reach w0 w taken → send_log waiting log w = (w', false) → reach w0 w' taken
  | reach_worker w taken w' : reach w0 w taken → worker w w' → reach w0 w' taken.

(** The worker empties the channel, and its ticker fires. *)
Fixpoint drain (n : nat) (w : logger) : logger :=
  match n with
  | O => worker_tick w
  | S n => match worker_receive w with Some w' => drain n w' | None => worker_tick w end
  end.
End operations.
Arguments logger L : clear implicits.

(** ** Nothing is lost, made up, duplicated or reordered *)

Section conservation.
Context {L : Type} `{LogStoreLaws L}.

Definition full_batch (b : list RequestLog) : Prop := (1 <= length b <= 100)%nat.

(** [tried] are the batches handed to the database, [kept] those that it has. *)
Definition conserved (db0 : L) (taken : list RequestLog) (w : logger L) : Prop :=
  ∃ tried kept, Forall full_batch tried ∧ kept `sublist_of` tried ∧
    taken = concat tried ++ batch w ++ logChannel w ∧ stored (log_db w) = stored db0 ++ concat kept ∧
    (length (batch w) < 100)%nat ∧ Z.of_nat (length (logChannel w)) <= bufferSize w ∧
    (LogStoreReliable L → kept = tried).

Lemma insertBatch_stored (db : L) (b : list RequestLog) :
  full_batch b →
  (stored (insertBatch db b) = stored db ++ b ∨ stored (insertBatch db b) = stored db) ∧
  (LogStoreReliable L → stored (insertBatch db b) = stored db ++ b).
Proof.
  intros Hb. unfold insertBatch. rewrite decide_False by (unfold full_batch in Hb; lia).
  destruct (insert_logs b db) as [db' [e|]] eqn:Hi.
  - split.
    + destruct (insert_logs_error _ _ _ _ Hi); auto.
    + intros Hrel. pose proof (insert_logs_reliable b db) as Hr. by rewrite Hi in Hr.
  - apply insert_logs_ok in Hi. simpl. auto.
Qed.

(** A batch goes to the database. *)
Lemma conserved_insert (db0 : L) (taken b ch : list RequestLog) (size : Z) (db : L) :
  full_batch b → Z.of_nat (length ch) <= size →
  (∃ tried kept, Forall full_batch tried ∧ kept `sublist_of` tried ∧ taken = concat tried ++ b ++ ch ∧
     stored db = stored db0 ++ concat kept ∧ (LogStoreReliable L → kept = tried)) →
  conserved db0 taken {| logChannel := ch; bufferSize := size; batch := []; log_db := insertBatch db b |}.
Proof.
  intros Hb Hch (tried & kept & Hall & Hsub & -> & Hst & Hrel). destruct (insertBatch_stored db b Hb) as [Hor Hr].
  destruct (decide (stored (insertBatch db b) = stored db ++ b)) as [E|Hne].
  - exists (tried ++ [b]), (kept ++ [b]). simpl. rewrite !concat_app, Forall_app. simpl.
    rewrite E, Hst, app_nil_r, <- !app_assoc. split_and!; [done|by constructor|by apply sublist_app|done..|lia|done|].
    intros Hx. by rewrite Hrel.
  - exists (tried ++ [b]), kept. simpl. rewrite !concat_app, Forall_app. simpl.
    rewrite app_nil_r, <- !app_assoc. destruct Hor as [|E]; [done|]. rewrite E, Hst.
    split_and!; [done|by constructor|by apply sublist_inserts_r|done..|lia|done|].
    intros Hx. destruct Hne. auto.
Qed.

Lemma conserved_receive (db0 : L) (taken : list RequestLog) (log : RequestLog) (w : logger L) :
  (length (batch w) < 100)%nat → Z.of_nat (length (logChannel w)) <= bufferSize w →
  (∃ tried kept, Forall full_batch tried ∧ kept `sublist_of` tried ∧
     taken = concat tried ++ (batch w ++ [log]) ++ logChannel w ∧
     stored (log_db w) = stored db0 ++ concat kept ∧ (LogStoreReliable L → kept = tried)) →
  conserved db0 taken (receive_log log w).
Proof.
  intros Hb Hch Hex. unfold receive_log. destruct (Nat.leb_spec 100 (length (batch w ++ [log]))) as [Hle|Hlt].
  - apply conserved_insert; [|done|done]. unfold full_batch. rewrite length_app in *. simpl in *. lia.
  - destruct Hex as (tried & kept & ? & ? & ? & ? & ?). by exists tried, kept.
Qed.

Lemma conserved_reach (w0 w : logger L) (taken : list RequestLog) :
  batch w0 = [] → logChannel w0 = [] → 0 <= bufferSize w0 → reach w0 w taken → conserved (log_db w0) taken w.
Proof.
  intros Hb0 Hc0 Hs0. induction 1 as [|w taken wt log w' _ IH Hs|w taken wt log w' _ IH Hs|w taken w' _ IH Hw].
  - exists [], []. rewrite Hb0, Hc0. simpl. rewrite app_nil_r. split_and!; (done || lia).
  - destruct IH as (tried & kept & Hall & Hsub & -> & Hst & Hlen & Hch & Hrel). unfold send_log in Hs.
    destruct (Z.ltb_spec (Z.of_nat (length (logChannel w))) (bufferSize w)).
    + simplify_eq. exists tried, kept. simpl. rewrite <- !app_assoc, length_app. simpl.
      split_and!; [done..|lia|done].
    + destruct (Z.eqb_spec (bufferSize w) 0); [|done]. destruct wt; simplify_eq/=.
      assert (logChannel w = []) as Hnil by (apply length_zero_iff_nil; lia).
      apply conserved_receive; [done|lia|]. exists tried, kept. rewrite Hnil, !app_nil_r, <- !app_assoc. done.
  - unfold send_log in Hs. repeat case_match; by simplify_eq.
  - destruct IH as (tried & kept & Hall & Hsub & -> & Hst & Hlen & Hch & Hrel). inversion_clear Hw as [? ? Hs|].
    + unfold worker_receive in Hs. destruct (logChannel w) as [|log ch] eqn:Ech; simplify_eq. simpl in Hch.
      apply conserved_receive; [done|simpl; lia|]. exists tried, kept. simpl. by rewrite <- !app_assoc.
    + unfold worker_tick. destruct (Nat.ltb_spec 0 (length (batch w))); [|by exists tried, kept].
      apply conserved_insert; [unfold full_batch; lia|done|]. by exists tried, kept.
Qed.

Lemma reach_bufferSize (w0 w : logger L) (taken : list RequestLog) :
  reach w0 w taken → bufferSize w = bufferSize w0.
Proof.
  induction 1 as [|w taken wt log w' _ IH Hs|w taken wt log w' _ IH Hs|w taken w' _ IH Hw];
    [done|..|inversion_clear Hw as [? ? Hs|]]; rewrite <- IH; clear IH;
    unfold send_log, worker_receive, worker_tick, receive_log in *; repeat case_match; by simplify_eq.
Qed.

Lemma drain_reach (w0 : logger L) (taken : list RequestLog) (n : nat) (w : logger L) :
  reach w0 w taken → reach w0 (drain n w) taken.
Proof.
  revert w. induction n as [|n IH]; intros w Hw; simpl; [by eapply reach_worker; [|constructor]|].
  destruct (worker_receive w) as [w'|] eqn:Hr; [apply IH|]; by eapply reach_worker; [|constructor].
Qed.

Lemma receive_log_channel (log : RequestLog) (w : logger L) : logChannel (receive_log log w) = logChannel w.
Proof. unfold receive_log. by destruct (_ <=? _)%nat. Qed.

Lemma worker_tick_empty (w : logger L) : logChannel (worker_tick w) = logChannel w ∧ batch (worker_tick w) = [].
Proof.
  unfold worker_tick. destruct (Nat.ltb_spec 0 (length (batch w))) as [|Hle]; [done|]. split; [done|].
  apply length_zero_iff_nil. lia.
Qed.

Lemma drain_empty (n : nat) (w : logger L) :
  (length (logChannel w) <= n)%nat → logChannel (drain n w) = [] ∧ batch (drain n w) = [].
Proof.
  revert w. induction n as [|n IH]; intros w Hn; simpl.
  - destruct (worker_tick_empty w) as [-> ->]. split; [|done]. apply length_zero_iff_nil. lia.
  - unfold worker_receive. destruct (logChannel w) as [|log ch] eqn:Ech.
    + destruct (worker_tick_empty w) as [-> ->]. by rewrite Ech.
    + apply IH. rewrite receive_log_channel. simpl in *. lia.
Qed.

(** After the worker has caught up, the table has all accepted entries. *)
Lemma stored_drain (db : L) (size : Z) (w0 w : logger L) (taken : list RequestLog) `{!LogStoreReliable L} :
  InitRequestLogger db size = Ret w0 → reach w0 w taken →
  stored (log_db (drain (length (logChannel w)) w)) = stored db ++ taken.
Proof.
  intros Hinit Hreach.
  unfold InitRequestLogger in Hinit. destruct (Z.ltb_spec size 0); [done|]. injection Hinit as <-.
  destruct (drain_empty (length (logChannel w)) w ltac:(lia)) as [Hc Hb].
  apply (drain_reach _ _ (length (logChannel w))), conserved_reach in Hreach
    as (tried & kept & _ & _ & -> & -> & _ & _ & Hrel); [|done..].
  by rewrite Hc, Hb, !app_nil_r, Hrel.
Qed.
End conservation.

(** ** Properties *)

Section properties.
Context {L : Type} `{LogStoreLaws L}.

(** C18: The log neither invents, duplicates nor reorders entries, in any
    interleaving of handlers and worker and with any failures of the database:
    the accepted entries are those of the batches tried so far, each of at most
    100 entries, followed by the worker's batch and the channel; the table has
    gained a subsequence of these batches, whole ones only. *)
Theorem log_conserved (db : L) (size : Z) (w0 w : logger L) (taken : list RequestLog)
    (Hinit : InitRequestLogger db size = Ret w0) (Hreach : reach w0 w taken) :
  ∃ tried kept, Forall (λ b, 1 <= length b <= 100)%nat tried ∧ kept `sublist_of` tried ∧
    taken = concat tried ++ batch w ++ logChannel w ∧ stored (log_db w) = stored db ++ concat kept ∧
    (length (batch w) < 100)%nat ∧ Z.of_nat (length (logChannel w)) <= size.
Proof.
  unfold InitRequestLogger in Hinit. destruct (Z.ltb_spec size 0); [done|]. injection Hinit as <-.
  pose proof Hreach as Hc. apply conserved_reach in Hc as (tried & kept & ? & ? & ? & ? & ? & Hsz & _); [|done..].
  exists tried, kept. by rewrite (reach_bufferSize _ _ _ Hreach) in Hsz.
Qed.

(** Every accepted entry is stored: when the database works, then once the
    worker has emptied the channel and its ticker has fired, the table has
    gained exactly the accepted entries, in the order of their acceptance. *)
Theorem log_delivered (db : L) (size : Z) (w0 w : logger L) (taken : list RequestLog)
    `{!LogStoreReliable L} (Hinit : InitRequestLogger db size = Ret w0) (Hreach : reach w0 w taken) :
  stored (log_db (drain (length (logChannel w)) w)) = stored db ++ taken.
Proof. by eapply stored_drain. Qed.

(** An entry is dropped only when it has to be: a handler's send is accepted
    exactly when the channel has room, or, without a buffer, the worker waits.
    A dropped entry leaves the logger as it is. *)
Theorem log_drops_only_when_full (waiting : bool) (log : RequestLog) (w : logger L) :
  let '(w', taken) := send_log waiting log w in
  (taken = true ↔ Z.of_nat (length (logChannel w)) < bufferSize w ∨ bufferSize w = 0 ∧ waiting = true) ∧
  (taken = false → w' = w).
Proof.
  unfold send_log. destruct (Z.ltb_spec (Z.of_nat (length (logChannel w))) (bufferSize w)) as [Hlt|Hge].
  { split; [|done]. tauto. }
  destruct (Z.eqb_spec (bufferSize w) 0) as [Hz|Hnz], waiting; simpl; (split; [|done]).
  - split; auto.
  - split; [done|]. intros [?|[_ ?]]; [lia|done].
  - split; [done|]. intros [?|[? _]]; lia.
  - split; [done|]. intros [?|[? _]]; lia.
Qed.
End properties.

(** ** Witnesses *)

#[local] Instance list_store : LogStore (list RequestLog) := λ logs l, (l ++ logs, None).

#[local] Instance list_store_laws : LogStoreLaws (list RequestLog).
Proof.
  refine {| stored := λ l : list RequestLog, l |}; unfold insert_logs, list_store; intros; by simplify_eq.
Defined.

#[local] Instance list_store_reliable : LogStoreReliable (list RequestLog).
Proof. by intros logs l. Defined.

Definition entry_at (t : time) : RequestLog := {|
  log_ID := 0; Timestamp := t; APIKeyID := None; log_Method := "GET"; log_Path := "/users"; StatusCode := 200;
  ResponseTimeMs := 3; IPAddress := "10.0.0.7"; UserAgent := "curl"; BackendServer := "" |}.

(** A buffer of one: the second entry is dropped, the third is taken. *)
Definition small : logger (list RequestLog) :=
  {| logChannel := []; bufferSize := 1; batch := []; log_db := [] |}.

Definition small_after : logger (list RequestLog) :=
  {| logChannel := [entry_at 3]; bufferSize := 1; batch := [entry_at 1]; log_db := [] |}.

Lemma small_reach : reach small small_after [entry_at 1; entry_at 3].
Proof.
  apply (reach_send small {| logChannel := []; bufferSize := 1; batch := [entry_at 1]; log_db := [] |}
    [entry_at 1] false (entry_at 3)); [|reflexivity].
  apply (reach_worker small {| logChannel := [entry_at 1]; bufferSize := 1; batch := []; log_db := [] |});
    [|by apply worker_log].
  apply (reach_drop small {| logChannel := [entry_at 1]; bufferSize := 1; batch := []; log_db := [] |}
    _ false (entry_at 2)); [|reflexivity].
  apply (reach_send small small [] false (entry_at 1)); [apply reach_refl|reflexivity].
Qed.

(** The ticker fires, and the batch is stored. *)
Definition small_ticked : logger (list RequestLog) := worker_tick small_after.

Lemma log_conserved_witness :
  log_db small_ticked = [entry_at 1] ∧
  ∃ tried kept, Forall (λ b, 1 <= length b <= 100)%nat tried ∧ kept `sublist_of` tried ∧
    [entry_at 1; entry_at 3] = concat tried ++ batch small_ticked ++ logChannel small_ticked ∧
    stored (log_db small_ticked) = stored [] ++ concat kept ∧ (length (batch small_ticked) < 100)%nat ∧
    Z.of_nat (length (logChannel small_ticked)) <= 1.
Proof.
  split; [reflexivity|].
  apply (log_conserved (L := list RequestLog) [] 1 small small_ticked [entry_at 1; entry_at 3]);
    [reflexivity|]. apply (reach_worker small small_after); [exact small_reach|apply worker_ticker].
Defined.

Lemma log_delivered_witness :
  log_db (drain (length (logChannel small_after)) small_after) = [entry_at 1; entry_at 3] ∧
  stored (log_db (drain (length (logChannel small_after)) small_after)) = stored [] ++ [entry_at 1; entry_at 3].
Proof.
  split; [reflexivity|].
  apply (log_delivered (L := list RequestLog) [] 1 small small_after [entry_at 1; entry_at 3]);
    [reflexivity|exact small_reach].
Defined.
