(* ===== verification/Middleware.v ===== *)
(** * The middleware chain

    Models the handlers that every request passes through,
    [src/internal/middleware/recovery.go], [request_id.go], [logger.go],
    [requestlogger.go], [cors.go] and [apikey.go], and the chain that
    [src/internal/server/server.go] makes of them and of [RateLimitWithTier].

    A handler takes the rest of the chain as [next], what [c.Next()] runs.  Gin
    runs the rest also after a handler that returns without calling it, unless
    the handler has called [c.Abort()]: all of these do on such a path.  A
    [go] statement adds its call to the list [spawned]. *)

From S2P Require Import Prelude Strconv Database Crypto Redis Config Gin ApiKey RequestLog.
From S2P Require FixedWindow TokenBucket Limiter RateLimit.

(** What the handlers print. *)
Inductive line :=
  | LineRequest (requestID method path : string) (statusCode : Z) (latency : duration) (ip : string)
  | LinePanic (requestID err : string).

(** The calls of [UpdateLastUsed] that goroutines have still to make, what was
    printed, the request log, and the state of the handlers behind the chain. *)
Record side (L X : Type) := {
  spawned : list string;
  printed : list line;
  requestLog : logger L;
  app : X
}.
Arguments spawned {L X} _.
Arguments printed {L X} _.
Arguments requestLog {L X} _.
Arguments app {L X} _.

(** A server beside other state is a server. *)
Section product.
Context {R X : Type} `{RedisReliable R}.

#[local] Instance prod_redis : Redis.Redis (R * X) := λ t c '(r, x),
  let '(r, rep) := rd_exec t c r in ((r, x), rep).

#[local] Instance prod_redis_laws : RedisLaws (R * X).
Proof.
  refine {| rd_db := λ s : R * X, rd_db s.1 |}.
  - intros t c [r x] [r' x'] rep d' rep' Hx. unfold rd_exec, prod_redis in Hx.
    destruct (rd_exec t c r) as [r1 rep1] eqn:E. simplify_eq. by eapply rd_answer.
  - intros t c [r x] [r' x'] e d' rep' Hx. unfold rd_exec, prod_redis in Hx.
    destruct (rd_exec t c r) as [r1 rep1] eqn:E. simplify_eq. by eapply rd_fault.
Defined.

#[local] Instance prod_redis_reliable : RedisReliable (R * X).
Proof.
  intros t c [r x] d' rep' Hs. unfold rd_exec, prod_redis. pose proof (rd_reliable t c r d' rep' Hs) as Hr.
  by destruct (rd_exec t c r).
Qed.
End product.

#[local] Existing Instances prod_redis prod_redis_laws prod_redis_reliable.

(** ** The handlers *)

Section handlers.
Context {C R D L X : Type} `{Gin C} `{Redis.Redis R} `{KeyStore D} `{Rfc3339.LocalZone} `{UuidParse} `{LogStore L}.

Abbreviation world := ((R * D) * side L X)%type.
Abbreviation M := (Comp (C * world)).

Definition on_service {A} (m : Comp (R * D) A) : M A :=
  on_comp (λ '(rd, s), let '(rd, a) := m rd in ((rd, s), a)).

Definition on_side (f : side L X → side L X) : M unit := on_comp (λ '(rd, s), ((rd, f s), Ret tt)).

Definition print (l : line) : M unit :=
  on_side (λ s, {| spawned := spawned s; printed := printed s ++ [l]; requestLog := requestLog s; app := app s |}).

Definition spawn_UpdateLastUsed (id : string) : M unit :=
  on_side (λ s, {| spawned := spawned s ++ [id]; printed := printed s; requestLog := requestLog s; app := app s |}).

(** [c.GetString]: empty if the key is not there or of another type. *)
Definition GetString (key : string) (c : C) : string :=
  match Gin.Get key c with Some (AStr s) => s | _ => "" end.

Definition Recovery (next : M unit) : M unit :=
  with_recover next (λ err,
    c ← get_ctx;
    print (LinePanic (GetString "request_id" c) err);;
    on_ctx (λ c, Abort (JSON 500 (error_body "Internal Server Error") c))).

(** [fresh] is the identifier that [uuid.New] makes. *)
Definition RequestID (fresh : string) (next : M unit) : M unit :=
  c ← get_ctx;
  let requestID := GetHeader "X-Request-ID" c in
  let requestID := if decide (requestID = "") then fresh else requestID in
  on_ctx (λ c, Header "X-Request-ID" requestID (Set_ "request_id" (AStr requestID) c));;
  next.

Definition Logger (start now : time) (next : M unit) : M unit :=
  c ← get_ctx;
  let path := URL_Path c in
  let method := req_Method c in
  next;;
  c ← get_ctx;
  print (LineRequest (GetString "request_id" c) method path (Status c) (time_sub now start) (ClientIP c)).

(** The entry of the request in the context [c]. *)
Definition log_entry (start now : time) (c : C) : RequestLog := {|
  log_ID := 0; Timestamp := start;
  APIKeyID := match Gin.Get "api_key_id" c with Some (AUuid id) => Some id | _ => None end;
  log_Method := req_Method c; log_Path := URL_Path c; StatusCode := Status c;
  ResponseTimeMs := Z.quot (time_sub now start) millisecond;
  IPAddress := ClientIP c; UserAgent := GetHeader "User-Agent" c;
  BackendServer := GetHeader "X-Backend-Server" c |}.

(** [waiting] as in [send_log]. *)
Definition RequestLogger (start now : time) (waiting : bool) (next : M unit) : M unit :=
  next;;
  c ← get_ctx;
  on_side (λ s, {| spawned := spawned s; printed := printed s;
                   requestLog := (send_log waiting (log_entry start now c) (requestLog s)).1; app := app s |}).

Definition CORS (next : M unit) : M unit :=
  on_ctx (λ c,
    Header "Access-Control-Allow-Credentials" "true"
    (Header "Access-Control-Expose-Headers"
       "Content-Length, X-RateLimit-Limit, X-RateLimit-Remaining, X-RateLimit-Reset"
    (Header "Access-Control-Allow-Headers"
       "Origin, Content-Type, Content-Length, Accept-Encoding, X-CSRF-Token, Authorization, X-API-Key"
    (Header "Access-Control-Allow-Methods" "GET, POST, PUT, DELETE, OPTIONS"
    (Header "Access-Control-Allow-Origin" "*" c)))));;
  c ← get_ctx;
  if decide (req_Method c = "OPTIONS") then on_ctx (AbortWithStatus 204) else next.

(** What a validated key leaves in the context. *)
Definition with_key (k : APIKey) (c : C) : C :=
  Set_ "api_key_tier" (AStr (Tier k)) (Set_ "api_key_id" (AUuid (ID k)) (Set_ "api_key" (AKey (Some k)) c)).

Definition invalid_key (c : C) : C := Abort (JSON 401 (error_body "Invalid API key") c).

(** [t1] and [t2] are the clock readings of [Validate]. *)
Definition APIKeyValidator (t1 t2 : time) (next : M unit) : M unit :=
  c ← get_ctx;
  let apiKeyHeader := GetHeader "X-API-Key" c in
  if decide (apiKeyHeader = "") then next else
  let apiKeyHeader := TrimSpace apiKeyHeader in
  '(apiKey, err) ← on_service (Validate apiKeyHeader t1 t2);
  match err, apiKey with
  | None, Some k => on_ctx (with_key k);; spawn_UpdateLastUsed (ID k);; next
  | _, _ => on_ctx invalid_key
  end.

(** One of the goroutines that were started runs, the [i]-th of them. *)
Definition run_spawned (i : nat) (now : time) : M unit := λ '(c, (rd, s)),
  match spawned s !! i with
  | None => ((c, (rd, s)), Ret tt)
  | Some id =>
      let '(rd, o) := UpdateLastUsed id now rd in
      ((c, (rd, {| spawned := delete i (spawned s); printed := printed s; requestLog := requestLog s; app := app s |})), o)
  end.

(** ** The chain *)

(** The clock readings and the random choices of one request. *)
Record env := {
  e_fresh : string;
  e_start : time; e_end : time;
  e_log_start : time; e_log_end : time; e_waiting : bool;
  e_validate1 : time; e_validate2 : time;
  e_limit : RateLimit.clocks
}.

(** [setupMiddleware]; [handler] is the handler of the route. *)
Definition setupMiddleware (cfg : Config) (e : env) (handler : M unit) : M unit :=
  Recovery
    (RequestID (e_fresh e)
      (Logger (e_start e) (e_end e)
        (RequestLogger (e_log_start e) (e_log_end e) (e_waiting e)
          (CORS
            (APIKeyValidator (e_validate1 e) (e_validate2 e)
              (RateLimit.RateLimitWithTier cfg (e_limit e) handler)))))).
End handlers.

(** ** Validated requests *)

Section validated.
Context {C R D L X : Type} `{Gin C} `{RedisReliable R} `{KeyStoreLaws D} `{Rfc3339.LocalZone} `{UuidParse} `{LogStore L}.

Abbreviation world := ((R * D) * side L X)%type.

Definition spawns (id : string) (s : side L X) : side L X :=
  {| spawned := spawned s ++ [id]; printed := printed s; requestLog := requestLog s; app := app s |}.

(** The keys of the rate limiters. *)
Definition not_cached (K : string) : Prop := ∀ h, K ≠ cache_key h.

Lemma fixed_key_not_cached (key : string) (w : Z) : not_cached (FixedWindow.fixed_key key w).
Proof. intros h Heq. by inversion Heq. Qed.

Lemma remaining_key_not_cached (key : string) (w : Z) : not_cached (FixedWindow.remaining_key key w).
Proof. intros h Heq. by inversion Heq. Qed.



(** A request with a key, on the two branches that it can take. *)
Lemma APIKeyValidator_cases (T t1 t2 : time) (next : Comp (C * world) unit) (c : C) (r : R) (d : D) (s : side L X) :
  GetHeader "X-API-Key" c ≠ "" → T <= t1 → t1 <= t2 → cache_ok T (r, d) →
  let h := sha256_hex (TrimSpace (GetHeader "X-API-Key" c)) in
  ∃ r' d', cache_ok t2 (r', d') ∧ rows d' = rows d ∧
    (∀ K, not_cached K → live t2 K (rd_db r') = live t2 K (rd_db r)) ∧
    ((∃ k k', active_row d h k ∧ ID k' = ID k ∧ Tier k' = Tier k ∧
        APIKeyValidator t1 t2 next (c, (r, d, s)) = next (with_key k' c, (r', d', spawns (ID k) s))) ∨
     (∀ k, ¬ active_row d h k) ∧
        APIKeyValidator t1 t2 next (c, (r, d, s)) = ((invalid_key c, (r', d', s)), Ret tt)).
Proof.
  intros Hkey Hn1 Hn2 Hok h.
  destruct (Validate_ok (TrimSpace (GetHeader "X-API-Key" c)) T t1 t2 r d Hn1 Hn2 Hok)
    as ([r' d'] & o & HV & Hok' & Hrows & Hframe & Ho).
  exists r', d'. split_and!; [done..|]. unfold APIKeyValidator, get_ctx. cbv zeta.
  rewrite (comp_bind_step _ _ _ (c, (r, d, s)) c eq_refl). cbn [fst]. rewrite decide_False by done.
  erewrite comp_bind_step by (unfold on_service; apply on_comp_step; by rewrite HV). cbv beta iota.
  destruct o as [k'|].
  - destruct Ho as (k & Hact & HID & HT). left. exists k, k'. split_and!; [done..|]. rewrite <- HID. done.
  - right. split; [done|]. done.
Qed.

(** What the limiter asks for a key. *)
Definition key_request (cfg : Config) (k : APIKey) : RateLimit.request :=
  match RateLimit.findTierConfig (RateLimitTiers cfg) (Tier k) with
  | Some tier => {| RateLimit.r_tier := Tier k; RateLimit.r_key := ID k;
                    RateLimit.r_limit := tier_RequestsPerMinute tier; RateLimit.r_algorithm := tier_Algorithm tier |}
  | None => {| RateLimit.r_tier := Tier k; RateLimit.r_key := ID k;
               RateLimit.r_limit := 60; RateLimit.r_algorithm := "fixed_window" |}
  end.

(** One request's readings: two of the validation, then those of the limiter. *)
Definition readings : Type := (time * time) * RateLimit.clocks.

(** Requests with keys one after the other; what is let through goes to [backend]. *)
Fixpoint serve_keys (cfg : Config) (backend : C → C) (qs : list (C * readings)) (w : world)
    : world * list (C * go unit) :=
  match qs with
  | [] => (w, [])
  | (c, (t1, t2, k)) :: qs =>
      let '((c, w), o) := APIKeyValidator t1 t2
        (RateLimit.RateLimitWithTier cfg k (on_ctx backend)) (c, w) in
      let '(w, cs) := serve_keys cfg backend qs w in (w, (c, o) :: cs)
  end.

Fixpoint keys_in_minute (w T : Z) (ks : list readings) : Prop :=
  match ks with
  | [] => True
  | (t1, t2, k) :: ks =>
      T <= t1 ∧ t1 <= t2 ∧ RateLimit.in_minute w t2 [k] ∧ keys_in_minute w (RateLimit.k_reset k 0%nat) ks
  end.

Lemma cache_ok_live (T : time) (r r' : R) (d d' : D) :
  rows d' = rows d → (∀ h, live T (cache_key h) (rd_db r') = live T (cache_key h) (rd_db r)) →
  cache_ok T (r, d) → cache_ok T (r', d').
Proof.
  intros Hrows Hlive Hok. apply (cache_ok_rows T r' d d' Hrows). intros h. simpl. rewrite Hlive. apply Hok.
Qed.

Lemma at_count_live (req : RateLimit.request) (T : time) (w : Z) (n : nat) (r r' : R) :
  (∀ K, not_cached K → live T K (rd_db r') = live T K (rd_db r)) →
  RateLimit.at_count req T w n r → RateLimit.at_count req T w n r'.
Proof.
  intros Hlive [Hs Hl]. split.
  - unfold FixedWindow.slot_at in *. by rewrite Hlive by apply fixed_key_not_cached.
  - by rewrite Hlive by apply remaining_key_not_cached.
Qed.
End validated.

(** ** A key with a fixed window *)

Section limited.
Context {C R D L X : Type} `{GinLaws C} `{RedisReliable R} `{KeyStoreLaws D} `{Rfc3339.LocalZone} `{UuidParse} `{LogStore L}.
Context (cfg : Config) (key : string) (k : APIKey).

Abbreviation world := ((R * D) * side L X)%type.
Abbreviation req := (key_request cfg k).

Hypothesis fixed :
  RateLimit.r_algorithm req ≠ "sliding_window" ∧ RateLimit.r_algorithm req ≠ "token_bucket".

(** The request carries the key, possibly with white space around it. *)
Definition carries (c : C) : Prop := GetHeader "X-API-Key" c ≠ "" ∧ TrimSpace (GetHeader "X-API-Key" c) = key.

Lemma asks_with_key (k' : APIKey) (c : C) :
  ID k' = ID k → Tier k' = Tier k → RateLimit.asks (R := world) cfg req (with_key k' c).
Proof.
  intros HID HT w. unfold RateLimit.request_of, get_ctx, with_key. comp_unfold.
  rewrite !Get_Set. rewrite !decide_False, decide_True by done. rewrite HID, HT. unfold key_request.
  by destruct (RateLimit.findTierConfig (RateLimitTiers cfg) (Tier k)).
Qed.

Lemma at_count_world (T w : Z) (n : nat) (r : R) (d : D) (s : side L X) :
  RateLimit.at_count (R := world) req T w n (r, d, s) ↔ RateLimit.at_count req T w n r.
Proof. unfold RateLimit.at_count. done. Qed.

(** The limiter does not touch the database. *)
Lemma stable_rows (q : RateLimit.clocks) (backend : C → C) (d0 : D) :
  preserves (λ s : C * world, rows s.2.1.2 = rows d0) (RateLimit.RateLimitWithTier cfg q (on_ctx backend)).
Proof.
  apply (RateLimit.stable_RateLimit (C := C) (R := world) (λ w, rows w.1.2 = rows d0)).
  - intros t cm [[r d] s] Hr. unfold rd_exec, prod_redis, rd_exec, prod_redis. by destruct (H1 t cm r).
  - by intros [c w].
Qed.

(** The response to the request that is counted as number [n]. *)
Definition answer (backend : C → C) (w : Z) (n : nat) (until : time) (c : C) : C :=
  if Z.of_nat n <=? RateLimit.r_limit req then backend (RateLimit.decided req w c)
  else RateLimit.refuse req ((w + 1) * minute) until (RateLimit.decided req w c).

Lemma keyed_step (backend : C → C) (w T t1 t2 : Z) (q : RateLimit.clocks) (n : nat) (c : C) (r : R) (d : D) (s : side L X) :
  carries c → active_row d (sha256_hex key) k → 0 <= w → (w + 1) * minute <= max_int64 → Z.of_nat n < max_int64 →
  keys_in_minute w T [(t1, t2, q)] → cache_ok T (r, d) → RateLimit.at_count req T w n r →
  ∃ r' d' s' k', cache_ok (RateLimit.k_reset q 0%nat) (r', d') ∧ rows d' = rows d ∧
    RateLimit.at_count req (RateLimit.k_reset q 0%nat) w (S n) r' ∧ ID k' = ID k ∧ Tier k' = Tier k ∧
    APIKeyValidator t1 t2 (RateLimit.RateLimitWithTier cfg q (on_ctx backend)) (c, (r, d, s)) =
      ((answer backend w (S n) (RateLimit.k_until q) (with_key k' c), (r', d', s')), Ret tt).
Proof.
  intros [Hhdr Htrim] Hact Hw Hmax Hn (Hn1 & Hn2 & Hin & _) Hok Hat.
  set (next := RateLimit.RateLimitWithTier (R := world) cfg q (on_ctx backend)).
  destruct (APIKeyValidator_cases T t1 t2 next c r d s Hhdr Hn1 Hn2 Hok)
    as (r1 & d1 & Hok1 & Hrows1 & Hlive1 & [(k1 & k' & Hact1 & HID & HT & Hrun)|[Hno _]]); rewrite Htrim in *;
    [|by destruct (Hno k)].
  assert (k1 = k) as ->.
  { destruct Hact as (i1 & E1 & Hh1 & _), Hact1 as (i2 & E2 & Hh2 & _).
    pose proof (rows_hash d i2 i1 k1 k E2 E1 ltac:(congruence)). congruence. }
  pose proof Hin as (Ht2 & Hs1 & Hs2 & Hs3 & Hs4 & Hs5 & Hlo & Hhi & _).
  apply (RateLimit.at_count_later req _ t2) in Hat; [|lia..].
  apply (at_count_live req t2 w n r r1 Hlive1) in Hat.
  set (s1 := spawns (ID k) s) in *. apply (proj2 (at_count_world t2 w n r1 d1 s1)) in Hat.
  destruct (RateLimit.RateLimit_step (R := world) cfg req fixed q (on_ctx backend) w t2 n (with_key k' c) _
    (asks_with_key k' c HID HT) Hw Hmax Hn Hin Hat) as ([[r2 d2] s2] & Hat2 & Hlive2 & Hstep).
  apply at_count_world in Hat2.
  assert (next (with_key k' c, (r1, d1, s1)) =
    ((answer backend w (S n) (RateLimit.k_until q) (with_key k' c), (r2, d2, s2)), Ret tt)) as Hnext.
  { unfold next. rewrite Hstep. unfold answer. by destruct (_ <=? _). }
  assert (rows d2 = rows d1) as Hrows2.
  { pose proof (stable_rows q backend d1 (with_key k' c, (r1, d1, s1)) eq_refl) as Hst. fold next in Hst.
    by rewrite Hnext in Hst. }
  exists r2, d2, s2, k'. split_and!; [|congruence|done..|by rewrite Hrun].
  apply (cache_ok_live (RateLimit.k_reset q 0%nat) r1 r2 d1 d2 Hrows2).
  - intros h. apply Hlive2. intros Heq. by apply (fixed_key_not_cached (RateLimit.r_key req) w h).
  - apply (cache_ok_later t2); [lia|done].
Qed.

(** The requests of a run get the answers of their numbers. *)
Lemma serve_keys_answers (backend : C → C) (w T : Z) (qs : list (C * readings)) (n : nat) (r : R) (d : D) (s : side L X)
    (i : nat) (c : C) (t1 t2 : time) (q : RateLimit.clocks) :
  0 <= w → (w + 1) * minute <= max_int64 → Z.of_nat (n + length qs) <= max_int64 →
  Forall (λ p, carries p.1) qs → active_row d (sha256_hex key) k → keys_in_minute w T (snd <$> qs) →
  cache_ok T (r, d) → RateLimit.at_count req T w n r → qs !! i = Some (c, (t1, t2, q)) →
  ∃ k', ID k' = ID k ∧ Tier k' = Tier k ∧
    (serve_keys cfg backend qs (r, d, s)).2 !! i =
      Some (answer backend w (S n + i) (RateLimit.k_until q) (with_key k' c), Ret tt).
Proof.
  intros Hw Hmax. revert T n r d s i. induction qs as [|[c0 [[u1 u2] q0]] qs IH];
    intros T n r d s i Hn Hall Hact Hin Hok Hat Hi; [done|].
  apply Forall_cons in Hall as [Hc Hall]. cbn [length] in Hn. cbn in Hin. destruct Hin as (Hin1 & Hin2 & Hin3 & Hin4).
  destruct (keyed_step backend w T u1 u2 q0 n c0 r d s) as (r' & d' & s' & k' & Hok' & Hrows & Hat' & HID & HT & Hrun);
    [done..|lia|exact (conj Hin1 (conj Hin2 (conj Hin3 I)))|done|done|].
  cbn [serve_keys]. rewrite Hrun. destruct i as [|i]; simpl in Hi.
  - simplify_eq. exists k'. rewrite Nat.add_0_r. split_and!; [done..|].
    by destruct (serve_keys cfg backend qs (r', d', s')).
  - destruct (IH (RateLimit.k_reset q0 0%nat) (S n) r' d' s' i) as (k2 & HID2 & HT2 & IHi);
      [lia|done|by rewrite (active_row_rows d d')|done..|].
    exists k2. split_and!; [done..|].
    destruct (serve_keys cfg backend qs (r', d', s')) as [w2 cs]. simpl in *. rewrite IHi.
    do 3 f_equal. unfold answer. by replace (S (n + S i))%nat with (S (S (n + i)))%nat by lia.
Qed.
End limited.

(** ** Properties *)

Section properties.
Context {C R D L X : Type} `{GinLaws C} `{RedisReliable R} `{KeyStoreLaws D} `{Rfc3339.LocalZone} `{UuidParse} `{LogStore L}.

Abbreviation world := ((R * D) * side L X)%type.


(** C8: A key is held to the limit of its own tier, whoever uses it: of the
    requests in a minute that carry the key of a fixed-window tier, validated
    one after the other and from any addresses, exactly the first [limit] reach
    the rest of the chain; every other one is answered with status 429. *)
Theorem key_rate_limit (cfg : Config) (key : string) (k : APIKey) (backend : C → C) (w T : Z)
    (qs : list (C * readings)) (r : R) (d : D) (s : side L X) (i : nat) (c : C) (t1 t2 : time) (q : RateLimit.clocks)
    (Hfixed : RateLimit.r_algorithm (key_request cfg k) ≠ "sliding_window" ∧
              RateLimit.r_algorithm (key_request cfg k) ≠ "token_bucket")
    (Hw : 0 <= w) (Hmax : (w + 1) * minute <= max_int64) (Hlen : Z.of_nat (length qs) <= max_int64)
    (Hkey : Forall (λ p, carries key p.1 ∧ Written p.1 = false) qs)
    (Hact : active_row d (sha256_hex key) k) (Hin : keys_in_minute w T (snd <$> qs)) (Hok : cache_ok T (r, d))
    (Hfresh : RateLimit.at_count (key_request cfg k) T w 0 r) (Hi : qs !! i = Some (c, (t1, t2, q))) :
  ∃ c' k', (serve_keys cfg backend qs (r, d, s)).2 !! i = Some (c', Ret tt) ∧
    ID k' = ID k ∧ Tier k' = Tier k ∧
    if Z.of_nat i <? RateLimit.r_limit (key_request cfg k)
    then c' = backend (RateLimit.decided (key_request cfg k) w (with_key k' c))
    else Status c' = 429 ∧ IsAborted c' = true.
Proof.
  pose proof (Forall_lookup_1 _ _ _ _ Hkey Hi) as [_ Hwr].
  destruct (serve_keys_answers cfg key k Hfixed backend w T qs 0 r d s i c t1 t2 q)
    as (k' & HID & HT & Hans); [done..| |done|done|done|done|done|].
  { eapply Forall_impl; [done|]. by intros p []. }
  eexists _, k'. split_and!; [exact Hans|done|done|]. unfold answer.
  destruct (Z.ltb_spec (Z.of_nat i) (RateLimit.r_limit (key_request cfg k))) as [Hlt|Hge].
  - by rewrite (proj2 (Z.leb_le _ _)) by lia.
  - rewrite (proj2 (Z.leb_gt _ _)) by lia. apply RateLimit.refuse_response. unfold with_key. by rewrite !Written_Set.
Qed.

(** What the first handlers do to a request that the last ones do not panic on. *)
Definition cors_headers (c : C) : C :=
  Header "Access-Control-Allow-Credentials" "true"
  (Header "Access-Control-Expose-Headers"
     "Content-Length, X-RateLimit-Limit, X-RateLimit-Remaining, X-RateLimit-Reset"
  (Header "Access-Control-Allow-Headers"
     "Origin, Content-Type, Content-Length, Accept-Encoding, X-CSRF-Token, Authorization, X-API-Key"
  (Header "Access-Control-Allow-Methods" "GET, POST, PUT, DELETE, OPTIONS"
  (Header "Access-Control-Allow-Origin" "*" c)))).

Definition request_id (e : env) (c : C) : string :=
  if decide (GetHeader "X-Request-ID" c = "") then e_fresh e else GetHeader "X-Request-ID" c.

Definition with_request_id (e : env) (c : C) : C :=
  Header "X-Request-ID" (request_id e c) (Set_ "request_id" (AStr (request_id e c)) c).

(** The request after it is logged. *)
Definition logged (e : env) (c c1 : C) (s : side L X) : side L X := {|
  spawned := spawned s;
  printed := printed s ++ [LineRequest (GetString "request_id" c1) (req_Method c) (URL_Path c) (Status c1)
    (time_sub (e_end e) (e_start e)) (ClientIP c1)];
  requestLog := (send_log (e_waiting e) (log_entry (e_log_start e) (e_log_end e) c1) (requestLog s)).1; app := app s |}.

Lemma chain_outer (cfg : Config) (e : env) (handler : Comp (C * world) unit) (c : C) (w : world)
    (c1 : C) (rd1 : R * D) (s1 : side L X) :
  (if decide (req_Method c = "OPTIONS") then on_ctx (AbortWithStatus 204) else
   APIKeyValidator (e_validate1 e) (e_validate2 e)
     (RateLimit.RateLimitWithTier cfg (e_limit e) handler)) (cors_headers (with_request_id e c), w) =
    ((c1, (rd1, s1)), Ret tt) →
  setupMiddleware cfg e handler (c, w) =
    ((c1, (rd1, logged e (with_request_id e c) c1 s1)), Ret tt).
Proof.
  intros Hin. unfold setupMiddleware, Recovery, with_recover, RequestID, Logger, RequestLogger, CORS.
  set (inner := APIKeyValidator _ _ _) in *. unfold get_ctx, on_ctx in *. comp_unfold.
  fold (request_id e c). fold (with_request_id e c). fold (cors_headers (with_request_id e c)).
  assert (req_Method (cors_headers (with_request_id e c)) = req_Method c) as ->.
  { unfold cors_headers, with_request_id. by rewrite !Method_Header, Method_Set. }
  destruct w as [rd s]. case_decide; [by simplify_eq|by rewrite Hin].
Qed.

(** A panic passes the two loggers by. *)
Lemma chain_panics (cfg : Config) (e : env) (handler : Comp (C * world) unit) (c : C) (w : world)
    (c1 : C) (rd1 : R * D) (s1 : side L X) (msg : string) :
  req_Method c ≠ "OPTIONS" →
  APIKeyValidator (e_validate1 e) (e_validate2 e) (RateLimit.RateLimitWithTier cfg (e_limit e) handler)
    (cors_headers (with_request_id e c), w) = ((c1, (rd1, s1)), Panic msg) →
  setupMiddleware cfg e handler (c, w) =
    ((Abort (JSON 500 (error_body "Internal Server Error") c1),
      (rd1, {| spawned := spawned s1; printed := printed s1 ++ [LinePanic (GetString "request_id" c1) msg];
               requestLog := requestLog s1; app := app s1 |})), Ret tt).
Proof.
  intros Hm Hin. unfold setupMiddleware, Recovery, with_recover, RequestID, Logger, RequestLogger, CORS.
  set (inner := APIKeyValidator _ _ _) in *. unfold get_ctx, on_ctx in *. comp_unfold.
  fold (request_id e c). fold (with_request_id e c). fold (cors_headers (with_request_id e c)).
  assert (req_Method (cors_headers (with_request_id e c)) = req_Method c) as ->.
  { unfold cors_headers, with_request_id. by rewrite !Method_Header, Method_Set. }
  destruct w as [rd s]. by rewrite decide_False, Hin by done.
Qed.

(** C33: Whatever a handler does, the gateway answers: the chain never panics.  A
    panic in the handler of the route, or in the key validator or the limiter in
    front of it, becomes a response with status 500 if nothing was written
    before; otherwise the status that was sent stays.  Either way the chain is
    aborted, the panic is printed, what the handler did to the stores stays, and
    the request is in neither of the two logs. *)
Theorem chain_recovers (cfg : Config) (e : env) (handler : Comp (C * world) unit) (c : C) (w : world) :
  (∃ c' w', setupMiddleware cfg e handler (c, w) = ((c', w'), Ret tt)) ∧
  ∀ c1 rd1 s1 msg, req_Method c ≠ "OPTIONS" →
    APIKeyValidator (e_validate1 e) (e_validate2 e) (RateLimit.RateLimitWithTier cfg (e_limit e) handler)
      (cors_headers (with_request_id e c), w) = ((c1, (rd1, s1)), Panic msg) →
    ∃ c', setupMiddleware cfg e handler (c, w) =
        ((c', (rd1, {| spawned := spawned s1; printed := printed s1 ++ [LinePanic (GetString "request_id" c1) msg];
                       requestLog := requestLog s1; app := app s1 |})), Ret tt) ∧
      IsAborted c' = true ∧ Status c' = if Written c1 then Status c1 else 500.
Proof.
  split.
  { unfold setupMiddleware, Recovery at 1, with_recover.
    destruct (RequestID _ _ (c, w)) as [[c1 [rd1 s1]] [[]|msg]]; eauto. }
  intros c1 rd1 s1 msg Hm Hin. eexists. split; [by apply chain_panics|]. rewrite IsAborted_Abort, Status_Abort.
  split; [done|]. destruct (Written c1) eqn:Hw; [by apply Status_JSON_written|by apply Status_JSON].
Qed.

(** A preflight request is answered at once, by status 204 with the headers
    that allow the real request: no key is validated, no limiter asked and no
    handler run, so the stores stay as they are.  It is logged with its status. *)
Theorem preflight_answered (cfg : Config) (e : env) (handler : Comp (C * world) unit) (c : C) (rd : R * D) (s : side L X)
    (Hmethod : req_Method c = "OPTIONS") (Hwritten : Written c = false) :
  ∃ c' s', setupMiddleware cfg e handler (c, (rd, s)) = ((c', (rd, s')), Ret tt) ∧
    Status c' = 204 ∧ IsAborted c' = true ∧ ResponseHeader "Access-Control-Allow-Origin" c' = "*" ∧
    spawned s' = spawned s ∧
    ∃ log, requestLog s' = (send_log (e_waiting e) log (requestLog s)).1 ∧ StatusCode log = 204.
Proof.
  eexists _, _. split.
  { apply chain_outer. by rewrite decide_True. }
  rewrite IsAborted_AbortWithStatus, Status_AbortWithStatus.
  2: { unfold cors_headers, with_request_id. by rewrite !Written_Header, Written_Set. }
  rewrite ResponseHeader_AbortWithStatus. unfold cors_headers at 1. rewrite !ResponseHeader_Header by done.
  repeat first [rewrite decide_True by done | rewrite decide_False by done]. split_and!; [done..|].
  eexists. split; [done|]. simpl. rewrite Status_AbortWithStatus; [done|].
  unfold cors_headers, with_request_id. by rewrite !Written_Header, Written_Set.
Qed.

End properties.

(** ** Witnesses *)

#[local] Existing Instances Rfc3339.utc wf_rows_dec table_store table_laws strict_uuid
  list_store list_store_laws list_store_reliable.

Definition quiet : side (list RequestLog) unit :=
  {| spawned := []; printed := [];
     requestLog := {| logChannel := []; bufferSize := 1000; batch := []; log_db := [] |}; app := tt |}.

Definition one_key : table := {[ id1 := key1 ]}.

Definition keyed (ip : string) : ctx := new_ctx ip {[ "X-API-Key" := " " +:+ text1 +:+ " " ]}.

Lemma empty_cache_ok (T : time) : cache_ok (R := RefRedis) (D := table) T (∅, one_key).
Proof. by intros h. Qed.

Lemma key1_active : active_row one_key (sha256_hex text1) key1.
Proof. exists id1. split; [by vm_compute|done]. Qed.



(** Three requests with the key from three addresses; its tier allows two. *)
Definition three_keyed : list (ctx * readings) :=
  (λ '(ip, t), (keyed ip, (t, t, RateLimit.at_time t))) <$>
    [("10.0.0.7", 61 * second); ("10.0.0.8", 62 * second); ("10.0.0.9", 63 * second)].

Lemma key_rate_limit_witness :
  ∃ c' k', (serve_keys (R := RefRedis) (D := table) RateLimit.example_config RateLimit.say_hello
      three_keyed (∅, one_key, quiet)).2 !! 2%nat = Some (c', Ret tt) ∧
    ID k' = ID key1 ∧ Tier k' = Tier key1 ∧ Status c' = 429 ∧ IsAborted c' = true.
Proof.
  apply (key_rate_limit (R := RefRedis) (D := table) RateLimit.example_config text1 key1
    RateLimit.say_hello 1 minute three_keyed ∅ one_key quiet 2 (keyed "10.0.0.9") (63 * second) (63 * second)
    (RateLimit.at_time (63 * second))).
  - split; discriminate.
  - lia.
  - vm_compute. discriminate.
  - vm_compute. discriminate.
  - repeat (constructor; [split; [split; [discriminate|vm_compute; reflexivity]|reflexivity]|]). constructor.
  - exact key1_active.
  - simpl. unfold minute, second. lia.
  - apply empty_cache_ok.
  - split; reflexivity.
  - reflexivity.
Defined.

Definition example_env : env := {|
  e_fresh := id1; e_start := second; e_end := second; e_log_start := second; e_log_end := second;
  e_waiting := true; e_validate1 := second; e_validate2 := second; e_limit := RateLimit.at_time second |}.

(** A handler that panics. *)
Definition crash : Comp (ctx * ((RefRedis * table) * side (list RequestLog) unit)) unit := panic "boom".

(** A handler that panics, and one that has begun its answer before. *)
Definition crash_late : Comp (ctx * ((RefRedis * table) * side (list RequestLog) unit)) unit :=
  on_ctx (JSON 200 JNull);; panic "boom".

Abbreviation keyed_inner handler :=
  (APIKeyValidator (e_validate1 example_env) (e_validate2 example_env)
    (RateLimit.RateLimitWithTier RateLimit.example_config (e_limit example_env) handler)
    (cors_headers (with_request_id example_env (keyed "10.0.0.7")), (∅, one_key, quiet))).

Lemma inner_crash (handler : Comp (ctx * ((RefRedis * table) * side (list RequestLog) unit)) unit) (x : bool * Z) :
  (keyed_inner handler).2 = Panic "boom" → (Written (keyed_inner handler).1.1, Status (keyed_inner handler).1.1) = x →
  ∃ c1 rd1 s1, keyed_inner handler = ((c1, (rd1, s1)), Panic "boom") ∧ Written c1 = x.1 ∧ Status c1 = x.2.
Proof.
  destruct (keyed_inner handler) as [[c1 [rd1 s1]] o]. cbn [fst snd]. intros -> <-. by exists c1, rd1, s1.
Qed.

Lemma crash_inner :
  ∃ c1 rd1 s1, keyed_inner crash = ((c1, (rd1, s1)), Panic "boom") ∧ Written c1 = false ∧ Status c1 = 200.
Proof. apply (inner_crash crash (false, 200)); vm_compute; reflexivity. Qed.

Lemma crash_late_inner :
  ∃ c1 rd1 s1, keyed_inner crash_late = ((c1, (rd1, s1)), Panic "boom") ∧ Written c1 = true ∧ Status c1 = 200.
Proof. apply (inner_crash crash_late (true, 200)); vm_compute; reflexivity. Qed.

Lemma chain_recovers_witness :
  (∃ c' w', setupMiddleware RateLimit.example_config example_env crash
     (keyed "10.0.0.7", (∅, one_key, quiet)) = ((c', w'), Ret tt) ∧ Status c' = 500) ∧
  (∃ c' w', setupMiddleware RateLimit.example_config example_env crash_late
     (keyed "10.0.0.7", (∅, one_key, quiet)) = ((c', w'), Ret tt) ∧ Status c' = 200).
Proof.
  split.
  - destruct crash_inner as (c1 & rd1 & s1 & Hin & Hw & _).
    destruct (chain_recovers (R := RefRedis) (D := table) RateLimit.example_config example_env crash
      (keyed "10.0.0.7") (∅, one_key, quiet)) as [_ Hp].
    destruct (Hp c1 rd1 s1 "boom" ltac:(discriminate) Hin) as (c' & Hrun & _ & Hst).
    exists c'. eexists. split; [exact Hrun|]. rewrite Hst, Hw. reflexivity.
  - destruct crash_late_inner as (c1 & rd1 & s1 & Hin & Hw & Hs).
    destruct (chain_recovers (R := RefRedis) (D := table) RateLimit.example_config example_env crash_late
      (keyed "10.0.0.7") (∅, one_key, quiet)) as [_ Hp].
    destruct (Hp c1 rd1 s1 "boom" ltac:(discriminate) Hin) as (c' & Hrun & _ & Hst).
    exists c'. eexists. split; [exact Hrun|]. rewrite Hst, Hw. exact Hs.
Defined.

Definition preflight : ctx := {|
  x_req := ∅; x_ip := "10.0.0.7"; x_method := "OPTIONS"; x_path := "/users"; x_params := ∅; x_query := ∅; x_json := JNull; x_keys := ∅; x_headers := ∅;
  x_status := 200; x_written := false; x_body := []; x_aborted := false |}.

Lemma preflight_answered_witness :
  ∃ c' s', setupMiddleware RateLimit.example_config example_env crash (preflight, (∅, one_key, quiet))
      = ((c', (∅, one_key, s')), Ret tt) ∧
    Status c' = 204 ∧ IsAborted c' = true ∧ ResponseHeader "Access-Control-Allow-Origin" c' = "*" ∧
    spawned s' = spawned quiet ∧
    ∃ log, requestLog s' = (send_log true log (requestLog quiet)).1 ∧ StatusCode log = 204.
Proof.
  exact (preflight_answered (R := RefRedis) (D := table) RateLimit.example_config example_env crash
    preflight (∅, one_key) quiet eq_refl eq_refl).
Defined.



