(* ===== verification/Auth.v ===== *)
(** * Authentication

    Models [src/internal/service/authService.go],
    [src/internal/repository/authRepository.go], [src/internal/models/user.go],
    the handlers [src/internal/handler/authHandler.go] and the middleware
    [src/internal/middleware/authMiddleware.go].

    Not in the repository, and so parameters with their documented behaviour:
    the table of users (class [UserStore]), [golang.org/x/crypto/bcrypt] (class
    [Bcrypt]) and [golang-jwt/jwt] (class [Jwt]). *)

From S2P Require Import Prelude Strconv Database Json Gin.
From Stdlib Require Import Ascii.

(** ** The table *)

Record User := {
  user_ID : string;
  Email : string;
  PasswordHash : string;
  user_Name : string;
  Role : string;
  user_CreatedAt : time
}.

Definition set_user_CreatedAt (t : time) (u : User) : User := {|
  user_ID := user_ID u; Email := Email u; PasswordHash := PasswordHash u; user_Name := user_Name u;
  Role := Role u; user_CreatedAt := t |}.

Definition valid_user (u : User) : Prop :=
  valid_uuid (user_ID u) = true ∧ valid_text (Email u) = true ∧ valid_text (PasswordHash u) = true ∧
  valid_text (user_Name u) = true ∧ valid_text (Role u) = true ∧ valid_time (user_CreatedAt u).

Class UserStore (U : Type) := {
  insert_user : User → U → U * option db_error;
  first_by_email : string → U → U * (User + db_error);
  first_user_by_id : string → U → U * (User + db_error);
  find_users : U → U * (list User + db_error)      (* newest first *)
}.

(** A database without failures.  The e-mail addresses have a unique index. *)
Class UserStoreLaws (U : Type) `{UserStore U} := {
  users : U → gmap string User;
  users_ID u id k : users u !! id = Some k → user_ID k = id;
  users_valid u id k : users u !! id = Some k → valid_user k;
  users_email u id1 id2 k1 k2 :
    users u !! id1 = Some k1 → users u !! id2 = Some k2 → Email k1 = Email k2 → id1 = id2;
  insert_user_new u k :
    users u !! user_ID k = None → (∀ id k', users u !! id = Some k' → Email k' ≠ Email k) →
    valid_user k → Role k ≠ "" →
    ∃ u' t, insert_user k u = (u', None) ∧ users u' = <[user_ID k := set_user_CreatedAt t k]> (users u);
  insert_user_duplicate u id k k' :
    users u !! id = Some k' → Email k' = Email k →
    ∃ u' e, insert_user k u = (u', Some e) ∧ users u' = users u;
  first_by_email_found u id k :
    users u !! id = Some k → ∃ u', first_by_email (Email k) u = (u', inl k) ∧ users u' = users u;
  first_by_email_none u email :
    valid_text email = true → (∀ id k, users u !! id = Some k → Email k ≠ email) →
    ∃ u', first_by_email email u = (u', inr ErrRecordNotFound) ∧ users u' = users u;
  first_user_by_id_found u id :
    valid_uuid id = true →
    ∃ u', first_user_by_id id u =
      (u', match users u !! id with Some k => inl k | None => inr ErrRecordNotFound end) ∧ users u' = users u
}.

(** ** Passwords *)

(** [GenerateFromPassword] at the default cost, with the random salt as an
    argument, and [CompareHashAndPassword] with its error. *)
Class Bcrypt := {
  GenerateFromPassword : string → string → string + string;
  CompareHashAndPassword : string → string → option string
}.

(** What bcrypt makes of a password: 72 bytes, of the password and a zero byte, over
    and over. *)
Definition bcrypt_key (p : string) : list N :=
  let k := bytes_of p ++ [0%N] in (λ i, nth (i mod length k) k 0%N) <$> seq 0 72.

(** A password of at most 72 bytes has a hash.  The hash matches the passwords from
    which bcrypt makes the same key and, as far as anyone can find out, no other. *)
Class BcryptLaws `{Bcrypt} := {
  generate_short salt p : (String.length p <= 72)%nat →
    ∃ h, GenerateFromPassword salt p = inl h ∧ valid_text h = true;
  generate_long salt p : (72 < String.length p)%nat → ∃ e, GenerateFromPassword salt p = inr e;
  compare_key salt p p' h : GenerateFromPassword salt p = inl h →
    CompareHashAndPassword h p' = None ↔ bcrypt_key p' = bcrypt_key p
}.




(** ** Tokens *)

Abbreviation MapClaims := (gmap string any).

(** A parsed token: the algorithm that its header names, its claims, and whether
    the parser found it valid. *)
Record Token := { Method : string; Claims : MapClaims; Valid : bool }.

(** [NewWithClaims(HS256, claims).SignedString(secret)], and [jwt.Parse] at a
    time, with the callback that chooses the key. *)
Class Jwt := {
  SignedString : string → MapClaims → string + string;
  Parse : (Token → string + string) → time → string → Token + string
}.

(** The times of the claims, which the parser checks: [exp] must be later than
    the present and [nbf] not later, if they are there; a claim that is 0 counts as
    one that is not. *)
Definition claims_current (now : time) (cl : MapClaims) : Prop :=
  match cl !! "exp" with Some (ANum e) => e = 0 ∨ now < e * second | Some _ => False | None => True end ∧
  match cl !! "nbf" with Some (ANum e) => e = 0 ∨ e * second <= now | Some _ => False | None => True end.

#[export] Instance claims_current_dec (now : time) (cl : MapClaims) : Decision (claims_current now cl).
Proof. unfold claims_current. destruct (cl !! "exp") as [[]|], (cl !! "nbf") as [[]|]; apply _. Defined.

(** Claims that their JSON text keeps: texts, and numbers exact as float64. *)
Definition claim_ok (a : any) : Prop :=
  match a with AStr s => valid_text s = true | ANum n => Z.abs n <= 2 ^ 53 | _ => False end.

(** [verifies alg key s cl]: the text [s] is a token with the claims [cl] and a
    signature that is right for the algorithm and the key.  The text of a token
    has no spaces. *)
Class JwtLaws `{Jwt} := {
  verifies : string → string → string → MapClaims → Prop;
  verifies_claims alg key alg' key' s cl cl' :
    verifies alg key s cl → verifies alg' key' s cl' → alg = alg' ∧ cl = cl';
  sign_verifies key cl : map_Forall (λ _, claim_ok) cl →
    ∃ s, SignedString key cl = inl s ∧ not_in " "%char s ∧ verifies "HS256" key s cl;
  parse_valid keyfunc now s alg key cl :
    verifies alg key s cl → keyfunc {| Method := alg; Claims := cl; Valid := false |} = inl key →
    claims_current now cl → Parse keyfunc now s = inl {| Method := alg; Claims := cl; Valid := true |};
  parse_sound keyfunc now s tok :
    Parse keyfunc now s = inl tok → Valid tok = true ∧ claims_current now (Claims tok) ∧
    ∃ key, keyfunc {| Method := Method tok; Claims := Claims tok; Valid := false |} = inl key ∧
      verifies (Method tok) key s (Claims tok)
}.

(** The algorithms of the type [SigningMethodHMAC], which the callback asserts. *)
Definition is_HMAC (alg : string) : bool := bool_decide (alg ∈ ["HS256"; "HS384"; "HS512"]).

(** ** The repository *)

Section service.
Context {U : Type} `{UserStore U} `{Bcrypt} `{Jwt}.

Definition zero_user : User := {|
  user_ID := uuid_Nil; Email := ""; PasswordHash := ""; user_Name := ""; Role := ""; user_CreatedAt := zero_time |}.

(** A pointer and an error: a row that is not found is neither. *)
Definition found_user (o : User + db_error) : option User * option db_error :=
  match o with
  | inl k => (Some k, None)
  | inr ErrRecordNotFound => (None, None)
  | inr e => (Some zero_user, Some e)
  end.

(** [models.User.BeforeCreate]. *)
Definition User_BeforeCreate (id : string) (k : User) : User :=
  if decide (user_ID k = uuid_Nil) then {|
    user_ID := id; Email := Email k; PasswordHash := PasswordHash k; user_Name := user_Name k; Role := Role k;
    user_CreatedAt := user_CreatedAt k |}
  else k.

Definition user_Create (id : string) (k : User) : Comp U (option db_error) :=
  query (insert_user (User_BeforeCreate id k)).

Definition FindByEmail (email : string) : Comp U (option User * option db_error) :=
  o ← query (first_by_email email); mret (found_user o).

Definition FindById (id : string) : Comp U (option User * option db_error) :=
  o ← query (first_user_by_id id); mret (found_user o).

Definition user_List : Comp U (list User * option db_error) :=
  o ← query find_users;
  mret match o with inl ks => (ks, None) | inr e => ([], Some e) end.

(** ** The service *)

Record AuthService := { jwtSecret : string; jwtExpiry : duration }.

Definition NewAuthService (secret : string) (expiryHours : Z) : AuthService :=
  {| jwtSecret := secret; jwtExpiry := wrap64 (expiryHours * hour) |}.

(** [Register]; [salt] and [id] are the random choices. *)
Definition Register (email password name : string) (salt id : string) : Comp U (option string) :=
  '(existingUser, err) ← FindByEmail email;
  match err, existingUser with
  | Some e, _ => mret (Some (db_text e))
  | None, Some _ => mret (Some "user with this email already exists")
  | None, None =>
      match GenerateFromPassword salt password with
      | inr e => mret (Some ("failed to hash password: " +:+ e))
      | inl hashedPassword =>
          err ← user_Create id {| user_ID := uuid_Nil; Email := email; PasswordHash := hashedPassword;
                                  user_Name := name; Role := "admin"; user_CreatedAt := zero_time |};
          mret (db_text <$> err)
      end
  end.

Definition claims_of (s : AuthService) (user : User) (t1 t2 : time) : MapClaims :=
  <["user_id" := AStr (user_ID user)]> (<["email" := AStr (Email user)]> (<["role" := AStr (Role user)]>
    (<["exp" := ANum (unix (t1 + jwtExpiry s))]> (<["iat" := ANum (unix t2)]> ∅)))).

(** [Login]; the clock is read twice. *)
Definition Login (s : AuthService) (email password : string) (t1 t2 : time) : Comp U (string * option string) :=
  '(user, err) ← FindByEmail email;
  match err, user with
  | Some e, _ => mret ("", Some (db_text e))
  | None, None => mret ("", Some "invalid credentials")
  | None, Some user =>
      match CompareHashAndPassword (PasswordHash user) password with
      | Some _ => mret ("", Some "invalid credentials")
      | None =>
          match SignedString (jwtSecret s) (claims_of s user t1 t2) with
          | inr e => mret ("", Some ("failed to generate token: " +:+ e))
          | inl tokenString => mret (tokenString, None)
          end
      end
  end.

(** The callback of [ValidateToken]. *)
Definition keyfunc (s : AuthService) (token : Token) : string + string :=
  if is_HMAC (Method token) then inl (jwtSecret s)
  else inr ("unexpected signing method: " +:+ Method token).

(** [ValidateToken]; the claims of a parsed token are always [MapClaims]. *)
Definition ValidateToken (s : AuthService) (now : time) (tokenString : string) : MapClaims + string :=
  match Parse (keyfunc s) now tokenString with
  | inr e => inr e
  | inl token => if Valid token then inl (Claims token) else inr "invalid token"
  end.

Definition GetUserByID (id : string) : Comp U (option User * option db_error) := FindById id.
End service.

(** ** The middleware *)

Section middleware.
Context {C W : Type} `{Gin C} `{Jwt}.

Definition deny (msg : string) (c : C) : C := Abort (JSON 401 (error_body msg) c).

(** [claims[key]] as a value of the empty interface. *)
Definition claim (cl : MapClaims) (key : string) : any := default ANil (cl !! key).

Definition with_claims (cl : MapClaims) (c : C) : C :=
  Set_ "role" (claim cl "role") (Set_ "email" (claim cl "email") (Set_ "user_id" (claim cl "user_id") c)).

Definition RequireAuth (s : AuthService) (now : time) (next : Comp (C * W) unit) : Comp (C * W) unit :=
  c ← get_ctx;
  let authHeader := GetHeader "Authorization" c in
  if decide (authHeader = "") then on_ctx (deny "Authorization header required") else
  match Split " "%char authHeader with
  | [bearer; tokenString] =>
      if decide (bearer = "Bearer") then
        match ValidateToken s now tokenString with
        | inr _ => on_ctx (deny "Invalid or expired token")
        | inl claims => on_ctx (with_claims claims);; next
        end
      else on_ctx (deny "Invalid authorized header format. Use: Bearer <token>")
  | _ => on_ctx (deny "Invalid authorized header format. Use: Bearer <token>")
  end.
End middleware.

(** ** The handlers *)

Record register_request := { rg_Email : string; rg_Password : string; rg_Name : string }.
Record login_request := { lg_Email : string; lg_Password : string }.

(** The JSON value of a user: the hash of the password has no tag. *)
Definition json_of_user (u : User) : json := JObj
  [("id", JStr (user_ID u)); ("email", JStr (Email u)); ("PasswordHash", JStr (PasswordHash u));
   ("name", JStr (user_Name u)); ("role", JStr (Role u)); ("created_at", JTime (user_CreatedAt u))].

Section handlers.
Context {C U : Type} `{Gin C} `{UserStore U} `{Bcrypt} `{Jwt} `{Bind C register_request} `{Bind C login_request}.

Definition RegisterHandler (salt id : string) : Comp (C * U) unit :=
  c ← get_ctx;
  match ShouldBindJSON c with
  | inr e => on_ctx (JSON 400 (error_body e))
  | inl req =>
      err ← on_comp (Register (rg_Email req) (rg_Password req) (rg_Name req) salt id);
      match err with
      | Some e => on_ctx (JSON 400 (error_body e))
      | None => on_ctx (JSON 201 (JObj [("message", JStr "User registered successfully")]))
      end
  end.

Definition LoginHandler (s : AuthService) (t1 t2 : time) : Comp (C * U) unit :=
  c ← get_ctx;
  match ShouldBindJSON c with
  | inr e => on_ctx (JSON 400 (error_body e))
  | inl req =>
      '(token, err) ← on_comp (Login s (lg_Email req) (lg_Password req) t1 t2);
      match err with
      | Some e => on_ctx (JSON 401 (error_body e))
      | None => on_ctx (JSON 200 (JObj [("token", JStr token); ("type", JStr "Bearer")]))
      end
  end.

(** [Me]; the type assertion panics on a user id that is not a string. *)
Definition MeHandler : Comp (C * U) unit :=
  c ← get_ctx;
  match Gin.Get "user_id" c with
  | None => on_ctx (JSON 401 (error_body "Unauthorized"))
  | Some (AStr userID) =>
      '(user, err) ← on_comp (GetUserByID userID);
      match err, user with
      | Some e, _ => on_ctx (JSON 500 (error_body (db_text e)))
      | None, None => on_ctx (JSON 404 (error_body "User not found"))
      | None, Some user => on_ctx (JSON 200 (json_of_user user))
      end
  | Some _ => panic "interface conversion"
  end.
End handlers.

(** ** Lemmas *)

Section lemmas.
Context {U : Type} `{UserStoreLaws U} `{BcryptLaws} `{JwtLaws}.

Definition has_email (u : U) (email : string) (k : User) : Prop :=
  ∃ id, users u !! id = Some k ∧ Email k = email.

Lemma has_email_unique (u : U) (email : string) (k1 k2 : User) :
  has_email u email k1 → has_email u email k2 → k1 = k2.
Proof.
  intros (i1 & E1 & M1) (i2 & E2 & M2).
  pose proof (users_email u i1 i2 k1 k2 E1 E2 ltac:(congruence)). congruence.
Qed.

Lemma has_email_dec (u : U) (email : string) : (∃ k, has_email u email k) ∨ (∀ k, ¬ has_email u email k).
Proof.
  destruct (decide (map_Forall (λ _ k, Email k ≠ email) (users u))) as [Hall|Hex].
  - right. intros k (id & Hk & He). by apply (Hall id k Hk).
  - apply map_not_Forall in Hex as (id & k & Hk & Hn); [|apply _]. left. exists k, id.
    split; [done|]. destruct (decide (Email k = email)); tauto.
Qed.

(** The query by e-mail. *)
Lemma FindByEmail_ok (email : string) (u : U) :
  valid_text email = true →
  ∃ u' o, FindByEmail email u = (u', Ret (o, None)) ∧ users u' = users u ∧
    match o with Some k => has_email u email k | None => ∀ k, ¬ has_email u email k end.
Proof.
  intros Hv. unfold FindByEmail, query. comp_unfold.
  destruct (has_email_dec u email) as [(k & id & Hk & <-)|Hn].
  - destruct (first_by_email_found u id k Hk) as (u' & -> & Hu). exists u', (Some k). split_and!; [done..|]. by exists id.
  - destruct (first_by_email_none u email Hv) as (u' & -> & Hu); [|by exists u', None].
    intros id k Hk He. apply (Hn k). by exists id.
Qed.

Lemma FindById_ok (id : string) (u : U) :
  valid_uuid id = true → ∃ u', FindById id u = (u', Ret (users u !! id, None)) ∧ users u' = users u.
Proof.
  intros Hid. unfold FindById, query. comp_unfold.
  destruct (first_user_by_id_found u id Hid) as (u' & -> & Hu). exists u'. by destruct (users u !! id).
Qed.

(** The clock readings of a login are ones that float64 keeps. *)
Definition login_times (s : AuthService) (t1 t2 : time) : Prop :=
  Z.abs (unix (t1 + jwtExpiry s)) <= 2 ^ 53 ∧ Z.abs (unix t2) <= 2 ^ 53.

Lemma claims_of_ok (s : AuthService) (k : User) (t1 t2 : time) :
  valid_user k → login_times s t1 t2 → map_Forall (λ _, claim_ok) (claims_of s k t1 t2).
Proof.
  intros (Hid & He & _ & _ & Hr & _) [Hn1 Hn2]. unfold claims_of.
  repeat apply map_Forall_insert_2; [simpl; by apply valid_uuid_text|done..|apply map_Forall_empty].
Qed.

Lemma claims_of_lookup (s : AuthService) (k : User) (t1 t2 : time) :
  claims_of s k t1 t2 !! "user_id" = Some (AStr (user_ID k)) ∧
  claims_of s k t1 t2 !! "email" = Some (AStr (Email k)) ∧
  claims_of s k t1 t2 !! "role" = Some (AStr (Role k)) ∧
  claims_of s k t1 t2 !! "exp" = Some (ANum (unix (t1 + jwtExpiry s))) ∧
  claims_of s k t1 t2 !! "nbf" = None.
Proof. unfold claims_of. split_and!; by simplify_map_eq. Qed.

Lemma claims_of_current (s : AuthService) (k : User) (t1 t2 now : time) :
  claims_current now (claims_of s k t1 t2) ↔ unix (t1 + jwtExpiry s) = 0 ∨ now < unix (t1 + jwtExpiry s) * second.
Proof.
  destruct (claims_of_lookup s k t1 t2) as (_ & _ & _ & He & Hn). unfold claims_current. rewrite He, Hn. tauto.
Qed.

(** A login of a known user with a matching password. *)
Lemma Login_ok (s : AuthService) (email password : string) (t1 t2 : time) (u : U) (k : User) :
  has_email u email k → CompareHashAndPassword (PasswordHash k) password = None → login_times s t1 t2 →
  ∃ u' tok, Login s email password t1 t2 u = (u', Ret (tok, None)) ∧ users u' = users u ∧
    not_in " "%char tok ∧ verifies "HS256" (jwtSecret s) tok (claims_of s k t1 t2).
Proof.
  intros Hk Hc Ht. pose proof Hk as (id & Hrow & He).
  pose proof (users_valid u id k Hrow) as Hval.
  destruct (FindByEmail_ok email u) as (u' & o & HF & Hu & Ho); [rewrite <- He; apply Hval|].
  destruct o as [k'|]; [|by destruct (Ho k)]. rewrite (has_email_unique u email k' k Ho Hk) in HF.
  destruct (sign_verifies (jwtSecret s) (claims_of s k t1 t2)) as (tok & Hs & Hsp & Hv); [by apply claims_of_ok|].
  exists u', tok. unfold Login. rewrite (comp_bind_step _ _ _ _ _ HF). cbv beta iota. rewrite Hc, Hs. done.
Qed.

(** A login without one. *)
Lemma Login_refused (s : AuthService) (email password : string) (t1 t2 : time) (u : U) :
  valid_text email = true →
  (∀ k, has_email u email k → CompareHashAndPassword (PasswordHash k) password ≠ None) →
  ∃ u', Login s email password t1 t2 u = (u', Ret ("", Some "invalid credentials")) ∧ users u' = users u.
Proof.
  intros Hv Hno. destruct (FindByEmail_ok email u Hv) as (u' & o & HF & Hu & Ho). exists u'.
  unfold Login. rewrite (comp_bind_step _ _ _ _ _ HF). cbv beta iota. destruct o as [k|]; [|done].
  specialize (Hno k Ho). by destruct (CompareHashAndPassword (PasswordHash k) password).
Qed.

(** Exactly the tokens that verify and are current are accepted. *)
Lemma ValidateToken_spec (s : AuthService) (now : time) (tok : string) (cl : MapClaims) :
  ValidateToken s now tok = inl cl ↔
    ∃ alg, is_HMAC alg = true ∧ verifies alg (jwtSecret s) tok cl ∧ claims_current now cl.
Proof.
  unfold ValidateToken. split.
  - destruct (Parse (keyfunc s) now tok) as [token|] eqn:HP; [|done].
    apply parse_sound in HP as (Hv & Hc & key & Hk & Hver). rewrite Hv. intros [= <-].
    exists (Method token). unfold keyfunc in Hk. simpl in Hk. destruct (is_HMAC (Method token)); by simplify_eq.
  - intros (alg & Ha & Hver & Hc). erewrite parse_valid; [|done| |done]; [done|].
    unfold keyfunc. simpl. by rewrite Ha.
Qed.

(** [Register] on its three branches. *)
Lemma Register_ok (email password name salt id : string) (u : U) :
  valid_uuid id = true → valid_text email = true → valid_text name = true → (String.length password <= 72)%nat →
  users u !! id = None → (∀ k, ¬ has_email u email k) →
  ∃ u' h t, Register email password name salt id u = (u', Ret None) ∧
    GenerateFromPassword salt password = inl h ∧ CompareHashAndPassword h password = None ∧
    users u' = <[id := {| user_ID := id; Email := email; PasswordHash := h; user_Name := name; Role := "admin";
                          user_CreatedAt := t |}]> (users u).
Proof.
  intros Hid Hve Hvn Hlen Hfresh Hnew.
  destruct (FindByEmail_ok email u Hve) as (u1 & o & HF & Hu & Ho).
  destruct o as [k|]; [by destruct (Hnew k)|].
  destruct (generate_short salt password Hlen) as (h & Hg & Hvh).
  pose proof (proj2 (compare_key salt password password h Hg) eq_refl) as Hc.
  set (k := {| user_ID := id; Email := email; PasswordHash := h; user_Name := name; Role := "admin";
               user_CreatedAt := zero_time |}).
  destruct (insert_user_new u1 k) as (u2 & t & HI & Hu2); rewrite ?Hu; simpl; [done| | |done|].
  - intros id' k' Hk' He. apply (Hnew k'). by exists id'.
  - by repeat split.
  - exists u2, h, t. unfold Register, user_Create, query, User_BeforeCreate.
    rewrite (comp_bind_step _ _ _ _ _ HF). cbv beta iota. rewrite Hg. comp_unfold.
    unfold k in HI. rewrite HI. simpl. by rewrite Hu2, Hu.
Qed.
End lemmas.

(** ** Properties *)

Section properties.
Context {U : Type} `{UserStoreLaws U} `{BcryptLaws} `{JwtLaws}.

(** Registration, login and validation fit together: a registered user can log
    in with the password it registered with, and until the token expires it is
    accepted and names the user's identifier, e-mail and role. *)
Theorem register_login (s : AuthService) (email password name salt id : string) (t1 t2 now : time) (u : U)
    (Hid : valid_uuid id = true) (Hemail : valid_text email = true) (Hname : valid_text name = true)
    (Hlen : (String.length password <= 72)%nat) (Hfresh : users u !! id = None)
    (Hnew : ∀ k, ¬ has_email u email k) (Htimes : login_times s t1 t2)
    (Hnow : now < unix (t1 + jwtExpiry s) * second) :
  ∃ u1 u2 tok cl, Register email password name salt id u = (u1, Ret None) ∧
    Login s email password t1 t2 u1 = (u2, Ret (tok, None)) ∧ users u2 = users u1 ∧ not_in " "%char tok ∧
    ValidateToken s now tok = inl cl ∧ cl !! "user_id" = Some (AStr id) ∧ cl !! "email" = Some (AStr email) ∧
    cl !! "role" = Some (AStr "admin").
Proof.
  destruct (Register_ok email password name salt id u) as (u1 & h & t & HR & _ & Hc & Hu1); [done..|].
  set (k := {| user_ID := id |}) in Hu1.
  assert (has_email u1 email k) as Hk by (exists id; by rewrite Hu1, lookup_insert_eq).
  destruct (Login_ok s email password t1 t2 u1 k Hk Hc Htimes) as (u2 & tok & HL & Hu2 & Hsp & Hv).
  exists u1, u2, tok, (claims_of s k t1 t2). destruct (claims_of_lookup s k t1 t2) as (Hc1 & Hc2 & Hc3 & _).
  split_and!; [done..| |done|done|done]. apply ValidateToken_spec. exists "HS256".
  split_and!; [done|done|]. apply claims_of_current. by right.
Qed.


(** E-mail addresses are unique: registering one that is taken fails without a
    change, and of two registrations that both found it free before either
    inserted its user, the second to insert fails. *)
Theorem register_unique (email password name salt id : string) (k : User) (u : U)
    (Hemail : valid_text email = true) (Htaken : has_email u email k) :
  (∃ u', Register email password name salt id u = (u', Ret (Some "user with this email already exists")) ∧
    users u' = users u) ∧
  ∀ k', Email k' = email → ∃ u' e, user_Create id k' u = (u', Ret (Some e)) ∧ users u' = users u.
Proof.
  split.
  - destruct (FindByEmail_ok email u Hemail) as (u' & o & HF & Hu & Ho). destruct o as [k'|]; [|by destruct (Ho k)].
    exists u'. unfold Register. by rewrite (comp_bind_step _ _ _ _ _ HF).
  - intros k' He. destruct Htaken as (id0 & Hk & Hek). unfold user_Create, query.
    destruct (insert_user_duplicate u id0 (User_BeforeCreate id k') k Hk) as (u' & e & HI & Hu).
    { rewrite Hek, <- He. unfold User_BeforeCreate. by case_decide. }
    exists u', e. by rewrite HI.
Qed.

(** A token lives exactly as long as configured: a token from a login is
    accepted at a time exactly when that is before the second in which the
    lifetime, counted from the login, ends. *)
Theorem token_lifetime (s : AuthService) (email password : string) (t1 t2 now : time) (u u' : U) (k : User) (tok : string)
    (Hk : has_email u email k) (Htimes : login_times s t1 t2) (Hend : unix (t1 + jwtExpiry s) ≠ 0)
    (Hlogin : Login s email password t1 t2 u = (u', Ret (tok, None))) :
  (∃ cl, ValidateToken s now tok = inl cl) ↔ now < unix (t1 + jwtExpiry s) * second.
Proof.
  destruct (CompareHashAndPassword (PasswordHash k) password) as [e|] eqn:Hc.
  { pose proof Hk as (id & Hrow & He).
    destruct (Login_refused s email password t1 t2 u) as (u2 & HL & _).
    - rewrite <- He. by apply (users_valid u id k Hrow).
    - intros k' Hk'. rewrite (has_email_unique u email k' k Hk' Hk). by rewrite Hc.
    - rewrite HL in Hlogin. by simplify_eq. }
  destruct (Login_ok s email password t1 t2 u k Hk Hc Htimes) as (u2 & tok2 & HL & _ & _ & Hv).
  rewrite HL in Hlogin. simplify_eq.
  transitivity (claims_current now (claims_of s k t1 t2)); [|rewrite claims_of_current; tauto]. split.
  - intros [cl Hcl]. apply ValidateToken_spec in Hcl as (alg & _ & Hver & Hcur).
    by destruct (verifies_claims _ _ _ _ _ _ _ Hv Hver) as [_ ->].
  - intros Hcur. exists (claims_of s k t1 t2). apply ValidateToken_spec. by exists "HS256".
Qed.

(** C25: Only tokens signed with the gateway's secret are accepted: a token whose
    header names an algorithm other than the HMAC ones (the algorithm [none], or
    one with a public key) is refused, and so is one whose signature is not
    right for the secret, or that has expired. *)
Theorem token_sound (s : AuthService) (now : time) (tok : string) :
  match ValidateToken s now tok with
  | inl cl => ∃ alg, alg ∈ ["HS256"; "HS384"; "HS512"] ∧ verifies alg (jwtSecret s) tok cl ∧ claims_current now cl
  | inr _ => ∀ alg cl, alg ∈ ["HS256"; "HS384"; "HS512"] → verifies alg (jwtSecret s) tok cl → ¬ claims_current now cl
  end.
Proof.
  destruct (ValidateToken s now tok) as [cl|e] eqn:HV.
  - apply ValidateToken_spec in HV as (alg & Ha & Hv & Hc). exists alg. by apply bool_decide_eq_true in Ha.
  - intros alg cl Ha Hv Hc. assert (ValidateToken s now tok = inl cl) as HV'; [|by rewrite HV in HV'].
    apply ValidateToken_spec. exists alg. split_and!; [by apply bool_decide_eq_true|done..].
Qed.
End properties.

Section gate.
Context {C W : Type} `{GinLaws C} `{JwtLaws}.

Lemma deny_response (msg : string) (c : C) :
  Written c = false → Status (deny msg c) = 401 ∧ IsAborted (deny msg c) = true.
Proof. intros Hw. unfold deny. rewrite Status_Abort, IsAborted_Abort. split; [by apply Status_JSON|done]. Qed.

(** The header's token, if it has the right form. *)
Definition bearer (c : C) : option string :=
  match Split " "%char (GetHeader "Authorization" c) with
  | [b; tok] => if decide (b = "Bearer") then Some tok else None
  | _ => None
  end.

Lemma bearer_header (c : C) (tok : string) : bearer c = Some tok → GetHeader "Authorization" c = "Bearer " +:+ tok.
Proof.
  unfold bearer. intros Hb. destruct (Split _ _) as [|b [|tok' [|]]] eqn:HS; try done.
  case_decide; [|done]. simplify_eq. by apply Split_two in HS.
Qed.

Lemma bearer_of (c : C) (tok : string) :
  GetHeader "Authorization" c = "Bearer " +:+ tok → not_in " "%char tok → bearer c = Some tok.
Proof.
  intros Hh Hn. unfold bearer. rewrite Hh. change ("Bearer " +:+ tok) with ("Bearer" +:+ String " "%char tok).
  rewrite Split_app by (repeat split; discriminate). rewrite Split_not_in by done. by rewrite decide_True.
Qed.

Lemma RequireAuth_eq (s : AuthService) (now : time) (next : Comp (C * W) unit) (c : C) (w : W) :
  match bearer c with
  | Some tok =>
      match ValidateToken s now tok with
      | inl cl => RequireAuth s now next (c, w) = next (with_claims cl c, w)
      | inr _ => RequireAuth s now next (c, w) = ((deny "Invalid or expired token" c, w), Ret tt)
      end
  | None => ∃ msg, RequireAuth s now next (c, w) = ((deny msg c, w), Ret tt)
  end.
Proof.
  unfold RequireAuth, bearer, get_ctx. rewrite (comp_bind_step _ _ _ (c, w) c eq_refl). cbv zeta.
  case_decide as Hh; [rewrite Hh; simpl; by eexists|].
  destruct (Split _ _) as [|b [|tok [|]]]; [by eexists..| |by eexists].
  case_decide; [|by eexists]. by destruct (ValidateToken s now tok).
Qed.

(** C28: The middleware is a gate: the rest of the chain runs exactly when the
    request carries the header [Authorization: Bearer <token>] with a token that
    [ValidateToken] accepts, and then with the token's user in the context;
    every other request is answered with status 401 and aborted. *)
Theorem require_auth_gate (s : AuthService) (now : time) (next : Comp (C * W) unit) (c : C) (w : W)
    (Hwritten : Written c = false) :
  (∃ tok cl c', GetHeader "Authorization" c = "Bearer " +:+ tok ∧ ValidateToken s now tok = inl cl ∧
     RequireAuth s now next (c, w) = next (c', w) ∧ Gin.Get "user_id" c' = Some (claim cl "user_id") ∧
     Gin.Get "role" c' = Some (claim cl "role")) ∨
  (∃ c', RequireAuth s now next (c, w) = ((c', w), Ret tt) ∧ Status c' = 401 ∧ IsAborted c' = true ∧
     ∀ tok cl, GetHeader "Authorization" c = "Bearer " +:+ tok → not_in " "%char tok → ValidateToken s now tok ≠ inl cl).
Proof.
  pose proof (RequireAuth_eq s now next c w) as Heq.
  pose proof (bearer_of c) as Hb.
  destruct (bearer c) as [tok|] eqn:Hbc; [destruct (ValidateToken s now tok) as [cl|e] eqn:HV|].
  - left. exists tok, cl, (with_claims cl c). split_and!; [|done|done|..].
    + by apply bearer_header.
    + unfold with_claims. rewrite !Get_Set. by repeat first [rewrite decide_True by done | rewrite decide_False by done].
    + unfold with_claims. rewrite !Get_Set. by rewrite decide_True by done.
  - right. eexists. split; [done|]. destruct (deny_response "Invalid or expired token" c Hwritten). split_and!; [done..|].
    intros tok' cl Hh Hn. specialize (Hb tok' Hh Hn). simplify_eq. by rewrite HV.
  - right. destruct Heq as [msg Heq]. eexists. split; [done|].
    destruct (deny_response msg c Hwritten). split_and!; [done..|].
    intros tok' cl Hh Hn. by specialize (Hb tok' Hh Hn).
Qed.
End gate.

(** ** From registration to access *)

Section access.
Context {C U W : Type} `{GinLaws C} `{UserStoreLaws U} `{BcryptLaws} `{JwtLaws}.
Context `{Bind C register_request} `{Bind C login_request}.

(** C13: The way into the administration is open to who registers: after
    [POST /auth/register], [POST /auth/login] with the same e-mail and password
    answers with a token, and a request that carries it passes the middleware
    until it expires, with the user's identifier and role in its context. *)
Theorem register_to_access (s : AuthService) (c1 c2 c3 : C) (q1 : register_request) (q2 : login_request)
    (salt id : string) (t1 t2 now : time) (u : U) (w : W) (next : Comp (C * W) unit)
    (Hb1 : ShouldBindJSON c1 = inl q1) (Hb2 : ShouldBindJSON c2 = inl q2)
    (Hsame : lg_Email q2 = rg_Email q1 ∧ lg_Password q2 = rg_Password q1)
    (Hid : valid_uuid id = true) (Hemail : valid_text (rg_Email q1) = true) (Hname : valid_text (rg_Name q1) = true)
    (Hlen : (String.length (rg_Password q1) <= 72)%nat) (Hfresh : users u !! id = None)
    (Hnew : ∀ k, ¬ has_email u (rg_Email q1) k) (Htimes : login_times s t1 t2)
    (Hnow : now < unix (t1 + jwtExpiry s) * second) :
  ∃ u1 u2 tok, RegisterHandler salt id (c1, u) =
      ((JSON 201 (JObj [("message", JStr "User registered successfully")]) c1, u1), Ret tt) ∧
    LoginHandler s t1 t2 (c2, u1) = ((JSON 200 (JObj [("token", JStr tok); ("type", JStr "Bearer")]) c2, u2), Ret tt) ∧
    (GetHeader "Authorization" c3 = "Bearer " +:+ tok →
     ∃ c', RequireAuth s now next (c3, w) = next (c', w) ∧ Gin.Get "user_id" c' = Some (AStr id) ∧
       Gin.Get "role" c' = Some (AStr "admin")).
Proof.
  destruct Hsame as [He Hp].
  destruct (register_login s (rg_Email q1) (rg_Password q1) (rg_Name q1) salt id t1 t2 now u Hid Hemail Hname Hlen Hfresh
    Hnew Htimes Hnow) as (u1 & u2 & tok & cl & HR & HL & _ & Hsp & HV & Hc1 & _ & Hc3).
  exists u1, u2, tok. split_and!.
  - unfold RegisterHandler. rewrite (comp_bind_step get_ctx _ (c1, u) (c1, u) c1 eq_refl). rewrite Hb1.
    by rewrite (comp_bind_step _ _ _ _ _ (on_comp_step _ c1 _ _ _ HR)).
  - unfold LoginHandler. rewrite (comp_bind_step get_ctx _ (c2, u1) (c2, u1) c2 eq_refl). rewrite Hb2, He, Hp.
    by rewrite (comp_bind_step _ _ _ _ _ (on_comp_step _ c2 _ _ _ HL)).
  - intros Hh. pose proof (RequireAuth_eq s now next c3 w) as Heq. rewrite (bearer_of c3 tok Hh Hsp), HV in Heq.
    exists (with_claims cl c3). split; [done|]. unfold with_claims, claim. rewrite !Get_Set, Hc1, Hc3.
    by repeat first [rewrite decide_True by done | rewrite decide_False by done].
Qed.
End access.

(** ** Witnesses *)

(** A table in memory. *)
Definition wf_users (m : gmap string User) : Prop :=
  map_Forall (λ id k, user_ID k = id ∧ valid_user k) m ∧
  map_Forall (λ id1 k1, map_Forall (λ id2 k2, Email k1 = Email k2 → id1 = id2) m) m.

#[local] Instance valid_user_dec (k : User) : Decision (valid_user k).
Proof. unfold valid_user. apply _. Defined.

#[local] Instance wf_users_dec (m : gmap string User) : Decision (wf_users m).
Proof. unfold wf_users. apply _. Defined.

Definition utable : Type := gmap string User.

Definition user_rows (d : utable) : gmap string User := if decide (wf_users d) then d else ∅.

Lemma user_rows_wf (d : utable) : wf_users (user_rows d).
Proof. unfold user_rows. case_decide; [done|]. split; apply map_Forall_empty. Qed.

Lemma user_rows_id (m : utable) : wf_users m → user_rows m = m.
Proof. intros Hm. unfold user_rows. by rewrite decide_True. Qed.

Definition by_email (email : string) (m : gmap string User) : User + db_error :=
  match map_to_list (filter (λ p, Email p.2 = email) m) with (_, k) :: _ => inl k | [] => inr ErrRecordNotFound end.

#[local] Instance utable_store : UserStore utable := {|
  insert_user k d :=
    if decide (map_Forall (λ _ k', Email k' ≠ Email k) (user_rows d))
    then (<[user_ID k := k]> (user_rows d), None) else (user_rows d, Some (ErrDB "duplicate key value"));
  first_by_email email d := (d, by_email email (user_rows d));
  first_user_by_id id d := (d, match user_rows d !! id with Some k => inl k | None => inr ErrRecordNotFound end);
  find_users d := (d, inl (map_to_list (user_rows d)).*2)
|}.

Lemma wf_insert_user (k : User) (m : gmap string User) :
  (∀ id k', m !! id = Some k' → Email k' ≠ Email k) → valid_user k → wf_users m → wf_users (<[user_ID k := k]> m).
Proof.
  intros Hnew Hval [HID Hh]. split.
  - intros i k' [[<- <-]|[_ Hk']]%lookup_insert_Some; [done|by apply HID].
  - intros i k1 [[<- <-]|[_ E1]]%lookup_insert_Some j k2 [[<- <-]|[_ E2]]%lookup_insert_Some Heq; [done| | |].
    + by destruct (Hnew j k2 E2).
    + by destruct (Hnew i k1 E1).
    + by apply (Hh i k1 E1 j k2 E2).
Qed.

Lemma by_email_spec (email : string) (d : utable) :
  match by_email email (user_rows d) with
  | inl k => ∃ id, user_rows d !! id = Some k ∧ Email k = email
  | inr e => e = ErrRecordNotFound ∧ ∀ id k, user_rows d !! id = Some k → Email k ≠ email
  end.
Proof.
  unfold by_email. set (m := filter _ _). destruct (map_to_list m) as [|[id k] l] eqn:Hl.
  - split; [done|]. apply map_to_list_empty_iff in Hl. intros id k Hk He.
    assert (m !! id = Some k) as E by (by apply map_lookup_filter_Some). by rewrite Hl in E.
  - assert (m !! id = Some k) as E by (apply elem_of_map_to_list; rewrite Hl; set_solver).
    apply map_lookup_filter_Some in E as [Hk He]. by exists id.
Qed.

#[local] Obligation Tactic := idtac.

#[local] Program Instance utable_laws : UserStoreLaws utable := {| users := user_rows |}.
Next Obligation. intros u id k Hk. by apply (user_rows_wf u). Qed.
Next Obligation. intros u id k Hk. by apply (proj1 (user_rows_wf u) id k Hk). Qed.
Next Obligation. intros u i j k1 k2 E1 E2 He. by apply (proj2 (user_rows_wf u) i k1 E1 j k2 E2). Qed.
Next Obligation.
  intros u k _ Hnew Hval _. exists (<[user_ID k := k]> (user_rows u)), (user_CreatedAt k).
  unfold insert_user, utable_store. rewrite decide_True by (intros i k' Hk'; by apply (Hnew i)).
  split; [done|]. rewrite user_rows_id; [by destruct k|]. apply wf_insert_user; [done|done|apply user_rows_wf].
Qed.
Next Obligation.
  intros u id k k' Hk He. exists (user_rows u), (ErrDB "duplicate key value").
  unfold insert_user, utable_store. rewrite decide_False by (intros Hall; by apply (Hall id k' Hk)).
  split; [done|]. apply user_rows_id, user_rows_wf.
Qed.
Next Obligation.
  intros u id k Hk. exists u. split; [|done]. unfold first_by_email, utable_store.
  pose proof (by_email_spec (Email k) u) as Hs. destruct (by_email (Email k) (user_rows u)) as [k'|e].
  - destruct Hs as (id' & Hk' & He). do 2 f_equal.
    pose proof (proj2 (user_rows_wf u) id k Hk id' k' Hk' (eq_sym He)). simplify_eq. congruence.
  - by destruct (proj2 Hs id k Hk).
Qed.
Next Obligation.
  intros u email _ Hnone. exists u. split; [|done]. unfold first_by_email, utable_store.
  pose proof (by_email_spec email u) as Hs. destruct (by_email email (user_rows u)) as [k'|e].
  - destruct Hs as (id' & Hk' & He). by destruct (Hnone id' k' Hk').
  - by destruct Hs as [-> _].
Qed.
Next Obligation. intros u id _. by exists u. Qed.

(** Hashes that keep passwords apart. *)
Definition plain_password (p : string) : string := pretty (Z.pos (encode (bcrypt_key p))).

#[local] Instance plain_bcrypt : Bcrypt := {|
  GenerateFromPassword salt p := if decide (72 < String.length p)%nat then inr "too long" else inl (plain_password p);
  CompareHashAndPassword h p := if decide (h = plain_password p) then None else Some "mismatch"
|}.

#[local] Instance plain_bcrypt_laws : BcryptLaws.
Proof.
  split; unfold GenerateFromPassword, CompareHashAndPassword, plain_bcrypt.
  - intros salt p Hp. exists (plain_password p). rewrite decide_False by lia.
    split; [done|]. by apply all_digits_text, pretty_digits.
  - intros salt p Hp. rewrite decide_True by done. by eexists.
  - intros salt p p' h. case_decide; [done|]. intros [= <-]. case_decide as He; (split; [|done || intros Hk]).
    + intros _. unfold plain_password in He. apply (inj pretty) in He. injection He as He. by apply (inj encode) in He.
    + done.
    + destruct He. unfold plain_password. by rewrite Hk.
Qed.

(** Tokens that are a number: the key and the claims. *)
Definition flat (cl : MapClaims) : list (string * (string + Z)) :=
  (λ '(k, a), (k, match a with AStr s => inl s | ANum n => inr n | _ => inr 0 end)) <$> map_to_list cl.

Definition unflat (l : list (string * (string + Z))) : MapClaims :=
  list_to_map ((λ '(k, x), (k, match x with inl s => AStr s | inr n => ANum n end)) <$> l).

Lemma unflat_flat (cl : MapClaims) : map_Forall (λ _, claim_ok) cl → unflat (flat cl) = cl.
Proof.
  intros Hok. unfold unflat, flat. rewrite <- list_fmap_compose. rewrite <- (list_to_map_to_list cl) at 2.
  f_equal. rewrite <- (list_fmap_id (map_to_list cl)) at 2. apply list_fmap_ext. intros i [k a] Hi. simpl.
  assert (cl !! k = Some a) as Hk by (by apply elem_of_map_to_list, list_elem_of_lookup_2 with i).
  specialize (Hok k a Hk). by destruct a.
Qed.

Definition token_text (key : string) (l : list (string * (string + Z))) : string :=
  pretty (Z.pos (encode (key, l))).

Definition token_parts (s : string) : option (string * list (string * (string + Z))) :=
  match parse_int s with Some (Z.pos p) => decode p | _ => None end.

Lemma token_parts_text (key : string) (l : list (string * (string + Z))) :
  token_parts (token_text key l) = Some (key, l).
Proof. unfold token_parts, token_text. by rewrite parse_int_pretty, decode_encode. Qed.

#[local] Instance number_jwt : Jwt := {|
  SignedString key cl := inl (token_text key (flat cl));
  Parse keyfunc now s :=
    match token_parts s with
    | None => inr "token is malformed"
    | Some (key, l) =>
        match keyfunc {| Method := "HS256"; Claims := unflat l; Valid := false |} with
        | inr e => inr e
        | inl key' =>
            if decide (key' = key ∧ claims_current now (unflat l))
            then inl {| Method := "HS256"; Claims := unflat l; Valid := true |} else inr "token is invalid"
        end
    end
|}.

#[local] Program Instance number_jwt_laws : JwtLaws := {|
  verifies alg key s cl := ∃ l, alg = "HS256" ∧ token_parts s = Some (key, l) ∧ cl = unflat l
|}.
Next Obligation. intros alg key alg' key' s cl cl' (l & -> & E & ->) (l' & -> & E' & ->). by simplify_eq. Qed.
Next Obligation.
  intros key cl Hok. exists (token_text key (flat cl)). split; [done|].
  split; [by apply all_digits_not_in, pretty_digits|]. exists (flat cl).
  by rewrite token_parts_text, unflat_flat.
Qed.
Next Obligation.
  intros kf now s alg key cl (l & -> & E & ->) Hk Hc. unfold Parse, number_jwt. by rewrite E, Hk, decide_True.
Qed.
Next Obligation.
  intros kf now s tok. unfold Parse, number_jwt. destruct (token_parts s) as [[key l]|] eqn:E; [|done].
  destruct (kf _) as [key'|] eqn:Hk; [|done]. case_decide as Hd; [|done]. destruct Hd as [-> Hc]. intros [= <-].
  split_and!; [done|done|]. exists key. split; [done|]. by exists l.
Qed.

Definition day_service : AuthService := NewAuthService "secret" 24.

Definition uid : string := "22222222-2222-2222-2222-222222222222".

Definition id_other : string := "33333333-3333-3333-3333-333333333333".

Lemma empty_emails (email : string) (k : User) : ¬ has_email (∅ : utable) email k.
Proof. intros (id & Hk & _). assert (users (∅ : utable) = ∅) as E by done. by rewrite E in Hk. Qed.

Lemma day_times : login_times day_service second second.
Proof. split; vm_compute; discriminate. Qed.

Lemma register_login_witness :
  ∃ u1 u2 tok cl, Register "a@b.c" "password" "Ann" "salt" uid (∅ : utable) = (u1, Ret None) ∧
    Login day_service "a@b.c" "password" second second u1 = (u2, Ret (tok, None)) ∧ users u2 = users u1 ∧
    not_in " "%char tok ∧ ValidateToken day_service hour tok = inl cl ∧ cl !! "user_id" = Some (AStr uid) ∧
    cl !! "email" = Some (AStr "a@b.c") ∧ cl !! "role" = Some (AStr "admin").
Proof.
  apply (register_login day_service "a@b.c" "password" "Ann" "salt" uid second second hour (∅ : utable));
    [reflexivity|reflexivity|reflexivity|simpl; lia|reflexivity|apply empty_emails|exact day_times|vm_compute; reflexivity].
Defined.


Definition ann : User := {|
  user_ID := uid; Email := "a@b.c"; PasswordHash := plain_password "password"; user_Name := "Ann"; Role := "admin";
  user_CreatedAt := zero_time |}.

Lemma ann_known : has_email ({[ uid := ann ]} : utable) "a@b.c" ann.
Proof. exists uid. split; [by vm_compute|done]. Qed.

Lemma register_unique_witness :
  (∃ u', Register "a@b.c" "other" "Bob" "salt" id_other ({[ uid := ann ]} : utable)
      = (u', Ret (Some "user with this email already exists")) ∧ users u' = users ({[ uid := ann ]} : utable)) ∧
  ∀ k', Email k' = "a@b.c" → ∃ u' e, user_Create id_other k' ({[ uid := ann ]} : utable) = (u', Ret (Some e)) ∧
    users u' = users ({[ uid := ann ]} : utable).
Proof.
  exact (register_unique "a@b.c" "other" "Bob" "salt" id_other ann ({[ uid := ann ]} : utable) eq_refl ann_known).
Defined.

Definition ann_token : string := token_text "secret" (flat (claims_of day_service ann second second)).

Lemma token_lifetime_witness :
  (∃ cl, ValidateToken day_service hour ann_token = inl cl) ↔ hour < unix (second + jwtExpiry day_service) * second.
Proof.
  apply (token_lifetime day_service "a@b.c" "password" second second hour ({[ uid := ann ]} : utable)
    ({[ uid := ann ]} : utable) ann ann_token ann_known day_times); [vm_compute; discriminate|vm_compute; reflexivity].
Defined.

Lemma require_auth_gate_witness :
  let c := new_ctx "10.0.0.7" {[ "Authorization" := "Bearer " +:+ ann_token ]} in
  let next : Comp (ctx * nat) unit := λ '(c, n), ((c, S n), Ret tt) in
  (∃ tok cl c', GetHeader "Authorization" c = "Bearer " +:+ tok ∧ ValidateToken day_service hour tok = inl cl ∧
     RequireAuth day_service hour next (c, 0%nat) = next (c', 0%nat) ∧
     Gin.Get "user_id" c' = Some (claim cl "user_id") ∧ Gin.Get "role" c' = Some (claim cl "role")) ∨
  (∃ c', RequireAuth day_service hour next (c, 0%nat) = ((c', 0%nat), Ret tt) ∧ Status c' = 401 ∧ IsAborted c' = true ∧
     ∀ tok cl, GetHeader "Authorization" c = "Bearer " +:+ tok → not_in " "%char tok →
       ValidateToken day_service hour tok ≠ inl cl).
Proof.
  intros c next. exact (require_auth_gate day_service hour next c 0%nat eq_refl).
Defined.

(** The body of a request in JSON. *)
#[local] Instance ctx_bind_register : Bind ctx register_request := λ c,
  match field "email" (x_json c), field "password" (x_json c), field "name" (x_json c) with
  | Some (JStr e), Some (JStr p), Some (JStr n) => inl {| rg_Email := e; rg_Password := p; rg_Name := n |}
  | _, _, _ => inr "invalid request"
  end.

#[local] Instance ctx_bind_login : Bind ctx login_request := λ c,
  match field "email" (x_json c), field "password" (x_json c) with
  | Some (JStr e), Some (JStr p) => inl {| lg_Email := e; lg_Password := p |}
  | _, _ => inr "invalid request"
  end.

Definition json_ctx (body : json) : ctx := {|
  x_req := ∅; x_ip := "10.0.0.7"; x_method := "POST"; x_path := "/auth"; x_params := ∅; x_query := ∅; x_json := body;
  x_keys := ∅; x_headers := ∅; x_status := 200; x_written := false; x_body := []; x_aborted := false |}.

Definition register_ctx : ctx :=
  json_ctx (JObj [("email", JStr "a@b.c"); ("password", JStr "password"); ("name", JStr "Ann")]).

Definition login_ctx : ctx := json_ctx (JObj [("email", JStr "a@b.c"); ("password", JStr "password")]).

Lemma register_to_access_witness :
  ∃ u1 u2 tok, RegisterHandler "salt" uid (register_ctx, (∅ : utable)) =
      ((JSON 201 (JObj [("message", JStr "User registered successfully")]) register_ctx, u1), Ret tt) ∧
    LoginHandler day_service second second (login_ctx, u1) =
      ((JSON 200 (JObj [("token", JStr tok); ("type", JStr "Bearer")]) login_ctx, u2), Ret tt).
Proof.
  destruct (register_to_access (C := ctx) (U := utable) (W := nat) day_service register_ctx login_ctx login_ctx
    {| rg_Email := "a@b.c"; rg_Password := "password"; rg_Name := "Ann" |}
    {| lg_Email := "a@b.c"; lg_Password := "password" |} "salt" uid second second hour ∅ 0%nat (mret tt))
    as (u1 & u2 & tok & HR & HL & _);
    [reflexivity|reflexivity|split; reflexivity|reflexivity|reflexivity|reflexivity|simpl; lia|reflexivity|
     apply empty_emails|exact day_times|vm_compute; reflexivity|].
  exists u1, u2, tok. split; [exact HR|exact HL].
Defined.
