(* ===== verification/Analytics.v ===== *)
(** * Analytics

    Models [src/internal/repository/requestLogRepository.go],
    [src/internal/service/analytics.go] and [src/internal/handler/analytics.go].

    The table of the request log is in PostgreSQL behind GORM: the class
    [LogQueries] has one operation per query, and [LogTableLaws] says what the
    queries return. *)

From stdpp Require Import sorting.
From S2P Require Import Prelude Strconv Rfc3339 Database Quote Float64 RequestLog Gin.

(** ** The queries

    Each returns a value and an error.  A cursor yields its rows one by one,
    and scanning a row may fail. *)
Class LogQueries (L : Type) := {
  insert_log : RequestLog → L → L * option db_error;
  find_range : time → time → Z → Z → L → L * (list RequestLog * option db_error);
  find_by_key : string → time → time → Z → Z → L → L * (list RequestLog * option db_error);
  find_by_status : Z → time → time → Z → Z → L → L * (list RequestLog * option db_error);
  count_range : time → time → L → L * (Z * option db_error);
  avg_range : time → time → L → L * (Z * option db_error);
  percentile_range : Z → time → time → L → L * (Z * option db_error);
  count_status : Z → Z → time → time → L → L * (Z * option db_error);
  endpoint_rows : time → time → Z → L → L * (list (string * Z + db_error) + db_error);
  hourly_rows : time → time → L → L * (list (time * Z * Z + db_error) + db_error);
  delete_before : time → L → L * (Z * option db_error)
}.

(** ** The repository *)

Section repository.
Context {L : Type} `{LogStore L} `{LogQueries L}.

Definition log_Create (log : RequestLog) : Comp L (option db_error) := query (insert_log log).

(** The statement is the one of the request logger. *)
Definition CreateBatch (logs : list RequestLog) : Comp L (option string) :=
  if decide (length logs = 0%nat) then mret None else query (insert_logs logs).

Definition FindByTimeRange (from to : time) (limit offset : Z) : Comp L (list RequestLog * option db_error) :=
  query (find_range from to limit offset).

Definition FindByAPIKey (apiKeyID : string) (from to : time) (limit offset : Z)
    : Comp L (list RequestLog * option db_error) :=
  query (find_by_key apiKeyID from to limit offset).

Definition FindByStatusCode (statusCode : Z) (from to : time) (limit offset : Z)
    : Comp L (list RequestLog * option db_error) :=
  query (find_by_status statusCode from to limit offset).

Definition CountByTimeRange (from to : time) : Comp L (Z * option db_error) := query (count_range from to).

Definition GetAverageResponseTime (from to : time) : Comp L (Z * option db_error) := query (avg_range from to).

Definition GetPercentile (from to : time) (percentile : Z) : Comp L (Z * option db_error) :=
  query (percentile_range percentile from to).

Definition CountByStatusCodeRange (minStatusCode maxStatusCode : Z) (from to : time) : Comp L (Z * option db_error) :=
  query (count_status minStatusCode maxStatusCode from to).

(** [for rows.Next() { rows.Scan(...) ... append }]. *)
Fixpoint scan_rows {A} (entry : A → gmap string any) (rows : list (A + db_error)) (results : list (gmap string any))
    : list (gmap string any) * option db_error :=
  match rows with
  | [] => (results, None)
  | inr e :: _ => ([], Some e)
  | inl a :: rows => scan_rows entry rows (results ++ [entry a])
  end.

Definition endpoint_entry : string * Z → gmap string any := λ '(path, count),
  <["path" := AStr path]> (<["count" := AInt count]> ∅).

Definition GetTopEndpoints (from to : time) (limit : Z) : Comp L (list (gmap string any) * option db_error) :=
  rows ← query (endpoint_rows from to limit);
  mret match rows with inr e => ([], Some e) | inl rows => scan_rows endpoint_entry rows [] end.

Definition hourly_entry : time * Z * Z → gmap string any := λ '(hour, count, avgResponseTime),
  <["hour" := ATime hour]> (<["count" := AInt count]> (<["avg_response_time" := AFloat avgResponseTime]> ∅)).

Definition GetHourlyStatus (from to : time) : Comp L (list (gmap string any) * option db_error) :=
  rows ← query (hourly_rows from to);
  mret match rows with inr e => ([], Some e) | inl rows => scan_rows hourly_entry rows [] end.

Definition DeleteOldLogs (before : time) : Comp L (Z * option db_error) := query (delete_before before).
End repository.

(** ** The service *)

Record AnalyticsSummary := {
  TotalRequests : Z;
  AvgResponseTime : Z;
  P50ResponseTime : Z;
  P95ResponseTime : Z;
  P99ResponseTime : Z;
  ErrorRate : Z;
  SuccessRate : Z;
  ClientErrorRate : Z;
  ServerErrorRate : Z;
  TopEndpoints : list (gmap string any)
}.

Record TimeSeriesData := { Hour : time; Count : Z; ts_AvgResponseTime : Z }.

Definition zero_summary : AnalyticsSummary := {|
  TotalRequests := 0; AvgResponseTime := 0; P50ResponseTime := 0; P95ResponseTime := 0; P99ResponseTime := 0;
  ErrorRate := 0; SuccessRate := 0; ClientErrorRate := 0; ServerErrorRate := 0; TopEndpoints := [] |}.

(** [(float64(part) / float64(total)) * 100]. *)
Definition rate (part total : Z) : Z := f64_mul (f64_div (f64_of_Z part) (f64_of_Z total)) (f64_of_Z 100).

Section service.
Context {L : Type} `{LogQueries L}.

(** The constant [n / 100] of type float64. *)
Definition hundredths (n : Z) : Z := f64_round (n * f64_scale) 100.

Definition GetSummary (from to : time) : Comp L (option AnalyticsSummary * option db_error) :=
  '(totalRequests, err) ← CountByTimeRange from to;
  or_fail err (
  if decide (totalRequests = 0) then mret (Some zero_summary, None) else
  '(avgResponseTime, err) ← GetAverageResponseTime from to;
  or_fail err (
  '(p50, _) ← GetPercentile from to (hundredths 50);
  '(p95, _) ← GetPercentile from to (hundredths 95);
  '(p99, _) ← GetPercentile from to (hundredths 99);
  '(clientErrors, err) ← CountByStatusCodeRange 400 499 from to;
  or_fail err (
  '(serverErrors, err) ← CountByStatusCodeRange 500 599 from to;
  or_fail err (
  let totalErrors := wrap64 (clientErrors + serverErrors) in
  '(topEndpoints, err) ← GetTopEndpoints from to 10;
  or_fail err (
  mret (Some {|
    TotalRequests := totalRequests; AvgResponseTime := avgResponseTime;
    P50ResponseTime := p50; P95ResponseTime := p95; P99ResponseTime := p99;
    ErrorRate := rate totalErrors totalRequests;
    SuccessRate := f64_sub (f64_of_Z 100) (rate totalErrors totalRequests);
    ClientErrorRate := rate clientErrors totalRequests;
    ServerErrorRate := rate serverErrors totalRequests;
    TopEndpoints := topEndpoints |}, None)))))).

(** [stat["hour"].(time.Time)] and so on panic on a missing entry. *)
Definition series_entry (stat : gmap string any) : go TimeSeriesData :=
  match stat !! "hour", stat !! "count", stat !! "avg_response_time" with
  | Some (ATime hour), Some (AInt count), Some (AFloat avg) =>
      Ret {| Hour := hour; Count := count; ts_AvgResponseTime := avg |}
  | _, _, _ => Panic "interface conversion"
  end.

Fixpoint series_loop (stats : list (gmap string any)) (timeSeries : list TimeSeriesData)
    : Comp L (option (list TimeSeriesData) * option db_error) :=
  match stats with
  | [] => mret (Some timeSeries, None)
  | stat :: stats =>
      match series_entry stat with
      | Panic msg => panic msg
      | Ret d => series_loop stats (timeSeries ++ [d])
      end
  end.

Definition GetTimeSeriesData (from to : time) : Comp L (option (list TimeSeriesData) * option db_error) :=
  '(hourlyStatus, err) ← GetHourlyStatus from to;
  or_fail err (series_loop hourlyStatus []).

(** The body of the loop of [GetAPIKeyStats]: the total of the response times,
    the client errors and the server errors. *)
Definition key_stat : Z * Z * Z → RequestLog → Z * Z * Z :=
  λ '(totalResponseTime, clientErrors, serverErrors) log,
    (wrap64 (totalResponseTime + ResponseTimeMs log),
     if (400 <=? StatusCode log) && (StatusCode log <=? 499) then wrap64 (clientErrors + 1) else clientErrors,
     if (500 <=? StatusCode log) && (StatusCode log <=? 599) then wrap64 (serverErrors + 1) else serverErrors).

Definition GetAPIKeyStats (apiKeyID : string) (from to : time) : Comp L (option AnalyticsSummary * option db_error) :=
  '(logs, err) ← FindByAPIKey apiKeyID from to 10000 0;
  or_fail err (
  if decide (length logs = 0%nat) then mret (Some zero_summary, None) else
  let total := Z.of_nat (length logs) in
  let '(totalResponseTime, clientErrors, serverErrors) := foldl key_stat (0, 0, 0) logs in
  let totalErrors := wrap64 (clientErrors + serverErrors) in
  mret (Some {|
    TotalRequests := total; AvgResponseTime := f64_div (f64_of_Z totalResponseTime) (f64_of_Z total);
    P50ResponseTime := 0; P95ResponseTime := 0; P99ResponseTime := 0;
    ErrorRate := rate totalErrors total;
    SuccessRate := f64_sub (f64_of_Z 100) (rate totalErrors total);
    ClientErrorRate := rate clientErrors total;
    ServerErrorRate := rate serverErrors total;
    TopEndpoints := [] |}, None)).

Definition GetLogs (from to : time) (statusCode : option Z) (limit offset : Z)
    : Comp L (option (list RequestLog) * option db_error) :=
  '(logResults, err) ← match statusCode with
                       | Some code => FindByStatusCode code from to limit offset
                       | None => FindByTimeRange from to limit offset
                       end;
  or_fail err (mret (Some logResults, None)).

(** [t.AddDate(0, 0, days)] for a time in a location: [zone] is the offset from
    UTC, in seconds, at a Unix time.  [time.Date] guesses the offset at the wall
    clock's reading and corrects it. *)
Definition add_days (zone : Z → Z) (days : Z) (t : time) : time :=
  let wall := wrap64 (unix t + zone (unix t) + days * 86400) in
  let utc := wrap64 (wall - zone (wrap64 (wall - zone wall))) in
  utc * second + t mod second.

Definition CleanupOldLogs (zone : Z → Z) (now : time) (retentionDays : Z) : Comp L (Z * option db_error) :=
  DeleteOldLogs (add_days zone (wrap64 (- retentionDays)) now).
End service.

(** ** The handlers *)

(** [time.Unix(s, 0)]: the seconds are counted from the year 1 in 64 bits. *)
Definition time_Unix (s : Z) : time := (wrap64 (s + 62135596800) - 62135596800) * second.

Definition json_list {A} (f : A → json) (l : list A) : json := JArr (f <$> l).

(** A slice that is [nil] when it has no elements. *)
Definition json_slice {A} (f : A → json) (l : list A) : json :=
  match l with [] => JNull | _ => json_list f l end.

Definition json_of_any (a : any) : json :=
  match a with
  | AStr s | AUuid s => JStr s
  | AInt n | ANum n => JInt n
  | AFloat x => JFloat x
  | ATime t => JTime t
  | _ => JNull
  end.

Definition json_of_map (m : gmap string any) : json := JObj ((λ '(k, a), (k, json_of_any a)) <$> map_to_list m).

Definition json_of_summary (s : AnalyticsSummary) : json := JObj
  [("total_requests", JInt (TotalRequests s)); ("avg_response_time_ms", JFloat (AvgResponseTime s));
   ("p50_response_time_ms", JInt (P50ResponseTime s)); ("p95_response_time_ms", JInt (P95ResponseTime s));
   ("p99_response_time_ms", JInt (P99ResponseTime s)); ("error_rate", JFloat (ErrorRate s));
   ("success_rate", JFloat (SuccessRate s)); ("client_error_rate", JFloat (ClientErrorRate s));
   ("server_error_rate", JFloat (ServerErrorRate s)); ("top_endpoints", json_slice json_of_map (TopEndpoints s))].

Definition json_of_series (d : TimeSeriesData) : json := JObj
  [("hour", JTime (Hour d)); ("count", JInt (Count d)); ("avg_response_time", JFloat (ts_AvgResponseTime d))].

Definition json_of_log (l : RequestLog) : json := JObj (
  [("id", JInt (log_ID l)); ("timestamp", JTime (Timestamp l))] ++
  match APIKeyID l with Some id => [("api_key_id", JStr id)] | None => [] end ++
  [("method", JStr (log_Method l)); ("path", JStr (log_Path l)); ("status_code", JInt (StatusCode l));
   ("response_time_ms", JInt (ResponseTimeMs l)); ("ip_address", JStr (IPAddress l));
   ("user_agent", JStr (UserAgent l))] ++
  (if decide (BackendServer l = "") then [] else [("backend_server", JStr (BackendServer l))])).

(** The text of the error of [strconv.ParseInt]. *)
Definition ParseInt_error `{Unicode} (s : string) : string :=
  "strconv.ParseInt: parsing " +:+ Quote s +:+ ": " +:+
  match parse_int s with None => "invalid syntax" | Some _ => "value out of range" end.

Section handlers.
Context {C L : Type} `{Gin C} `{LogQueries L} `{UuidParse} `{Unicode}.

(** One of the two parameters, whose default is [t]. *)
Definition parse_time (s : string) (t : time) : time + string :=
  if decide (s = "") then inl t else
  match parse_RFC3339 s with
  | Some t => inl t
  | None => let '(timestamp, ok) := Atoi s in
            if ok then inl (time_Unix timestamp) else inr (ParseInt_error s)
  end.

Definition parseTimeRange (now : time) (c : C) : time * time + string :=
  match parse_time (Query "from" c) (now - 24 * hour) with
  | inr e => inr e
  | inl from =>
      match parse_time (Query "to" c) now with
      | inr e => inr e
      | inl to => inl (from, to)
      end
  end.

(** The answer with the result of the service or its error. *)
Definition respond {A} (body : A → json) (o : option A * option db_error) : Comp (C * L) unit :=
  match o with
  | (_, Some e) => on_ctx (JSON 500 (error_body (db_text e)))
  | (o, None) => on_ctx (JSON 200 (from_option body JNull o))
  end.

Definition GetSummaryHandler (now : time) : Comp (C * L) unit :=
  c ← get_ctx;
  match parseTimeRange now c with
  | inr e => on_ctx (JSON 400 (error_body e))
  | inl (from, to) => o ← on_comp (GetSummary from to); respond json_of_summary o
  end.

Definition GetTimeSeriesHandler (now : time) : Comp (C * L) unit :=
  c ← get_ctx;
  match parseTimeRange now c with
  | inr e => on_ctx (JSON 400 (error_body e))
  | inl (from, to) => o ← on_comp (GetTimeSeriesData from to); respond (json_list json_of_series) o
  end.

Definition GetAPIKeyStatsHandler (now : time) : Comp (C * L) unit :=
  c ← get_ctx;
  match uuid_Parse (Param "id" c) with
  | None => on_ctx (JSON 400 (error_body "Invalid API key ID"))
  | Some apiKeyID =>
      match parseTimeRange now c with
      | inr e => on_ctx (JSON 400 (error_body e))
      | inl (from, to) => o ← on_comp (GetAPIKeyStats apiKeyID from to); respond json_of_summary o
      end
  end.

Definition log_limit (s : string) : Z :=
  if decide (s = "") then 100 else
  let '(l, ok) := Atoi s in if ok && (0 <? l) && (l <=? 1000) then l else 100.

Definition log_offset (s : string) : Z :=
  if decide (s = "") then 0 else
  let '(o, ok) := Atoi s in if ok && (0 <=? o) then o else 0.

Definition log_status (s : string) : option Z :=
  if decide (s = "") then None else
  let '(code, ok) := Atoi s in if (ok : bool) then Some code else None.

Definition GetLogsHandler (now : time) : Comp (C * L) unit :=
  c ← get_ctx;
  match parseTimeRange now c with
  | inr e => on_ctx (JSON 400 (error_body e))
  | inl (from, to) =>
      let limit := log_limit (Query "limit" c) in
      let offset := log_offset (Query "offset" c) in
      let statusCode := log_status (Query "status" c) in
      o ← on_comp (GetLogs from to statusCode limit offset);
      respond (λ logs, JObj [("logs", json_list json_of_log logs); ("limit", JInt limit); ("offset", JInt offset)]) o
  end.
End handlers.

(** ** What the queries return *)

Definition in_range (lo hi : time) (r : RequestLog) : Prop := lo <= Timestamp r <= hi.
Definition has_status (lo hi : Z) (r : RequestLog) : Prop := lo <= StatusCode r <= hi.

#[export] Instance in_range_dec (lo hi : time) (r : RequestLog) : Decision (in_range lo hi r).
Proof. unfold in_range. apply _. Defined.

#[export] Instance has_status_dec (lo hi : Z) (r : RequestLog) : Decision (has_status lo hi r).
Proof. unfold has_status. apply _. Defined.

(** The number of the rows for which [P] holds. *)
Definition number (P : RequestLog → Prop) `{!∀ r, Decision (P r)} (rs : list RequestLog) : Z :=
  Z.of_nat (length (filter P rs)).

(** [LIMIT] and [OFFSET]. *)
Definition page {A} (limit offset : Z) (rs : list A) : list A := take (Z.to_nat limit) (drop (Z.to_nat offset) rs).

Lemma page_length {A} (limit offset : Z) (rs : list A) :
  length (page limit offset rs) = Nat.min (Z.to_nat limit) (length rs - Z.to_nat offset).
Proof. unfold page. by rewrite length_take, length_drop. Qed.

Lemma page_subset {A} (limit offset : Z) (rs : list A) (x : A) : x ∈ page limit offset rs → x ∈ rs.
Proof.
  intros Hx. apply (subseteq_drop (Z.to_nat offset)). by apply (subseteq_take (Z.to_nat limit)).
Qed.

Lemma page_split {A} (n : nat) (limit offset : Z) (rs : list A) :
  0 <= limit → 0 <= offset →
  page (Z.of_nat (S n) * limit) offset rs = page limit offset rs ++ page (Z.of_nat n * limit) (offset + limit) rs.
Proof.
  intros Hl Ho. unfold page. replace (Z.to_nat (offset + limit)) with (Z.to_nat offset + Z.to_nat limit)%nat by lia.
  rewrite <- drop_drop, take_take_drop. f_equal. lia.
Qed.

Definition newest_first : list RequestLog → Prop := StronglySorted (λ a b, Timestamp b <= Timestamp a).

(** [GROUP BY path ORDER BY count DESC] of the rows [rs]. *)
Definition endpoint_groups (rs : list RequestLog) (g : list (string * Z)) : Prop :=
  NoDup g.*1 ∧ (∀ p n, (p, n) ∈ g ↔ n = number (λ r, log_Path r = p) rs ∧ 0 < n) ∧
  StronglySorted (λ a b, b.2 <= a.2) g.

(** [GROUP BY hour ORDER BY hour ASC], for the beginning of an hour [trunc]. *)
Definition hour_groups (trunc : time → time) (rs : list RequestLog) (g : list (time * Z * Z)) : Prop :=
  (∀ h n, (∃ x, (h, n, x) ∈ g) ↔ n = number (λ r, trunc (Timestamp r) = h) rs ∧ 0 < n) ∧
  StronglySorted (λ a b, a.1.1 < b.1.1) g.

(** An entry as it is stored: with an identifier, its time at the precision of
    the database. *)
Definition stored_as (prec : time → time) (r e : RequestLog) : Prop :=
  Timestamp r = prec (Timestamp e) ∧ APIKeyID r = APIKeyID e ∧ log_Method r = log_Method e ∧ log_Path r = log_Path e ∧
  StatusCode r = StatusCode e ∧ ResponseTimeMs r = ResponseTimeMs e ∧ IPAddress r = IPAddress e ∧
  UserAgent r = UserAgent e ∧ BackendServer r = BackendServer e.

(** A database without failures.  [log_rows] are the rows of the table.  Times
    have its precision, of a microsecond; [date_trunc] depends on its time zone.
    The average of no rows is NULL, which cannot be scanned; a percentile may
    not be a whole number, which cannot be scanned either. *)
Class LogTableLaws (L : Type) `{LogStoreLaws L} `{LogQueries L} := {
  log_rows : L → list RequestLog;
  db_time : time → time;
  trunc_hour : time → time;
  db_time_mono t u : t <= u → db_time t <= db_time u;
  db_time_near t : Z.abs (db_time t - t) < 1000;
  log_rows_stored l : Forall2 (stored_as db_time) (log_rows l) (stored l);
  find_range_ok l from to limit offset :
    valid_time from → valid_time to → 0 < limit → 0 <= offset →
    ∃ l' rs, find_range from to limit offset l = (l', (page limit offset rs, None)) ∧ log_rows l' = log_rows l ∧
      rs ≡ₚ filter (in_range (db_time from) (db_time to)) (log_rows l) ∧ newest_first rs;
  find_by_key_ok l id from to limit offset :
    valid_uuid id = true → valid_time from → valid_time to → 0 < limit → 0 <= offset →
    ∃ l' rs, find_by_key id from to limit offset l = (l', (page limit offset rs, None)) ∧ log_rows l' = log_rows l ∧
      rs ≡ₚ filter (λ r, APIKeyID r = Some id) (filter (in_range (db_time from) (db_time to)) (log_rows l)) ∧
      newest_first rs;
  find_by_status_ok l code from to limit offset :
    -2147483648 <= code <= 2147483647 → valid_time from → valid_time to → 0 < limit → 0 <= offset →
    ∃ l' rs, find_by_status code from to limit offset l = (l', (page limit offset rs, None)) ∧
      log_rows l' = log_rows l ∧
      rs ≡ₚ filter (has_status code code) (filter (in_range (db_time from) (db_time to)) (log_rows l));
  count_range_ok l from to :
    valid_time from → valid_time to →
    ∃ l', count_range from to l = (l', (number (in_range (db_time from) (db_time to)) (log_rows l), None)) ∧
      log_rows l' = log_rows l;
  avg_range_ok l from to :
    valid_time from → valid_time to → filter (in_range (db_time from) (db_time to)) (log_rows l) ≠ [] →
    ∃ l' x, avg_range from to l = (l', (x, None)) ∧ log_rows l' = log_rows l;
  percentile_range_rows l p from to : log_rows (percentile_range p from to l).1 = log_rows l;
  count_status_ok l lo hi from to :
    valid_time from → valid_time to →
    ∃ l', count_status lo hi from to l =
      (l', (number (has_status lo hi) (filter (in_range (db_time from) (db_time to)) (log_rows l)), None)) ∧
      log_rows l' = log_rows l;
  endpoint_rows_ok l from to limit :
    valid_time from → valid_time to → 0 < limit →
    ∃ l' g, endpoint_rows from to limit l = (l', inl (inl <$> take (Z.to_nat limit) g)) ∧
      log_rows l' = log_rows l ∧ endpoint_groups (filter (in_range (db_time from) (db_time to)) (log_rows l)) g;
  hourly_rows_ok l from to :
    valid_time from → valid_time to →
    ∃ l' g, hourly_rows from to l = (l', inl (inl <$> g)) ∧ log_rows l' = log_rows l ∧
      hour_groups trunc_hour (filter (in_range (db_time from) (db_time to)) (log_rows l)) g;
  delete_before_ok l t :
    valid_time t →
    ∃ l', delete_before t l = (l', (number (λ r, Timestamp r < db_time t) (log_rows l), None)) ∧
      log_rows l' = filter (λ r, ¬ Timestamp r < db_time t) (log_rows l)
}.

(** ** Rates *)

Lemma f64_100 : f64_of_Z 100 = 100 * f64_scale.
Proof. by apply f64_of_Z_exact. Qed.

Lemma f64_of_Z_pos (n : Z) : 1 <= n → f64_scale <= f64_of_Z n.
Proof. intros Hn. apply f64_of_Z_mono in Hn. rewrite (f64_of_Z_exact 1), Z.mul_1_l in Hn by done. exact Hn. Qed.

Lemma rate_0 (n : Z) : 1 <= n → rate 0 n = 0.
Proof.
  intros Hn. unfold rate. pose proof (f64_of_Z_pos n Hn). pose proof f64_scale_pos.
  rewrite f64_of_Z_exact by done. unfold f64_div. rewrite (proj2 (Z.ltb_ge _ _)) by lia.
  rewrite !Z.mul_0_l. change 0 with (0 * f64_of_Z n) at 1. rewrite f64_round_exact by (apply f64_0 || lia).
  apply f64_mul_0_l.
Qed.

Lemma rate_mono (a b n : Z) : 1 <= n → a <= b → rate a n <= rate b n.
Proof.
  intros Hn Hab. pose proof (f64_of_Z_pos n Hn). pose proof f64_scale_pos. pose proof (f64_of_Z_mono a b Hab).
  unfold rate. rewrite f64_100. unfold f64_mul. apply f64_round_mono; [done..|].
  apply Z.mul_le_mono_nonneg_r; [lia|]. apply Z.mul_le_mono_nonneg_r; [lia|].
  unfold f64_div. rewrite (proj2 (Z.ltb_ge _ _)) by lia. apply f64_round_mono; [lia..|].
  apply Z.mul_le_mono_nonneg_r; [lia|]. apply Z.mul_le_mono_nonneg_r; lia.
Qed.

Lemma rate_n (n : Z) : 1 <= n → rate n n = f64_of_Z 100.
Proof.
  intros Hn. pose proof (f64_of_Z_pos n Hn). pose proof f64_scale_pos. unfold rate, f64_div.
  rewrite (proj2 (Z.ltb_ge _ _)) by lia. rewrite (Z.mul_comm (f64_of_Z n)), f64_round_exact; [|lia|].
  - unfold f64_mul. rewrite (Z.mul_comm f64_scale). apply f64_round_exact; [done|apply f64_of_Z_f64].
  - rewrite f64_scale_eq. by apply f64_pow.
Qed.

Lemma rate_pos (a n : Z) : 1 <= a → 1 <= n <= max_int64 → 0 < rate a n.
Proof.
  intros Ha [Hn Hmax]. eapply Z.lt_le_trans; [|apply (rate_mono 1 a); lia].
  pose proof (f64_of_Z_pos n Hn). pose proof f64_scale_pos. unfold rate. rewrite f64_100.
  assert (f64_of_Z n <= 2 ^ 63 * f64_scale) as Hu.
  { unfold f64_of_Z. apply f64_round_le; [done| |unfold max_int64 in Hmax; nia].
    rewrite f64_scale_eq, <- Z.pow_add_r by lia. by apply f64_pow. }
  assert (2 ^ 1011 <= f64_div (f64_of_Z 1) (f64_of_Z n)) as Hd.
  { unfold f64_div. rewrite (proj2 (Z.ltb_ge _ _)) by lia. apply f64_round_ge; [lia|by apply f64_pow|].
    rewrite (f64_of_Z_exact 1), Z.mul_1_l by done.
    transitivity (2 ^ 1011 * (2 ^ 63 * f64_scale)); [apply Z.mul_le_mono_nonneg_l; lia|].
    rewrite Z.mul_assoc, <- Z.pow_add_r by lia. by rewrite f64_scale_eq. }
  apply Z.lt_le_trans with (2 ^ 1011); [lia|]. unfold f64_mul.
  apply f64_round_ge; [done|by apply f64_pow|]. nia.
Qed.

#[local] Opaque f64_scale f64_of_Z f64_sub rate hundredths.

(** ** Counting *)

Lemma number_nonneg (P : RequestLog → Prop) `{!∀ r, Decision (P r)} (rs : list RequestLog) : 0 <= number P rs.
Proof. unfold number. lia. Qed.

Lemma number_cons (P : RequestLog → Prop) `{!∀ r, Decision (P r)} (r : RequestLog) (rs : list RequestLog) :
  number P (r :: rs) = (if decide (P r) then 1 else 0) + number P rs.
Proof. unfold number. rewrite filter_cons. case_decide; simpl; lia. Qed.

Lemma number_perm (P : RequestLog → Prop) `{!∀ r, Decision (P r)} (rs rs' : list RequestLog) :
  rs ≡ₚ rs' → number P rs = number P rs'.
Proof. intros Hp. unfold number. by rewrite Hp. Qed.



Lemma number_0 (P : RequestLog → Prop) `{!∀ r, Decision (P r)} (rs : list RequestLog) :
  number P rs = 0 ↔ ∀ r, r ∈ rs → ¬ P r.
Proof.
  induction rs as [|r rs IH]; [set_solver|]. pose proof (number_nonneg P rs).
  rewrite number_cons. setoid_rewrite elem_of_cons. case_decide; [|naive_solver].
  split; [lia|]. intros Hno. exfalso. by apply (Hno r); [left|].
Qed.

Abbreviation client_error := (has_status 400 499).
Abbreviation server_error := (has_status 500 599).

Lemma errors_bound (rs : list RequestLog) :
  number client_error rs + number server_error rs <= Z.of_nat (length rs).
Proof.
  induction rs as [|r rs IH]; [done|]. rewrite !number_cons. simpl.
  unfold has_status in *. repeat case_decide; lia.
Qed.

(** The numbers of a summary [s] are those of the requests [rs]. *)
Definition summarizes (rs : list RequestLog) (s : AnalyticsSummary) : Prop :=
  let n := Z.of_nat (length rs) in
  TotalRequests s = n ∧ (n = 0 → s = zero_summary) ∧
  (n ≠ 0 → ErrorRate s = rate (number client_error rs + number server_error rs) n ∧
           SuccessRate s = f64_sub (f64_of_Z 100) (ErrorRate s) ∧
           ClientErrorRate s = rate (number client_error rs) n ∧
           ServerErrorRate s = rate (number server_error rs) n).

Lemma summarizes_perm (rs rs' : list RequestLog) (s : AnalyticsSummary) :
  rs ≡ₚ rs' → summarizes rs s → summarizes rs' s.
Proof. intros Hp. unfold summarizes.
  by rewrite (Permutation_length Hp), (number_perm client_error _ _ Hp), (number_perm server_error _ _ Hp). Qed.

Lemma summarizes_nil : summarizes [] zero_summary.
Proof. split; [done|]. split; [done|]. intros Hn. by destruct Hn. Qed.

(** The rates are percentages. *)
Lemma summarizes_bounds (rs : list RequestLog) (s : AnalyticsSummary) :
  Z.of_nat (length rs) <= max_int64 → summarizes rs s →
  (0 <= ClientErrorRate s <= ErrorRate s) ∧ (0 <= ServerErrorRate s <= ErrorRate s) ∧
  ErrorRate s <= f64_of_Z 100 ∧ 0 <= SuccessRate s <= f64_of_Z 100 ∧
  (ErrorRate s = 0 ↔ ∀ r, r ∈ rs → ¬ client_error r ∧ ¬ server_error r).
Proof.
  intros Hmax (Hn & H0 & Hr). pose proof (errors_bound rs) as Hb.
  pose proof (number_nonneg client_error rs). pose proof (number_nonneg server_error rs).
  destruct (decide (Z.of_nat (length rs) = 0)) as [E|Hne].
  - rewrite H0 by done. assert (rs = []) as -> by (apply length_zero_iff_nil; lia).
    pose proof (f64_of_Z_nonneg 100 ltac:(lia)). simpl. split_and!; [lia..|split; [|done]].
    intros _ r Hr'. by apply elem_of_nil in Hr'.
  - destruct (Hr Hne) as (He & Hs & -> & ->). rewrite Hs, He. set (n := Z.of_nat (length rs)) in *.
    pose proof (rate_0 n ltac:(lia)) as R0. pose proof (rate_n n ltac:(lia)) as Rn.
    pose proof (rate_mono 0 (number client_error rs) n). pose proof (rate_mono 0 (number server_error rs) n).
    pose proof (rate_mono (number client_error rs) (number client_error rs + number server_error rs) n).
    pose proof (rate_mono (number server_error rs) (number client_error rs + number server_error rs) n).
    pose proof (rate_mono (number client_error rs + number server_error rs) n n).
    split_and!; [lia..|apply f64_sub_nonneg; lia|apply f64_sub_le; [apply f64_of_Z_f64|lia]|].
    transitivity (number client_error rs = 0 ∧ number server_error rs = 0).
    + split; [|intros [-> ->]; done]. intros Hz.
      pose proof (rate_pos (number client_error rs + number server_error rs) n). lia.
    + rewrite !number_0. split; [intros [??] r Hr'; auto|]. intros Hall. split; intros r Hr'; apply (Hall r Hr').
Qed.

(** ** The service against the table *)

Ltac run_query H := rewrite (comp_bind_step _ _ _ _ _ (query_step _ _ _ _ H)); cbv beta iota; simpl or_fail.

Lemma scan_rows_ok {A} (f : A → gmap string any) (xs : list A) (acc : list (gmap string any)) :
  scan_rows f (inl <$> xs) acc = (acc ++ (f <$> xs), None).
Proof.
  revert acc. induction xs as [|x xs IH]; intros acc; simpl; [by rewrite app_nil_r|].
  by rewrite IH, <- app_assoc.
Qed.

Lemma endpoint_groups_nil : endpoint_groups [] [].
Proof.
  split_and!; [constructor| |constructor]. intros p n. rewrite elem_of_nil. split; [done|]. intros [-> Hn]. done.
Qed.

(** The first of the groups are the largest ones. *)
Lemma top_groups (k : nat) (rs : list RequestLog) (g : list (string * Z)) :
  endpoint_groups rs g →
  NoDup (take k g).*1 ∧ StronglySorted (λ a b, b.2 <= a.2) (take k g) ∧
  (∀ p n, (p, n) ∈ take k g → n = number (λ r, log_Path r = p) rs) ∧
  (∀ p q n, p ∉ (take k g).*1 → (q, n) ∈ take k g → number (λ r, log_Path r = p) rs <= n) ∧
  ((length (take k g) < k)%nat → ∀ r, r ∈ rs → log_Path r ∈ (take k g).*1).
Proof.
  intros (Hnd & Hg & Hs). rewrite <- (take_drop k g) in Hnd, Hs. rewrite fmap_app in Hnd.
  apply NoDup_app in Hnd as (Hnd & _ & _).
  assert (∀ p n, (p, n) ∈ take k g → (p, n) ∈ g) as Htake.
  { intros p n Hin. rewrite <- (take_drop k g). apply elem_of_app. by left. }
  assert (∀ p, p ∉ (take k g).*1 → 0 < number (λ r, log_Path r = p) rs →
    (p, number (λ r, log_Path r = p) rs) ∈ drop k g) as Hdrop.
  { intros p Hp Hpos. assert ((p, number (λ r, log_Path r = p) rs) ∈ g) as Hin by (by apply Hg).
    rewrite <- (take_drop k g) in Hin. apply elem_of_app in Hin as [Hin|]; [|done].
    destruct Hp. apply list_elem_of_fmap. by eexists (_, _). }
  split_and!; [done|by apply StronglySorted_app_1_l in Hs|..].
  - intros p n Hin. by apply Hg, Htake.
  - intros p q n Hp Hq. destruct (decide (0 < number (λ r, log_Path r = p) rs)) as [Hpos|].
    + exact (StronglySorted_app_1_elem_of _ _ _ _ _ Hs Hq (Hdrop p Hp Hpos)).
    + apply Htake, Hg in Hq. lia.
  - rewrite length_take. intros Hlen r Hr. destruct (decide (log_Path r ∈ (take k g).*1)) as [|Hn]; [done|].
    specialize (Hdrop _ Hn). rewrite drop_ge, elem_of_nil in Hdrop by lia.
    pose proof (number_nonneg (λ r', log_Path r' = log_Path r) rs).
    assert (number (λ r', log_Path r' = log_Path r) rs = 0) as Hz by lia.
    rewrite number_0 in Hz. by destruct (Hz r Hr).
Qed.

Section service_laws.
Context {L : Type} `{LogTableLaws L}.

(** The requests of the log between two times. *)
Definition requests (from to : time) (l : L) : list RequestLog :=
  filter (in_range (db_time from) (db_time to)) (log_rows l).

Lemma GetTopEndpoints_ok (from to : time) (limit : Z) (l : L) :
  valid_time from → valid_time to → 0 < limit →
  ∃ l' g, GetTopEndpoints from to limit l = (l', Ret (endpoint_entry <$> take (Z.to_nat limit) g, None)) ∧
    log_rows l' = log_rows l ∧ endpoint_groups (requests from to l) g.
Proof.
  intros Hf Ht Hl. destruct (endpoint_rows_ok l from to limit Hf Ht Hl) as (l' & g & Hq & Hr & Hg).
  exists l', g. unfold GetTopEndpoints. run_query Hq. by rewrite scan_rows_ok.
Qed.

Lemma GetSummary_ok (from to : time) (l : L) :
  valid_time from → valid_time to → Z.of_nat (length (requests from to l)) <= max_int64 →
  ∃ l' s, GetSummary from to l = (l', Ret (Some s, None)) ∧ log_rows l' = log_rows l ∧
    summarizes (requests from to l) s ∧
    ∃ g, endpoint_groups (requests from to l) g ∧ TopEndpoints s = endpoint_entry <$> take 10 g.
Proof.
  intros Hf Ht Hmax. destruct (count_range_ok l from to Hf Ht) as (l1 & Hq1 & Hr1). unfold GetSummary.
  run_query Hq1. unfold number. fold (requests from to l). case_decide as Hn.
  { exists l1, zero_summary. assert (requests from to l = []) as -> by (apply length_zero_iff_nil; lia).
    split; [done|]. split; [done|]. split; [apply summarizes_nil|]. exists []. split; [apply endpoint_groups_nil|done]. }
  destruct (avg_range_ok l1 from to Hf Ht) as (l2 & x & Hq2 & Hr2).
  { rewrite Hr1. fold (requests from to l). intros E. by rewrite E in Hn. }
  run_query Hq2.
  pose proof (percentile_range_rows l2 (hundredths 50) from to) as Hr3.
  destruct (percentile_range (hundredths 50) from to l2) as [l3 [p50 e50]] eqn:Hq3. run_query Hq3.
  pose proof (percentile_range_rows l3 (hundredths 95) from to) as Hr4.
  destruct (percentile_range (hundredths 95) from to l3) as [l4 [p95 e95]] eqn:Hq4. run_query Hq4.
  pose proof (percentile_range_rows l4 (hundredths 99) from to) as Hr5.
  destruct (percentile_range (hundredths 99) from to l4) as [l5 [p99 e99]] eqn:Hq5. run_query Hq5.
  simpl in Hr3, Hr4, Hr5.
  destruct (count_status_ok l5 400 499 from to Hf Ht) as (l6 & Hq6 & Hr6). run_query Hq6.
  destruct (count_status_ok l6 500 599 from to Hf Ht) as (l7 & Hq7 & Hr7). run_query Hq7.
  destruct (GetTopEndpoints_ok from to 10 l7 Hf Ht) as (l8 & g & Hq8 & Hr8 & Hg); [done|].
  rewrite (comp_bind_step _ _ _ _ _ Hq8). cbv beta iota. simpl or_fail.
  assert (log_rows l7 = log_rows l) as E by congruence.
  replace (log_rows l5) with (log_rows l) in * by congruence. replace (log_rows l6) with (log_rows l) in * by congruence.
  unfold requests in Hg. rewrite E in *. fold (requests from to l) in *.
  eexists l8, _. split_and!; [reflexivity|congruence| |by exists g].
  pose proof (errors_bound (requests from to l)).
  pose proof (number_nonneg client_error (requests from to l)). pose proof (number_nonneg server_error (requests from to l)).
  split_and!; simpl; [done|lia|]. intros _.
  rewrite wrap64_id by (unfold in_int64, min_int64; lia). split_and!; reflexivity.
Qed.

(** The loop of [GetAPIKeyStats] counts. *)
Definition total_time (rs : list RequestLog) : Z := foldr (λ r n, ResponseTimeMs r + n) 0 rs.

Lemma key_stat_fold (rs : list RequestLog) (t c v : Z) :
  0 <= c → 0 <= v → Z.of_nat (length rs) + c + v <= max_int64 →
  foldl key_stat (wrap64 t, c, v) rs = (wrap64 (t + total_time rs), c + number client_error rs, v + number server_error rs).
Proof.
  revert t c v. induction rs as [|r rs IH]; intros t c v Hc Hv Hmax; simpl.
  - unfold number. simpl. by rewrite !Z.add_0_r.
  - rewrite wrap64_add_l. rewrite !number_cons. simpl in Hmax.
    assert ((if (400 <=? StatusCode r) && (StatusCode r <=? 499) then wrap64 (c + 1) else c) =
      c + (if decide (client_error r) then 1 else 0)) as ->.
    { unfold has_status. rewrite wrap64_id by (unfold in_int64, min_int64; lia).
      destruct (Z.leb_spec 400 (StatusCode r)), (Z.leb_spec (StatusCode r) 499); simpl; case_decide; lia. }
    assert ((if (500 <=? StatusCode r) && (StatusCode r <=? 599) then wrap64 (v + 1) else v) =
      v + (if decide (server_error r) then 1 else 0)) as ->.
    { unfold has_status. rewrite wrap64_id by (unfold in_int64, min_int64; lia).
      destruct (Z.leb_spec 500 (StatusCode r)), (Z.leb_spec (StatusCode r) 599); simpl; case_decide; lia. }
    rewrite IH; [f_equal; [f_equal; [f_equal; lia|lia]|lia]|..]; unfold has_status; repeat case_decide; lia.
Qed.

Lemma GetAPIKeyStats_ok (id : string) (from to : time) (l : L) :
  valid_uuid id = true → valid_time from → valid_time to →
  ∃ l' s rs, GetAPIKeyStats id from to l = (l', Ret (Some s, None)) ∧ log_rows l' = log_rows l ∧
    rs ≡ₚ filter (λ r, APIKeyID r = Some id) (requests from to l) ∧ newest_first rs ∧
    summarizes (page 10000 0 rs) s ∧
    (rs ≠ [] → AvgResponseTime s =
       f64_div (f64_of_Z (wrap64 (total_time (page 10000 0 rs)))) (f64_of_Z (TotalRequests s))) ∧
    P50ResponseTime s = 0 ∧ P95ResponseTime s = 0 ∧ P99ResponseTime s = 0 ∧ TopEndpoints s = [].
Proof.
  intros Hid Hf Ht. destruct (find_by_key_ok l id from to 10000 0) as (l1 & rs & Hq & Hr & Hp & Hs); [done..|].
  unfold GetAPIKeyStats. run_query Hq. pose proof (page_length 10000 0 rs) as Hlen.
  pose proof (errors_bound (page 10000 0 rs)). remember (page 10000 0 rs) as k eqn:Ek. case_decide as Hk.
  - exists l1, zero_summary, rs. assert (k = []) as -> by (by apply length_zero_iff_nil).
    split; [done|]. split; [done|]. split; [done|]. split; [done|].
    split; [rewrite <- Ek; apply summarizes_nil|]. split; [|done].
    intros Hne. destruct rs; [done|]. rewrite length_cons in Hlen. lia.
  - pose proof (number_nonneg client_error k). pose proof (number_nonneg server_error k).
    change (0, 0, 0) with (wrap64 0, 0, 0). rewrite key_stat_fold by (unfold max_int64; lia). rewrite !Z.add_0_l.
    eexists l1, _, rs. rewrite <- Ek. split_and!; [reflexivity|done..| |done|done|done|done|done].
    split_and!; simpl; [done|lia|]. intros _.
    rewrite wrap64_id by (unfold in_int64, min_int64, max_int64; lia). split_and!; reflexivity.
Qed.

(** The hours of [GetTimeSeriesData]. *)
Definition series_of : time * Z * Z → TimeSeriesData := λ '(hour, count, avg),
  {| Hour := hour; Count := count; ts_AvgResponseTime := avg |}.

Lemma series_loop_ok (g : list (time * Z * Z)) (acc : list TimeSeriesData) (l : L) :
  series_loop (hourly_entry <$> g) acc l = (l, Ret (Some (acc ++ (series_of <$> g)), None)).
Proof.
  revert acc. induction g as [|[[h n] x] g IH]; intros acc; simpl; [by rewrite app_nil_r|].
  assert (series_entry (hourly_entry (h, n, x)) = Ret (series_of (h, n, x))) as E.
  { unfold series_entry, hourly_entry. by simplify_map_eq. }
  simpl in E. rewrite E, IH, <- app_assoc. done.
Qed.

Lemma GetTimeSeriesData_ok (from to : time) (l : L) :
  valid_time from → valid_time to →
  ∃ l' g, GetTimeSeriesData from to l = (l', Ret (Some (series_of <$> g), None)) ∧ log_rows l' = log_rows l ∧
    hour_groups trunc_hour (requests from to l) g.
Proof.
  intros Hf Ht. destruct (hourly_rows_ok l from to Hf Ht) as (l' & g & Hq & Hr & Hg). exists l', g.
  assert (GetHourlyStatus from to l = (l', Ret (hourly_entry <$> g, None))) as Hh.
  { unfold GetHourlyStatus. run_query Hq. by rewrite scan_rows_ok. }
  unfold GetTimeSeriesData. rewrite (comp_bind_step _ _ _ _ _ Hh). cbv beta iota. simpl or_fail.
  by rewrite series_loop_ok.
Qed.
End service_laws.

(** ** Groups *)

Fixpoint sum_over {A} (f : A → Z) (l : list A) : Z :=
  match l with [] => 0 | x :: l => f x + sum_over f l end.

Lemma sum_over_add {A} (f g : A → Z) (l : list A) : sum_over (λ x, f x + g x) l = sum_over f l + sum_over g l.
Proof. induction l as [|x l IH]; simpl; lia. Qed.

Lemma sum_over_ext {A} (f g : A → Z) (l : list A) : (∀ x, x ∈ l → f x = g x) → sum_over f l = sum_over g l.
Proof. induction l as [|x l IH]; intros E; simpl; [done|]. rewrite E, IH by set_solver. done. Qed.

Lemma sum_over_fmap {A B} (f : B → Z) (g : A → B) (l : list A) : sum_over f (g <$> l) = sum_over (λ x, f (g x)) l.
Proof. induction l as [|x l IH]; csimpl; [done|]. by rewrite IH. Qed.

Lemma sum_over_indicator (hs : list time) (x : time) :
  NoDup hs → sum_over (λ h, if decide (x = h) then 1 else 0) hs = if decide (x ∈ hs) then 1 else 0.
Proof.
  induction 1 as [|h hs Hh Hnd IH]; simpl; [done|]. rewrite IH.
  destruct (decide (x = h)) as [->|Hne].
  - by rewrite (decide_False (P := h ∈ hs)), decide_True by set_solver.
  - apply decide_ext. set_solver.
Qed.

Lemma groups_sum (f : RequestLog → time) (hs : list time) (rs : list RequestLog) :
  NoDup hs → (∀ r, r ∈ rs → f r ∈ hs) → sum_over (λ h, number (λ r, f r = h) rs) hs = Z.of_nat (length rs).
Proof.
  intros Hnd. induction rs as [|r rs IH]; intros Hin; simpl.
  - clear. induction hs as [|h hs IH]; [done|]. simpl. by rewrite IH.
  - rewrite (sum_over_ext _ (λ h, (if decide (f r = h) then 1 else 0) + number (λ r, f r = h) rs)).
    + rewrite sum_over_add, sum_over_indicator, decide_True, IH; [lia|set_solver..|done].
    + intros h _. apply number_cons.
Qed.

Lemma hours_NoDup (g : list (time * Z * Z)) :
  StronglySorted (λ a b, a.1.1 < b.1.1) g → NoDup (g.*1).*1.
Proof.
  induction 1 as [|a g Hs IH Hall]; [constructor|]. simpl. constructor; [|done].
  rewrite !list_elem_of_fmap. intros ([h n] & E & ([[h' n'] x] & E' & Hin)%list_elem_of_fmap).
  rewrite Forall_forall in Hall. specialize (Hall _ Hin). simplify_eq/=. lia.
Qed.

Lemma hour_groups_sum (trunc : time → time) (rs : list RequestLog) (g : list (time * Z * Z)) :
  hour_groups trunc rs g → sum_over Count (series_of <$> g) = Z.of_nat (length rs).
Proof.
  intros [Hg Hs]. rewrite <- (groups_sum (λ r, trunc (Timestamp r)) (g.*1).*1 rs); [|by apply hours_NoDup|].
  - rewrite !sum_over_fmap. apply sum_over_ext. intros [[h n] x] Hi. simpl.
    apply (Hg h n). by exists x.
  - intros r Hr. set (h := trunc (Timestamp r)).
    destruct (proj2 (Hg h (number (λ r, trunc (Timestamp r) = h) rs))) as [x Hx].
    + split; [done|]. pose proof (number_nonneg (λ r, trunc (Timestamp r) = h) rs).
      destruct (decide (number (λ r, trunc (Timestamp r) = h) rs = 0)) as [E|]; [|lia].
      rewrite number_0 in E. by destruct (E r Hr).
    + rewrite !list_elem_of_fmap. exists (h, number (λ r, trunc (Timestamp r) = h) rs). split; [done|].
      apply list_elem_of_fmap. by exists (h, number (λ r, trunc (Timestamp r) = h) rs, x).
Qed.

(** ** Pages *)

Section pages.
Context {L : Type} `{LogTableLaws L}.

Lemma FindByTimeRange_ok (from to : time) (limit offset : Z) (l : L) :
  valid_time from → valid_time to → 0 < limit → 0 <= offset →
  ∃ l' rs, GetLogs from to None limit offset l = (l', Ret (Some (page limit offset rs), None)) ∧
    log_rows l' = log_rows l ∧ rs ≡ₚ requests from to l ∧ newest_first rs.
Proof.
  intros Hf Ht Hl Ho. destruct (find_range_ok l from to limit offset Hf Ht Hl Ho) as (l' & rs & Hq & Hr & Hp & Hs).
  exists l', rs. unfold GetLogs, FindByTimeRange. run_query Hq. done.
Qed.

(** What [GetLogs] returns, with a status or without. *)
Lemma GetLogs_ok (from to : time) (status : option Z) (limit offset : Z) (l : L) :
  valid_time from → valid_time to → from_option (λ code, -2147483648 <= code <= 2147483647) True status →
  0 < limit → 0 <= offset →
  ∃ l' logs, GetLogs from to status limit offset l = (l', Ret (Some logs, None)) ∧ log_rows l' = log_rows l ∧
    Z.of_nat (length logs) <= limit ∧
    ∀ r, r ∈ logs → r ∈ requests from to l ∧ from_option (λ code, StatusCode r = code) True status.
Proof.
  intros Hf Ht Hc Hl Ho. destruct status as [code|].
  - destruct (find_by_status_ok l code from to limit offset Hc Hf Ht Hl Ho) as (l' & rs & Hq & Hr & Hp).
    exists l', (page limit offset rs). unfold GetLogs, FindByStatusCode. run_query Hq.
    split_and!; [done|done|rewrite page_length; lia|]. intros r Hr'%page_subset. rewrite Hp in Hr'.
    apply list_elem_of_filter in Hr' as [Hs Hin]. split; [done|]. unfold has_status in Hs. simpl. lia.
  - destruct (FindByTimeRange_ok from to limit offset l Hf Ht Hl Ho) as (l' & rs & Hq & Hr & Hp & _).
    exists l', (page limit offset rs). split_and!; [done|done|rewrite page_length; lia|].
    intros r Hr'%page_subset. by rewrite Hp in Hr'.
Qed.

(** A client that reads [n] pages, one after the other. *)
Fixpoint read_pages (n : nat) (from to : time) (limit offset : Z) : Comp L (list RequestLog) :=
  match n with
  | O => mret []
  | S n => '(o, _) ← GetLogs from to None limit offset;
           rest ← read_pages n from to limit (offset + limit);
           mret (default [] o ++ rest)
  end.

Lemma newest_first_unique (rs rs' : list RequestLog) :
  NoDup (Timestamp <$> rs) → newest_first rs → newest_first rs' → rs ≡ₚ rs' → rs = rs'.
Proof.
  intros Hnd Hs Hs' Hp. eapply StronglySorted_unique_strong; [|done..]. intros x y Hx Hy Hxy Hyx.
  rewrite <- Hp in Hy. simpl in Hxy, Hyx.
  apply list_elem_of_lookup in Hx as [i Hi], Hy as [j Hj].
  assert (i = j) as ->; [|congruence]. eapply (NoDup_lookup (Timestamp <$> rs)); [done|..]; rewrite list_lookup_fmap.
  - by rewrite Hi.
  - rewrite Hj. simpl. f_equal. lia.
Qed.

Lemma read_pages_ok (n : nat) (from to : time) (limit offset : Z) (rs : list RequestLog) (l : L) :
  valid_time from → valid_time to → 0 < limit → 0 <= offset →
  NoDup (Timestamp <$> rs) → newest_first rs → rs ≡ₚ requests from to l →
  ∃ l', read_pages n from to limit offset l = (l', Ret (page (Z.of_nat n * limit) offset rs)) ∧
    log_rows l' = log_rows l.
Proof.
  intros Hf Ht Hl. revert offset l. induction n as [|n IH]; intros offset l Ho Hnd Hs Hp; [by exists l|].
  cbn [read_pages]. destruct (FindByTimeRange_ok from to limit offset l Hf Ht Hl Ho) as (l1 & rs' & Hq & Hr & Hp' & Hs').
  assert (rs' = rs) as -> by (symmetry; apply newest_first_unique; [done..|by rewrite Hp']).
  rewrite (comp_bind_step _ _ _ _ _ Hq). cbv beta iota.
  destruct (IH (offset + limit) l1) as (l2 & Hq2 & Hr2); [lia|done|done| |].
  { unfold requests. by rewrite Hr. }
  rewrite (comp_bind_step _ _ _ _ _ Hq2). exists l2. split; [|congruence]. rewrite page_split by lia. done.
Qed.
End pages.

(** ** Properties *)

Lemma requests_rows {L : Type} `{LogTableLaws L} (from to : time) (l l' : L) :
  log_rows l = log_rows l' → requests from to l = requests from to l'.
Proof. intros E. unfold requests. by rewrite E. Qed.

Lemma add_days_fixed (z days : Z) (now : time) :
  Z.abs z <= 86400 → 0 <= days → valid_time now → valid_time (now - days * (24 * hour)) →
  add_days (λ _, z) (wrap64 (- days)) now = now - days * (24 * hour).
Proof.
  intros Hz Hd Hnow Hcut. unfold valid_time, zero_time, second, hour in *. unfold add_days, unix, second.
  pose proof (Z.div_mod now 1000000000 ltac:(lia)) as Hdiv. pose proof (Z.mod_pos_bound now 1000000000 ltac:(lia)).
  set (u := now / 1000000000) in *.
  rewrite (wrap64_id (- days)) by (unfold in_int64, min_int64, max_int64; lia).
  rewrite (wrap64_id (u + z + - days * 86400)) by (unfold in_int64, min_int64, max_int64; lia).
  rewrite wrap64_id by (unfold in_int64, min_int64, max_int64; lia). lia.
Qed.

(** The two ways to write a time in a request, and leaving it out. *)
Definition time_text (s : string) (d t : time) : Prop :=
  s = "" ∧ t = d ∨
  (∃ offset, s = format_RFC3339 offset t ∧ valid_time t ∧ Z.abs offset < 86400 ∧ Z.rem offset 60 = 0) ∨
  ∃ n, s = pretty n ∧ t = n * second ∧ min_int64 <= n <= max_int64 - 62135596800.

Lemma parse_time_text `{Unicode} (s : string) (d t : time) :
  time_text s d t → parse_time s d = inl t.
Proof.
  unfold parse_time. intros [[-> ->]|[(offset & -> & Ht & Hd & Hm)|(n & -> & -> & Hn)]]; [done|..].
  - pose proof (parse_format offset t Ht Hd Hm) as E. rewrite E. rewrite decide_False; [done|]. intros E'. by rewrite E' in E.
  - rewrite decide_False.
    + rewrite parse_number_None, Atoi_pretty by (unfold in_int64; lia). unfold time_Unix.
      rewrite wrap64_id by (unfold in_int64, min_int64, max_int64 in *; lia). f_equal. lia.
    + intros E. pose proof (parse_int_pretty n) as E'. by rewrite E in E'.
Qed.

Section properties.
Context {L : Type} `{LogTableLaws L}.

(** C21: The summary of a range of time counts its requests, and its rates are
    percentages, whatever the rounding of floating-point arithmetic: each is
    between 0 and 100, no part exceeds the whole, and the error rate is 0
    exactly when no request failed.  Without requests the summary is zero, and
    nothing is divided. *)
Theorem summary_percentages (from to : time) (l : L)
    (Hfrom : valid_time from) (Hto : valid_time to) (Hmax : Z.of_nat (length (requests from to l)) <= max_int64) :
  ∃ l' s, GetSummary from to l = (l', Ret (Some s, None)) ∧ log_rows l' = log_rows l ∧
    TotalRequests s = Z.of_nat (length (requests from to l)) ∧
    (requests from to l = [] → s = zero_summary) ∧
    (0 <= ClientErrorRate s <= ErrorRate s) ∧ (0 <= ServerErrorRate s <= ErrorRate s) ∧
    ErrorRate s <= f64_of_Z 100 ∧ (0 <= SuccessRate s <= f64_of_Z 100) ∧
    (ErrorRate s = 0 ↔ ∀ r, r ∈ requests from to l → ¬ client_error r ∧ ¬ server_error r).
Proof.
  destruct (GetSummary_ok from to l Hfrom Hto Hmax) as (l' & s & HG & Hr & Hs & _). exists l', s.
  pose proof Hs as (Hn & Hz & _).
  split; [done|]. split; [done|]. split; [done|]. split; [intros E; apply Hz; by rewrite E|].
  by apply summarizes_bounds.
Qed.

(** The endpoints of the summary are the busiest ones: at most ten, each
    once and with its exact number of requests, busiest first, and no endpoint
    that is left out has more requests than one that is listed. *)
Theorem summary_top_endpoints (from to : time) (l : L)
    (Hfrom : valid_time from) (Hto : valid_time to) (Hmax : Z.of_nat (length (requests from to l)) <= max_int64) :
  ∃ l' s top, GetSummary from to l = (l', Ret (Some s, None)) ∧ TopEndpoints s = endpoint_entry <$> top ∧
    (length top <= 10)%nat ∧ NoDup top.*1 ∧ StronglySorted (λ a b, b.2 <= a.2) top ∧
    (∀ p n, (p, n) ∈ top → n = number (λ r, log_Path r = p) (requests from to l)) ∧
    (∀ p q n, p ∉ top.*1 → (q, n) ∈ top → number (λ r, log_Path r = p) (requests from to l) <= n) ∧
    ((length top < 10)%nat → ∀ r, r ∈ requests from to l → log_Path r ∈ top.*1).
Proof.
  destruct (GetSummary_ok from to l Hfrom Hto Hmax) as (l' & s & HG & _ & _ & g & Hg & Ht).
  exists l', s, (take 10 g). split; [done|]. split; [done|]. split; [rewrite length_take; lia|].
  by apply (top_groups 10 (requests from to l)).
Qed.

Lemma total_time_perm (rs rs' : list RequestLog) : rs ≡ₚ rs' → total_time rs = total_time rs'.
Proof. induction 1; simpl in *; lia. Qed.

(** C16: For a key with at most 10000 requests in the range, the number of requests
    and the four rates that the service computes in a loop over its log entries are
    those that [GetSummary] obtains from the database's counts, on a table that has
    the requests of the key alone.  The average is the sum of the response times
    (as an [int64]) divided by the number of requests; the percentiles and the top
    endpoints, which [GetSummary] asks the database for, are left empty. *)
Theorem key_stats_summary (id : string) (from to : time) (l lk : L)
    (Hid : valid_uuid id = true) (Hfrom : valid_time from) (Hto : valid_time to)
    (Hkey : requests from to lk = filter (λ r, APIKeyID r = Some id) (requests from to l))
    (Hfew : Z.of_nat (length (requests from to lk)) <= 10000) :
  ∃ l' lk' s sk, GetAPIKeyStats id from to l = (l', Ret (Some s, None)) ∧
    GetSummary from to lk = (lk', Ret (Some sk, None)) ∧
    TotalRequests s = TotalRequests sk ∧ ErrorRate s = ErrorRate sk ∧ SuccessRate s = SuccessRate sk ∧
    ClientErrorRate s = ClientErrorRate sk ∧ ServerErrorRate s = ServerErrorRate sk ∧
    (requests from to lk ≠ [] → AvgResponseTime s =
       f64_div (f64_of_Z (wrap64 (total_time (requests from to lk)))) (f64_of_Z (TotalRequests s))) ∧
    P50ResponseTime s = 0 ∧ P95ResponseTime s = 0 ∧ P99ResponseTime s = 0 ∧ TopEndpoints s = [].
Proof.
  destruct (GetAPIKeyStats_ok id from to l Hid Hfrom Hto) as (l' & s & rs & HG & _ & Hp & _ & Hs & Havg & Hzero).
  destruct (GetSummary_ok from to lk Hfrom Hto) as (lk' & sk & HGk & _ & Hsk & _); [unfold max_int64; lia|].
  exists l', lk', s, sk. split; [done|]. split; [done|]. rewrite <- Hkey in Hp.
  assert (page 10000 0 rs = rs) as E.
  { unfold page. rewrite take_ge; [done|]. rewrite length_drop, (Permutation_length Hp). lia. }
  rewrite E in Hs, Havg. apply (summarizes_perm _ _ _ Hp) in Hs. rewrite (total_time_perm _ _ Hp) in Havg.
  assert (requests from to lk ≠ [] → rs ≠ []) as Hrs by (intros Hne ->; by apply Permutation_nil_l in Hp).
  destruct Hs as (HT & Z1 & R1), Hsk as (HTk & Z2 & R2). split; [congruence|].
  assert (ErrorRate s = ErrorRate sk ∧ SuccessRate s = SuccessRate sk ∧
    ClientErrorRate s = ClientErrorRate sk ∧ ServerErrorRate s = ServerErrorRate sk) as (-> & -> & -> & ->); [|tauto].
  destruct (decide (Z.of_nat (length (requests from to lk)) = 0)) as [E0|Hne].
  - by rewrite (Z1 E0), (Z2 E0).
  - destruct (R1 Hne) as (E1 & -> & -> & ->), (R2 Hne) as (E2 & -> & -> & ->). rewrite E1, E2. by split_and!.
Qed.

(** C35: No request is missing from the time series or counted twice: the hours
    are in ascending order, each with its exact number of requests, and these
    numbers add up to the requests of the range.  The type assertions never
    panic. *)
Theorem time_series_complete (from to : time) (l : L) (Hfrom : valid_time from) (Hto : valid_time to) :
  ∃ l' series, GetTimeSeriesData from to l = (l', Ret (Some series, None)) ∧
    StronglySorted (λ a b, Hour a < Hour b) series ∧
    (∀ d, d ∈ series → Count d = number (λ r, trunc_hour (Timestamp r) = Hour d) (requests from to l)) ∧
    sum_over Count series = Z.of_nat (length (requests from to l)).
Proof.
  destruct (GetTimeSeriesData_ok from to l Hfrom Hto) as (l' & g & HG & _ & Hg). exists l', (series_of <$> g).
  split_and!; [done| | |by eapply hour_groups_sum].
  - eapply StronglySorted_fmap; [|apply Hg]. by intros [[h1 n1] x1] [[h2 n2] x2].
  - intros d ([[h n] x] & -> & Hin)%list_elem_of_fmap. apply (proj1 Hg h n). by exists x.
Qed.

(** C24: Reading the log page by page gives every request of the range once,
    newest first, if enough pages are read and no two requests have the same
    time. *)
Theorem log_pages_complete (from to : time) (limit : Z) (n : nat) (l : L)
    (Hfrom : valid_time from) (Hto : valid_time to) (Hlimit : 0 < limit)
    (Hdistinct : NoDup (Timestamp <$> requests from to l))
    (Henough : Z.of_nat (length (requests from to l)) <= Z.of_nat n * limit) :
  ∃ l' rs, read_pages n from to limit 0 l = (l', Ret rs) ∧ rs ≡ₚ requests from to l ∧ newest_first rs.
Proof.
  destruct (FindByTimeRange_ok from to limit 0 l Hfrom Hto Hlimit) as (_ & rs & _ & _ & Hp & Hs); [done|].
  destruct (read_pages_ok n from to limit 0 rs l) as (l' & HR & _); [done..|by rewrite Hp|done|done|].
  exists l', rs. split; [|done]. rewrite HR. do 2 f_equal. unfold page.
  rewrite take_ge; [done|]. rewrite length_drop, (Permutation_length Hp). lia.
Qed.

(** The clean-up deletes exactly the requests that are older than the
    retention period, in a time zone with a fixed offset, and reports how many
    they were. *)
Theorem cleanup_exact (z days : Z) (now : time) (l : L)
    (Hzone : Z.abs z <= 86400) (Hdays : 0 <= days) (Hnow : valid_time now)
    (Hcut : valid_time (now - days * (24 * hour))) :
  ∃ l', let cut := db_time (now - days * (24 * hour)) in
    CleanupOldLogs (λ _, z) now days l = (l', Ret (number (λ r, Timestamp r < cut) (log_rows l), None)) ∧
    ∀ r, r ∈ log_rows l' ↔ r ∈ log_rows l ∧ cut <= Timestamp r.
Proof.
  destruct (delete_before_ok l (now - days * (24 * hour)) Hcut) as (l' & Hq & Hr). exists l'. split.
  - unfold CleanupOldLogs, DeleteOldLogs. rewrite add_days_fixed by done. by apply query_step.
  - intros r. rewrite Hr, list_elem_of_filter, Z.nlt_ge. tauto.
Qed.

End properties.

Lemma log_limit_bounds (s : string) : 1 <= log_limit s <= 1000.
Proof.
  unfold log_limit. case_decide; [lia|]. destruct (Atoi s) as [n ok]. destruct ok; simpl; [|lia].
  destruct (Z.ltb_spec 0 n), (Z.leb_spec n 1000); simpl; lia.
Qed.

Lemma log_offset_bounds (s : string) : 0 <= log_offset s <= max_int64.
Proof.
  unfold log_offset. case_decide; [done|]. pose proof (Atoi_in s) as Ha. destruct (Atoi s) as [n ok].
  destruct ok; simpl; [|done]. destruct (Z.leb_spec 0 n); simpl; [|done]. split; [done|apply Ha].
Qed.

Section handler_properties.
Context {C L : Type} `{GinLaws C} `{LogTableLaws L} `{Unicode}.

(** C36: A request may give its range of time in RFC 3339 or in Unix seconds, each
    end on its own; an end that is left out is the present, or 24 hours ago. *)
Theorem time_range_text (c : C) (now from to : time)
    (Hfrom : time_text (Query "from" c) (now - 24 * hour) from) (Hto : time_text (Query "to" c) now to) :
  parseTimeRange now c = inl (from, to).
Proof.
  unfold parseTimeRange. rewrite (parse_time_text _ _ _ Hfrom). by rewrite (parse_time_text _ _ _ Hto).
Qed.

(** Whatever a client asks for, an answer has at most 1000 requests, none from
    outside the range and none with another status than the one asked for, and
    names the limit and the offset that were used. *)
Theorem logs_answer (c : C) (now from to : time) (l : L)
    (Hrange : parseTimeRange now c = inl (from, to)) (Hfrom : valid_time from) (Hto : valid_time to)
    (Hstatus : from_option (λ code, -2147483648 <= code <= 2147483647) True (log_status (Query "status" c))) :
  ∃ l' logs limit offset,
    GetLogsHandler now (c, l) =
      ((JSON 200 (JObj [("logs", json_list json_of_log logs); ("limit", JInt limit); ("offset", JInt offset)]) c, l'),
       Ret tt) ∧
    log_rows l' = log_rows l ∧ 1 <= limit <= 1000 ∧ 0 <= offset <= max_int64 ∧ Z.of_nat (length logs) <= limit ∧
    ∀ r, r ∈ logs → r ∈ requests from to l ∧
      from_option (λ code, StatusCode r = code) True (log_status (Query "status" c)).
Proof.
  set (limit := log_limit (Query "limit" c)). set (offset := log_offset (Query "offset" c)).
  pose proof (log_limit_bounds (Query "limit" c)) as Hl. pose proof (log_offset_bounds (Query "offset" c)) as Ho.
  fold limit in Hl. fold offset in Ho.
  destruct (GetLogs_ok from to (log_status (Query "status" c)) limit offset l) as (l' & logs & HG & Hr & Hlen & Hin);
    [done..|lia|lia|].
  exists l', logs, limit, offset. split_and!; [|done|lia|lia|lia|lia|lia|done].
  unfold GetLogsHandler. rewrite (comp_bind_step get_ctx _ (c, l) (c, l) c eq_refl). cbv zeta. rewrite Hrange.
  fold limit. fold offset. by rewrite (comp_bind_step _ _ _ _ _ (on_comp_step _ c _ _ _ HG)).
Qed.
End handler_properties.

(** ** Witnesses

    The table as a list of rows, at full precision, in UTC. *)

#[local] Existing Instances list_store list_store_laws list_store_reliable.

Definition newer (a b : RequestLog) : Prop := Timestamp b <= Timestamp a.

#[local] Instance newer_dec (a b : RequestLog) : Decision (newer a b).
Proof. unfold newer. apply _. Defined.

#[local] Instance newer_trans : Transitive newer.
Proof. unfold newer. intros a b c. lia. Qed.

#[local] Instance newer_total : Total newer.
Proof. unfold newer. intros a b. lia. Qed.

Definition busier (a b : string * Z) : Prop := b.2 <= a.2.

#[local] Instance busier_dec (a b : string * Z) : Decision (busier a b).
Proof. unfold busier. apply _. Defined.

#[local] Instance busier_trans : Transitive busier.
Proof. unfold busier. intros a b c. lia. Qed.

#[local] Instance busier_total : Total busier.
Proof. unfold busier. intros a b. lia. Qed.

Definition list_range (from to : time) (l : list RequestLog) : list RequestLog := filter (in_range from to) l.

Definition list_endpoints (rs : list RequestLog) : list (string * Z) :=
  merge_sort busier ((λ p, (p, number (λ r, log_Path r = p) rs)) <$> remove_dups (log_Path <$> rs)).

Definition utc_hour (t : time) : time := t / hour * hour.

Definition list_hours (rs : list RequestLog) : list (time * Z * Z) :=
  (λ h, (h, number (λ r, utc_hour (Timestamp r) = h) rs, 0)) <$>
    merge_sort Z.le (remove_dups ((λ r, utc_hour (Timestamp r)) <$> rs)).

#[local] Instance list_queries : LogQueries (list RequestLog) := {|
  insert_log r l := (l ++ [r], None);
  find_range from to limit offset l := (l, (page limit offset (merge_sort newer (list_range from to l)), None));
  find_by_key id from to limit offset l :=
    (l, (page limit offset (merge_sort newer (filter (λ r, APIKeyID r = Some id) (list_range from to l))), None));
  find_by_status code from to limit offset l :=
    (l, (page limit offset (filter (has_status code code) (list_range from to l)), None));
  count_range from to l := (l, (number (in_range from to) l, None));
  avg_range from to l :=
    (l, if decide (list_range from to l = []) then (0, Some (ErrDB "converting NULL to float64 is unsupported"))
        else (0, None));
  percentile_range p from to l := (l, (0, Some (ErrDB "converting driver.Value type float64 to a int: invalid syntax")));
  count_status lo hi from to l := (l, (number (has_status lo hi) (list_range from to l), None));
  endpoint_rows from to limit l := (l, inl (inl <$> take (Z.to_nat limit) (list_endpoints (list_range from to l))));
  hourly_rows from to l := (l, inl (inl <$> list_hours (list_range from to l)));
  delete_before t l := (filter (λ r, ¬ Timestamp r < t) l, (number (λ r, Timestamp r < t) l, None))
|}.

Lemma number_pos (P : RequestLog → Prop) `{!∀ r, Decision (P r)} (rs : list RequestLog) :
  0 < number P rs ↔ ∃ r, r ∈ rs ∧ P r.
Proof.
  pose proof (number_nonneg P rs) as Hn. split.
  - intros Hpos. destruct (decide (Exists P rs)) as [(r & ? & ?)%Exists_exists|Hno]; [by exists r|].
    apply not_Exists_Forall in Hno; [|apply _]. rewrite Forall_forall in Hno.
    apply (proj2 (number_0 P rs)) in Hno. lia.
  - intros (r & Hr & HP). destruct (decide (number P rs = 0)) as [E|]; [|lia]. rewrite number_0 in E. by destruct (E r Hr).
Qed.

Lemma list_endpoints_groups (rs : list RequestLog) : endpoint_groups rs (list_endpoints rs).
Proof.
  unfold list_endpoints. set (paths := remove_dups (log_Path <$> rs)). split_and!.
  - rewrite merge_sort_Permutation, <- list_fmap_compose, (list_fmap_ext _ id), list_fmap_id by done.
    apply NoDup_remove_dups.
  - intros p n. rewrite merge_sort_Permutation, list_elem_of_fmap. split.
    + intros (q & [= <- ->] & Hq). split; [done|]. apply number_pos.
      unfold paths in Hq. rewrite elem_of_remove_dups, list_elem_of_fmap in Hq. naive_solver.
    + intros [-> Hn]. exists p. split; [done|]. apply number_pos in Hn as (r & Hr & <-).
      unfold paths. rewrite elem_of_remove_dups. by apply list_elem_of_fmap_2.
  - apply (StronglySorted_merge_sort busier).
Qed.

Lemma list_hours_groups (rs : list RequestLog) : hour_groups utc_hour rs (list_hours rs).
Proof.
  unfold list_hours. set (hours := remove_dups ((λ r, utc_hour (Timestamp r)) <$> rs)). split.
  - intros h n. setoid_rewrite list_elem_of_fmap. setoid_rewrite merge_sort_Permutation. split.
    + intros (x & h' & [= <- -> ->] & Hh). split; [done|]. apply number_pos.
      unfold hours in Hh. rewrite elem_of_remove_dups, list_elem_of_fmap in Hh. naive_solver.
    + intros [-> Hn]. exists 0, h. split; [done|]. apply number_pos in Hn as (r & Hr & <-).
      unfold hours. rewrite elem_of_remove_dups. by apply (list_elem_of_fmap_2 (λ r, utc_hour (Timestamp r))).
  - eapply (StronglySorted_fmap _ Z.lt); [done|].
    assert (NoDup (merge_sort Z.le hours)) as Hnd by (rewrite merge_sort_Permutation; apply NoDup_remove_dups).
    assert (StronglySorted Z.le (merge_sort Z.le hours)) as Hs by (apply StronglySorted_merge_sort; apply _).
    induction Hs as [|h hs Hs IH Hall]; [constructor|]. apply NoDup_cons in Hnd as [Hh Hnd].
    constructor; [by apply IH|]. rewrite Forall_forall in *. intros x Hx. specialize (Hall x Hx).
    assert (h ≠ x) by (by intros ->). lia.
Qed.

#[local] Program Instance list_table_laws : LogTableLaws (list RequestLog) := {|
  log_rows l := l; db_time t := t; trunc_hour := utc_hour
|}.
Next Obligation. done. Qed.
Next Obligation. intros t. simpl. lia. Qed.
Next Obligation.
  intros l. change (stored l) with l. induction l as [|r l IH]; constructor; [|exact IH]. by split_and!.
Qed.
Next Obligation.
  intros l from to limit offset _ _ _ _. exists l, (merge_sort newer (list_range from to l)).
  split_and!; [done|done|apply merge_sort_Permutation|apply (StronglySorted_merge_sort newer)].
Qed.
Next Obligation.
  intros l id from to limit offset _ _ _ _ _.
  exists l, (merge_sort newer (filter (λ r, APIKeyID r = Some id) (list_range from to l))).
  split_and!; [done|done|apply merge_sort_Permutation|apply (StronglySorted_merge_sort newer)].
Qed.
Next Obligation.
  intros l code from to limit offset _ _ _ _ _. by exists l, (filter (has_status code code) (list_range from to l)).
Qed.
Next Obligation. intros l from to _ _. by exists l. Qed.
Next Obligation.
  intros l from to _ _ Hne. exists l, 0. simpl. by rewrite decide_False.
Qed.
Next Obligation. done. Qed.
Next Obligation. intros l lo hi from to _ _. by exists l. Qed.
Next Obligation.
  intros l from to limit _ _ _. exists l, (list_endpoints (list_range from to l)).
  split_and!; [done|done|apply list_endpoints_groups].
Qed.
Next Obligation.
  intros l from to _ _. exists l, (list_hours (list_range from to l)). split_and!; [done|done|apply list_hours_groups].
Qed.
Next Obligation. intros l t _. by exists (filter (λ r, ¬ Timestamp r < t) l). Qed.

(** Four requests: one of them too old, one with a client error, two on one path. *)
Definition sample_key : string := "0a1b2c3d-0000-4000-8000-0123456789ab".

Definition sample_log (t : time) (path : string) (code ms : Z) : RequestLog := {|
  log_ID := 0; Timestamp := t; APIKeyID := Some sample_key; log_Method := "GET"; log_Path := path; StatusCode := code;
  ResponseTimeMs := ms; IPAddress := "10.0.0.7"; UserAgent := "curl"; BackendServer := "" |}.

Definition sample : list RequestLog :=
  [sample_log 0 "/old" 500 9; sample_log (2 * hour) "/users" 200 10; sample_log (2 * hour + second) "/orders" 404 20;
   sample_log (4 * hour) "/users" 200 30].

Lemma sample_times : valid_time (2 * hour) ∧ valid_time (5 * hour).
Proof. split; vm_compute; split; (discriminate || done). Qed.

Lemma summary_percentages_witness :
  Z.of_nat (length (requests (2 * hour) (5 * hour) sample)) = 3 ∧
  ∃ l' s, GetSummary (2 * hour) (5 * hour) sample = (l', Ret (Some s, None)) ∧ TotalRequests s = 3 ∧
    ErrorRate s <= f64_of_Z 100.
Proof.
  split; [vm_compute; reflexivity|].
  destruct (summary_percentages (2 * hour) (5 * hour) sample (proj1 sample_times) (proj2 sample_times))
    as (l' & s & HG & _ & Hn & _ & _ & _ & He & _); [vm_compute; discriminate|].
  exists l', s. split; [exact HG|]. split; [rewrite Hn; vm_compute; reflexivity|exact He].
Defined.

Lemma summary_top_endpoints_witness :
  ∃ l' s top, GetSummary (2 * hour) (5 * hour) sample = (l', Ret (Some s, None)) ∧
    TopEndpoints s = endpoint_entry <$> top ∧ (length top <= 10)%nat.
Proof.
  destruct (summary_top_endpoints (2 * hour) (5 * hour) sample (proj1 sample_times) (proj2 sample_times))
    as (l' & s & top & HG & Ht & Hl & _); [vm_compute; discriminate|].
  exists l', s, top. split; [exact HG|]. split; [exact Ht|exact Hl].
Defined.

Lemma key_stats_summary_witness :
  length (requests (2 * hour) (5 * hour) sample) = 3%nat ∧
  ∃ l' lk' s sk, GetAPIKeyStats sample_key (2 * hour) (5 * hour) sample = (l', Ret (Some s, None)) ∧
    GetSummary (2 * hour) (5 * hour) sample = (lk', Ret (Some sk, None)) ∧ ErrorRate s = ErrorRate sk.
Proof.
  split; [vm_compute; reflexivity|].
  destruct (key_stats_summary sample_key (2 * hour) (5 * hour) sample sample)
    as (l' & lk' & s & sk & HG & HGk & _ & He & _);
    [vm_compute; reflexivity|apply sample_times|apply sample_times|vm_compute; reflexivity|vm_compute; discriminate|].
  exists l', lk', s, sk. split; [exact HG|]. split; [exact HGk|exact He].
Defined.

Lemma time_series_complete_witness :
  ∃ l' series, GetTimeSeriesData (2 * hour) (5 * hour) sample = (l', Ret (Some series, None)) ∧
    sum_over Count series = 3.
Proof.
  destruct (time_series_complete (2 * hour) (5 * hour) sample (proj1 sample_times) (proj2 sample_times))
    as (l' & series & HG & _ & _ & Hs).
  exists l', series. split; [exact HG|]. rewrite Hs. vm_compute. reflexivity.
Defined.

Lemma log_pages_complete_witness :
  ∃ l' rs, read_pages 2 (2 * hour) (5 * hour) 2 0 sample = (l', Ret rs) ∧
    rs ≡ₚ requests (2 * hour) (5 * hour) sample ∧ newest_first rs.
Proof.
  apply (log_pages_complete (2 * hour) (5 * hour) 2 2 sample);
    [apply sample_times|apply sample_times|reflexivity| |vm_compute; discriminate].
  apply (bool_decide_unpack _). vm_compute. exact I.
Defined.

Lemma cleanup_exact_witness :
  number (λ r, Timestamp r < hour) sample = 1 ∧
  ∃ l', CleanupOldLogs (λ _, 19800) (25 * hour) 1 sample = (l', Ret (1, None)) ∧
    ∀ r, r ∈ (l' : list RequestLog) ↔ r ∈ sample ∧ hour <= Timestamp r.
Proof.
  split; [vm_compute; reflexivity|].
  destruct (cleanup_exact 19800 1 (25 * hour) sample) as (l' & HC & Hr);
    [lia|lia|vm_compute; split; (discriminate || done)|vm_compute; split; (discriminate || done)|].
  exists l'. split; [exact HC|exact Hr].
Defined.


#[local] Existing Instance latin1.

Definition query_ctx (q : gmap string string) : ctx := {|
  x_req := ∅; x_ip := "10.0.0.7"; x_method := "GET"; x_path := "/admin/logs"; x_params := ∅; x_query := q;
  x_json := JNull; x_keys := ∅; x_headers := ∅; x_status := 200; x_written := false; x_body := []; x_aborted := false |}.

(** From two hours after the epoch, in RFC 3339, to five hours, in seconds. *)
Definition sample_query : gmap string string :=
  <["from" := "1970-01-01T02:00:00Z"]> (<["to" := "18000"]> (<["limit" := "5000"]> (<["status" := "200"]> ∅))).

Lemma time_range_text_witness :
  parseTimeRange 0 (query_ctx sample_query) = inl (2 * hour, 5 * hour).
Proof.
  apply (time_range_text (query_ctx sample_query) 0 (2 * hour) (5 * hour)).
  - right. left. exists 0. split; [vm_compute; reflexivity|]. split; [apply sample_times|]. done.
  - right. right. exists 18000. split; [vm_compute; reflexivity|]. split; [reflexivity|vm_compute; split; discriminate].
Defined.

Lemma logs_answer_witness :
  log_limit "5000" = 100 ∧
  ∃ l' logs limit offset,
    GetLogsHandler 0 (query_ctx sample_query, sample) =
      ((JSON 200 (JObj [("logs", json_list json_of_log logs); ("limit", JInt limit); ("offset", JInt offset)])
          (query_ctx sample_query), l'), Ret tt) ∧ Z.of_nat (length logs) <= limit.
Proof.
  split; [vm_compute; reflexivity|].
  destruct (logs_answer (query_ctx sample_query) 0 (2 * hour) (5 * hour) sample)
    as (l' & logs & limit & offset & HG & _ & _ & _ & Hl & _);
    [vm_compute; reflexivity|apply sample_times|apply sample_times|vm_compute; split; discriminate|].
  exists l', logs, limit, offset. split; [exact HG|exact Hl].
Defined.
