(* ===== verification/KeyHandlers.v ===== *)
(** * Administration of API keys

    Models [src/internal/handler/apikey.go]: the handlers of the routes
    [/admin/keys].  The service behind them is in the file [ApiKey]; decoding
    and validating the body of a request is gin's, the class [Bind] of the file
    [Gin]. *)

From S2P Require Import Prelude Strconv Database Json Crypto Redis Gin ApiKey RequestLog Middleware.

Record create_key_request := { ck_Name : string; ck_CreatedBy : string; ck_Tier : string }.
Record update_key_request := { uk_Tier : option string; uk_IsActive : option bool }.

(** The JSON value of a key: the hash is left out ([json:"-"]). *)
Definition json_of_key (k : APIKey) : json := JObj (
  [("id", JStr (ID k)); ("name", JStr (key_Name k)); ("created_by", JStr (CreatedBy k)); ("tier", JStr (Tier k));
   ("is_active", JBool (IsActive k)); ("created_at", JTime (CreatedAt k))] ++
  match LastUsedAt k with Some t => [("last_used_at", JTime t)] | None => [] end).

Definition json_of_keys (ks : list APIKey) : json := JArr (json_of_key <$> ks).

Definition message (msg : string) : json := JObj [("message", JStr msg)].

Section handlers.
Context {C R D : Type} `{Gin C} `{Redis R} `{KeyStore D}.
Context `{Bind C create_key_request} `{Bind C update_key_request}.

Definition CreateKeyHandler (random : list N + string) (id : string) : Comp (C * (R * D)) unit :=
  c ← get_ctx;
  match ShouldBindJSON c with
  | inr e => on_ctx (JSON 400 (error_body e))
  | inl req =>
      '(key, err) ← on_comp (Create random id (ck_Name req) (ck_CreatedBy req) (ck_Tier req));
      match err with
      | Some e => on_ctx (JSON 500 (error_body e))
      | None => on_ctx (JSON 201 (JObj [("key", JStr key); ("message", JStr "Save this key - it won't be shown again")]))
      end
  end.

Definition ListKeysHandler : Comp (C * (R * D)) unit :=
  '(keys, err) ← on_comp List_;
  match err with
  | Some e => on_ctx (JSON 500 (error_body (db_text e)))
  | None => on_ctx (JSON 200 (json_of_keys keys))
  end.

Definition GetKeyHandler : Comp (C * (R * D)) unit :=
  c ← get_ctx;
  '(apiKey, err) ← on_comp (ApiKey.Get (Param "id" c));
  match err, apiKey with
  | Some e, _ => on_ctx (JSON 500 (error_body (db_text e)))
  | None, None => on_ctx (JSON 404 (error_body "API key not found"))
  | None, Some k => on_ctx (JSON 200 (json_of_key k))
  end.

(** The map of updates has an entry for each field of the request. *)
Definition updates_of (req : update_key_request) : updates :=
  {| up_tier := uk_Tier req; up_is_active := uk_IsActive req |}.

Definition no_updates (u : updates) : bool :=
  match up_tier u, up_is_active u with None, None => true | _, _ => false end.

Definition UpdateKeyHandler (t1 t2 : time) : Comp (C * (R * D)) unit :=
  c ← get_ctx;
  match ShouldBindJSON c with
  | inr e => on_ctx (JSON 400 (error_body e))
  | inl req =>
      let updates := updates_of req in
      if no_updates updates then on_ctx (JSON 400 (error_body "No fields to update")) else
      err ← on_comp (Update (Param "id" c) updates t1 t2);
      match err with
      | Some e => on_ctx (JSON 500 (error_body (db_text e)))
      | None => on_ctx (JSON 200 (message "API key updated successfully"))
      end
  end.

Definition DeleteKeyHandler (t : time) : Comp (C * (R * D)) unit :=
  c ← get_ctx;
  err ← on_comp (Delete (Param "id" c) t);
  match err with
  | Some e => on_ctx (JSON 500 (error_body (db_text e)))
  | None => on_ctx (JSON 200 (message "API key deleted successfully"))
  end.
End handlers.

(** ** Properties *)

Section properties.
Context {C R D : Type} `{GinLaws C} `{RedisReliable R} `{KeyStoreLaws D} `{Rfc3339.LocalZone} `{UuidParse}.
Context `{Bind C create_key_request} `{Bind C update_key_request}.

Lemma UpdateKeyHandler_ok (c : C) (id : string) (req : update_key_request) (T t1 t2 : time) (r : R) (d : D) :
  ShouldBindJSON c = inl req → Param "id" c = id → valid_uuid id = true → valid_updates (updates_of req) →
  T <= t1 → t1 <= t2 → cache_ok T (r, d) →
  ∃ s', UpdateKeyHandler t1 t2 (c, (r, d)) =
      ((JSON 200 (message "API key updated successfully") c, s'), Ret tt) ∧
    cache_ok t2 s' ∧ rows s'.2 = alter (apply_updates (updates_of req)) id (rows d).
Proof.
  intros Hb <- Hid Hu HT Ht Hok.
  destruct (Update_ok (Param "id" c) (updates_of req) T t1 t2 r d Hid Hu HT Ht Hok) as (s' & HU & Hok' & Hd).
  exists s'. split; [|done]. unfold UpdateKeyHandler.
  rewrite (comp_bind_step get_ctx _ (c, (r, d)) (c, (r, d)) c eq_refl). rewrite Hb. cbv zeta.
  assert (no_updates (updates_of req) = false) as ->.
  { unfold no_updates. by destruct Hu as [[[? ->]|[? ->]] _]; [|destruct (up_tier _)]. }
  by rewrite (comp_bind_step _ _ _ _ _ (on_comp_step _ c _ _ _ HU)).
Qed.

Lemma DeleteKeyHandler_ok (c : C) (id : string) (T t : time) (r : R) (d : D) :
  Param "id" c = id → valid_uuid id = true → T <= t → cache_ok T (r, d) →
  ∃ s', DeleteKeyHandler t (c, (r, d)) =
      ((JSON 200 (message "API key deleted successfully") c, s'), Ret tt) ∧
    cache_ok t s' ∧ rows s'.2 = delete id (rows d).
Proof.
  intros <- Hid HT Hok. destruct (Delete_ok (Param "id" c) T t r d Hid HT Hok) as (s' & HD & Hok' & Hd).
  exists s'. split; [|done]. unfold DeleteKeyHandler.
  rewrite (comp_bind_step get_ctx _ (c, (r, d)) (c, (r, d)) c eq_refl).
  by rewrite (comp_bind_step _ _ _ _ _ (on_comp_step _ c _ _ _ HD)).
Qed.

(** No active key has the hash of a key that is inactive or gone. *)
Lemma Validate_refused (key id : string) (T t1 t2 : time) (k : APIKey) (d : D) (s' : R * D) :
  cache_ok T s' → T <= t1 → t1 <= t2 → rows d !! id = Some k → KeyHash k = sha256_hex key →
  (∀ k', rows s'.2 !! id = Some k' → IsActive k' = false) →
  (∀ i k', rows s'.2 !! i = Some k' → i ≠ id → rows d !! i = Some k') →
  ∃ s2, Validate key t1 t2 s' = (s2, Ret (None, None)).
Proof.
  destruct s' as [r' d']. simpl. intros Hok HT Ht Hk Hh Hoff Hothers.
  destruct (Validate_ok key T t1 t2 r' d' HT Ht Hok) as (s2 & o & HV & _ & _ & _ & Ho).
  destruct o as [k1|]; [|by exists s2]. exfalso. destruct Ho as (k2 & (i & Hi & Hh2 & Ha) & _).
  destruct (decide (i = id)) as [->|Hne]; [by rewrite (Hoff k2 Hi) in Ha|].
  apply Hne, (rows_hash d i id k2 k); [by apply Hothers|done|congruence].
Qed.

(** C14: Revoking a key through the API takes effect at once, although validated
    keys are cached.  Operations run one after the other: from an empty cache, any
    sequence of creations, validations, updates and deletions; then
    [PUT /admin/keys/:id] with [is_active] false, or [DELETE /admin/keys/:id],
    which answers 200; then a validation, which refuses the key.  A validation
    that overlaps the revocation is another matter: [revocation_race]. *)
Theorem revoke_effective (c : C) (id key : string) (k : APIKey) (T t1 t2 t3 t4 : time) (os : list timed) (s0 : R * D)
    (tier : option string) (Hbind : ShouldBindJSON c = inl {| uk_Tier := tier; uk_IsActive := Some false |})
    (Htier : from_option (λ x, valid_text x = true) True tier) (Hid : Param "id" c = id)
    (Hempty : ∀ h, live T (cache_key h) (rd_db s0.1) = None) (Hops : ops_ok T os s0)
    (Hrow : rows (run_ops os s0).2 !! id = Some k) (Hhash : KeyHash k = sha256_hex key)
    (Hn1 : last_time T os <= t1) (Hn2 : t1 <= t2) (Hn3 : t2 <= t3) (Hn4 : t3 <= t4) :
  let s := run_ops os s0 in
  (∃ s1 s2, UpdateKeyHandler t1 t2 (c, s) = ((JSON 200 (message "API key updated successfully") c, s1), Ret tt) ∧
     Validate key t3 t4 s1 = (s2, Ret (None, None))) ∧
  (∃ s1 s2, DeleteKeyHandler t2 (c, s) = ((JSON 200 (message "API key deleted successfully") c, s1), Ret tt) ∧
     Validate key t3 t4 s1 = (s2, Ret (None, None))).
Proof.
  intros s. assert (cache_ok (last_time T os) s) as Hok by (apply run_ops_empty; done). fold s in Hrow.
  destruct s as [r d]. simpl in Hrow. pose proof (rows_valid d id k Hrow) as Hval.
  assert (valid_uuid id = true) as Huuid by (rewrite <- (rows_ID d id k Hrow); apply Hval). split.
  - destruct (UpdateKeyHandler_ok c id _ (last_time T os) t1 t2 r d Hbind Hid Huuid) as (s1 & HU & Hok1 & Hd1);
      [by split; [right; eexists|]|done..|].
    destruct (Validate_refused key id t2 t3 t4 k d s1 Hok1 Hn3 Hn4 Hrow Hhash) as (s2 & HV); [| |by exists s1, s2].
    + intros k'. rewrite Hd1, lookup_alter_eq, Hrow. simpl. by intros [= <-].
    + intros i k' Hi Hne. by rewrite Hd1, lookup_alter_ne in Hi.
  - destruct (DeleteKeyHandler_ok c id (last_time T os) t2 r d Hid Huuid) as (s1 & HU & Hok1 & Hd1); [lia|done|].
    destruct (Validate_refused key id t2 t3 t4 k d s1 Hok1 Hn3 Hn4 Hrow Hhash) as (s2 & HV); [| |by exists s1, s2].
    + intros k'. by rewrite Hd1, lookup_delete_eq.
    + intros i k' Hi Hne. by rewrite Hd1, lookup_delete_ne in Hi.
Qed.

(** C15: The key in the answer to [POST /admin/keys] is the one that works: from
    then on a request that carries it in [X-API-Key] passes the middleware, with
    the tier that was asked for, and [GET /admin/keys/:id] shows the new key,
    without its hash. *)
Theorem create_answer {L X : Type} (c c' : C) (keyBytes : list N) (id : string) (req : create_key_request)
    (T t1 t2 : time) (s : R * D) (sd : side L X)
    (Hbind : ShouldBindJSON c = inl req) (Hid : Param "id" c' = id) (Hbytes : is_bytes keyBytes)
    (Hop : create_ok keyBytes id (ck_Name req) (ck_CreatedBy req) (ck_Tier req) s.2)
    (Hok : cache_ok T s) (Hn1 : T <= t1) (Hn2 : t1 <= t2) :
  ∃ s1 s2 key k, CreateKeyHandler (inl keyBytes) id (c, s) =
      ((JSON 201 (JObj [("key", JStr key); ("message", JStr "Save this key - it won't be shown again")]) c, s1), Ret tt) ∧
    GetKeyHandler (c', s1) = ((JSON 200 (json_of_key k) c', s2), Ret tt) ∧
    ID k = id ∧ key_Name k = ck_Name req ∧ Tier k = ck_Tier req ∧
    ∀ cq next, GetHeader "X-API-Key" cq = key →
      ∃ s3 k', APIKeyValidator t1 t2 next (cq, (s2, sd)) = next (with_key k' cq, (s3, spawns id sd)) ∧
        ID k' = id ∧ Tier k' = ck_Tier req.
Proof.
  destruct s as [r d]. simpl in Hop. pose proof Hop as (Hval & _).
  assert (valid_uuid id = true) as Huuid.
  { destruct Hval as [Hval _]. unfold new_key, BeforeCreate in Hval. by rewrite decide_True in Hval. }
  destruct (Create_ok keyBytes id _ _ _ T r d Hop Hok)
    as (d1 & k & HC & Hok1 & Hd1 & Hact & HID & HT & Hnm).
  destruct (FindByID_ok id r d1 Huuid) as (d2 & HF & Hd2). rewrite Hd1, lookup_insert_eq in HF.
  apply (cache_ok_rows _ _ _ _ Hd2) in Hok1.
  apply (active_row_rows d1 d2) in Hact; [|done].
  exists (r, d1), (r, d2), (key_text keyBytes), k. split_and!; [| |done..|].
  - unfold CreateKeyHandler. rewrite (comp_bind_step get_ctx _ (c, (r, d)) (c, (r, d)) c eq_refl). rewrite Hbind.
    by rewrite (comp_bind_step _ _ _ _ _ (on_comp_step _ c _ _ _ HC)).
  - unfold GetKeyHandler. rewrite (comp_bind_step get_ctx _ (c', (r, d1)) (c', (r, d1)) c' eq_refl). rewrite Hid.
    unfold ApiKey.Get. by rewrite (comp_bind_step _ _ _ _ _ (on_comp_step _ c' _ _ _ HF)).
  - intros cq next Hq. destruct (APIKeyValidator_cases T t1 t2 next cq r d2 sd) as (r3 & d3 & _ & _ & _ & Hcase);
      [by rewrite Hq|done..|].
    rewrite Hq, key_text_trim in Hcase by done. destruct Hcase as [(k2 & k' & Hact2 & HID2 & HT2 & HV)|[Hno _]];
      [|by destruct (Hno k)].
    assert (k2 = k) as -> by (by eapply (active_row_unique d2)).
    exists (r3, d3), k'. rewrite HV, HID. split_and!; congruence.
Qed.

(** A key that does not exist is updated and deleted successfully, as far as
    the client is told: the answers are 200, where [GET] answers 404, and the
    table is as before. *)
Theorem unknown_key_accepted (c : C) (id : string) (req : update_key_request) (T t1 t2 : time) (s : R * D)
    (Hbind : ShouldBindJSON c = inl req) (Hfields : valid_updates (updates_of req))
    (Hid : Param "id" c = id) (Huuid : valid_uuid id = true) (Hrow : rows s.2 !! id = None)
    (Hok : cache_ok T s) (Hn1 : T <= t1) (Hn2 : t1 <= t2) :
  (∃ s1, GetKeyHandler (c, s) = ((JSON 404 (error_body "API key not found") c, s1), Ret tt)) ∧
  (∃ s1, UpdateKeyHandler t1 t2 (c, s) = ((JSON 200 (message "API key updated successfully") c, s1), Ret tt) ∧
     rows s1.2 = rows s.2) ∧
  (∃ s1, DeleteKeyHandler t1 (c, s) = ((JSON 200 (message "API key deleted successfully") c, s1), Ret tt) ∧
     rows s1.2 = rows s.2).
Proof.
  destruct s as [r d]. simpl in Hrow. split_and!.
  - destruct (FindByID_ok id r d Huuid) as (d' & HF & _). rewrite Hrow in HF. exists (r, d').
    unfold GetKeyHandler. rewrite (comp_bind_step get_ctx _ (c, (r, d)) (c, (r, d)) c eq_refl). rewrite Hid.
    unfold ApiKey.Get. by rewrite (comp_bind_step _ _ _ _ _ (on_comp_step _ c _ _ _ HF)).
  - destruct (UpdateKeyHandler_ok c id req T t1 t2 r d Hbind Hid Huuid Hfields Hn1 Hn2 Hok) as (s1 & HU & _ & Hd).
    exists s1. split; [done|]. rewrite Hd. simpl. apply map_eq. intros i.
    destruct (decide (i = id)) as [->|]; [by rewrite lookup_alter_eq, Hrow|by rewrite lookup_alter_ne].
  - destruct (DeleteKeyHandler_ok c id T t1 r d Hid Huuid Hn1 Hok) as (s1 & HU & _ & Hd).
    exists s1. split; [done|]. rewrite Hd. simpl. by apply delete_id.
Qed.
End properties.

(** ** Witnesses *)

#[local] Existing Instances wf_rows_dec table_store table_laws Rfc3339.utc strict_uuid.

Definition str_field (k : string) (j : json) : option string :=
  match field k j with Some (JStr s) => Some s | _ => None end.

#[local] Instance ctx_bind_create : Bind ctx create_key_request := λ c,
  match str_field "name" (x_json c), str_field "tier" (x_json c) with
  | Some name, Some tier =>
      if decide (name = "" ∨ tier = "") then inr "required"
      else inl {| ck_Name := name; ck_CreatedBy := default "" (str_field "created_by" (x_json c)); ck_Tier := tier |}
  | _, _ => inr "required"
  end.

#[local] Instance ctx_bind_update : Bind ctx update_key_request := λ c,
  inl {| uk_Tier := str_field "tier" (x_json c);
         uk_IsActive := match field "is_active" (x_json c) with Some (JBool b) => Some b | _ => None end |}.

(** A request about the key [id1], with a body. *)
Definition key_ctx (method : string) (body : json) : ctx := {|
  x_req := ∅; x_ip := "10.0.0.7"; x_method := method; x_path := "/admin/keys"; x_params := {[ "id" := id1 ]};
  x_query := ∅; x_json := body; x_keys := ∅; x_headers := ∅; x_status := 200; x_written := false; x_body := [];
  x_aborted := false |}.

Definition revoke_ctx : ctx := key_ctx "PUT" (JObj [("is_active", JBool false)]).

(** The key is created and validated, which caches it, and then revoked. *)
Definition created_and_used : list timed :=
  [{| o_op := OpCreate bytes1 id1 "app" "me" "basic"; o_t1 := second; o_t2 := second |};
   {| o_op := OpValidate text1; o_t1 := 2 * second; o_t2 := 2 * second |}].

Lemma revoke_effective_witness :
  let s := run_ops (R := RefRedis) (D := table) created_and_used (∅, ∅) in
  is_Some (live (3 * second) (cache_key hash1) (rd_db s.1)) ∧
  (∃ s1 s2, UpdateKeyHandler (3 * second) (3 * second) (revoke_ctx, s) =
     ((JSON 200 (message "API key updated successfully") revoke_ctx, s1), Ret tt) ∧
     Validate text1 (4 * second) (4 * second) s1 = (s2, Ret (None, None))) ∧
  (∃ s1 s2, DeleteKeyHandler (3 * second) (revoke_ctx, s) =
     ((JSON 200 (message "API key deleted successfully") revoke_ctx, s1), Ret tt) ∧
     Validate text1 (4 * second) (4 * second) s1 = (s2, Ret (None, None))).
Proof.
  intros s. split; [eexists; vm_compute; reflexivity|].
  apply (revoke_effective (R := RefRedis) (D := table) revoke_ctx id1 text1
    (new_key bytes1 id1 "app" "me" "basic") 0 (3 * second) (3 * second) (4 * second) (4 * second)
    created_and_used (∅, ∅) None).
  - vm_compute; reflexivity.
  - exact I.
  - vm_compute; reflexivity.
  - reflexivity.
  - unfold created_and_used. cbn [ops_ok op_ok o_op o_t1 o_t2].
    split_and!; first [exact create_ok_id1|exact I|vm_compute; discriminate].
  - vm_compute; reflexivity.
  - vm_compute; reflexivity.
  - vm_compute; discriminate.
  - lia.
  - vm_compute; discriminate.
  - lia.
Defined.

Definition create_ctx : ctx :=
  key_ctx "POST" (JObj [("name", JStr "app"); ("created_by", JStr "me"); ("tier", JStr "basic")]).

Definition idle : side (list RequestLog) unit :=
  {| spawned := []; printed := [];
     requestLog := {| logChannel := []; bufferSize := 1000; batch := []; log_db := [] |}; app := tt |}.

Lemma create_answer_witness :
  ∃ s1 s2 key k, CreateKeyHandler (R := RefRedis) (D := table) (inl bytes1) id1 (create_ctx, (∅, ∅)) =
      ((JSON 201 (JObj [("key", JStr key); ("message", JStr "Save this key - it won't be shown again")]) create_ctx, s1),
       Ret tt) ∧
    GetKeyHandler (create_ctx, s1) = ((JSON 200 (json_of_key k) create_ctx, s2), Ret tt) ∧
    ID k = id1 ∧ key_Name k = "app" ∧ Tier k = "basic" ∧
    ∀ (cq : ctx) next, GetHeader "X-API-Key" cq = key →
      ∃ s3 k', APIKeyValidator second second next (cq, (s2, idle)) = next (with_key k' cq, (s3, spawns id1 idle)) ∧
        ID k' = id1 ∧ Tier k' = "basic".
Proof.
  apply (create_answer (R := RefRedis) (D := table) create_ctx create_ctx bytes1 id1
    {| ck_Name := "app"; ck_CreatedBy := "me"; ck_Tier := "basic" |} second second second (∅, ∅) idle);
    [vm_compute; reflexivity|vm_compute; reflexivity|by repeat constructor|exact create_ok_id1|intros h; exact I|lia|lia].
Defined.

Lemma unknown_key_accepted_witness :
  (∃ s1, GetKeyHandler (R := RefRedis) (D := table) (revoke_ctx, (∅, ∅)) =
     ((JSON 404 (error_body "API key not found") revoke_ctx, s1), Ret tt)) ∧
  (∃ s1, UpdateKeyHandler (R := RefRedis) (D := table) second second (revoke_ctx, (∅, ∅)) =
     ((JSON 200 (message "API key updated successfully") revoke_ctx, s1), Ret tt) ∧ rows s1.2 = rows (∅ : table)) ∧
  (∃ s1, DeleteKeyHandler (R := RefRedis) (D := table) second (revoke_ctx, (∅, ∅)) =
     ((JSON 200 (message "API key deleted successfully") revoke_ctx, s1), Ret tt) ∧ rows s1.2 = rows (∅ : table)).
Proof.
  apply (unknown_key_accepted (R := RefRedis) (D := table) revoke_ctx id1
    {| uk_Tier := None; uk_IsActive := Some false |} second second second (∅, ∅));
    [vm_compute; reflexivity|split; [right; by eexists|exact I]|vm_compute; reflexivity|vm_compute; reflexivity|
     vm_compute; reflexivity|intros h; exact I|lia|lia].
Defined.
