(* ===== verification/System.v ===== *)
(** * System status

    Models [src/internal/handler/systemHandler.go]: the handlers that report on
    the circuit breakers and the health of the services, and reset a breaker.
    The services are those of the file [Proxy], by path.

    Go iterates over a map in an unspecified order.  Where the order shows, in
    the list of the targets' statuses, it is an argument, [visit]. *)

From S2P Require Import Prelude Gin Proxy.
From S2P Require CircuitBreaker LoadBalancer HealthCheck.

Record SystemHandler (G : Type) := { handler_proxies : gmap string (Proxy G) }.
Arguments handler_proxies {G} _.

Definition NewSystemHandler {G} (proxies : gmap string (Proxy G)) : SystemHandler G := {| handler_proxies := proxies |}.

(** The JSON object of a map. *)
Definition json_of_gmap {A} (f : A → json) (m : gmap string A) : json :=
  JObj ((λ '(k, a), (k, f a)) <$> map_to_list m).

Definition breaker_json (metrics : CircuitBreaker.Metrics) : json := JObj
  [("state", JStr (CircuitBreaker.State_String (CircuitBreaker.m_State metrics)));
   ("failure_count", JInt (CircuitBreaker.m_FailureCount metrics));
   ("success_count", JInt (CircuitBreaker.m_SuccessCount metrics));
   ("last_failure_time", JTime (CircuitBreaker.m_LastFailureTime metrics));
   ("last_state_change", JTime (CircuitBreaker.m_LastStateChange metrics))].

Definition status_json (status : HealthCheck.Status) : json := JObj
  [("target", JStr (HealthCheck.Target status)); ("is_healthy", JBool (HealthCheck.IsHealthy status));
   ("last_check", JTime (HealthCheck.LastCheck status)); ("last_success", JTime (HealthCheck.LastSuccess status));
   ("last_failure", JTime (HealthCheck.LastFailure status)); ("failure_count", JInt (HealthCheck.FailureCount status))].

Section handlers.
Context {G C : Type} `{Gin C}.

(** The handler's state: the context, and the proxies that it shares with the
    routes. *)
Definition get_handler : Comp (C * SystemHandler G) (SystemHandler G) := λ s, (s, Ret s.2).

Definition CircuitBreakerStatus : Comp (C * SystemHandler G) unit :=
  h ← get_handler;
  let statuses := json_of_gmap (λ p, breaker_json (CircuitBreakerMetrics p)) (handler_proxies h) in
  on_ctx (JSON 200 statuses).

(** [ResetCircuitBreaker]; the parameter of the route is the path of a service. *)
Definition ResetCircuitBreakerHandler (now : time) : Comp (C * SystemHandler G) unit :=
  c ← get_ctx;
  let service := Param "service" c in
  h ← get_handler;
  match handler_proxies h !! service with
  | None => on_ctx (JSON 404 (error_body "Service not found"))
  | Some proxyInstance =>
      on_comp (put_state {| handler_proxies := <[service := ResetCircuitBreaker now proxyInstance]> (handler_proxies h) |});;
      on_ctx (JSON 200 (JObj [("message", JStr "Circuit breaker reset successfully"); ("service", JStr service)]))
  end.

Definition health_json (visit : gmap string HealthCheck.Status → list (string * HealthCheck.Status)) (p : Proxy G) : json :=
  let targetStatuses := GetHealthStatus p in
  let healthyTargets := GetHealthyTargets p in
  let allTargets := GetAllTargets p in
  JObj [("overall_health", JStr (HealthCheck.HealthStatus_String (OverallHealth p)));
        ("healthy_count", JInt (Z.of_nat (length healthyTargets)));
        ("total_count", JInt (Z.of_nat (length allTargets)));
        ("healthy_targets", JArr (JStr <$> healthyTargets));
        ("all_targets", JArr (JStr <$> allTargets));
        ("target_status", JArr ((λ '(_, status), status_json status) <$> visit targetStatuses))].

Definition ServiceHealthStatus (visit : gmap string HealthCheck.Status → list (string * HealthCheck.Status))
    : Comp (C * SystemHandler G) unit :=
  h ← get_handler;
  on_ctx (JSON 200 (json_of_gmap (health_json visit) (handler_proxies h))).
End handlers.

(** ** Lemmas *)

#[local] Existing Instance HealthCheck.is_healthy_dec.

Lemma field_gmap {A} (f : A → json) (m : gmap string A) (k : string) :
  field k (json_of_gmap f m) = f <$> m !! k.
Proof.
  unfold field, json_of_gmap. rewrite <- (list_to_map_to_list m) at 2.
  induction (map_to_list m) as [|[k' a] l IH]; csimpl; [by rewrite lookup_empty|].
  destruct (String.eqb_spec k' k) as [->|Hne]; [by rewrite lookup_insert_eq|by rewrite lookup_insert_ne].
Qed.

(** ** Properties *)

Section properties.
Context {G C : Type} `{Gin C}.

(** C37: Resetting a breaker closes the one of the service in the request, so that
    its next call is admitted whatever the time, and leaves everything else
    alone: the other services, and the targets, the balancer and the health of
    this one.  A path without a service is answered with 404, and nothing
    changes. *)
Theorem reset_only_named (c : C) (now t1 t2 : time) (h h' : SystemHandler G) (c' : C) (o : go unit)
    (Hrun : ResetCircuitBreakerHandler now (c, h) = ((c', h'), o)) :
  let service := Param "service" c in
  o = Ret tt ∧ (∀ path, path ≠ service → handler_proxies h' !! path = handler_proxies h !! path) ∧
  match handler_proxies h !! service with
  | None => h' = h ∧ c' = JSON 404 (error_body "Service not found") c
  | Some p => ∃ p' body, handler_proxies h' !! service = Some p' ∧ c' = JSON 200 body c ∧
      CircuitBreakerState p' = CircuitBreaker.StateClosed ∧
      (CircuitBreaker.begin_call t1 t2 (circuitBreaker p')).2 = true ∧
      CircuitBreaker.failureCount (circuitBreaker p') = 0 ∧
      targets p' = targets p ∧ loadBalancer p' = loadBalancer p ∧ healthChecker p' = healthChecker p
  end.
Proof.
  intros service. unfold ResetCircuitBreakerHandler in Hrun.
  rewrite (comp_bind_step get_ctx _ (c, h) (c, h) c eq_refl) in Hrun. cbv zeta in Hrun.
  rewrite (comp_bind_step get_handler _ (c, h) (c, h) h eq_refl) in Hrun. fold service in Hrun.
  destruct (handler_proxies h !! service) as [p|]; injection Hrun as <- <- <-; [|done].
  split; [done|]. split; [intros path Hne; by apply lookup_insert_ne|].
  eexists _, _. split; [apply lookup_insert_eq|]. done.
Qed.

(** The status of the breakers is complete and true: the answer has a field
    for each service and no others, with the state and the counters of its
    breaker, and asking does not change anything. *)
Theorem breaker_status_exact (c : C) (h : SystemHandler G) :
  ∃ body, CircuitBreakerStatus (c, h) = ((JSON 200 body c, h), Ret tt) ∧
    ∀ path, field path body = (λ p, breaker_json (CircuitBreakerMetrics p)) <$> handler_proxies h !! path.
Proof.
  exists (json_of_gmap (λ p, breaker_json (CircuitBreakerMetrics p)) (handler_proxies h)).
  split; [reflexivity|]. intros path. apply field_gmap.
Qed.

(** The health report is consistent: after a round of probes, the report of a
    service says healthy exactly when it has targets and every one is, and
    unhealthy exactly when none is; the number of healthy targets is at most the
    number of targets, and each status of the checker is listed once, whatever
    the order in which the map is visited. *)
Theorem health_report_consistent (c : C) (h : SystemHandler G) (path : string) (p : Proxy G)
    (visit : gmap string HealthCheck.Status → list (string * HealthCheck.Status))
    (Hvisit : ∀ m, visit m ≡ₚ map_to_list m) (Hp : handler_proxies h !! path = Some p)
    (Hsettled : HealthCheck.settled (healthChecker p)) :
  ∃ body report overall healthy total statuses, ServiceHealthStatus visit (c, h) = ((JSON 200 body c, h), Ret tt) ∧
    field path body = Some report ∧
    field "overall_health" report = Some (JStr overall) ∧ field "healthy_count" report = Some (JInt healthy) ∧
    field "total_count" report = Some (JInt total) ∧ field "target_status" report = Some (JArr statuses) ∧
    0 <= healthy <= total ∧
    (overall = "healthy" ↔ 0 < total ∧ ∀ t, t ∈ GetAllTargets p → HealthCheck.is_healthy (healthChecker p) t) ∧
    (overall = "unhealthy" ↔ ∀ t, t ∈ GetAllTargets p → ¬ HealthCheck.is_healthy (healthChecker p) t) ∧
    statuses ≡ₚ status_json <$> (map_to_list (GetHealthStatus p)).*2.
Proof.
  exists (json_of_gmap (health_json visit) (handler_proxies h)). do 5 eexists. split; [reflexivity|].
  split; [rewrite field_gmap, Hp; reflexivity|].
  split; [reflexivity|]. split; [reflexivity|]. split; [reflexivity|]. split; [reflexivity|].
  unfold GetHealthyTargets, GetAllTargets, OverallHealth, HealthCheck.GetHealthyTargets, HealthCheck.GetAllTargets.
  set (hc := healthChecker p) in *. unfold HealthCheck.settled in Hsettled.
  pose proof (length_filter (HealthCheck.is_healthy hc) (HealthCheck.targets hc)) as Hle.
  split; [rewrite Hsettled; lia|]. unfold HealthCheck.OverallHealth.
  rewrite <- (filter_keeps_all (HealthCheck.is_healthy hc)), <- (filter_keeps_none (HealthCheck.is_healthy hc)), Hsettled.
  split_and!.
  - repeat case_decide; simpl; split; try done; try lia; intros; try split; lia.
  - repeat case_decide; simpl; split; try done; lia.
  - rewrite Hvisit, <- list_fmap_compose. apply reflexive_eq, list_fmap_ext. by intros ? [? ?] ?.
Qed.
End properties.

(** ** Witnesses *)

Definition example_system (up : string) : SystemHandler Z := NewSystemHandler {[ "/users" := example_proxy up ]}.

Definition service_ctx (path : string) : ctx := {|
  x_req := ∅; x_ip := "10.0.0.7"; x_method := "POST"; x_path := "/admin/circuit-breakers" +:+ path;
  x_params := {[ "service" := path ]}; x_query := ∅; x_json := JNull; x_keys := ∅; x_headers := ∅; x_status := 200;
  x_written := false; x_body := []; x_aborted := false |}.

(** A service whose breaker is open. *)
Definition open_system : SystemHandler Z := NewSystemHandler
  {[ "/users" := set_breaker (CircuitBreaker.setState CircuitBreaker.StateOpen 5
       (circuitBreaker (example_proxy "http://a"))) (example_proxy "http://a") ]}.

Lemma reset_only_named_witness :
  let '((c', h'), o) := ResetCircuitBreakerHandler 9 (service_ctx "/users", open_system) in
  o = Ret tt ∧ (CircuitBreakerState <$> handler_proxies open_system !! "/users") = Some CircuitBreaker.StateOpen ∧
  (CircuitBreakerState <$> handler_proxies h' !! "/users") = Some CircuitBreaker.StateClosed.
Proof.
  destruct (ResetCircuitBreakerHandler 9 (service_ctx "/users", open_system)) as [[c' h'] o] eqn:Hrun.
  destruct (reset_only_named (service_ctx "/users") 9 10 10 open_system h' c' o Hrun) as (Ho & _ & Hp).
  split; [exact Ho|]. split; [vm_compute; reflexivity|].
  change (Param "service" (service_ctx "/users")) with "/users" in Hp.
  destruct (handler_proxies open_system !! "/users") as [p|] eqn:E; [|by vm_compute in E].
  destruct Hp as (p' & body & Hp' & _ & Hs & _). rewrite Hp'. simpl. by rewrite Hs.
Defined.

Lemma health_report_consistent_witness :
  ∃ body report, ServiceHealthStatus map_to_list (service_ctx "/users", example_system "http://a") =
      ((JSON 200 body (service_ctx "/users"), example_system "http://a"), Ret tt) ∧
    field "/users" body = Some report ∧ field "overall_health" report = Some (JStr "degraded").
Proof.
  destruct (health_report_consistent (service_ctx "/users") (example_system "http://a") "/users" (example_proxy "http://a")
    map_to_list) as (body & report & overall & healthy & total & statuses & Hrun & Hf & Ho & _);
    [done|vm_compute; reflexivity|vm_compute; reflexivity|].
  exists body, report. split; [exact Hrun|]. split; [exact Hf|].
  assert (body = json_of_gmap (health_json map_to_list) (handler_proxies (example_system "http://a"))) as ->.
  { unfold ServiceHealthStatus in Hrun. simpl in Hrun. injection Hrun as Hb. exact (eq_sym Hb). }
  rewrite field_gmap in Hf. vm_compute in Hf. injection Hf as <-. reflexivity.
Defined.
