(* ===== verification/Server.v ===== *)
(** * The server

    Models [src/internal/server/server.go]: the proxies that are created from
    the configuration, the routes and the handlers behind them, the middleware
    in front of them, the handlers of the server itself, and its shutdown.

    The state of a request is its context and the world of the file
    [Middleware]: Redis and the table of keys, the request log, and, behind the
    chain, the [App]: the table of users, the proxies and the backends.

    Gin's router is a parameter: [match_route] picks a route of the table for a
    method and a path, and [no_route] is gin's answer when there is none. *)

From S2P Require Import Prelude Strconv Database Crypto Quote Redis Config Float64 Gin ApiKey.
From S2P Require Import RequestLog Middleware Auth Analytics KeyHandlers System.
From S2P Require Url CircuitBreaker LoadBalancer HealthCheck TokenBucket RateLimit Proxy.

(** ** The proxies of the services *)

Section proxies.
Context {G : Type} `{LoadBalancer.Rand G} `{Unicode} `{Url.IpLiteral}.

(** [time.Duration(n) * time.Second]. *)
Definition seconds (n : Z) : duration := wrap64 (n * second).

Definition breaker_config (svc : ServiceConfig) : CircuitBreaker.Config :=
  match svc_CircuitBreaker svc with
  | Some cb => {| CircuitBreaker.MaxFailures := cb_MaxFailures cb; CircuitBreaker.Timeout := seconds (cb_TimeoutSeconds cb);
                  CircuitBreaker.HalfOpenSuccess := cb_HalfOpenSuccess cb |}
  | None => {| CircuitBreaker.MaxFailures := 5; CircuitBreaker.Timeout := 30 * second;
               CircuitBreaker.HalfOpenSuccess := 1 |}
  end.

Definition check_config (svc : ServiceConfig) : HealthCheck.Config :=
  match svc_HealthCheck svc with
  | Some hc => {| HealthCheck.Targets := svc_Targets svc; HealthCheck.Endpoint := hc_Endpoint hc;
                  HealthCheck.Interval := seconds (hc_IntervalSeconds hc);
                  HealthCheck.Timeout := seconds (hc_TimeoutSeconds hc); HealthCheck.MaxFailures := hc_MaxFailures hc |}
  | None => {| HealthCheck.Targets := svc_Targets svc; HealthCheck.Endpoint := "/health";
               HealthCheck.Interval := 10 * second; HealthCheck.Timeout := 5 * second; HealthCheck.MaxFailures := 3 |}
  end.

Definition proxy_config (svc : ServiceConfig) : Proxy.Config := {|
  Proxy.Targets := svc_Targets svc; Proxy.LoadBalancerStrategy := svc_LoadBalancer svc;
  Proxy.CircuitBreakerCfg := breaker_config svc; Proxy.HealthCheckCfg := check_config svc |}.

(** The clock and the first probes of a service that is being set up. *)
Record setup := { u_clock : nat → time; u_probes : list HealthCheck.job }.

(** The body of the loop of [initializeProxies]. *)
Definition initialize (svc : ServiceConfig) (u : setup) (m : gmap string (Proxy.Proxy G))
    : go (gmap string (Proxy.Proxy G)) :=
  if decide (length (svc_Targets svc) = 0%nat) then Ret m else
  match Proxy.NewWithConfig (proxy_config svc) (u_clock u) (u_probes u) with
  | Panic msg => Panic msg
  | Ret (inr _) => Ret m
  | Ret (inl p) => Ret (<[svc_Path svc := p]> m)
  end.

Fixpoint initializeProxies (services : list (ServiceConfig * setup)) (m : gmap string (Proxy.Proxy G))
    : go (gmap string (Proxy.Proxy G)) :=
  match services with
  | [] => Ret m
  | (svc, u) :: services =>
      match initialize svc u m with
      | Panic msg => Panic msg
      | Ret m => initializeProxies services m
      end
  end.
End proxies.

(** ** Routes *)

(** The handlers of the routes. *)
Inductive endpoint :=
  | EHealth
  | ERegister | ELogin | EMe
  | ECreateKey | EListKeys | EGetKey | EUpdateKey | EDeleteKey
  | EStatus | EBreakers | EReset | EServicesHealth
  | ESummary | ETimeSeries | EKeyStats | ELogs
  | EProxy (path : string).

(** A route, with whether its group has the middleware [RequireAuth]. *)
Record route := { rt_method : string; rt_path : string; rt_auth : bool; rt_endpoint : endpoint }.

Definition GET (path : string) (auth : bool) (e : endpoint) : route :=
  {| rt_method := "GET"; rt_path := path; rt_auth := auth; rt_endpoint := e |}.
Definition POST (path : string) (auth : bool) (e : endpoint) : route :=
  {| rt_method := "POST"; rt_path := path; rt_auth := auth; rt_endpoint := e |}.
Definition PUT (path : string) (auth : bool) (e : endpoint) : route :=
  {| rt_method := "PUT"; rt_path := path; rt_auth := auth; rt_endpoint := e |}.
Definition DELETE (path : string) (auth : bool) (e : endpoint) : route :=
  {| rt_method := "DELETE"; rt_path := path; rt_auth := auth; rt_endpoint := e |}.

(** [router.Any]. *)
Definition anyMethods : list string :=
  ["GET"; "POST"; "PUT"; "PATCH"; "HEAD"; "OPTIONS"; "DELETE"; "CONNECT"; "TRACE"].

Definition Any (path : string) (e : endpoint) : list route :=
  (λ method, {| rt_method := method; rt_path := path; rt_auth := false; rt_endpoint := e |}) <$> anyMethods.

(** [setupProxyRoutes], for the paths of the proxies in the order of the map's
    iteration. *)
Definition setupProxyRoutes (paths : list string) : list route :=
  path ← paths; Any (path +:+ "/*proxyPath") (EProxy path) ++ Any path (EProxy path).

(** [setupRoutes]: the groups [/auth] and [/admin] are written out. *)
Definition setupRoutes (paths : list string) : list route :=
  [ GET "/health" false EHealth;
    POST "/auth/register" false ERegister;
    POST "/auth/login" false ELogin;
    GET "/auth/me" false EMe;
    POST "/admin/keys" true ECreateKey;
    GET "/admin/keys" true EListKeys;
    GET "/admin/keys/:id" true EGetKey;
    PUT "/admin/keys/:id" true EUpdateKey;
    DELETE "/admin/keys/:id" true EDeleteKey;
    GET "/admin/status" true EStatus;
    GET "/admin/circuit-breakers" true EBreakers;
    POST "/admin/circuit-breakers/*service" true EReset;
    GET "/admin/services/health" true EServicesHealth;
    GET "/admin/analytics" true ESummary;
    GET "/admin/analytics/timeseries" true ETimeSeries;
    GET "/admin/analytics/keys/:id" true EKeyStats;
    GET "/admin/logs" true ELogs ] ++
  setupProxyRoutes paths.

(** ** The handlers of the server *)

Section own_handlers.
Context {C R D : Type} `{Gin C} `{Redis.Redis R}.

(** [healthCheck]; [dbErr] is the result of the ping of the database. *)
Definition healthCheck (t : time) (dbErr : option string) (now : time) : Comp (C * (R * D)) unit :=
  redisErr ← on_comp (on_redis (Redis.Ping t));
  let redisHealthy := bool_decide (redisErr = None) in
  let dbHealthy := bool_decide (dbErr = None) in
  let '(status, statusCode) := if negb redisHealthy || negb dbHealthy then ("degraded", 503) else ("healthy", 200) in
  on_ctx (JSON statusCode (JObj
    [("status", JStr status); ("service", JStr "api-gateway"); ("version", JStr "1.0.0");
     ("timestamp", JInt (unix now));
     ("checks", JObj [("redis", JBool redisHealthy); ("database", JBool dbHealthy)])])).
End own_handlers.

(** [adminStatus]; [startTime] is when the process began. *)
Definition adminStatus {C R D} `{Gin C} `{KeyStore D} (cfg : Config) (startTime t1 t2 : time)
    : Comp (C * (R * D)) unit :=
  '(keys, _) ← on_comp List_;
  on_ctx (JSON 200 (JObj
    [("gateway", JStr "running"); ("services", JInt (Z.of_nat (length (Services cfg))));
     ("api_keys", JInt (Z.of_nat (length keys))); ("uptime", JFloat (Seconds (time_sub t1 startTime)));
     ("timestamp", JInt (unix t2))])).

(** ** Requests *)

(** What is behind the chain. *)
Record App (U G B : Type) := { app_users : U; app_system : SystemHandler G; app_backend : B }.
Arguments app_users {U G B} _.
Arguments app_system {U G B} _.
Arguments app_backend {U G B} _.

(** The clock readings, the random choices and the outcomes outside the gateway
    of one request to a handler. *)
Record choices := {
  h_auth : time;
  h_t1 : time; h_t2 : time; h_t3 : time; h_t4 : time;
  h_salt : string; h_id : string; h_random : list N + string;
  h_db : option string;
  h_visit : gmap string HealthCheck.Status → list (string * HealthCheck.Status)
}.

Section requests.
Context {C R D L U G B : Type} `{Gin C} `{Redis.Redis R} `{KeyStore D} `{Rfc3339.LocalZone} `{UuidParse} `{LogStore L} `{LogQueries L}
  `{UserStore U} `{Bcrypt} `{Jwt} `{LoadBalancer.Rand G} `{Proxy.Backend C B}.
Context `{Bind C register_request} `{Bind C login_request} `{Bind C create_key_request} `{Bind C update_key_request}.
Context `{Unicode} `{Url.IpLiteral}.

Abbreviation X := (App U G B).
Abbreviation world := ((R * D) * side L X)%type.
Abbreviation M := (Comp (C * world)).

Definition set_app (x : X) (w : world) : world :=
  (w.1, {| spawned := spawned w.2; printed := printed w.2; requestLog := requestLog w.2; app := x |}).

(** The parts of the world that the handlers work on. *)
Definition on_keys : Comp (C * (R * D)) unit → M unit := zoom fst (λ rd w, (rd, w.2)).

Definition on_accounts : Comp (C * U) unit → M unit :=
  zoom (λ w : world, app_users (app w.2))
    (λ u w, set_app {| app_users := u; app_system := app_system (app w.2); app_backend := app_backend (app w.2) |} w).

Definition on_system : Comp (C * SystemHandler G) unit → M unit :=
  zoom (λ w : world, app_system (app w.2))
    (λ h w, set_app {| app_users := app_users (app w.2); app_system := h; app_backend := app_backend (app w.2) |} w).

Definition on_log : Comp (C * L) unit → M unit :=
  zoom (λ w : world, log_db (requestLog w.2))
    (λ l w, let lg := requestLog w.2 in
      (w.1, {| spawned := spawned w.2; printed := printed w.2;
               requestLog := {| logChannel := logChannel lg; bufferSize := bufferSize lg; batch := batch lg; log_db := l |};
               app := app w.2 |})).

(** [p.Handle(c)] for the proxy of a path, which the route has captured. *)
Definition on_proxy (path : string) (m : Comp (C * (Proxy.Proxy G * B)) unit) : M unit := λ '(c, w),
  let x := app w.2 in
  match handler_proxies (app_system x) !! path with
  | None => ((c, w), Ret tt)
  | Some p =>
      let '((c, (p, b)), o) := m (c, (p, app_backend x)) in
      ((c, set_app {| app_users := app_users x;
                      app_system := {| handler_proxies := <[path := p]> (handler_proxies (app_system x)) |};
                      app_backend := b |} w), o)
  end.

Definition run_endpoint (cfg : Config) (auth : AuthService) (startTime : time) (h : choices) (e : endpoint) : M unit :=
  match e with
  | EHealth => on_keys (healthCheck (h_t1 h) (h_db h) (h_t2 h))
  | ERegister => on_accounts (RegisterHandler (h_salt h) (h_id h))
  | ELogin => on_accounts (LoginHandler auth (h_t1 h) (h_t2 h))
  | EMe => on_accounts MeHandler
  | ECreateKey => on_keys (CreateKeyHandler (h_random h) (h_id h))
  | EListKeys => on_keys ListKeysHandler
  | EGetKey => on_keys GetKeyHandler
  | EUpdateKey => on_keys (UpdateKeyHandler (h_t1 h) (h_t2 h))
  | EDeleteKey => on_keys (DeleteKeyHandler (h_t1 h))
  | EStatus => on_keys (adminStatus cfg startTime (h_t1 h) (h_t2 h))
  | EBreakers => on_system CircuitBreakerStatus
  | EReset => on_system (ResetCircuitBreakerHandler (h_t1 h))
  | EServicesHealth => on_system (ServiceHealthStatus (h_visit h))
  | ESummary => on_log (GetSummaryHandler (h_t1 h))
  | ETimeSeries => on_log (GetTimeSeriesHandler (h_t1 h))
  | EKeyStats => on_log (GetAPIKeyStatsHandler (h_t1 h))
  | ELogs => on_log (GetLogsHandler (h_t1 h))
  | EProxy path => on_proxy path (Proxy.Handle (h_t1 h) (h_t2 h) (h_t3 h) (h_t4 h))
  end.

(** The handlers of a route, after those that every request passes. *)
Definition run_route (cfg : Config) (auth : AuthService) (startTime : time) (h : choices) (r : route) : M unit :=
  if rt_auth r then RequireAuth auth (h_auth h) (run_endpoint cfg auth startTime h (rt_endpoint r))
  else run_endpoint cfg auth startTime h (rt_endpoint r).

(** [router.ServeHTTP]: the chain in front of the matched route, or of gin's
    answer to a request without one. *)
Definition ServeRequest (match_route : list (string * string) → string → string → option nat) (no_route : C → C)
    (cfg : Config) (auth : AuthService) (startTime : time) (routes : list route) (e : env) (h : choices) : M unit :=
  c ← get_ctx;
  let patterns := (λ r, (rt_method r, rt_path r)) <$> routes in
  match match_route patterns (req_Method c) (URL_Path c) ≫= λ i, routes !! i with
  | Some r => setupMiddleware cfg e (run_route cfg auth startTime h r)
  | None => setupMiddleware cfg e (on_ctx no_route)
  end.
End requests.

(** ** The life of the server *)

Section life.
Context {L G : Type} `{LoadBalancer.Rand G} `{LogStore L} `{Unicode} `{Url.IpLiteral}.

Record Server := {
  s_config : Config;
  s_authService : AuthService;
  s_systemHandler : SystemHandler G;
  s_logger : logger L;
  s_routes : list route
}.

(** [New]: [us] are the clock readings and probes of the services; [visit] is the
    order in which the map of proxies is visited. *)
Definition New (cfg : Config) (db : L) (us : nat → setup) (visit : gmap string (Proxy.Proxy G) → list string)
    : go Server :=
  match initializeProxies (imap (λ i svc, (svc, us i)) (Services cfg)) ∅ with
  | Panic msg => Panic msg
  | Ret proxies =>
      match InitRequestLogger db 1000 with
      | Panic msg => Panic msg
      | Ret lg => Ret {|
          s_config := cfg;
          s_authService := NewAuthService (jwt_Secret (JWT cfg)) (jwt_ExpiryHours (JWT cfg));
          s_systemHandler := NewSystemHandler proxies; s_logger := lg; s_routes := setupRoutes (visit proxies) |}
      end
  end.

(** The loop of [Shutdown], over the paths in the order of the map's iteration. *)
Fixpoint stop_all (paths : list string) : Comp (gmap string (Proxy.Proxy G)) unit :=
  match paths with
  | [] => mret tt
  | path :: paths =>
      proxies ← get_state;
      match proxies !! path with
      | None => stop_all paths
      | Some p =>
          let '(p, o) := Proxy.Stop p in
          put_state (<[path := p]> proxies);;
          match o with
          | Panic msg => panic msg
          | Ret _ => stop_all paths
          end
      end
  end.

(** [Shutdown]; [http] is the result of [httpServer.Shutdown], if the server was
    started. *)
Definition Shutdown (paths : list string) (http : option (option string))
    : Comp (gmap string (Proxy.Proxy G)) (option string) :=
  stop_all paths;;
  mret match http with Some err => err | None => None end.
End life.
Arguments Server L G : clear implicits.

(** The parameters of [http.Server] in [Run]. *)
Record http_server := {
  Addr : string; ReadTimeout : duration; WriteTimeout : duration; IdleTimeout : duration
}.

Definition Run (addr : string) : http_server :=
  {| Addr := addr; ReadTimeout := 15 * second; WriteTimeout := 15 * second; IdleTimeout := 15 * second |}.

(** ** Who may change the keys *)

#[local] Existing Instance prod_redis.

Section keys.
Context {C R D L U G B : Type} `{GinLaws C} `{Redis.Redis R} `{KeyStoreLaws D} `{Rfc3339.LocalZone} `{UuidParse} `{LogStore L} `{LogQueries L}
  `{UserStore U} `{Bcrypt} `{Jwt} `{LoadBalancer.Rand G} `{Proxy.Backend C B}.
Context `{Bind C register_request} `{Bind C login_request} `{Bind C create_key_request} `{Bind C update_key_request}.
Context `{Unicode} `{Url.IpLiteral}.
Context (m : gmap string APIKey).

Abbreviation world := ((R * D) * side L (App U G B))%type.

(** The table of keys is [m]. *)
Definition keys_are (s : C * world) : Prop := rows s.2.1.2 = m.

Lemma rows_Validate (key : string) (t1 t2 : time) :
  preserves (λ s : R * D, rows s.2 = m) (Validate key t1 t2).
Proof.
  assert (∀ A (f : Comp R A), preserves (λ s : R * D, rows s.2 = m) (on_redis f)) as Hredis.
  { intros A f [r d] Hr. unfold on_redis. by destruct (f r). }
  assert (∀ h, preserves (λ s : R * D, rows s.2 = m) (FindByHash h)) as Hfind.
  { intros h [r d] Hr. destruct (FindByHash_ok h r d) as (d' & o & HF & Hd & _). rewrite HF. simpl in *. congruence. }
  unfold Validate. solve_preserves.
Qed.

Lemma stable_keys : stable (λ w : world, rows w.1.2 = m).
Proof.
  intros t cm [[r d] s] Hr. unfold rd_exec, prod_redis, rd_exec, prod_redis. by destruct (H1 t cm r).
Qed.

(** The chain changes no key, and passes a request on with its properties. *)
Section chain.
Context (Q : C → Prop) (HQ : request_property Q).

Abbreviation I := (λ s : C * world, Q s.1 ∧ rows s.2.1.2 = m).

Lemma leads_chain (cfg : Config) (e : env) (handler : Comp (C * world) unit) :
  leads I keys_are handler → leads I keys_are (setupMiddleware cfg e handler).
Proof.
  intros Hh. assert (∀ s, I s → keys_are s) as HI by by intros s [].
  assert (∀ f, (∀ c, Q c → Q (f c)) → preserves I (on_ctx f)) as Hctx.
  { intros f Hf [c w] [Hc Hr]. by split; [apply Hf|]. }
  assert (preserves I get_ctx) as Hget by by intros [c w].
  assert (preserves keys_are get_ctx) as Hget' by by intros [c w].
  assert (∀ f, preserves keys_are (on_ctx f)) as Hctx' by by intros f [c w].
  assert (∀ f, preserves keys_are (on_side f)) as Hside by by intros f [c [rd s]].
  assert (leads I keys_are (APIKeyValidator (e_validate1 e) (e_validate2 e)
    (RateLimit.RateLimitWithTier cfg (e_limit e) handler))) as Hv.
  { assert (leads I keys_are (RateLimit.RateLimitWithTier cfg (e_limit e) handler)) as Hl.
    { by apply (RateLimit.leads_RateLimit (λ w : world, rows w.1.2 = m) Q keys_are cfg (e_limit e) handler stable_keys). }
    unfold APIKeyValidator. apply leads_bind; [done..|]. intros c. cbv zeta. case_decide; [done|].
    apply leads_bind; [done| |].
    - intros [c' [rd s]] [Hc Hr]. pose proof (rows_Validate (TrimSpace (GetHeader "X-API-Key" c))
        (e_validate1 e) (e_validate2 e) rd Hr) as HV. unfold on_service, on_comp.
      by destruct (Validate _ _ _ rd) as [rd' a].
    - intros [[k|] [e'|]]; try (apply leads_weaken; [done|]; apply Hctx; intros c' Hc'; unfold invalid_key;
        by apply (rp_Abort _ HQ), (rp_JSON _ HQ)).
      apply leads_bind; [done| |intros []; apply leads_bind; [done| |by intros []]].
      + apply Hctx. intros c' Hc'. unfold with_key. by repeat apply (rp_Set _ HQ).
      + by intros [c' [rd s]] [Hc' Hr]. }
  unfold setupMiddleware, Recovery, RequestID, Logger, RequestLogger, CORS, print.
  apply leads_recover; [|intros msg; solve_preserves].
  apply leads_bind; [done..|]. intros c. cbv zeta. apply leads_bind; [done| |intros []].
  { apply Hctx. intros c' Hc'. by apply (rp_Header _ HQ), (rp_Set _ HQ). }
  apply leads_bind; [done..|]. intros c1. cbv zeta.
  apply leads_then; [|intros []; solve_preserves]. apply leads_then; [|intros []; solve_preserves].
  apply leads_bind; [done| |intros []].
  { apply Hctx. intros c' Hc'. by repeat apply (rp_Header _ HQ). }
  apply leads_bind; [done..|]. intros c2. case_decide; [|done].
  apply leads_weaken; [done|]. apply Hctx. intros c' Hc'. by apply (rp_AbortWithStatus _ HQ).
Qed.
End chain.
End keys.

(** ** Properties *)

Lemma public_routes (paths : list string) (r : route) :
  r ∈ setupRoutes paths → rt_auth r = false →
  rt_endpoint r ∈ [EHealth; ERegister; ELogin; EMe] ∨ ∃ path, path ∈ paths ∧ rt_endpoint r = EProxy path.
Proof.
  unfold setupRoutes. rewrite elem_of_app. intros [Hr|Hr] Ha.
  - left. rewrite !elem_of_cons, elem_of_nil in Hr.
    repeat destruct Hr as [->|Hr]; (done || set_solver).
  - right. unfold setupProxyRoutes in Hr. apply list_elem_of_bind in Hr as (path & Hr & Hp). exists path. split; [done|].
    unfold Any in Hr. apply elem_of_app in Hr as [Hr|Hr]; apply list_elem_of_fmap in Hr as (method & -> & _); done.
Qed.

Lemma healthCheck_eq {C R D : Type} `{Gin C} `{Redis.Redis R} (t : time) (dbErr : option string) (now : time)
    (c : C) (r r' : R) (d : D) (redisErr : option Redis.redis_error) :
  Redis.Ping t r = (r', Ret redisErr) →
  ∃ body, healthCheck t dbErr now (c, (r, d)) =
    ((JSON (if decide (redisErr = None ∧ dbErr = None) then 200 else 503) body c, (r', d)), Ret tt).
Proof.
  intros Hp. unfold healthCheck.
  rewrite (comp_bind_step _ _ _ (c, (r', d)) redisErr) by (unfold on_comp, on_redis; by rewrite Hp).
  by destruct redisErr, dbErr; eexists.
Qed.

Lemma healthCheck_run {C R D : Type} `{Gin C} `{Redis.Redis R} (t : time) (dbErr : option string) (now : time)
    (c : C) (r : R) (d : D) :
  ∃ c' r', healthCheck t dbErr now (c, (r, d)) = ((c', (r', d)), Ret tt).
Proof.
  destruct (Redis.rd_exec t Redis.PING r) as [r' rep] eqn:Hx.
  destruct (healthCheck_eq t dbErr now c r r' d (Redis.err_of rep)) as [body HH]; [unfold Redis.Ping; by rewrite Hx|eauto].
Qed.

Section security.
Context {C R D L U G B : Type} `{GinLaws C} `{Redis.Redis R} `{KeyStoreLaws D} `{Rfc3339.LocalZone} `{UuidParse} `{LogStore L} `{LogQueries L}
  `{UserStore U} `{Bcrypt} `{Jwt} `{LoadBalancer.Rand G} `{Proxy.Backend C B}.
Context `{Bind C register_request} `{Bind C login_request} `{Bind C create_key_request} `{Bind C update_key_request}.
Context `{Unicode} `{Url.IpLiteral}.

Abbreviation world := ((R * D) * side L (App U G B))%type.

(** The header of a request does not carry a token that is valid at [now]. *)
Definition no_token (auth : AuthService) (now : time) (hdr : string) : Prop :=
  ∀ tok cl, hdr = "Bearer " +:+ tok → ValidateToken auth now tok ≠ inl cl.

Lemma public_endpoint (m : gmap string APIKey) (cfg : Config) (auth : AuthService) (st : time) (h : choices) (e : endpoint) :
  e ∈ [EHealth; ERegister; ELogin; EMe] ∨ (∃ path, e = EProxy path) →
  preserves (keys_are (C := C) (R := R) (D := D) (L := L) (U := U) (G := G) (B := B) m)
    (run_endpoint cfg auth st h e).
Proof.
  assert (∀ A (n : Comp (C * U) A) get put, (∀ u w, (put u w).1 = w.1) →
    preserves (keys_are m) (zoom (W := world) get put n)) as Hzoom.
  { intros A n get put Hput [c w] Hk. unfold zoom. destruct (n (c, get w)) as [[c' u] a].
    unfold keys_are in *. simpl in *. by rewrite Hput. }
  intros [He|[path ->]].
  - rewrite !elem_of_cons, elem_of_nil in He.
    repeat destruct He as [->|He]; try done; simpl; try (by apply Hzoom).
    intros [c [[r d] sd]] Hk. cbn [run_endpoint]. unfold on_keys, zoom. cbn [fst].
    destruct (healthCheck_run (h_t1 h) (h_db h) (h_t2 h) c r d) as (c' & r' & ->). exact Hk.
  - intros [c w] Hk. simpl. unfold on_proxy. destruct (handler_proxies _ !! path) as [p|]; [|done].
    by destruct (Proxy.Handle _ _ _ _ _) as [[c' [p' b]] o].
Qed.

Lemma guarded_route (m : gmap string APIKey) (cfg : Config) (auth : AuthService) (st : time) (h : choices)
    (paths : list string) (r : route) :
  r ∈ setupRoutes paths →
  leads (λ s : C * world, no_token auth (h_auth h) (GetHeader "Authorization" s.1) ∧ rows s.2.1.2 = m) (keys_are m)
    (run_route cfg auth st h r).
Proof.
  intros Hr [c w] [Hno Hk]. unfold run_route. destruct (rt_auth r) eqn:Ha.
  - pose proof (RequireAuth_eq auth (h_auth h) (run_endpoint cfg auth st h (rt_endpoint r)) c w) as Heq.
    destruct (bearer c) as [tok|] eqn:Hb.
    + destruct (ValidateToken auth (h_auth h) tok) as [cl|e] eqn:HV; [|by rewrite Heq].
      destruct (Hno tok cl); [by apply bearer_header|done].
    + destruct Heq as [msg ->]. done.
  - apply (public_endpoint m); [|done]. destruct (public_routes paths r Hr Ha) as [He|(path & _ & He)]; eauto.
Qed.

(** While it is handled, a request without a valid token leaves the table as it is. *)
Lemma serve_keys (match_route : list (string * string) → string → string → option nat) (no_route : C → C)
    (cfg : Config) (auth : AuthService) (st : time) (paths : list string) (e : env) (h : choices)
    (c c' : C) (w w' : world) (o : go unit) :
  no_token auth (h_auth h) (GetHeader "Authorization" c) →
  ServeRequest match_route no_route cfg auth st (setupRoutes paths) e h (c, w) = ((c', w'), o) →
  rows w'.1.2 = rows w.1.2.
Proof.
  intros Htoken Hrun. set (m := rows w.1.2). change (keys_are m (c', w')).
  replace (c', w') with (((c', w'), o).1) by done. rewrite <- Hrun.
  unfold ServeRequest. rewrite (comp_bind_step get_ctx _ (c, w) (c, w) c eq_refl). cbv zeta.
  set (Q := λ c : C, no_token auth (h_auth h) (GetHeader "Authorization" c)).
  assert (request_property Q) as HQ by apply (request_header "Authorization" (no_token auth (h_auth h))).
  destruct (_ ≫= _) as [r|] eqn:Hm; apply (leads_chain m Q HQ); try done.
  - apply (guarded_route m) with paths. destruct (match_route _ _ _) as [i|]; [|done].
    by apply list_elem_of_lookup_2 with i.
  - by intros [c1 w1] [_ Hk].
Qed.

(** A key without the time of its last use. *)
Definition forget_use (k : APIKey) : APIKey := {|
  ID := ID k; KeyHash := KeyHash k; key_Name := key_Name k; CreatedBy := CreatedBy k;
  Tier := Tier k; IsActive := IsActive k; CreatedAt := CreatedAt k; LastUsedAt := None |}.

Lemma spawned_keys (i : nat) (now : time) (c c' : C) (w w' : world) (o : go unit) :
  run_spawned i now (c, w) = ((c', w'), o) → forget_use <$> rows w'.1.2 = forget_use <$> rows w.1.2.
Proof.
  destruct w as [[r d] s]. unfold run_spawned. destruct (spawned s !! i) as [id|]; [|by intros [= <- <- <-]].
  unfold UpdateLastUsed, repo_UpdateLastUsed, on_db. comp_unfold.
  pose proof (touch_key_frame d id now) as Ht. destruct (touch_key id now d) as [d' err]. intros [= <- <- <-]. simpl in *.
  destruct Ht as [->|[t ->]]; [done|]. apply map_eq. intros j. rewrite !lookup_fmap, lookup_alter.
  case_decide; subst; [|done]. by destruct (rows d !! j).
Qed.

(** What clients without a valid token do to the world: requests are handled, and
    the goroutines that record the use of a key run after them, in any order. *)
Inductive traffic (match_route : list (string * string) → string → string → option nat) (no_route : C → C)
    (cfg : Config) (auth : AuthService) (st : time) (paths : list string) : world → world → Prop :=
  | traffic_request e h c c' w w' o :
      no_token auth (h_auth h) (GetHeader "Authorization" c) →
      ServeRequest match_route no_route cfg auth st (setupRoutes paths) e h (c, w) = ((c', w'), o) →
      traffic match_route no_route cfg auth st paths w w'
  | traffic_goroutine i now (c c' : C) w w' o :
      run_spawned i now (c, w) = ((c', w'), o) → traffic match_route no_route cfg auth st paths w w'.

(** C5: Nobody changes the keys without logging in: whatever clients send to
    whatever routes, with API keys or not, as long as no request carries a token
    that is valid, the table of keys stays as it is but for the times at which
    keys were last used, which the goroutines of the API key middleware write. *)
Theorem keys_need_token (match_route : list (string * string) → string → string → option nat) (no_route : C → C)
    (cfg : Config) (auth : AuthService) (st : time) (paths : list string) (w w' : world)
    (Hrun : rtc (traffic match_route no_route cfg auth st paths) w w') :
  forget_use <$> rows w'.1.2 = forget_use <$> rows w.1.2.
Proof.
  induction Hrun as [w|w w1 w' Hstep _ IH]; [done|]. rewrite IH.
  destruct Hstep as [e h c c' w w1 o Hno Hs|i now c c' w w1 o Hs].
  - by rewrite (serve_keys _ _ _ _ _ _ _ _ _ _ _ _ _ Hno Hs).
  - by apply spawned_keys in Hs.
Qed.

(** C27: The administration is closed: on every route but those for health, for
    accounts and for the services, a request without a valid token is answered
    with 401, aborted, and changes nothing. *)
Theorem admin_closed (cfg : Config) (auth : AuthService) (st : time) (h : choices) (paths : list string) (r : route)
    (c : C) (w : world) (Hr : r ∈ setupRoutes paths) (Hwritten : Written c = false)
    (Hadmin : rt_endpoint r ∉ [EHealth; ERegister; ELogin; EMe]) (Hservice : ∀ path, rt_endpoint r ≠ EProxy path)
    (Htoken : ∀ tok cl, GetHeader "Authorization" c = "Bearer " +:+ tok → ValidateToken auth (h_auth h) tok ≠ inl cl) :
  ∃ c', run_route cfg auth st h r (c, w) = ((c', w), Ret tt) ∧ Status c' = 401 ∧ IsAborted c' = true.
Proof.
  unfold run_route. destruct (rt_auth r) eqn:Ha.
  - pose proof (RequireAuth_eq auth (h_auth h) (run_endpoint cfg auth st h (rt_endpoint r)) c w) as Heq.
    destruct (bearer c) as [tok|] eqn:Hb; [destruct (ValidateToken auth (h_auth h) tok) as [cl|e] eqn:HV|].
    + destruct (Htoken tok cl); [by apply bearer_header|done].
    + eexists. split; [done|]. by apply deny_response.
    + destruct Heq as [msg Heq]. eexists. split; [done|]. by apply deny_response.
  - destruct (public_routes paths r Hr Ha) as [He|(path & _ & He)]; [done|by destruct (Hservice path)].
Qed.

(** A user cannot ask who they are: the route [/auth/me] lacks the middleware
    that puts the user into the context, so it answers 401 also to a request
    with a valid token, and the table of users is not asked. *)
Theorem me_unauthorized (cfg : Config) (auth : AuthService) (st : time) (h : choices) (paths : list string) (r : route)
    (c : C) (w : world) (Hr : r ∈ setupRoutes paths) (Hme : rt_endpoint r = EMe) (Hfresh : Gin.Get "user_id" c = None) :
  run_route cfg auth st h r (c, w) = ((JSON 401 (error_body "Unauthorized") c, w), Ret tt).
Proof.
  assert (rt_auth r = false) as Ha.
  { unfold setupRoutes in Hr. apply elem_of_app in Hr as [Hr|Hr].
    - rewrite !elem_of_cons, elem_of_nil in Hr. by repeat destruct Hr as [->|Hr].
    - unfold setupProxyRoutes in Hr. apply list_elem_of_bind in Hr as (path & Hr & _).
      unfold Any in Hr. apply elem_of_app in Hr as [Hr|Hr]; by apply list_elem_of_fmap in Hr as (method & -> & _). }
  unfold run_route. rewrite Ha, Hme. simpl. unfold on_accounts, zoom, MeHandler.
  rewrite (comp_bind_step get_ctx _ (c, app_users (app w.2)) (c, app_users (app w.2)) c eq_refl). rewrite Hfresh.
  simpl. by destruct w as [rd [sp pr lg [us sy b]]].
Qed.
End security.

(** ** Creation and shutdown *)

Section services.
Context {G : Type} `{LoadBalancer.RandLaws G} `{Unicode} `{Url.IpLiteral}.

Definition known_strategy (name : string) : bool :=
  bool_decide (name ∈ ["round-robin"; "round_robin"; ""; "random"; "least-connection"; "least_connections"]).

Definition parses (t : string) : bool := match Url.Parse t with inl _ => true | inr _ => false end.

(** A service that gets a proxy. *)
Definition usable (svc : ServiceConfig) : bool :=
  bool_decide (svc_Targets svc ≠ []) && known_strategy (svc_LoadBalancer svc) && forallb parses (svc_Targets svc).

(** A service whose numbers fit, and the first round of its probes. *)
Definition setup_ok (svc : ServiceConfig) (u : setup) : Prop :=
  ("" ∉ svc_Targets svc) ∧ Z.of_nat (length (svc_Targets svc)) <= max_int64 ∧
  in_int64 (HealthCheck.MaxFailures (check_config svc)) ∧ (HealthCheck.j_target <$> u_probes u) ≡ₚ svc_Targets svc.

(** The proxy [p] is that of the service [svc]. *)
Definition serves (n : nat) (svc : ServiceConfig) (p : Proxy.Proxy G) : Prop :=
  Proxy.ready n p ∧ Proxy.CircuitBreakerState p = CircuitBreaker.StateClosed ∧
  Proxy.GetAllTargets p = svc_Targets svc ∧
  HealthCheck.running (Proxy.healthChecker p) = true ∧ HealthCheck.stopClosed (Proxy.healthChecker p) = false.

Lemma NewStrategy_known (name : string) (now : time) :
  (∃ s, LoadBalancer.NewStrategy (G := G) name now = inl s) ↔ known_strategy name = true.
Proof.
  unfold LoadBalancer.NewStrategy, known_strategy. rewrite bool_decide_eq_true.
  repeat case_decide; split; intros; try (by eexists); try (by set_solver).
Qed.

Lemma initialize_spec (n : nat) (svc : ServiceConfig) (u : setup) (m : gmap string (Proxy.Proxy G)) :
  Z.of_nat n <= max_int64 → setup_ok svc u →
  if usable svc then ∃ p, initialize svc u m = Ret (<[svc_Path svc := p]> m) ∧ serves n svc p
  else initialize svc u m = Ret m.
Proof.
  intros Hn (Hnamed & Hlen & Hmax & Hround). unfold initialize.
  assert (HealthCheck.Targets (Proxy.HealthCheckCfg (proxy_config svc)) = svc_Targets svc) as Ht
    by (simpl; unfold check_config; by destruct (svc_HealthCheck svc)).
  pose proof (Proxy.new_proxy_ready (proxy_config svc) (u_clock u) (u_probes u) n
    (or_intror Ht) Hnamed Hlen Hmax Hn Hround) as Hnew.
  destruct (usable svc) eqn:Hu; unfold usable in Hu.
  - apply andb_true_iff in Hu as [[Hne%bool_decide_eq_true Hs]%andb_true_iff Hp].
    rewrite decide_False by (intros E; apply Hne; by apply length_zero_iff_nil).
    destruct (Proxy.NewWithConfig _ _ _) as [[p|err]|msg]; [|exfalso|done].
    + destruct Hnew as (? & ? & ? & ? & ? & ?). by exists p.
    + destruct Hnew as [|[Hx|(t & Hin & Hx)]]; [done| |].
      * apply (NewStrategy_known _ (u_clock u 1%nat)) in Hs as [s Hs]. simpl in Hx. by rewrite Hs in Hx.
      * rewrite forallb_forall in Hp. apply list_elem_of_In in Hin. specialize (Hp t Hin).
        unfold parses in Hp. by rewrite Hx in Hp.
  - case_decide as He; [done|]. unfold Proxy.NewWithConfig in *. simpl in *.
    case_decide as He'; [by rewrite He' in He|].
    destruct (LoadBalancer.NewStrategy _ _) as [s|err] eqn:Hs; [|done].
    assert (known_strategy (svc_LoadBalancer svc) = true) as Hk by (apply (NewStrategy_known _ (u_clock u 1%nat)); eauto).
    rewrite bool_decide_eq_true_2, Hk in Hu by done. simpl in Hu.
    pose proof (Proxy.make_proxies_spec (svc_Targets svc) ∅) as Hps.
    destruct (Proxy.make_proxies (svc_Targets svc) ∅) as [ps|err]; [exfalso|done].
    destruct Hps as [_ Hall]. assert (forallb parses (svc_Targets svc) = true) as Hf; [|by rewrite Hf in Hu].
    apply forallb_forall. intros t Hin%list_elem_of_In. unfold parses. by destruct (Hall t Hin) as [? ->].
Qed.

(** The last usable service of a path. *)
Definition service_at (path : string) (services : list ServiceConfig) : option ServiceConfig :=
  last (filter (λ svc, svc_Path svc = path ∧ usable svc = true) services).

Lemma initializeProxies_spec (n : nat) (services : list (ServiceConfig * setup)) :
  Z.of_nat n <= max_int64 → (∀ svc u, (svc, u) ∈ services → setup_ok svc u) →
  ∃ m, initializeProxies services ∅ = Ret m ∧
    ∀ path, match service_at path services.*1 with
            | Some svc => ∃ p, m !! path = Some p ∧ serves n svc p
            | None => m !! path = None
            end.
Proof.
  intros Hn Hok. induction services as [|[svc u] services IH] using rev_ind.
  - exists ∅. split; [done|]. intros path. done.
  - destruct IH as (m & Hm & Hspec); [intros svc' u' Hin; apply Hok, elem_of_app; by left|].
    assert (setup_ok svc u) as Hset by (apply Hok, elem_of_app; right; by apply list_elem_of_singleton).
    pose proof (initialize_spec n svc u m Hn Hset) as Hi.
    assert (∀ m', initialize svc u m = Ret m' →
      initializeProxies (services ++ [(svc, u)]) ∅ = Ret m') as Happ.
    { intros m' Hm'. revert Hm Hm'. clear. generalize (∅ : gmap string (Proxy.Proxy G)).
      induction services as [|[svc' u'] services IH]; intros m0 Hm Hm'; simpl in *; [simplify_eq; by rewrite Hm'|].
      destruct (initialize svc' u' m0); [by apply IH|done]. }
    unfold service_at in *. destruct (usable svc) eqn:Hu.
    + destruct Hi as (p & Hi & Hp). exists (<[svc_Path svc := p]> m). split; [by apply Happ|]. intros path.
      rewrite fmap_app, filter_app. cbn [fmap list_fmap filter list_filter].
      destruct (decide (svc_Path svc = path)) as [<-|Hne].
      * rewrite decide_True by done. rewrite last_snoc. exists p. by rewrite lookup_insert_eq.
      * rewrite decide_False by naive_solver. rewrite app_nil_r, lookup_insert_ne by done. apply Hspec.
    + exists m. split; [by apply Happ|]. intros path. rewrite fmap_app, filter_app. cbn [fmap list_fmap filter list_filter].
      rewrite decide_False by (simpl; rewrite Hu; by intros []). rewrite app_nil_r. apply Hspec.
Qed.

(** C23: Every usable service gets a proxy, and a service that is not (without
    targets, with a target that is no URL or with an unknown strategy) does not
    prevent the others from being served: the proxy of a path is ready, its
    breaker closed and its checker running, and its targets are those of the
    last usable service with that path. *)
Theorem services_ready (n : nat) (services : list (ServiceConfig * setup))
    (Hn : Z.of_nat n <= max_int64) (Hok : ∀ svc u, (svc, u) ∈ services → setup_ok svc u) :
  ∃ m, initializeProxies services ∅ = Ret m ∧
    ∀ path, match service_at path services.*1 with
            | Some svc => ∃ p, m !! path = Some p ∧ serves n svc p
            | None => m !! path = None
            end.
Proof. by apply initializeProxies_spec. Qed.

(** The services of [src/config.json]. *)
Lemma repository_setup_ok (us : nat → setup) :
  (∀ i svc, Services repository_config !! i = Some svc →
     (HealthCheck.j_target <$> u_probes (us i)) ≡ₚ svc_Targets svc) →
  ∀ svc u, (svc, u) ∈ imap (λ i svc, (svc, us i)) (Services repository_config) → setup_ok svc u.
Proof.
  intros Hus svc u Hin. apply elem_of_lookup_imap in Hin as (i & svc' & [= -> ->] & Hi). specialize (Hus i svc' Hi).
  destruct i as [|[|i]]; simpl in Hi; simplify_eq;
    (split_and!; [set_solver|vm_compute; discriminate|split; vm_compute; discriminate|exact Hus]).
Qed.

Lemma repository_services (n : nat) (us : nat → setup) :
  Z.of_nat n <= max_int64 →
  (∀ i svc, Services repository_config !! i = Some svc →
     (HealthCheck.j_target <$> u_probes (us i)) ≡ₚ svc_Targets svc) →
  ∃ m pu po, initializeProxies (imap (λ i svc, (svc, us i)) (Services repository_config)) ∅ = Ret m ∧
    m !! "/api/users" = Some pu ∧ m !! "/api/orders" = Some po ∧
    Proxy.ready n pu ∧ Proxy.ready n po ∧
    Proxy.GetAllTargets pu = ["http://localhost:3001"; "http://localhost:3002"; "http://localhost:3003"] ∧
    Proxy.GetAllTargets po = ["http://localhost:3004"; "http://localhost:3005"] ∧
    ∀ path, path ≠ "/api/users" → path ≠ "/api/orders" → m !! path = None.
Proof.
  intros Hn Hus.
  destruct (initializeProxies_spec n (imap (λ i svc, (svc, us i)) (Services repository_config)) Hn) as (m & Hm & Hspec).
  { by apply repository_setup_ok. }
  exists m. pose proof (Hspec "/api/users") as Hu. pose proof (Hspec "/api/orders") as Ho.
  change (service_at "/api/users" _) with (Services repository_config !! 0%nat) in Hu.
  change (service_at "/api/orders" _) with (Services repository_config !! 1%nat) in Ho.
  destruct Hu as (pu & Hpu & Hu & _ & Htu & _), Ho as (po & Hpo & Ho & _ & Hto & _).
  exists pu, po. split_and!; [done..|]. intros path Hne1 Hne2. specialize (Hspec path).
  change ((imap _ _).*1) with (Services repository_config) in Hspec. unfold service_at, repository_config in Hspec.
  cbn [Services] in Hspec. by rewrite !filter_cons_False in Hspec by (cbn [svc_Path]; by intros [? _]).
Qed.
End services.

Section shutdown.
Context {G : Type}.

(** A checker that can be stopped: its channel was not closed before. *)
Definition stoppable (p : Proxy.Proxy G) : Prop :=
  HealthCheck.running (Proxy.healthChecker p) = true → HealthCheck.stopClosed (Proxy.healthChecker p) = false.

Lemma stop_spec (p : Proxy.Proxy G) :
  stoppable p → ∃ p', Proxy.Stop p = (p', Ret tt) ∧ HealthCheck.running (Proxy.healthChecker p') = false ∧
    Proxy.GetAllTargets p' = Proxy.GetAllTargets p.
Proof.
  intros Hs. unfold Proxy.Stop, HealthCheck.Stop. comp_unfold. unfold stoppable in Hs.
  destruct (HealthCheck.running (Proxy.healthChecker p)) eqn:Hr.
  - rewrite Hs by done. by eexists.
  - eexists. split; [done|]. by destruct p.
Qed.

Abbreviation stopped p := (HealthCheck.running (Proxy.healthChecker p) = false).

Lemma stop_all_spec (paths : list string) (m : gmap string (Proxy.Proxy G)) :
  map_Forall (λ _, stoppable) m →
  ∃ m', stop_all paths m = (m', Ret tt) ∧ dom m' = dom m ∧
    ∀ path p, m' !! path = Some p → stoppable p ∧
      (path ∈ paths ∨ (∀ p0, m !! path = Some p0 → stopped p0) → stopped p).
Proof.
  revert m. induction paths as [|path paths IH]; intros m Hm; simpl.
  - exists m. split_and!; [done|done|]. intros q p Hq. split; [by apply (Hm q)|]. intros [Hn|Hn]; [set_solver|auto].
  - comp_unfold. destruct (m !! path) as [p|] eqn:Hp.
    + destruct (stop_spec p (Hm path p Hp)) as (p' & HS & Hr & _). rewrite HS.
      assert (stoppable p') as Hs' by (intros Hr'; congruence).
      destruct (IH (<[path := p']> m)) as (m' & HA & Hd & Hrun); [by apply map_Forall_insert_2|].
      exists m'. rewrite HA. split_and!; [done|rewrite Hd, dom_insert_L; apply elem_of_dom_2 in Hp; set_solver|].
      intros q p2 Hq. destruct (Hrun q p2 Hq) as [Hsp Hstop]. split; [done|]. intros Hor. apply Hstop.
      destruct (decide (q = path)) as [->|Hne].
      * right. intros p0. rewrite lookup_insert_eq. by intros [= <-].
      * rewrite lookup_insert_ne by done. destruct Hor as [[->|]%elem_of_cons|]; [done|by left|by right].
    + destruct (IH m Hm) as (m' & HA & Hd & Hrun). exists m'. split_and!; [done|done|].
      intros q p2 Hq. destruct (Hrun q p2 Hq) as [Hsp Hstop]. split; [done|]. intros Hor. apply Hstop.
      destruct Hor as [[->|]%elem_of_cons|]; [|by left|by right]. right. by rewrite Hp.
Qed.

(** C38: Shutting down stops the health checks of every service, in whatever order
    the map is visited, and returns what the HTTP server returns; shutting down
    twice does not panic. *)
Theorem shutdown_stops (paths : list string) (http : option (option string)) (m : gmap string (Proxy.Proxy G))
    (Hm : ∀ path p, m !! path = Some p → stoppable p) (Hpaths : ∀ path, is_Some (m !! path) → path ∈ paths) :
  ∃ m', Shutdown paths http m = (m', Ret (default None http)) ∧
    (∀ path, is_Some (m' !! path) ↔ is_Some (m !! path)) ∧
    (∀ path p, m' !! path = Some p → HealthCheck.running (Proxy.healthChecker p) = false) ∧
    ∃ m2, Shutdown paths http m' = (m2, Ret (default None http)).
Proof.
  destruct (stop_all_spec paths m) as (m' & HA & Hd & Hrun); [intros path p; apply Hm|].
  assert (∀ path, is_Some (m' !! path) ↔ is_Some (m !! path)) as Hsome.
  { intros path. by rewrite <- !elem_of_dom, Hd. }
  exists m'. split; [unfold Shutdown; rewrite (comp_bind_step _ _ _ _ _ HA); by destruct http|].
  split; [done|]. split.
  - intros path p Hp. apply (Hrun path p Hp). left. apply Hpaths, Hsome. eauto.
  - destruct (stop_all_spec paths m') as (m2 & HA2 & _); [intros path p Hp; by apply (Hrun path p)|].
    exists m2. unfold Shutdown. rewrite (comp_bind_step _ _ _ _ _ HA2). by destruct http.
Qed.
End shutdown.

(** The gateway reports itself healthy, with status 200, exactly when both
    Redis and the database answer; otherwise the status is 503. *)
Theorem health_check_status {C R D : Type} `{GinLaws C} `{Redis.Redis R} (t : time) (dbErr : option string) (now : time)
    (c : C) (r r' : R) (d : D) (redisErr : option Redis.redis_error)
    (Hping : Redis.Ping t r = (r', Ret redisErr)) (Hwritten : Written c = false) :
  ∃ c', healthCheck t dbErr now (c, (r, d)) = ((c', (r', d)), Ret tt) ∧
    Status c' = if decide (redisErr = None ∧ dbErr = None) then 200 else 503.
Proof.
  destruct (healthCheck_eq t dbErr now c r r' d redisErr Hping) as [body ->]. eexists. split; [done|].
  by rewrite Status_JSON.
Qed.

(** ** Witnesses *)

#[local] Existing Instances Rfc3339.utc wf_rows_dec table_store table_laws strict_uuid
  latin1 Url.no_literals list_store list_queries utable_store plain_bcrypt number_jwt LoadBalancer.counting_rand
  LoadBalancer.counting_rand_laws Proxy.example_backend ctx_bind_register ctx_bind_login ctx_bind_create ctx_bind_update.


Definition example_service (path strategy : string) (targets : list string) : ServiceConfig := {|
  svc_Path := path; svc_Targets := targets; svc_LoadBalancer := strategy;
  svc_CircuitBreaker := Some {| cb_MaxFailures := 3; cb_TimeoutSeconds := 60; cb_HalfOpenSuccess := 2 |};
  svc_HealthCheck := None |}.

(** Probes that every target answers. *)
Definition all_up (targets : list string) : setup := {|
  u_clock _ := 0;
  u_probes := (λ t, {| HealthCheck.j_target := t; HealthCheck.j_client _ := HealthCheck.Response 200;
                       HealthCheck.j_t1 := 0; HealthCheck.j_t2 := 0 |}) <$> targets |}.

(** A service, one with an unknown strategy, one with a bad URL, and the first
    path again. *)
Definition four_services : list (ServiceConfig * setup) :=
  [(example_service "/users" "random" ["http://a"], all_up ["http://a"]);
   (example_service "/orders" "fastest" ["http://a"], all_up ["http://a"]);
   (example_service "/items" "random" [":"], all_up [":"]);
   (example_service "/users" "" ["http://a"; "http://b"], all_up ["http://a"; "http://b"])].

Lemma four_ok (svc : ServiceConfig) (u : setup) : (svc, u) ∈ four_services → setup_ok svc u.
Proof.
  unfold four_services. rewrite !elem_of_cons, elem_of_nil. intros Hin.
  repeat destruct Hin as [[= -> ->]|Hin]; [..|done];
    (split_and!; [set_solver|vm_compute; discriminate|split; vm_compute; discriminate|reflexivity]).
Qed.

Lemma services_ready_witness :
  ∃ m, initializeProxies (G := Z) four_services ∅ = Ret m ∧
    (∃ p, m !! "/users" = Some p ∧ serves 9 (example_service "/users" "" ["http://a"; "http://b"]) p) ∧
    m !! "/orders" = None ∧ m !! "/items" = None.
Proof.
  destruct (services_ready (G := Z) 9 four_services) as (m & Hm & Hspec);
    [vm_compute; discriminate|exact four_ok|].
  exists m. split; [exact Hm|]. split; [exact (Hspec "/users")|]. split; [exact (Hspec "/orders")|exact (Hspec "/items")].
Defined.

Definition example_proxies : gmap string (Proxy.Proxy Z) := {[ "/users" := Proxy.example_proxy "http://a" ]}.

Lemma shutdown_stops_witness :
  (HealthCheck.running ∘ Proxy.healthChecker) <$> example_proxies !! "/users" = Some true ∧
  ∃ m', Shutdown ["/users"] (Some None) example_proxies = (m', Ret None) ∧
    (∀ path p, m' !! path = Some p → HealthCheck.running (Proxy.healthChecker p) = false).
Proof.
  split; [vm_compute; reflexivity|].
  destruct (shutdown_stops ["/users"] (Some None) example_proxies) as (m' & HS & _ & Hr & _).
  - intros path p. unfold example_proxies. rewrite lookup_singleton_Some. intros [_ <-]. intros _. vm_compute. reflexivity.
  - intros path [p Hp]. unfold example_proxies in Hp. apply lookup_singleton_Some in Hp as [<- _].
    by apply list_elem_of_singleton.
  - exists m'. split; [exact HS|exact Hr].
Defined.

Lemma health_check_status_witness :
  ∃ c', healthCheck 0 (Some "connection refused") second (new_ctx "10.0.0.7" ∅, (∅ : RefRedis, 0%nat)) =
      ((c', (∅ : RefRedis, 0%nat)), Ret tt) ∧ Status c' = 503.
Proof.
  destruct (health_check_status 0 (Some "connection refused") second (new_ctx "10.0.0.7" ∅) (∅ : RefRedis) ∅ 0%nat None)
    as (c' & Hrun & Hs); [vm_compute; reflexivity|reflexivity|].
  exists c'. split; [exact Hrun|]. rewrite Hs. by rewrite decide_False by (by intros []).
Defined.

(** The world of a gateway with one key and one service. *)
Definition example_world : (RefRedis * table) * side (list RequestLog) (App utable Z nat) :=
  ((∅, one_key),
   {| spawned := []; printed := []; requestLog := {| logChannel := []; bufferSize := 1000; batch := []; log_db := [] |};
      app := {| app_users := ∅; app_system := NewSystemHandler example_proxies; app_backend := 0%nat |} |}).

Definition example_choices : choices := {|
  h_auth := hour; h_t1 := hour; h_t2 := hour; h_t3 := hour; h_t4 := hour; h_salt := "salt"; h_id := uid;
  h_random := inl bytes1; h_db := None; h_visit := map_to_list |}.

(** A request to delete the key, with a token that nobody signed and with the key. *)
Definition delete_ctx : ctx := {|
  x_req := <["Authorization" := "Bearer forged"]> {[ "X-API-Key" := text1 ]}; x_ip := "10.0.0.7"; x_method := "DELETE";
  x_path := "/admin/keys/" +:+ id1; x_params := {[ "id" := id1 ]}; x_query := ∅; x_json := JNull; x_keys := ∅;
  x_headers := ∅; x_status := 200; x_written := false; x_body := []; x_aborted := false |}.

Lemma forged_token (tok : string) (cl : gmap string any) :
  GetHeader "Authorization" delete_ctx = "Bearer " +:+ tok → ValidateToken day_service hour tok ≠ inl cl.
Proof.
  intros Hh. assert (tok = "forged") as -> by (apply (inj (String.append "Bearer ")); by rewrite <- Hh).
  vm_compute. discriminate.
Qed.

(** A router that sends the request to the route for deletions. *)
Definition to_delete (patterns : list (string * string)) (method path : string) : option nat := Some 8%nat.

Abbreviation example_serve :=
  (ServeRequest to_delete (JSON 404 JNull) RateLimit.example_config day_service 0
     (setupRoutes ["/users"]) example_env example_choices).

(** The request is refused, and then the use of its key is recorded. *)
Lemma keys_need_token_witness :
  let w1 := (example_serve (delete_ctx, example_world)).1.2 in
  let w2 := (run_spawned 0 (2 * hour) (delete_ctx, w1)).1.2 in
  spawned w1.2 = [id1] ∧ rows w2.1.2 !! id1 = Some (set_LastUsedAt (2 * hour) key1) ∧
  forget_use <$> rows w2.1.2 = forget_use <$> rows example_world.1.2.
Proof.
  intros w1 w2. split; [vm_compute; reflexivity|]. split; [vm_compute; reflexivity|].
  apply (keys_need_token to_delete (JSON 404 JNull) RateLimit.example_config day_service 0 ["/users"]).
  apply rtc_l with w1.
  - destruct (example_serve (delete_ctx, example_world)) as [[c' w'] o] eqn:Hrun.
    exact (traffic_request to_delete (JSON 404 JNull) RateLimit.example_config day_service 0 ["/users"] example_env
      example_choices delete_ctx c' example_world w' o forged_token Hrun).
  - apply rtc_once. destruct (run_spawned 0 (2 * hour) (delete_ctx, w1)) as [[c' w'] o] eqn:Hrun.
    exact (traffic_goroutine to_delete (JSON 404 JNull) RateLimit.example_config day_service 0 ["/users"] 0 (2 * hour)
      delete_ctx c' w1 w' o Hrun).
Defined.

Lemma admin_closed_witness :
  ∃ c', run_route RateLimit.example_config day_service 0 example_choices
      (DELETE "/admin/keys/:id" true EDeleteKey) (delete_ctx, example_world) = ((c', example_world), Ret tt) ∧
    Status c' = 401 ∧ IsAborted c' = true.
Proof.
  apply (admin_closed RateLimit.example_config day_service 0 example_choices
    ["/users"] (DELETE "/admin/keys/:id" true EDeleteKey) delete_ctx example_world);
    [unfold setupRoutes; set_solver|reflexivity|set_solver|discriminate|exact forged_token].
Defined.

Lemma me_unauthorized_witness :
  run_route RateLimit.example_config day_service 0 example_choices
    (GET "/auth/me" false EMe) (delete_ctx, example_world) =
    ((JSON 401 (error_body "Unauthorized") delete_ctx, example_world), Ret tt).
Proof.
  apply (me_unauthorized RateLimit.example_config day_service 0 example_choices
    ["/users"] (GET "/auth/me" false EMe) delete_ctx example_world);
    [unfold setupRoutes; set_solver|reflexivity|reflexivity].
Defined.
