(* ===== verification/Main.v ===== *)
(** * The process

    Models [src/cmd/gateway/main.go]: the stages of starting the gateway, from
    its configuration file to the server, with their failures and the calls they
    defer; and, as a step relation, the two goroutines that serve and shut down:
    the one that listens, and the main one, which waits for a signal, stops the
    health checks one service at a time, waits for the requests and runs the
    deferred calls.

    [log.Fatalf] ends the process with status 1, without running the deferred
    calls. *)

From S2P Require Import Prelude Quote Config RequestLog Storage.
From S2P Require Url LoadBalancer HealthCheck Proxy System Server.

(** ** Starting *)

(** [fmt.Sprintf] of the data source name. *)
Definition dsn (db : DatabaseConfig) : string :=
  "host=" +:+ db_Host db +:+ " port=" +:+ pretty (db_Port db) +:+ " user=" +:+ db_User db +:+
  " password=" +:+ db_Password db +:+ " dbname=" +:+ db_DBName db +:+ " sslmode=" +:+ db_SSLMode db.

(** The deferred calls of [main]: [redis.Close], [postgres.Close] and [cancel]. *)
Inductive action := ACloseRedis | AClosePostgres | ACancel.

Section starting.
Context {W RC PG L G : Type} `{Drivers W RC PG} `{LoadBalancer.Rand G} `{LogStore L} `{Unicode} `{Url.IpLiteral}.

(** A gateway that is about to listen, with the stack of the calls that [main]
    has deferred so far. *)
Record gateway := {
  g_redis : RC; g_postgres : PG; g_server : Server.Server L G; g_addr : string; g_deferred : list action
}.

Definition lift {A} (o : go A) : Comp W A := λ w, (w, o).

(** [main] until the server listens: the gateway, or the message of [log.Fatalf].
    [env] is the environment after [godotenv.Load]; [db], [us] and [visit] are as
    in [Server.New]. *)
Definition start (read : string + string) (parse_error env : string → string) (db : L) (us : nat → Server.setup)
    (visit : gmap string (Proxy.Proxy G) → list string) : Comp W (gateway + string) :=
  match Load read parse_error env with
  | inr err => mret (inr ("Failed to load config: " +:+ err))
  | inl cfg =>
      o ← NewRedis (GetRedisAddr (Redis cfg)) (redis_Password (Redis cfg)) (redis_DB (Redis cfg));
      match o with
      | inr err => mret (inr ("Failed to connect to Redis: " +:+ err))
      | inl redis =>
          let deferred := [ACloseRedis] in
          o ← NewPostgres (dsn (Database cfg));
          match o with
          | inr err => mret (inr ("Failed to connect to PostgreSQL: " +:+ err))
          | inl postgres =>
              let deferred := AClosePostgres :: deferred in
              err ← AutoMigrate postgres;
              match err with
              | Some err => mret (inr ("Failed to run migrations: " +:+ err))
              | None =>
                  srv ← lift (Server.New cfg db us visit);
                  mret (inl {| g_redis := redis; g_postgres := postgres; g_server := srv;
                               g_addr := ":" +:+ srv_Port (Config.Server cfg); g_deferred := deferred |})
              end
          end
      end
  end.

(** A deferred call, with its error, which [main] drops.  [cancel] releases the
    timer of the context. *)
Definition run_deferred (g : gateway) (a : action) : Comp W (option string) :=
  match a with
  | AClosePostgres => pg_Close (g_postgres g)
  | ACloseRedis => redis_close (g_redis g)
  | ACancel => mret None
  end.
End starting.
Arguments gateway : clear implicits.

(** ** Serving and shutting down *)

(** Where the main goroutine is: before [<-quit]; in [srv.Shutdown], with the
    services whose health checks are still to be stopped; in the HTTP server's
    [Shutdown]; after [srv.Shutdown], which had an HTTP server to shut down or not. *)
Inductive main_pc := Waiting | Stopping (paths : list string) | Draining | Returning (http : bool).

(** Where the other one is: before [srv.Run] has set [s.httpServer], in
    [ListenAndServe], or after it with an error. *)
Inductive run_pc := Starting | Listening | RunReturned (err : string).

Section process.
Context {W RC PG L G : Type} `{Drivers W RC PG}.

(** The two goroutines; the requests that are being handled, and the connections
    that were taken over by a protocol upgrade; the services; the deferred calls
    to run and those that were, with their errors; the servers outside; and the
    exit status once the process has ended. *)
Record process := {
  p_main : main_pc;
  p_run : run_pc;
  p_requests : nat;
  p_hijacked : nat;
  p_proxies : gmap string (Proxy.Proxy G);
  p_deferred : list action;
  p_called : list (action * option string);
  p_world : W;
  p_exit : option Z
}.

Definition started (g : gateway RC PG L G) (w : W) : process :=
  {| p_main := Waiting; p_run := Starting; p_requests := 0; p_hijacked := 0;
     p_proxies := System.handler_proxies (Server.s_systemHandler (g_server g));
     p_deferred := g_deferred g; p_called := []; p_world := w; p_exit := None |}.

Definition set_main (m : main_pc) (p : process) : process :=
  {| p_main := m; p_run := p_run p; p_requests := p_requests p; p_hijacked := p_hijacked p; p_proxies := p_proxies p;
     p_deferred := p_deferred p; p_called := p_called p; p_world := p_world p; p_exit := p_exit p |}.

Definition set_run (r : run_pc) (p : process) : process :=
  {| p_main := p_main p; p_run := r; p_requests := p_requests p; p_hijacked := p_hijacked p; p_proxies := p_proxies p;
     p_deferred := p_deferred p; p_called := p_called p; p_world := p_world p; p_exit := p_exit p |}.

Definition set_requests (n h : nat) (p : process) : process :=
  {| p_main := p_main p; p_run := p_run p; p_requests := n; p_hijacked := h; p_proxies := p_proxies p;
     p_deferred := p_deferred p; p_called := p_called p; p_world := p_world p; p_exit := p_exit p |}.

Definition set_proxies (m : gmap string (Proxy.Proxy G)) (p : process) : process :=
  {| p_main := p_main p; p_run := p_run p; p_requests := p_requests p; p_hijacked := p_hijacked p; p_proxies := m;
     p_deferred := p_deferred p; p_called := p_called p; p_world := p_world p; p_exit := p_exit p |}.

Definition set_deferred (l : list action) (p : process) : process :=
  {| p_main := p_main p; p_run := p_run p; p_requests := p_requests p; p_hijacked := p_hijacked p;
     p_proxies := p_proxies p; p_deferred := l; p_called := p_called p; p_world := p_world p; p_exit := p_exit p |}.

Definition add_called (a : action) (err : option string) (w : W) (p : process) : process :=
  {| p_main := p_main p; p_run := p_run p; p_requests := p_requests p; p_hijacked := p_hijacked p;
     p_proxies := p_proxies p; p_deferred := p_deferred p; p_called := p_called p ++ [(a, err)]; p_world := w;
     p_exit := p_exit p |}.

Definition exit (code : Z) (p : process) : process :=
  {| p_main := p_main p; p_run := p_run p; p_requests := p_requests p; p_hijacked := p_hijacked p;
     p_proxies := p_proxies p; p_deferred := p_deferred p; p_called := p_called p; p_world := p_world p;
     p_exit := Some code |}.

(** The HTTP server has not been told to shut down: its listener is open while it
    listens. *)
Definition listener_open (m : main_pc) : bool :=
  match m with Waiting | Stopping _ | Returning false => true | Draining | Returning true => false end.

(** One step of a goroutine of a process that has not ended.

    The HTTP server's [Shutdown] closes the listener, upon which [ListenAndServe]
    returns [ErrServerClosed] in the other goroutine, and waits until no request
    is being handled or its context ends; it does not wait for connections that
    were taken over.  [log.Fatal] ends the process at once with status 1, and a
    panic with status 2; a process ends with status 0 when [main] has
    returned, which runs the deferred calls first, the last one deferred first. *)
Inductive step (g : gateway RC PG L G) (p : process) : process → Prop :=
  (* srv.Run *)
  | step_listen :
      p_exit p = None → p_run p = Starting → step g p (set_run Listening p)
  | step_listen_fails err :
      p_exit p = None → p_run p = Listening → listener_open (p_main p) = true →
      step g p (set_run (RunReturned err) p)
  | step_listen_closed :
      p_exit p = None → p_run p = Listening → listener_open (p_main p) = false →
      step g p (set_run (RunReturned "http: Server closed") p)
  | step_run_fatal err :
      p_exit p = None → p_run p = RunReturned err → step g p (exit 1 p)
  (* the requests *)
  | step_accept :
      p_exit p = None → p_run p = Listening → listener_open (p_main p) = true →
      step g p (set_requests (S (p_requests p)) (p_hijacked p) p)
  | step_answer n :
      p_exit p = None → p_requests p = S n → step g p (set_requests n (p_hijacked p) p)
  | step_hijack n :
      p_exit p = None → p_requests p = S n → step g p (set_requests n (S (p_hijacked p)) p)
  | step_hang_up n :
      p_exit p = None → p_hijacked p = S n → step g p (set_requests (p_requests p) n p)
  (* a request or a probe, which changes neither whether a checker runs nor its channel *)
  | step_service path q q' :
      p_exit p = None → p_proxies p !! path = Some q →
      HealthCheck.running (Proxy.healthChecker q') = HealthCheck.running (Proxy.healthChecker q) →
      HealthCheck.stopClosed (Proxy.healthChecker q') = HealthCheck.stopClosed (Proxy.healthChecker q) →
      step g p (set_proxies (<[path:=q']> (p_proxies p)) p)
  (* main *)
  | step_signal paths :
      p_exit p = None → p_main p = Waiting → (∀ path, path ∈ paths ↔ is_Some (p_proxies p !! path)) →
      step g p (set_main (Stopping paths) (set_deferred (ACancel :: p_deferred p) p))
  | step_stop path paths q q' :
      p_exit p = None → p_main p = Stopping (path :: paths) → p_proxies p !! path = Some q →
      Proxy.Stop q = (q', Ret tt) → step g p (set_main (Stopping paths) (set_proxies (<[path:=q']> (p_proxies p)) p))
  | step_stop_panics path paths q q' msg :
      p_exit p = None → p_main p = Stopping (path :: paths) → p_proxies p !! path = Some q →
      Proxy.Stop q = (q', Panic msg) → step g p (exit 2 p)
  | step_shutdown :
      p_exit p = None → p_main p = Stopping [] → p_run p ≠ Starting → step g p (set_main Draining p)
  | step_no_server :
      p_exit p = None → p_main p = Stopping [] → p_run p = Starting → step g p (set_main (Returning false) p)
  | step_drained :
      p_exit p = None → p_main p = Draining → p_requests p = 0%nat → step g p (set_main (Returning true) p)
  | step_timeout :
      p_exit p = None → p_main p = Draining → step g p (exit 1 p)
  | step_deferred http a l w err :
      p_exit p = None → p_main p = Returning http → p_deferred p = a :: l →
      run_deferred g a (p_world p) = (w, Ret err) → step g p (add_called a err w (set_deferred l p))
  | step_return http :
      p_exit p = None → p_main p = Returning http → p_deferred p = [] → step g p (exit 0 p).
End process.
Arguments process : clear implicits.

(** ** Properties *)

Section started.
Context {W RC PG L G : Type} `{DriversLaws W RC PG} `{LoadBalancer.RandLaws G} `{LogStore L} `{Unicode} `{Url.IpLiteral}.

(** What a start has established. *)
Definition established (cfg : Config) (g : gateway RC PG L G) (w : W) : Prop :=
  client (g_redis g) w = Some (redis_options (GetRedisAddr (Redis cfg)) (redis_Password (Redis cfg)) (redis_DB (Redis cfg))) ∧
  pool (g_postgres g) w = Some {| MaxIdleConns := 10; MaxOpenConns := 100; ConnMaxLifetime := hour |} ∧
  (∀ m, TableName m ∈ tables (g_postgres g) w) ∧
  g_addr g = ":" +:+ srv_Port (Config.Server cfg) ∧ Server.s_config (g_server g) = cfg.

Lemma New_config (cfg : Config) (db : L) (us : nat → Server.setup) (visit : gmap string (Proxy.Proxy G) → list string)
    (srv : Server.Server L G) : Server.New cfg db us visit = Ret srv → Server.s_config srv = cfg.
Proof. unfold Server.New. repeat case_match; try done. by intros [= <-]. Qed.

(** The gateway starts in order: it comes to listen only with a valid
    configuration, on the configured port, with a Redis client and a database pool
    that are open, and with all its tables. *)
Lemma start_established (read : string + string) (parse_error env : string → string) (db : L)
    (us : nat → Server.setup) (visit : gmap string (Proxy.Proxy G) → list string) (w w' : W) (g : gateway RC PG L G) :
  start read parse_error env db us visit w = (w', Ret (inl g)) →
  ∃ cfg, Load read parse_error env = inl cfg ∧ established cfg g w'.
Proof.
  unfold start. destruct (Load read parse_error env) as [cfg|err]; [|done]. intros Hrun. exists cfg. split; [done|].
  destruct (NewRedis_spec (GetRedisAddr (Redis cfg)) (redis_Password (Redis cfg)) (redis_DB (Redis cfg)) w)
    as (w1 & [rc|e] & HR & (c & Hc & Hrc) & Hp & Ht); rewrite (comp_bind_step _ _ _ _ _ HR) in Hrun; [|done]. subst rc.
  destruct (NewPostgres_spec (dsn (Database cfg)) w1) as (w2 & [pg|e] & HP & Hc2 & Hpool);
    rewrite (comp_bind_step _ _ _ _ _ HP) in Hrun; [|done].
  destruct (AutoMigrate_spec pg w2) as (w3 & [e|] & HM & Hc3 & Hp3 & Htab);
    rewrite (comp_bind_step _ _ _ _ _ HM) in Hrun; [done|].
  unfold lift in Hrun. comp_unfold. destruct (Server.New cfg db us visit) as [srv|msg] eqn:HN; [|done].
  injection Hrun as <- <-. split_and!; [simpl; congruence|simpl; congruence|by apply Htab|done|by apply New_config in HN].
Qed.

(** The drivers do their work: the servers can be reached. *)
Definition reachable : Prop :=
  (∀ (c : RC) (w : W), (redis_Ping (5 * second) c w).2 = None) ∧
  (∀ (s : string) (w : W), ∃ p : PG, (gorm_Open s w).2 = inl p) ∧
  (∀ (p : PG) (w : W), (gorm_DB p w).2 = None) ∧
  (∀ (ts : list string) (p : PG) (w : W), (gorm_AutoMigrate ts p w).2 = None).

Lemma start_reachable (read : string + string) (parse_error env : string → string) (db : L)
    (us : nat → Server.setup) (visit : gmap string (Proxy.Proxy G) → list string) (cfg : Config)
    (srv : Server.Server L G) (w : W) :
  reachable → Load read parse_error env = inl cfg → Server.New cfg db us visit = Ret srv →
  ∃ w' g, start read parse_error env db us visit w = (w', Ret (inl g)) ∧ g_server g = srv.
Proof.
  intros (Hr & Hg & Hd & Hm) HL HN. unfold start. rewrite HL.
  unfold NewRedis, NewPostgres, AutoMigrate, call, lift. comp_unfold.
  destruct (redis_NewClient _ w) as [w1 c]. specialize (Hr c w1). destruct (redis_Ping _ c w1) as [w2 e]. simpl in Hr.
  subst e. destruct (Hg (dsn (Database cfg)) w2) as [p Hp]. destruct (gorm_Open _ w2) as [w3 o]. simpl in Hp. subst o.
  specialize (Hd p w3). destruct (gorm_DB p w3) as [w4 e]. simpl in Hd. subst e. set (w5 := sql_set _ p _).
  specialize (Hm (TableName <$> [MAPIKey; MRateLimitTier; MUser; MRequestLog]) p w5).
  destruct (gorm_AutoMigrate _ p w5) as [w6 e]. simpl in Hm. subst e. rewrite HN. by do 2 eexists.
Qed.

(** C12: The repository's configuration starts: with [src/config.json], an
    environment without overrides and servers that can be reached, the gateway
    comes to listen on port 8080 with all its tables, and it has exactly two
    services, each with a proxy that is ready for all its targets. *)
Theorem repository_starts (parse_error : string → string) (db : L) (us : nat → Server.setup) (n : nat)
    (visit : gmap string (Proxy.Proxy G) → list string) (w : W)
    (Hreach : reachable) (Hn : Z.of_nat n <= max_int64)
    (Hus : ∀ i svc, Services repository_config !! i = Some svc →
       (HealthCheck.j_target <$> Server.u_probes (us i)) ≡ₚ svc_Targets svc) :
  ∃ w' g pu po, start (inl config_json) parse_error (λ _, "") db us visit w = (w', Ret (inl g)) ∧
    established repository_config g w' ∧ g_addr g = ":8080" ∧
    (∀ path, System.handler_proxies (Server.s_systemHandler (g_server g)) !! path =
       if decide (path = "/api/users") then Some pu else if decide (path = "/api/orders") then Some po else None) ∧
    Proxy.ready n pu ∧ Proxy.ready n po ∧
    Proxy.GetAllTargets pu = ["http://localhost:3001"; "http://localhost:3002"; "http://localhost:3003"] ∧
    Proxy.GetAllTargets po = ["http://localhost:3004"; "http://localhost:3005"].
Proof.
  assert (Load (inl config_json) parse_error (λ _, "") = inl repository_config) as HL.
  { rewrite repository_loads. reflexivity. }
  destruct (Server.repository_services n us Hn Hus) as (m & pu & po & Hm & Hpu & Hpo & Hru & Hro & Htu & Hto & Hother).
  assert (∃ srv, Server.New repository_config db us visit = Ret srv ∧
    System.handler_proxies (Server.s_systemHandler srv) = m) as (srv & HN & Hsys).
  { unfold Server.New. rewrite Hm. eexists. split; reflexivity. }
  destruct (start_reachable (inl config_json) parse_error (λ _, "") db us visit repository_config srv w Hreach HL HN)
    as (w' & g & Hrun & Hg).
  destruct (start_established _ _ _ _ _ _ _ _ _ Hrun) as (cfg & Hcfg & Hest).
  assert (cfg = repository_config) as -> by congruence.
  exists w', g, pu, po. split_and!; [done|done|by apply Hest| |done..]. intros path. rewrite Hg, Hsys.
  clear -Hpu Hpo Hother. repeat case_decide; subst; [exact Hpu|exact Hpo|by apply Hother].
Qed.
End started.

(** The data source name is not quoted: a password with a space in it can be taken
    for other parameters, and different configurations have the same name. *)
Lemma dsn_ambiguous : ∃ db1 db2 : DatabaseConfig, db_Password db1 ≠ db_Password db2 ∧ dsn db1 = dsn db2.
Proof.
  exists {| db_Host := "h"; db_Port := 1; db_User := "u"; db_Password := "p"; db_DBName := "x dbname=y"; db_SSLMode := "disable" |},
    {| db_Host := "h"; db_Port := 1; db_User := "u"; db_Password := "p dbname=x"; db_DBName := "y"; db_SSLMode := "disable" |}.
  split; [done|]. vm_compute. reflexivity.
Qed.

Section shutdown.
Context {W RC PG L G : Type} `{DriversLaws W RC PG} (g : gateway RC PG L G).

#[local] Abbreviation stopped q := (HealthCheck.running (Proxy.healthChecker q) = false).

(** What the deferred calls that ran without an error have closed. *)
Definition closed (l : list (action * option string)) (w : W) : Prop :=
  ((AClosePostgres, None) ∈ l → pool (g_postgres g) w = None) ∧ ((ACloseRedis, None) ∈ l → client (g_redis g) w = None).

Lemma run_deferred_closed (l : list (action * option string)) (a : action) (w w' : W) (err : option string) :
  run_deferred g a w = (w', Ret err) → a ∉ l.*1 → closed l w → closed (l ++ [(a, err)]) w'.
Proof.
  intros Hrun Ha [Hp Hr]. unfold closed. rewrite !elem_of_app, !list_elem_of_singleton.
  assert (∀ e, (a, e) ∉ l) as Hnew by (intros e Hin; apply Ha, (list_elem_of_fmap_2 fst _ _ Hin)).
  destruct a; cbn [run_deferred] in Hrun.
  - destruct (redis_close_spec (g_redis g) w) as (w1 & e1 & HE & Hc & Hf). rewrite HE in Hrun. injection Hrun as <- <-.
    rewrite Hf. split; [intros [?|?]; by auto|]. intros [Hin|[= <-]]; [by apply Hnew in Hin|by apply Hc].
  - destruct (pg_Close_spec (g_postgres g) w) as (w1 & e1 & HE & Hc & Hf). rewrite HE in Hrun. injection Hrun as <- <-.
    rewrite Hf. split; [|intros [?|?]; by auto]. intros [Hin|[= <-]]; [by apply Hnew in Hin|by apply Hc].
  - injection Hrun as <- <-. split; intros [?|?]; by auto.
Qed.

Lemma Stop_stopped (q q' : Proxy.Proxy G) : Proxy.Stop q = (q', Ret tt) → stopped q'.
Proof.
  unfold Proxy.Stop, HealthCheck.Stop. comp_unfold.
  destruct (HealthCheck.running (Proxy.healthChecker q)) eqn:Hr; [|by intros [= <-]].
  destruct (HealthCheck.stopClosed (Proxy.healthChecker q)); [done|by intros [= <-]].
Qed.

(** A service whose checker may still run, at a point of [main]. *)
Definition may_run (m : main_pc) (path : string) : Prop :=
  match m with Waiting => True | Stopping paths => path ∈ paths | Draining | Returning _ => False end.

(** The calls that [main] has deferred at a point, the last one first. *)
Definition stack (m : main_pc) : list action :=
  match m with Waiting => [] | _ => [ACancel] end ++ [AClosePostgres; ACloseRedis].

Record on_course (p : process W G) : Prop := {
  oc_stack : (p_called p).*1 ++ p_deferred p = stack (p_main p);
  oc_called : (∀ http, p_main p ≠ Returning http) → p_called p = [];
  oc_closed : closed (p_called p) (p_world p);
  oc_stopped path q : p_proxies p !! path = Some q → may_run (p_main p) path ∨ stopped q;
  oc_drained : p_main p = Returning true → p_requests p = 0%nat;
  oc_exit : p_exit p = Some 0 → p_deferred p = [] ∧ ∃ http, p_main p = Returning http
}.

Lemma on_course_started (w : W) :
  g_deferred g = [AClosePostgres; ACloseRedis] → on_course (started g w).
Proof. intros Hg. split; simpl; try done; [split; by intros ?%elem_of_nil|by left]. Qed.

(** A change of neither [main]'s point nor what it depends on. *)
Lemma on_course_aside (p q : process W G) :
  p_main q = p_main p → p_called q = p_called p → p_deferred q = p_deferred p → p_world q = p_world p →
  (∀ path r, p_proxies q !! path = Some r → ∃ r0, p_proxies p !! path = Some r0 ∧ (stopped r0 → stopped r)) →
  (p_main p = Returning true → p_requests p = 0%nat → p_requests q = 0%nat) →
  (p_exit q = Some 0 → p_deferred p = [] ∧ ∃ http, p_main p = Returning http) →
  on_course p → on_course q.
Proof.
  intros Hm Hc Hd Hw Hs Hr He [H1 H2 H3 H4 H5 H6].
  split; rewrite ?Hm, ?Hc, ?Hd, ?Hw; try done.
  - intros path r Hl. destruct (Hs path r Hl) as (r0 & Hl0 & Hst). destruct (H4 path r0 Hl0); auto.
  - auto.
Qed.

Lemma step_on_course (p q : process W G) : step g p q → on_course p → on_course q.
Proof.
  assert (∀ (m : gmap string (Proxy.Proxy G)) path r q', m !! path = Some q' → (stopped q' → stopped r) → ∀ path0 r0,
    <[path:=r]> m !! path0 = Some r0 → ∃ r1, m !! path0 = Some r1 ∧ (stopped r1 → stopped r0)) as Hins.
  { intros m path r q' Hl Hs path0 r0 [[-> ->]|[? ?]]%lookup_insert_Some; eauto. }
  destruct 1 as [| | | | | | | | |paths Hx Hm Hp|path paths r r' Hx Hm Hp Hs| |Hx Hm Hr|Hx Hm Hr|Hx Hm Hr|
    |http a l w err Hx Hm Hl Hd|]; intros Hoc;
    try (apply (on_course_aside p); simpl; eauto; solve [congruence | by intros Hm; rewrite Hm in *]).
  all: destruct Hoc as [Hstack Hcalled Hclosed Hstop Hdrain Hexit]; rewrite Hm in *.
  all: split; simpl; try (done || by eauto || congruence).
  - by rewrite Hcalled in * by done; simpl in *; rewrite Hstack.
  - intros path q Hq. left. apply Hp. eauto.
  - intros path0 q [[<- <-]|[Hne Hq]]%lookup_insert_Some; [right; by eapply Stop_stopped|].
    destruct (Hstop path0 q Hq) as [[?|?]%elem_of_cons|?]; auto. congruence.
  - intros path q Hq. destruct (Hstop path q Hq) as [?%elem_of_nil|?]; auto.
  - intros path q Hq. destruct (Hstop path q Hq) as [?%elem_of_nil|?]; auto.
  - rewrite Hm, fmap_app, <- Hstack, Hl, <- app_assoc. done.
  - eapply run_deferred_closed; [done| |done]. rewrite Hl in Hstack.
    assert (NoDup ((p_called p).*1 ++ a :: l)) as (_ & Hdis & _)%NoDup_app
      by (rewrite Hstack; repeat constructor; set_solver).
    intros Hin. apply (Hdis a Hin). by left.
  - by rewrite Hm.
  - by rewrite Hm.
Qed.

(** Once the server has begun to listen, [srv.Shutdown] has an HTTP server to
    shut down. *)
Lemma step_has_server (p q : process W G) :
  step g p q → p_run p ≠ Starting ∧ p_main p ≠ Returning false → p_run q ≠ Starting ∧ p_main q ≠ Returning false.
Proof. by destruct 1; simpl; intros [? ?]. Qed.

Lemma run_has_server (p q : process W G) :
  p_run p ≠ Starting ∧ p_main p ≠ Returning false → rtc (step g) p q → p_run q ≠ Starting ∧ p_main q ≠ Returning false.
Proof.
  intros Hp. revert q. apply (rtc_ind_r (R := step g) (λ q, p_run q ≠ Starting ∧ p_main q ≠ Returning false)); [done|].
  intros p1 p2 _. apply step_has_server.
Qed.

Lemma run_on_course (w : W) (p : process W G) :
  g_deferred g = [AClosePostgres; ACloseRedis] → rtc (step g) (started g w) p → on_course p.
Proof.
  intros Hg Hrun. revert Hrun. apply (rtc_ind_r (R := step g) on_course (started g w)); [by apply on_course_started|].
  intros p1 p2 _ Hstep. by apply step_on_course.
Qed.

(** Shutting down gracefully is a race: while [srv.Shutdown] waits for the
    requests that are being handled, [srv.Run] has returned [ErrServerClosed] in
    the other goroutine, which treats it as a failure to start.  From every
    state in which [main] waits for the requests, and without waiting for the
    timeout, the process can end at once with status 1, its requests unanswered
    and none of the deferred calls made. *)
Theorem shutdown_race (p : process W G) (Hmain : p_main p = Draining) (Hexit : p_exit p = None)
    (Hrun : p_run p = Listening) :
  ∃ q, rtc (step g) p q ∧ p_exit q = Some 1 ∧ p_requests q = p_requests p ∧ p_called q = p_called p ∧
    p_run q = RunReturned "http: Server closed".
Proof.
  exists (exit 1 (set_run (RunReturned "http: Server closed") p)). split_and!; [|done..].
  eapply rtc_l; [by apply step_listen_closed; rewrite ?Hmain|]. apply rtc_once. by eapply step_run_fatal.
Qed.

(** [main] stops the checkers of the services that are left, one after the other. *)
Lemma stops_all (paths : list string) (p : process W G) :
  p_exit p = None → p_main p = Stopping paths →
  (∀ path, path ∈ paths → is_Some (p_proxies p !! path)) → map_Forall (λ _, Server.stoppable) (p_proxies p) →
  ∃ m, rtc (step g) p (set_main (Stopping []) (set_proxies m p)).
Proof.
  revert p. induction paths as [|path paths IH]; intros p Hx Hm Hsome Hst.
  { exists (p_proxies p). destruct p; simpl in *; subst. constructor. }
  destruct (Hsome path ltac:(by left)) as [q Hq]. destruct (Server.stop_spec q (Hst path q Hq)) as (q' & HS & Hr & _).
  destruct (IH (set_main (Stopping paths) (set_proxies (<[path:=q']> (p_proxies p)) p))) as (m & Hrun); simpl; try done.
  - intros path' Hin. apply lookup_insert_is_Some'. right. apply Hsome. by right.
  - apply map_Forall_insert_2; [|done]. intros Hr'. congruence.
  - exists m. eapply rtc_l; [by eapply step_stop|exact Hrun].
Qed.

(** The deferred calls run, each once, whatever their errors. *)
Lemma deferred_run (http : bool) (l : list action) (p : process W G) :
  p_exit p = None → p_main p = Returning http → p_deferred p = l →
  ∃ q, rtc (step g) p q ∧ p_exit q = Some 0 ∧ p_requests q = p_requests p.
Proof.
  revert p. induction l as [|a l IH]; intros p Hx Hm Hl.
  { exists (exit 0 p). split; [|done]. apply rtc_once. by eapply step_return. }
  assert (∃ w err, run_deferred g a (p_world p) = (w, Ret err)) as (w & err & Hd).
  { destruct a; simpl; [|edestruct pg_Close_spec as (? & ? & ? & _); eauto|by do 2 eexists].
    edestruct redis_close_spec as (? & ? & ? & _); eauto. }
  destruct (IH (add_called a err w (set_deferred l p))) as (q & Hrun & Hq); [done..|].
  exists q. split; [|done]. eapply rtc_l; [by eapply step_deferred|exact Hrun].
Qed.

(** A signal that comes before [srv.Run] has set its server is a race as well:
    [srv.Shutdown] finds no server and returns at once, and the other goroutine
    can begin to listen and accept any number of requests while [main] returns;
    the process ends with status 0 without answering them. *)
Theorem early_signal (p : process W G) (n : nat) (Hmain : p_main p = Stopping []) (Hexit : p_exit p = None)
    (Hrun : p_run p = Starting) (Hreq : p_requests p = 0%nat) :
  ∃ q, rtc (step g) p q ∧ p_exit q = Some 0 ∧ p_requests q = n.
Proof.
  set (p1 n := set_requests n (p_hijacked p) (set_run Listening (set_main (Returning false) p))).
  destruct (deferred_run false (p_deferred p) (p1 n)) as (q & Hq & Hx & Hn); [done..|].
  exists q. split; [|done]. eapply rtc_l; [by apply step_no_server|]. eapply rtc_l; [by apply step_listen|].
  etransitivity; [|exact Hq]. clear -Hexit Hreq. induction n as [|n IH].
  - unfold p1. destruct p; simpl in *; subst. constructor.
  - eapply rtc_r; [exact IH|]. by apply (step_accept g (p1 n)).
Qed.
End shutdown.

Section exits.
Context {W RC PG L G : Type} `{DriversLaws W RC PG} `{LoadBalancer.RandLaws G} `{LogStore L} `{Unicode} `{Url.IpLiteral}.

Lemma start_deferred (read : string + string) (parse_error env : string → string) (db : L)
    (us : nat → Server.setup) (visit : gmap string (Proxy.Proxy G) → list string) (w w' : W) (g : gateway RC PG L G) :
  start read parse_error env db us visit w = (w', Ret (inl g)) → g_deferred g = [AClosePostgres; ACloseRedis].
Proof.
  unfold start, lift. comp_unfold. repeat case_match; intros; by simplify_eq/=.
Qed.

(** C39: A clean exit is clean.  Take any run of the two goroutines of a gateway
    that has started: requests are accepted until the listener is closed, also
    while the health checks are being stopped, and a signal, a timeout or an
    error of the listener may come at any time.  If the process ends with
    status 0, the health checks of all services have been stopped; the deferred
    calls have been made, [cancel] first, then PostgreSQL's and Redis's [Close],
    and what was closed without an error is closed; the process takes no more
    steps; and if the server was listening before the signal, every request has
    been answered but those whose connections were taken over. *)
Theorem clean_exit (read : string + string) (parse_error env : string → string) (db : L)
    (us : nat → Server.setup) (visit : gmap string (Proxy.Proxy G) → list string) (w0 w : W) (g : gateway RC PG L G)
    (p : process W G) (Hstart : start read parse_error env db us visit w0 = (w, Ret (inl g)))
    (Hrun : rtc (step g) (started g w) p) (Hexit : p_exit p = Some 0) :
  (∀ path q, p_proxies p !! path = Some q → HealthCheck.running (Proxy.healthChecker q) = false) ∧
  (∃ e0 e1 e2, p_called p = [(ACancel, e0); (AClosePostgres, e1); (ACloseRedis, e2)] ∧
    (e1 = None → pool (g_postgres g) (p_world p) = None) ∧ (e2 = None → client (g_redis g) (p_world p) = None)) ∧
  (∀ q, ¬ step g p q) ∧
  (∀ p1, p_main p1 = Waiting → p_run p1 = Listening → rtc (step g) p1 p → p_requests p = 0%nat).
Proof.
  destruct (run_on_course g w p (start_deferred _ _ _ _ _ _ _ _ _ Hstart) Hrun)
    as [Hstack _ [Hp Hr] Hstop Hdrain Hdone].
  destruct (Hdone Hexit) as [Hd [http Hm]]. rewrite Hm in Hstop, Hdrain, Hstack. rewrite Hd, app_nil_r in Hstack.
  split_and!.
  - intros path q Hq. by destruct (Hstop path q Hq).
  - destruct (p_called p) as [|[a0 e0] [|[a1 e1] [|[a2 e2] [|]]]]; simplify_eq/=.
    injection Hstack as -> -> ->. exists e0, e1, e2. split_and!; [done|intros ->; apply Hp|intros ->; apply Hr]; set_solver.
  - intros q Hq. destruct Hq; congruence.
  - intros p1 Hw Hl Hrun1. apply Hdrain. f_equal.
    assert (p_run p ≠ Starting ∧ p_main p ≠ Returning false) as [_ Hf].
    { apply (run_has_server g p1); [by rewrite Hw, Hl|done]. }
    rewrite Hm in Hf. by destruct http.
Qed.

(** A gateway whose server listens, with checkers that can be stopped, can always
    exit cleanly. *)
Lemma can_exit (g : gateway RC PG L G) (p : process W G) :
  p_exit p = None → p_main p = Waiting → p_run p = Listening → p_requests p = 0%nat →
  map_Forall (λ _, Server.stoppable) (p_proxies p) → ∃ q, rtc (step g) p q ∧ p_exit q = Some 0.
Proof.
  intros Hx Hm Hr Hn Hst.
  set (p1 := set_main (Stopping (map_to_list (p_proxies p)).*1) (set_deferred (ACancel :: p_deferred p) p)).
  assert (∀ path, path ∈ (map_to_list (p_proxies p)).*1 ↔ is_Some (p_proxies p !! path)) as Hpaths.
  { intros path. rewrite list_elem_of_fmap. split.
    - intros ([path' q] & -> & Hin%elem_of_map_to_list). eauto.
    - intros [q Hq]. exists (path, q). split; [done|]. by apply elem_of_map_to_list. }
  destruct (stops_all g (map_to_list (p_proxies p)).*1 p1) as (m & Hrun); [done|done|by intros; apply Hpaths|done|].
  destruct (deferred_run g true (ACancel :: p_deferred p) (set_main (Returning true) (set_proxies m p1))) as (q & Hq & Hx' & _);
    [done..|]. exists q. split; [|done].
  eapply rtc_l; [by apply step_signal|]. etransitivity; [exact Hrun|].
  eapply rtc_l; [apply step_shutdown; simpl; [done|done|by rewrite Hr]|].
  eapply rtc_l; [by apply step_drained|]. exact Hq.
Qed.
End exits.

(** ** Witnesses *)

#[local] Existing Instances net_drivers net_laws LoadBalancer.counting_rand LoadBalancer.counting_rand_laws
  list_store latin1 Url.no_literals.

(** The first probes of the services of the repository, all answered. *)
Definition repository_probes (i : nat) : Server.setup :=
  Server.all_up (from_option svc_Targets [] (Services repository_config !! i)).

Lemma net_reachable : reachable (W := net) (RC := unit) (PG := unit).
Proof. split_and!; [done|intros dsn w; by exists tt|done|done]. Qed.

Lemma probes_of_services (i : nat) (svc : ServiceConfig) :
  Services repository_config !! i = Some svc →
  (HealthCheck.j_target <$> Server.u_probes (repository_probes i)) ≡ₚ svc_Targets svc.
Proof. intros Hi. unfold repository_probes. rewrite Hi. simpl. by rewrite <- list_fmap_compose, list_fmap_id. Qed.

Lemma repository_starts_witness :
  ∃ w' (g : gateway unit unit (list RequestLog) Z),
    start (inl config_json) (λ _, "") (λ _, "") [] repository_probes (λ _, []) new_net = (w', Ret (inl g)) ∧
    established repository_config g w' ∧ g_addr g = ":8080".
Proof.
  destruct (repository_starts (W := net) (RC := unit) (PG := unit) (L := list RequestLog) (G := Z) (λ _, "") []
    repository_probes 5 (λ _, []) new_net net_reachable ltac:(vm_compute; discriminate) probes_of_services)
    as (w' & g & pu & po & Hrun & Hest & Haddr & _).
  exists w', g. split; [exact Hrun|]. split; [exact Hest|exact Haddr].
Defined.

(** The repository's gateway, with its backends up. *)
Abbreviation repository_start :=
  (start (W := net) (RC := unit) (PG := unit) (L := list RequestLog) (G := Z) (inl config_json) (λ _, "") (λ _, "") []
    repository_probes (λ _, []) new_net).

Lemma repository_stoppable :
  ∃ w g, repository_start = (w, Ret (inl g)) ∧
    map_Forall (λ _, Server.stoppable) (System.handler_proxies (Server.s_systemHandler (g_server g))).
Proof.
  destruct (Server.initializeProxies_spec (G := Z) 0 _ ltac:(done)
    (Server.repository_setup_ok repository_probes probes_of_services)) as (m & Hm & Hspec).
  assert (∃ srv, Server.New (L := list RequestLog) repository_config [] repository_probes (λ _, []) = Ret srv ∧
    System.handler_proxies (Server.s_systemHandler srv) = m) as (srv & HN & Hsys).
  { unfold Server.New. rewrite Hm. eexists. split; reflexivity. }
  destruct (start_reachable (inl config_json) (λ _, "") (λ _, "") [] repository_probes (λ _, []) repository_config srv
    new_net net_reachable) as (w & g & Hrun & Hg); [by rewrite repository_loads|done|].
  exists w, g. split; [done|]. rewrite Hg, Hsys. intros path q Hq. specialize (Hspec path).
  destruct (Server.service_at _ _); [|congruence]. destruct Hspec as (p & Hp & _ & _ & _ & _ & Hc).
  rewrite Hq in Hp. injection Hp as <-. by intros _.
Qed.

(** It begins to listen, and a signal ends it. *)
Lemma clean_exit_witness :
  ∃ w g p, repository_start = (w, Ret (inl g)) ∧ rtc (step g) (started g w) p ∧ p_requests p = 0%nat ∧
    ∃ e0 e1 e2, p_called p = [(ACancel, e0); (AClosePostgres, e1); (ACloseRedis, e2)].
Proof.
  destruct repository_stoppable as (w & g & Hstart & Hst).
  assert (rtc (step g) (started g w) (set_run Listening (started g w))) as H1 by (apply rtc_once, step_listen; done).
  destruct (can_exit g (set_run Listening (started g w))) as (p & H2 & Hx); [reflexivity..|exact Hst|].
  assert (rtc (step g) (started g w) p) as Hrun by (etransitivity; eassumption).
  destruct (clean_exit _ _ _ _ _ _ _ _ _ p Hstart Hrun Hx) as (_ & (e0 & e1 & e2 & Hc & _) & _ & Hreq).
  exists w, g, p. split; [exact Hstart|]. split; [exact Hrun|]. split; [|exists e0, e1, e2; exact Hc].
  apply (Hreq (set_run Listening (started g w))); [reflexivity|reflexivity|exact H2].
Defined.
